(* ===== verification/_CoqProject ===== *)
-Q . S2P
Prelude.v
Float.v
RustStr.v
Proto.v
Buffer.v
BufferLogic.v
BufferInv.v
BufferSpec.v
BufferRefine.v
BufferProps.v
Words.v
Decimal.v
S7Decode.v
S7Client.v
S7Safety.v
S7Plc.v
S7Sim.v
S7Blocks.v
Json.v
Wire.v
Sdk.v
S7Plugin.v
S7PluginProps.v
Ingest.v
IngestProps.v
IngestOnce.v
IngestLive.v
Jobs.v
Plugins.v
PluginsProps.v
HostSdk.v
Exchanges.v
Linearize.v
Writer.v
Echo.v
Modbus.v
Write.v
WriteProps.v
Pss.v
PssProps.v
Collector.v
CollectorProps.v
CollectorBuffer.v
S7Remote.v
Stream.v
System.v
PluginWrite.v
Logbuf.v
Enroll.v
EnrollProps.v
Start.v
Service.v
Control.v
ControlProps.v
ControlSteps.v
ControlStepsProps.v
ControlSubs.v
ControlStream.v
Opcua.v
OpcuaProps.v
OpcuaRemote.v
