(* ===== verification/Prelude.v ===== *)
(** * The Lymon edge agent: a verification library

    This library models the Lymon agent (a Rust program that collects industrial
    samples, keeps them in a durable buffer and streams them to a cloud) and
    proves what makes it correct. Paths are relative to the root of the
    repository, under [src/].

    ** The program and its parts

    [run_agent] ([src/main.rs]) reads its configuration ([src/config.rs]),
    resolves its credentials ([src/enroll.rs]), opens the durable buffer
    ([src/buffer.rs]) and starts three things that run together:
    - the collector ([src/collector.rs]): one task per provisioned ingest, which
      polls or subscribes to a source and enqueues scaled samples. Sources are
      Modbus devices ([src/modbus.rs]), Power Studio servers ([src/pss.rs]) and
      plugin processes ([src/plugins.rs]);
    - the control channel ([src/control.rs]): a WebSocket over which the cloud
      provisions connectors and ingests, queries sources, writes to devices,
      subscribes to points, asks for logs ([src/logbuf.rs]) and for updates;
    - the ingest streamer ([src/ingest_client.rs]): claims batches of the buffer,
      sends them over gRPC and settles them by their acknowledgement.
    Plugins are programs built on the SDK ([crates/collector-sdk/src/lib.rs]): the
    S7 connector ([crates/plugin-s7]) with its client of the S7 protocol, the
    OPC-UA connector ([crates/plugin-opcua]), and a reference plugin without the
    SDK ([examples/echo_plugin.rs]). On Windows [src/winservice.rs] runs
    [run_agent] under the service manager.

    ** How the code is modelled

    A Rust function is a Rocq function of the same name; when the name is taken,
    the file's name tells them apart. State is passed explicitly: [result E A] is
    [Result], [StE S] threads a state and may fail, [HangE S] may also not return
    (a call that waits for ever, or a panic), and the buffer, the S7 client, the
    plugin host and the streamer have monads of their own ([M], [S7] in
    S7Client.v, [HM], [IM]). Everything outside the repository is a type class of
    operations over an abstract world [W], with its documented laws, where a
    theorem needs them, in a second class: SQLite failures (a fault plan), TCP
    ([Tcp]), Modbus ([ModbusNet]), HTTP ([Http]), XML ([PssXml]), the calendar
    ([Chrono]), JSON values ([Json], [JsonLaws], and [Wire] for what printing and
    parsing make of them), processes ([Procs]; [Pipe] and [Timed] for their waits,
    [Lockstep] and [SdkProcs] for those that run the SDK), the service manager ([Scm]), start-up ([Boot]), gRPC and
    the tasks that run meanwhile ([IngestEnv]), signatures ([Crypto]), OPC-UA
    ([OpcUa]), files ([Disk]). Machine integers are [Z] with their casts and
    wraps written out (release build); doubles are the specification floats of
    the Standard Library.

    ** The files

    - Prelude.v, Float.v, RustStr.v, Decimal.v: results and monads, machine
      integers, list lemmas; IEEE-754 and the casts of Rust; the string functions
      of Rust; decimal numbers.
    - Proto.v: the fields of the generated ingest messages.
    - Buffer.v ([src/buffer.rs]): the tables as lists of rows, one function per
      SQL statement, and the handlers. BufferLogic.v is a weakest precondition
      over every fault plan, BufferInv.v the invariant of the tables, BufferSpec.v
      the abstract queue, BufferRefine.v the simulation, BufferProps.v the
      theorems about reachable states.
    - Words.v ([src/control.rs], lines 990 to 1051): register words.
    - S7Decode.v, S7Client.v, S7Blocks.v ([crates/plugin-s7/src/s7]): scalar types,
      the client telegram by telegram, block browsing. S7Safety.v: no panic and
      termination once a usable PDU is negotiated; S7Plc.v and S7Sim.v: what the client does
      against a device that follows the protocol, and a simulated one.
    - Json.v: JSON values, derived deserialisation, and a concrete tree. Wire.v:
      a value after it was printed and parsed (floats read back best-effort, a
      nesting limit), lines of text, and a concrete printer and parser.
    - Sdk.v: the SDK, its process loop and the lockstep theorem.
    - S7Plugin.v, S7PluginProps.v ([crates/plugin-s7/src/main.rs]); Opcua.v,
      OpcuaProps.v ([crates/plugin-opcua/src/main.rs]): the two connectors.
    - Ingest.v ([src/ingest_client.rs]); IngestProps.v states what the server and
      the other tasks promise and the consistency of agent and server,
      IngestOnce.v proves exactly-once delivery, IngestLive.v which
      acknowledgement settles a batch and that the buffer drains.
    - Jobs.v: connectors and ingests, shared by the next files.
    - Plugins.v, PluginsProps.v ([src/plugins.rs]): discovery, processes, exchanges.
      Exchanges.v: [exchange] from one await to the next, with any number of
      callers under the plugin's mutex and callers aborted anywhere.
    - HostSdk.v: the host against processes that run the SDK; Linearize.v: the
      concurrent exchanges against such processes; S7Remote.v: the S7 connector in
      such a process, up to the samples of the agent; Echo.v: the reference plugin.
    - Writer.v ([serve] of [src/control.rs]): the bounded queue in front of the one
      task that writes to the socket, and its producers.
    - Modbus.v ([src/modbus.rs]); Write.v, WriteProps.v ([src/control.rs], lines 734
      to 988): supervisory writes; PluginWrite.v: such a write through a plugin,
      OpcuaRemote.v up to the node of an OPC-UA server.
    - Pss.v, PssProps.v ([src/pss.rs]).
    - Collector.v ([src/collector.rs]); CollectorProps.v: reconfiguration and
      sampling windows; CollectorBuffer.v: what the tasks do to the buffer.
      Stream.v: subscriptions, from the connector to the buffer. System.v: the
      collector, the buffer and the streamer together.
    - Logbuf.v ([src/logbuf.rs]): the log ring, with its theorem.
    - Enroll.v, EnrollProps.v ([src/config.rs], [src/enroll.rs]); Start.v:
      [run_agent] ([src/main.rs]), whose runs are lives of the system of
      System.v; Service.v: [main] and the Windows service.
    - Control.v, ControlProps.v ([src/control.rs], lines 36 to 732): frames,
      provisioning, queries, subscriptions, updates, reconnection, each handler
      and each frame in one go. ControlSteps.v cuts them at their awaits: the
      stages of [handle_query], [handle_write] and [handle_subscribe] and the
      pieces of a provision frame interleave, also after the connection ended;
      ControlStepsProps.v has the theorems, and that the stages in a row are the
      handlers of Control.v ([handlers_in_one_go]). ControlSubs.v: the streams of
      the subscriptions between the awaits; ControlStream.v: the batches of one on
      their way to the cloud.

    ** What the theorems show

    - No sample is lost or doubled: the buffer is an abstract queue whatever SQLite
      call fails ([buffer_refines_queue]); every accepted sample is pending, in
      flight, delivered or dropped by the cap, exactly one of them, through any
      failures and restarts ([buffer_conserves]); a claimed batch is recovered
      ([claimed_batch_recovered]); retry undoes claim; the cap; and, with an
      idempotent server, exactly-once delivery: the entries of the batches stored,
      waiting, rejected and dropped are those of the history of what the other
      tasks put in, each once with its number, its origin and its sample, and a
      batch is booked under the origin of all its entries, and nothing is dropped
      before more was put in than the least cap ([streamer_exactly_once]), for any other tasks that only enqueue. The
      collector's tasks are such, and their history ([t_accepted], which the code
      does not keep) is what their enqueues put in ([tasks_only_enqueue]), so that
      the whole agent delivers ([agent_delivers]), however the tasks,
      configurations, failures, kills and restarts interleave.
    - The S7 client never panics and ends, whatever its peer sends, once a PDU that
      leaves room for data is negotiated; with one of 18 bytes a read does not
      return ([area_transfer_total]). Against a device that follows the protocol
      it reads and writes exactly the memory asked ([area_write_read]). A poll
      asks only what the client accepts ([read_plan_ok]) and answers every point,
      on good sessions and with peers that do not negotiate 18 bytes
      ([s7_read_spec]); through the plugin process, JSON and the scale, what the
      agent collects is the memory of the PLC, for Bool points below byte 8192
      ([s7_collected]).
    - A plugin answers every request once, in order ([run_lockstep]). The mutex of
      a plugin makes its exchanges atomic ([exchanges_serialize]); the wait for an
      answer ends by the timeout, and a call that does not return is behind a
      write the process does not take, which has no timeout and keeps the mutex
      ([exchanges_end]); over all interleavings and aborts a call's answer is the
      one at its place in the order of its process, shifted by one for each call
      aborted half way before it ([exchanges_linearize]; [exchange_paired] and
      [dropped_exchange_shifts] are its two sides for calls in one go). An
      operation of the host is then the operation of the connector, on the request
      as it arrives, or the process is gone ([remote_read], [remote_write],
      [remote_query]); and a subscription's batches reach the buffer
      ([subscription_in_order]) or the cloud ([subscription_forwarded]) in order.
    - A write reaches a device only through the gate ([write_gate]; with provision
      frames in between, [write_gate_interleaved]), which asks for what
      [verify_signature_spec] says, and leaves the encoded value in the addressed
      registers ([write_modbus_registers]) or in the OPC-UA node
      ([opcua_write_spec]); through a plugin it is one write of the connector,
      acknowledged only when that succeeded ([plugin_write_reported]), from the
      cloud to the node of the server ([opcua_command]); when only the read-back
      fails, the command is reported failed although the node was written.
    - A provision frame with distinct ingest ids decides the configuration, when
      every running task has its handle ([provision_spec]); reconfiguration leaves exactly the new tasks
      ([reconfigure_replaces]); every query is answered once
      ([queries_answered_once], [queries_interleaved]); frames are sent in the
      order of their producers, none lost while the socket works, through a queue
      of 32 ([writer_keeps_order], [writer_drains]); subscriptions are stopped
      ([subscriptions_tracked]), but for the streams a handler has in hand at that
      moment ([streams_accounted]); an update request can only write the trigger file
      ([request_update_safe]).
    - Sampling windows enqueue the means ([run_window_means]); enrollment is kept,
      in a private file, whatever code a later start is given ([enroll_persists]); browsing is bounded ([browse_budget]);
      paths and log lines read back ([values_path_roundtrip], [log_event_last]);
      the Windows service starts and stops the agent in order, at the first Stop or
      Shutdown ([run_service_life]).

    ** Bounds and fuel

    The loops that run for ever (the streamer's, the tasks', the channel's) take a
    bound on their rounds or a list of events, and the theorems hold for every
    bound. Loops that end have enough fuel: the chunk loops of [read_area] and
    [write_area] one round per byte, [drain_lines] the length of the bytes,
    [browse_pages] the 64 pages of the source, a sampling window
    [record / every + 2] reads ([run_window_means]), [wait_ack] as many rounds as
    the server sends other acknowledgements ([send_and_ack_settles]), [stream_loop]
    two more than the batches of the connector ([subscription_in_order]), [forward]
    three more ([subscription_forwarded]). A call of [exchange] needs at most three
    polls ([exchanges_end]), a handler of the channel four stages
    ([handlers_in_one_go]).

    ** Not modelled, and why

    The build script ([build.rs]) only calls the protobuf compiler. Of
    [src/main.rs] the command line parser, the TLS provider and the tracing
    libraries are interfaces; logging, metrics and tracing spans are left out
    everywhere. The tasks of the runtime interleave at the points where the model
    says so: between the streamer's awaits (Ingest.v), the awaits of an exchange
    (Exchanges.v), the handlers of the control channel (ControlSteps.v) and the
    producers of its writer (Writer.v). These are not put into one transition
    system: a stage of ControlSteps.v that asks a plugin is a whole exchange
    (which [exchanges_serialize] and [exchanges_linearize] justify), a frame sent
    there is one offered to the writer. A request line is written as a whole, or
    the write fails, or it is not taken and the caller waits ([Pipe]); a caller
    aborted in the middle of a line (one longer than the pipe takes at once) is not
    modelled. An aborted task is gone at once: what it does up to its next await
    counts as done before. The messages generated from the protobuf file, SQLite, gRPC, HTTP,
    XML, the calendar, Ed25519 and the OPC-UA stack are interfaces. *)
From stdpp Require Export base list gmap strings numbers option sorting relations.
From Stdlib Require Export ZArith Lia.

(** ** Fallible computations

    Rust's [Result<A, E>]; [anyhow::Result] is [result string]. *)
Inductive result (E A : Type) : Type :=
| Ok (a : A)
| Err (e : E).
Arguments Ok {E A} a.
Arguments Err {E A} e.

#[export] Instance result_ret {E} : MRet (result E) := λ A a, Ok a.
#[export] Instance result_bind {E} : MBind (result E) := λ A B f r,
  match r with Ok a => f a | Err e => Err e end.
#[export] Instance result_fmap {E} : FMap (result E) := λ A B f r,
  match r with Ok a => Ok (f a) | Err e => Err e end.
#[export] Instance result_eq_dec {E A} `{EqDecision E, EqDecision A} :
  EqDecision (result E A).
Proof. solve_decision. Defined.

(** [Option::ok_or] / anyhow's [Context] on an option. *)
Definition ok_or {E A} (e : E) (o : option A) : result E A :=
  match o with Some a => Ok a | None => Err e end.

(** [Result::ok]. *)
Definition res_ok {E A} (r : result E A) : option A :=
  match r with Ok a => Some a | Err _ => None end.

Definition is_ok {E A} (r : result E A) : bool :=
  match r with Ok _ => true | Err _ => false end.

(** Collect an iterator of results ([collect::<Result<Vec<_>,_>>]). *)
Fixpoint mapR {E A B} (f : A → result E B) (l : list A) : result E (list B) :=
  match l with
  | [] => Ok []
  | x :: l => y ← f x; ys ← mapR f l; Ok (y :: ys)
  end.

(** Computations that thread a state [S] and may fail. *)
Definition StE (S A : Type) : Type := S → result string A * S.
#[export] Instance StE_ret {S} : MRet (StE S) := λ A a s, (Ok a, s).
#[export] Instance StE_bind {S} : MBind (StE S) := λ A B k m s,
  match m s with (Ok a, s') => k a s' | (Err e, s') => (Err e, s') end.
Definition raise {S A} (e : string) : StE S A := λ s, (Err e, s).
Definition of_res {S A} (r : result string A) : StE S A := λ s, (r, s).
(** [m.map_err] / [context]: the message of the outermost context. *)
Definition context {S A} (e : string) (m : StE S A) : StE S A := λ s,
  match m s with (Ok a, s') => (Ok a, s') | (Err _, s') => (Err e, s') end.
(** The result as a value: [match m.await { Ok(..) => .. Err(..) => .. }]. *)
Definition attempt {S A} (m : StE S A) : StE S (result string A) := λ s,
  let '(r, s') := m s in (Ok r, s').

(** Computations that thread a state, may fail, or may not return ([None]): they
    wait for an answer that never comes, or panic. *)
Definition HangE (S A : Type) : Type := S → option (result string A) * S.
#[export] Instance HangE_ret {S} : MRet (HangE S) := λ A a s, (Some (Ok a), s).
#[export] Instance HangE_bind {S} : MBind (HangE S) := λ A B k m s,
  match m s with
  | (Some (Ok a), s') => k a s'
  | (Some (Err e), s') => (Some (Err e), s')
  | (None, s') => (None, s')
  end.
Definition hang {S A} : HangE S A := λ s, (None, s).
Definition hang_raise {S A} (e : string) : HangE S A := λ s, (Some (Err e), s).
Definition hang_res {S A} (r : result string A) : HangE S A := λ s, (Some r, s).
Definition hang_gets {S A} (f : S → A) : HangE S A := λ s, (Some (Ok (f s)), s).
Definition hang_modify {S} (f : S → S) : HangE S () := λ s, (Some (Ok ()), f s).
(** The result as a value. *)
Definition hang_attempt {S A} (m : HangE S A) : HangE S (result string A) := λ s,
  match m s with (Some r, s') => (Some (Ok r), s') | (None, s') => (None, s') end.
(** A computation on a part of the state. *)
Definition zoom {S T A} (get : S → T) (put : T → S → S) (m : HangE T A) : HangE S A := λ s,
  let '(r, t) := m (get s) in (r, put t s).
Definition hang_total {S A} (m : StE S A) : HangE S A := λ s, let '(r, s') := m s in (Some r, s').

(** ** Machine integers

    Values are [Z]; a Rust [as] cast or a wrapping operation is written out. *)
Local Open Scope Z_scope.

Definition u8_max : Z := 255.
Definition u16_max : Z := 65535.
Definition u32_max : Z := 4294967295.
Definition u64_max : Z := 18446744073709551615.
Definition i64_max : Z := 9223372036854775807.
Definition i64_min : Z := -9223372036854775808.

Definition as_u8 (z : Z) : Z := z mod 2 ^ 8.
Definition as_u16 (z : Z) : Z := z mod 2 ^ 16.
Definition as_u32 (z : Z) : Z := z mod 2 ^ 32.
Definition as_u64 (z : Z) : Z := z mod 2 ^ 64.
(** Two's-complement reading of the low [w] bits. *)
Definition as_signed (w : Z) (z : Z) : Z :=
  let u := z mod 2 ^ w in if u <? 2 ^ (w - 1) then u else u - 2 ^ w.
Definition as_i8 : Z → Z := as_signed 8.
Definition as_i16 : Z → Z := as_signed 16.
Definition as_i32 : Z → Z := as_signed 32.
Definition as_i64 : Z → Z := as_signed 64.

Definition clamp (lo hi z : Z) : Z := Z.max lo (Z.min hi z).

Definition is_u8 (z : Z) : Prop := 0 ≤ z < 2 ^ 8.
Definition is_u16 (z : Z) : Prop := 0 ≤ z < 2 ^ 16.
Definition is_u32 (z : Z) : Prop := 0 ≤ z < 2 ^ 32.
Definition is_u64 (z : Z) : Prop := 0 ≤ z < 2 ^ 64.

Create HintDb lymon discriminated.
Create HintDb ints discriminated.

Lemma as_u8_range z : is_u8 (as_u8 z).
Proof. apply Z.mod_pos_bound. lia. Qed.
Lemma as_u16_range z : is_u16 (as_u16 z).
Proof. apply Z.mod_pos_bound. lia. Qed.
Lemma as_u32_range z : is_u32 (as_u32 z).
Proof. apply Z.mod_pos_bound. lia. Qed.
Lemma as_u64_range z : is_u64 (as_u64 z).
Proof. apply Z.mod_pos_bound. lia. Qed.
Lemma as_u8_small z : is_u8 z → as_u8 z = z.
Proof. intros. by apply Z.mod_small. Qed.
Lemma as_u16_small z : is_u16 z → as_u16 z = z.
Proof. intros. by apply Z.mod_small. Qed.
Lemma as_u32_small z : is_u32 z → as_u32 z = z.
Proof. intros. by apply Z.mod_small. Qed.
Lemma as_u64_small z : is_u64 z → as_u64 z = z.
Proof. intros. by apply Z.mod_small. Qed.

Lemma as_signed_small w z :
  0 < w → - 2 ^ (w - 1) ≤ z < 2 ^ (w - 1) → as_signed w (z mod 2 ^ w) = z.
Proof.
  intros Hw Hz. unfold as_signed.
  assert (2 ^ w = 2 * 2 ^ (w - 1)) as E.
  { rewrite <- Z.pow_succ_r by lia. f_equal. lia. }
  rewrite Z.mod_mod by lia. destruct (decide (0 ≤ z)).
  - rewrite Z.mod_small by lia. destruct (Z.ltb_spec z (2 ^ (w - 1))); lia.
  - replace (z mod 2 ^ w) with (z + 2 ^ w).
    + destruct (Z.ltb_spec (z + 2 ^ w) (2 ^ (w - 1))); lia.
    + apply Z.mod_unique_pos with (-1); lia.
Qed.

(** Joining a high and a low part is a sum. *)
Lemma lor_shiftl_add k hi lo :
  0 ≤ k → 0 ≤ hi → 0 ≤ lo < 2 ^ k → Z.lor (Z.shiftl hi k) lo = hi * 2 ^ k + lo.
Proof.
  intros Hk Hhi Hlo. pose proof (Z.add_lor_land (Z.shiftl hi k) lo) as E.
  assert (Z.land (Z.shiftl hi k) lo = 0) as Hl; [|rewrite Hl, Z.shiftl_mul_pow2 in *; lia].
  apply Z.bits_inj'. intros n Hn. rewrite Z.land_spec, Z.bits_0.
  destruct (decide (n < k)).
  - by rewrite Z.shiftl_spec_low.
  - rewrite (Z.testbit_eqb lo) by lia. rewrite Z.div_small; [by rewrite andb_false_r|].
    split; [lia|]. eapply Z.lt_le_trans; [apply Hlo|]. apply Z.pow_le_mono_r; lia.
Qed.

#[export] Hint Resolve as_u8_range as_u16_range as_u32_range as_u64_range : ints.

(** ** Tactics *)

(** Destruct every [match]/[if] scrutinee standing in a hypothesis equal to a
    constructor, then clean up: the shape all the error-path inversions have. *)
Ltac case_inv H :=
  repeat (case_match; simplify_eq/= || (try discriminate H)).

(** Linear arithmetic with [/] and [mod] by constants. *)
Ltac dlia := Z.to_euclidean_division_equations; lia.

(** Split conjunctions in the goal and solve what is arithmetic. *)
Ltac split_lia := repeat split; try lia.

(** ** Lists *)

Lemma filter_filter {A} (P Q : A → Prop) `{∀ x, Decision (P x), ∀ x, Decision (Q x)} (l : list A) :
  filter P (filter Q l) = filter (λ x, P x ∧ Q x) l.
Proof.
  induction l as [|x l IH]; [done|]. rewrite !filter_cons.
  repeat case_decide; rewrite ?filter_cons; repeat case_decide; naive_solver congruence.
Qed.

Lemma filter_all {A} (P : A → Prop) `{∀ x, Decision (P x)} (l : list A) :
  (∀ x, x ∈ l → P x) → filter P l = l.
Proof.
  induction l as [|x l IH]; intros Hl; [done|].
  rewrite filter_cons_True by (apply Hl; set_solver). f_equal. apply IH. set_solver.
Qed.

Lemma filter_none {A} (P : A → Prop) `{∀ x, Decision (P x)} (l : list A) :
  (∀ x, x ∈ l → ¬ P x) → filter P l = [].
Proof.
  induction l as [|x l IH]; intros Hl; [done|].
  rewrite filter_cons_False by (apply Hl; set_solver). apply IH. set_solver.
Qed.

Lemma filter_iff_on {A} (P Q : A → Prop) `{∀ x, Decision (P x), ∀ x, Decision (Q x)} (l : list A) :
  (∀ x, x ∈ l → P x ↔ Q x) → filter P l = filter Q l.
Proof.
  induction l as [|x l IH]; intros Hl; [done|].
  rewrite !filter_cons. rewrite IH by set_solver.
  pose proof (Hl x ltac:(set_solver)). repeat case_decide; naive_solver.
Qed.

Lemma filter_fmap {A B} (f : A → B) (P : B → Prop) `{∀ x, Decision (P x)} (l : list A) :
  filter P (f <$> l) = f <$> filter (λ x, P (f x)) l.
Proof.
  induction l as [|x l IH]; [done|]. rewrite fmap_cons, !filter_cons.
  case_decide; csimpl; congruence.
Qed.

Lemma filter_length_le {A} (P : A → Prop) `{∀ x, Decision (P x)} (l : list A) :
  (length (filter P l) ≤ length l)%nat.
Proof. induction l; [done|]. rewrite filter_cons. case_decide; simpl; lia. Qed.

Lemma filter_split_length {A} (P : A → Prop) `{∀ x, Decision (P x)} (l : list A) :
  (length (filter P l) + length (filter (λ x, ¬ P x) l) = length l)%nat.
Proof.
  induction l as [|x l IH]; [done|]. rewrite !filter_cons.
  destruct (decide (P x)), (decide (¬ P x)); simpl; (done || lia).
Qed.

Lemma filter_not_elem_app {A} `{EqDecision A} (k1 k2 : list A) :
  NoDup (k1 ++ k2) → filter (λ x, x ∉ k1) (k1 ++ k2) = k2.
Proof.
  rewrite NoDup_app. intros (_ & Hd & _). rewrite filter_app, filter_none, filter_all.
  - done.
  - intros x Hx Hx'. by eapply Hd.
  - intros x Hx. tauto.
Qed.

Lemma mjoin_cons {A} (l : list A) ls : mjoin (l :: ls) = l ++ mjoin ls.
Proof. done. Qed.

(** ** Sorted keys *)

Lemma StronglySorted_filter {A} (R : relation A) (P : A → Prop) `{∀ x, Decision (P x)} (l : list A) :
  StronglySorted R l → StronglySorted R (filter P l).
Proof.
  induction 1 as [|x l Hs IH Hx]; [constructor|]. rewrite filter_cons.
  case_decide; [|done]. constructor; [done|].
  rewrite Forall_forall in Hx |- *. intros y [_ Hy]%list_elem_of_filter. auto.
Qed.

Lemma StronglySorted_lt_NoDup (l : list Z) : StronglySorted Z.lt l → NoDup l.
Proof.
  induction 1 as [|x l Hs IH Hx]; constructor; [|done].
  intros Hin. rewrite Forall_forall in Hx. specialize (Hx x Hin). lia.
Qed.

(** ** Lists with unique keys *)
Section Keys.
Context {A : Type} (f : A → Z).

Lemma NoDup_key_inj (l : list A) x y :
  NoDup (f <$> l) → x ∈ l → y ∈ l → f x = f y → x = y.
Proof.
  induction l as [|z l IH]; [set_solver|]. rewrite fmap_cons, NoDup_cons.
  intros [Hz Hl] Hx Hy E. apply elem_of_cons in Hx as [->|Hx], Hy as [->|Hy]; try done.
  - destruct Hz. rewrite E. by apply list_elem_of_fmap_2.
  - destruct Hz. rewrite <- E. by apply list_elem_of_fmap_2.
  - by apply IH.
Qed.

Lemma filter_key_not_in_app (k1 k2 : list A) :
  NoDup (f <$> k1 ++ k2) → filter (λ x, f x ∉ f <$> k1) (k1 ++ k2) = k2.
Proof.
  rewrite fmap_app, NoDup_app. intros (_ & Hd & _). rewrite filter_app, filter_none, filter_all.
  - done.
  - intros x Hx Hx'. eapply Hd; [done|]. by apply list_elem_of_fmap_2.
  - intros x Hx Hn. apply Hn. by apply list_elem_of_fmap_2.
Qed.

Lemma filter_key_not_in_take (l : list A) n :
  NoDup (f <$> l) → filter (λ x, f x ∉ take n (f <$> l)) l = drop n l.
Proof.
  intros Hnd. rewrite <- fmap_take.
  pose proof (filter_key_not_in_app (take n l) (drop n l)) as E.
  rewrite take_drop in E. auto.
Qed.

(** Picking the keys of a sublist picks the sublist. *)
Lemma filter_key_in_sublist (sel l : list A) :
  NoDup (f <$> l) → sublist sel l → filter (λ x, f x ∈ f <$> sel) l = sel.
Proof.
  intros Hnd Hsub. induction Hsub as [|x sel l Hsub IH|x sel l Hsub IH]; [done| |];
    rewrite fmap_cons, NoDup_cons in Hnd; destruct Hnd as [Hx Hnd].
  - rewrite filter_cons_True by set_solver. f_equal. etrans; [|apply (IH Hnd)].
    apply filter_iff_on. intros y Hy. rewrite fmap_cons, elem_of_cons. split; [|tauto].
    intros [E|]; [|done]. destruct Hx. rewrite <- E. by apply list_elem_of_fmap_2.
  - rewrite filter_cons_False; [by apply IH|]. intros (y & E & Hy)%list_elem_of_fmap.
    destruct Hx. rewrite E. apply list_elem_of_fmap_2. by eapply elem_of_sublist.
Qed.

Lemma NoDup_key_filter (P : A → Prop) `{∀ x, Decision (P x)} (l : list A) :
  NoDup (f <$> l) → NoDup (f <$> filter P l).
Proof.
  induction l as [|x l IH]; [done|]. rewrite fmap_cons, NoDup_cons, filter_cons.
  intros [Hx Hl]. case_decide; [|auto]. rewrite fmap_cons, NoDup_cons. split; [|auto].
  intros (y & E & Hy)%list_elem_of_fmap. apply list_elem_of_filter in Hy as [_ Hy].
  apply Hx. rewrite E. by apply list_elem_of_fmap_2.
Qed.
End Keys.

Lemma StronglySorted_fmap_filter {A} (f : A → Z) (P : A → Prop) `{∀ x, Decision (P x)} (l : list A) :
  StronglySorted Z.lt (f <$> l) → StronglySorted Z.lt (f <$> filter P l).
Proof.
  induction l as [|x l IH]; [done|]. rewrite fmap_cons, filter_cons.
  inversion_clear 1 as [|?? Hs Hx]. case_decide; [|auto]. rewrite fmap_cons. constructor; [auto|].
  rewrite Forall_forall in Hx |- *. intros z (y & -> & Hy)%list_elem_of_fmap.
  apply list_elem_of_filter in Hy as [_ Hy]. apply Hx. by apply list_elem_of_fmap_2.
Qed.

Lemma StronglySorted_lt_app (l1 l2 : list Z) :
  StronglySorted Z.lt l1 → StronglySorted Z.lt l2 →
  (∀ x y, x ∈ l1 → y ∈ l2 → x < y) → StronglySorted Z.lt (l1 ++ l2).
Proof.
  induction 1 as [|x l Hs IH Hx]; intros H2 H12; [done|]. simpl. constructor.
  - apply IH; [done|]. intros. apply H12; set_solver.
  - rewrite Forall_forall in Hx |- *. intros y [Hy|Hy]%elem_of_app; [auto|].
    apply H12; set_solver.
Qed.

Lemma StronglySorted_seqZ m n : StronglySorted Z.lt (seqZ m n).
Proof.
  destruct (decide (0 ≤ n)) as [Hn|]; [|rewrite seqZ_nil by lia; constructor].
  revert m. pattern n. apply natlike_ind; [|clear n Hn; intros n Hn IH m|done].
  - intros m. constructor.
  - rewrite seqZ_cons by lia. replace (Z.pred (Z.succ n)) with n by lia. constructor; [done|].
    apply Forall_forall. intros x Hx. apply elem_of_seqZ in Hx. lia.
Qed.

(** ** Permutations of appends *)
Section Perm.
Context {A : Type}.
Implicit Types a b l : list A.

Lemma perm_here a l : a ++ l ≡ₚ a ++ l.
Proof. done. Qed.
Lemma perm_last a : a ≡ₚ a ++ [].
Proof. by rewrite app_nil_r. Qed.
Lemma perm_later a b l l' : l ≡ₚ a ++ l' → b ++ l ≡ₚ a ++ b ++ l'.
Proof. intros ->. by rewrite !(assoc_L (++)), (comm (++) b a). Qed.
Lemma perm_skip a l r l' : r ≡ₚ a ++ l' → l ≡ₚ l' → a ++ l ≡ₚ r.
Proof. by intros -> ->. Qed.
End Perm.

(** Both sides appends of the same lists. *)
Ltac perm_front := first [apply perm_here | apply perm_last | eapply perm_later; perm_front].
Ltac solve_perm :=
  rewrite <- ?(assoc_L (++)), ?app_nil_r;
  repeat first [reflexivity | eapply perm_skip; [perm_front|rewrite ?app_nil_r] ].

(** ** Runs with a history

    The steps of [R] one after the other; the entries they log, in order. *)
Section Logged.
Context {S E : Type}.

Inductive logged (R : list E → S → S → Prop) : list E → S → S → Prop :=
| logged_nil s : logged R [] s s
| logged_cons l1 l2 s1 s2 s3 : R l1 s1 s2 → logged R l2 s2 s3 → logged R (l1 ++ l2) s1 s3.

Implicit Types (R : list E → S → S → Prop) (l : list E) (s : S).

Lemma logged_once R l s1 s2 : R l s1 s2 → logged R l s1 s2.
Proof. intros Hs. rewrite <- (app_nil_r l). eapply logged_cons; [exact Hs|apply logged_nil]. Qed.

Lemma logged_app R l1 l2 s1 s2 s3 : logged R l1 s1 s2 → logged R l2 s2 s3 → logged R (l1 ++ l2) s1 s3.
Proof.
  induction 1 as [|l l' s1 s1' s2 Hs _ IH]; [done|]. intros Hl. rewrite <- (assoc_L (++)).
  eapply logged_cons; [exact Hs|by apply IH].
Qed.

Lemma logged_mono R Q l s1 s2 : (∀ l s s', R l s s' → Q l s s') → logged R l s1 s2 → logged Q l s1 s2.
Proof. intros HRQ. induction 1; econstructor; eauto. Qed.

Lemma logged_rtc R (Q : relation S) l s1 s2 : (∀ l s s', R l s s' → Q s s') → logged R l s1 s2 → rtc Q s1 s2.
Proof. intros HRQ. induction 1; [done|]. eapply rtc_l; eauto. Qed.
End Logged.
