(* ===== verification/Float.v ===== *)
(** * IEEE-754 doubles and singles

    Rust's [f64]/[f32] as the specification floats of the Standard Library
    ([spec_float], no NaN payload), with the casts and bit conversions the agent
    uses: [as f64], [as f32], [f64::round], the saturating [as i64],
    [from_be_bytes]/[from_bits]/[to_bits]. *)
From Stdlib Require Import SpecFloat.
From S2P Require Import Prelude.
Local Open Scope Z_scope.

Abbreviation f64 := spec_float.
Abbreviation f32 := spec_float.

#[export] Instance spec_float_eq_dec : EqDecision spec_float.
Proof. solve_decision. Defined.

(** ** Arithmetic and comparisons on [f64] *)
Definition f64_add (x y : f64) : f64 := SFadd 53 1024 x y.
Definition f64_sub (x y : f64) : f64 := SFsub 53 1024 x y.
Definition f64_mul (x y : f64) : f64 := SFmul 53 1024 x y.
Definition f64_div (x y : f64) : f64 := SFdiv 53 1024 x y.
Definition f64_abs (x : f64) : f64 := SFabs x.
Definition f64_eqb (x y : f64) : bool := SFeqb x y.
Definition f64_ltb (x y : f64) : bool := SFltb x y.
Definition f64_gtb (x y : f64) : bool := SFltb y x.
Definition f64_zero : f64 := S754_zero false.
Definition f64_nan : f64 := S754_nan.
Definition is_nan (x : f64) : bool := match x with S754_nan => true | _ => false end.
Definition is_finite (x : f64) : bool :=
  match x with S754_zero _ | S754_finite _ _ _ => true | _ => false end.

(** An integer cast [z as f64] (round to nearest, ties to even). *)
Definition f64_of_Z (z : Z) : f64 := binary_normalize 53 1024 z 0 false.
Definition f64_one : f64 := f64_of_Z 1.

(** ** Rounding and casts to integers *)

(** The integer part, towards zero, of a finite float. *)
Definition f64_trunc (x : f64) : Z :=
  match x with
  | S754_finite s m e =>
      cond_Zopp s (if 0 <=? e then Zpos m * 2 ^ e else Zpos m / 2 ^ (- e))
  | _ => 0
  end.

(** [f64::round]: nearest integer, halves away from zero. *)
Definition f64_round (x : f64) : f64 :=
  match x with
  | S754_finite s m e =>
      if 0 <=? e then x
      else
        let n := (Zpos m + 2 ^ (- e - 1)) / 2 ^ (- e) in
        if n =? 0 then S754_zero s else f64_of_Z (cond_Zopp s n)
  | _ => x
  end.

(** The saturating cast of a float to an integer type with bounds [lo], [hi]. *)
Definition f64_as_int (lo hi : Z) (x : f64) : Z :=
  match x with
  | S754_nan => 0
  | S754_infinity true => lo
  | S754_infinity false => hi
  | _ => clamp lo hi (f64_trunc x)
  end.
Definition f64_as_i64 : f64 → Z := f64_as_int i64_min i64_max.

(** ** Single precision *)
Definition f64_as_f32 (x : f64) : f32 :=
  match x with S754_finite s m e => binary_round 24 128 s m e | _ => x end.
Definition f32_as_f64 (x : f32) : f64 :=
  match x with S754_finite s m e => binary_round 53 1024 s m e | _ => x end.

(** Decoding of a [w]-bit exponent / [p-1]-bit fraction interchange format. *)
Definition float_of_bits (p w : Z) (bits : Z) : spec_float :=
  let s := Z.testbit bits (p - 1 + w) in
  let ex := Z.land (Z.shiftr bits (p - 1)) (2 ^ w - 1) in
  let frac := Z.land bits (2 ^ (p - 1) - 1) in
  if ex =? 0 then
    match frac with
    | Zpos m => S754_finite s m (3 - 2 ^ (w - 1) - p)
    | _ => S754_zero s
    end
  else if ex =? 2 ^ w - 1 then (if frac =? 0 then S754_infinity s else S754_nan)
  else S754_finite s (Z.to_pos (frac + 2 ^ (p - 1))) (ex + 2 - 2 ^ (w - 1) - p).

(** Encoding; a NaN becomes the canonical quiet NaN. *)
Definition float_to_bits (p w : Z) (x : spec_float) : Z :=
  let sb (s : bool) := if s then 2 ^ (p - 1 + w) else 0 in
  match x with
  | S754_zero s => sb s
  | S754_infinity s => sb s + (2 ^ w - 1) * 2 ^ (p - 1)
  | S754_nan => (2 ^ w - 1) * 2 ^ (p - 1) + 2 ^ (p - 2)
  | S754_finite s m e =>
      if Zpos m <? 2 ^ (p - 1) then sb s + Zpos m
      else sb s + (e - 2 + 2 ^ (w - 1) + p) * 2 ^ (p - 1) + (Zpos m - 2 ^ (p - 1))
  end.

Definition f32_from_bits : Z → f32 := float_of_bits 24 8.
Definition f32_to_bits : f32 → Z := float_to_bits 24 8.
Definition f64_from_bits : Z → f64 := float_of_bits 53 11.

(** ** The integer a float denotes *)
Definition f64_denotes (x : f64) (z : Z) : Prop :=
  match x with
  | S754_zero _ => z = 0
  | S754_finite s m e =>
      if 0 <=? e then z = cond_Zopp s (Zpos m) * 2 ^ e
      else z * 2 ^ (- e) = cond_Zopp s (Zpos m)
  | _ => False
  end.

(** ** Digits and exact rounding *)

Lemma digits2_pos_spec m :
  2 ^ (Zpos (digits2_pos m) - 1) ≤ Zpos m < 2 ^ Zpos (digits2_pos m).
Proof.
  induction m as [m IH|m IH|]; [| |split; reflexivity].
  all: cbn [digits2_pos]; rewrite Pos2Z.inj_succ;
    replace (Z.succ _ - 1) with (Z.succ (Zpos (digits2_pos m) - 1)) by lia;
    rewrite !Z.pow_succ_r by lia; lia.
Qed.

Lemma digits2_pos_unique m d :
  0 < d → 2 ^ (d - 1) ≤ Zpos m < 2 ^ d → Zpos (digits2_pos m) = d.
Proof.
  intros Hd Hm. pose proof (digits2_pos_spec m) as Hs.
  destruct (Z.lt_trichotomy (Zpos (digits2_pos m)) d) as [Hlt|[|Hlt]]; [|done|].
  - pose proof (Z.pow_le_mono_r 2 (Zpos (digits2_pos m)) (d - 1)). lia.
  - pose proof (Z.pow_le_mono_r 2 d (Zpos (digits2_pos m) - 1)). lia.
Qed.

Lemma iter_xO m (p : positive) : Zpos (Pos.iter xO m p) = Zpos m * 2 ^ Zpos p.
Proof.
  induction p as [|p IH] using Pos.peano_ind; [simpl; lia|].
  rewrite Pos.iter_succ, Pos2Z.inj_succ, Z.pow_succ_r by lia.
  rewrite Pos2Z.inj_xO, IH. ring.
Qed.

Lemma digits2_pos_shift m k m' :
  0 ≤ k → Zpos m' = Zpos m * 2 ^ k →
  Zpos (digits2_pos m') = Zpos (digits2_pos m) + k.
Proof.
  intros Hk E. apply digits2_pos_unique; [lia|]. rewrite E.
  replace (Zpos (digits2_pos m) + k - 1) with (Zpos (digits2_pos m) - 1 + k) by lia.
  rewrite !Z.pow_add_r by lia. pose proof (digits2_pos_spec m).
  pose proof (Z.pow_pos_nonneg 2 k ltac:(lia) Hk). nia.
Qed.

(** A mantissa that is already canonical is not changed. *)
Lemma binary_round_aux_canonical prec emax s m e :
  fexp prec emax (Zpos (digits2_pos m) + e) = e → e ≤ emax - prec →
  binary_round_aux prec emax s (Zpos m) e loc_Exact = S754_finite s m e.
Proof.
  intros Hc He. unfold binary_round_aux, shr_fexp. cbn [Zdigits2].
  rewrite Hc, Z.sub_diag. cbn [shr shr_record_of_loc shr_m loc_of_shr_record round_nearest_even Zdigits2].
  rewrite Hc, Z.sub_diag. cbn [shr shr_record_of_loc shr_m].
  destruct (Z.leb_spec e (emax - prec)); [done|lia].
Qed.

(** A mantissa short enough to be aligned to the left is represented exactly. *)
Lemma binary_round_exact prec emax s m e :
  let ez := fexp prec emax (Zpos (digits2_pos m) + e) in
  ez ≤ e → ez ≤ emax - prec →
  ∃ m', Zpos m' = Zpos m * 2 ^ (e - ez) ∧
        binary_round prec emax s m e = S754_finite s m' ez.
Proof.
  intros ez Hle Hmax. unfold binary_round, shl_align. fold ez.
  destruct (ez - e) as [|d|d] eqn:Ed; [|lia|].
  - exists m. replace (e - ez) with 0 by lia. split; [lia|].
    replace e with ez by lia. apply binary_round_aux_canonical; [|done].
    unfold ez at 1. f_equal. lia.
  - exists (Pos.iter xO m d). split; [rewrite iter_xO; do 2 f_equal; lia|].
    apply binary_round_aux_canonical; [|done].
    rewrite (digits2_pos_shift m (Zpos d)) by (lia || apply iter_xO).
    unfold ez at 2. f_equal. lia.
Qed.

(** ** Integers are exact up to 53 bits *)

Lemma f64_of_Z_exact_form z :
  z ≠ 0 → Z.abs z < 2 ^ 53 →
  ∃ m k, 0 ≤ k ∧ Zpos m = Z.abs z * 2 ^ k ∧
         f64_of_Z z = S754_finite (z <? 0) m (- k).
Proof.
  intros Hz Hlt.
  assert (∀ s m, Zpos m < 2 ^ 53 → ∃ m' k, 0 ≤ k ∧ Zpos m' = Zpos m * 2 ^ k ∧
            binary_round 53 1024 s m 0 = S754_finite s m' (- k)) as Hpos.
  { intros s m Hm. pose proof (digits2_pos_spec m) as Hd.
    assert (Zpos (digits2_pos m) ≤ 53).
    { destruct (Z.le_gt_cases (Zpos (digits2_pos m)) 53) as [|Hgt]; [done|].
      pose proof (Z.pow_le_mono_r 2 53 (Zpos (digits2_pos m) - 1)). lia. }
    destruct (binary_round_exact 53 1024 s m 0) as (m' & Hm' & E).
    1,2: unfold fexp, emin; lia.
    exists m', (53 - Zpos (digits2_pos m)). split; [lia|].
    unfold fexp, emin in *. rewrite E.
    replace (Z.max _ _) with (Zpos (digits2_pos m) - 53) in * by lia.
    split; [rewrite Hm'; do 2 f_equal; lia|f_equal; lia]. }
  destruct z as [|m|m]; [done| |]; simpl in Hlt.
  - destruct (Hpos false m Hlt) as (m' & k & ? & ? & E). exists m', k. done.
  - destruct (Hpos true m Hlt) as (m' & k & ? & ? & E). exists m', k. done.
Qed.

Lemma cond_Zopp_abs z : cond_Zopp (z <? 0) (Z.abs z) = z.
Proof. destruct (Z.ltb_spec z 0); simpl; lia. Qed.

Lemma f64_of_Z_denotes z : Z.abs z < 2 ^ 53 → f64_denotes (f64_of_Z z) z.
Proof.
  intros Hlt. destruct (decide (z = 0)) as [->|Hz]; [done|].
  destruct (f64_of_Z_exact_form z Hz Hlt) as (m & k & Hk & Hm & ->). simpl.
  rewrite Hm. destruct (Z.leb_spec 0 (- k)).
  - replace k with 0 in * by lia. change (2 ^ 0) with 1. change (2 ^ (- 0)) with 1.
    by rewrite !Z.mul_1_r, cond_Zopp_abs.
  - rewrite Z.opp_involutive. rewrite <- (cond_Zopp_abs z) at 1.
    destruct (z <? 0); simpl; lia.
Qed.

Lemma f64_trunc_denotes x z : f64_denotes x z → f64_trunc x = z.
Proof.
  destruct x as [s| | |s m e]; simpl; [done..|].
  destruct (Z.leb_spec 0 e); intros Hx.
  - subst. destruct s; simpl; lia.
  - pose proof (Z.pow_pos_nonneg 2 (- e) ltac:(lia) ltac:(lia)).
    destruct s; simpl in *.
    + replace (Zpos m) with ((- z) * 2 ^ (- e)) by lia. rewrite Z.div_mul by lia. lia.
    + rewrite <- Hx, Z.div_mul by lia. done.
Qed.

Lemma f64_of_Z_trunc z : Z.abs z < 2 ^ 53 → f64_trunc (f64_of_Z z) = z.
Proof. intros. by apply f64_trunc_denotes, f64_of_Z_denotes. Qed.

Lemma f64_of_Z_inj z1 z2 :
  Z.abs z1 < 2 ^ 53 → Z.abs z2 < 2 ^ 53 → f64_of_Z z1 = f64_of_Z z2 → z1 = z2.
Proof. intros H1 H2 E. by rewrite <- (f64_of_Z_trunc z1), E, f64_of_Z_trunc. Qed.

Lemma f64_of_Z_finite z : Z.abs z < 2 ^ 53 → is_finite (f64_of_Z z) = true.
Proof. intros Hz. pose proof (f64_of_Z_denotes z Hz). by destruct (f64_of_Z z). Qed.

(** Rounding an integral value changes nothing. *)
Lemma f64_round_of_Z z : Z.abs z < 2 ^ 53 → f64_round (f64_of_Z z) = f64_of_Z z.
Proof.
  intros Hlt. destruct (decide (z = 0)) as [->|Hz]; [done|].
  destruct (f64_of_Z_exact_form z Hz Hlt) as (m & k & Hk & Hm & E).
  rewrite E at 1. simpl. destruct (Z.leb_spec 0 (- k)); [by rewrite E|].
  rewrite Z.opp_involutive, Hm.
  assert (0 ≤ 2 ^ (k - 1) < 2 ^ k).
  { split; [lia|]. apply Z.pow_lt_mono_r; lia. }
  assert ((Z.abs z * 2 ^ k + 2 ^ (k - 1)) / 2 ^ k = Z.abs z) as ->.
  { rewrite Z.div_add_l by lia. rewrite Z.div_small by lia. lia. }
  destruct (Z.eqb_spec (Z.abs z) 0); [lia|]. by rewrite cond_Zopp_abs.
Qed.

Lemma f64_as_int_of_Z lo hi z :
  Z.abs z < 2 ^ 53 → lo ≤ z ≤ hi → f64_as_int lo hi (f64_of_Z z) = z.
Proof.
  intros Hlt Hb. pose proof (f64_of_Z_trunc z Hlt). pose proof (f64_of_Z_finite z Hlt).
  unfold f64_as_int. destruct (f64_of_Z z); try done; unfold clamp; lia.
Qed.

Lemma f64_as_int_range lo hi x : lo ≤ 0 ≤ hi → lo ≤ f64_as_int lo hi x ≤ hi.
Proof.
  intros Hb. unfold f64_as_int, clamp. destruct x as [s|[]| |s m e]; lia.
Qed.

(** ** Single precision is embedded in double precision *)

Definition f32_valid (x : f32) : Prop := valid_binary 24 128 x = true.

Lemma f32_valid_finite s m e :
  f32_valid (S754_finite s m e) →
  Z.max (Zpos (digits2_pos m) + e - 24) (-149) = e ∧ e ≤ 104.
Proof.
  unfold f32_valid. simpl. unfold bounded, canonical_mantissa, fexp, emin.
  intros [H1 H2]%andb_prop. apply Z.eqb_eq in H1. apply Z.leb_le in H2. lia.
Qed.

Lemma iter_pos_peano {A} (f : A → A) p x :
  SpecFloat.iter_pos f p x = Pos.iter f x p.
Proof.
  revert x. induction p as [p IH|p IH|]; intros x; simpl; [| |done].
  - rewrite !IH. by rewrite <- !Pos.iter_swap.
  - by rewrite !IH.
Qed.

Lemma iter_shr_1_exact (m : Z) (p : positive) :
  0 ≤ m → SpecFloat.iter_pos shr_1 p {| shr_m := m * 2 ^ Zpos p; shr_r := false; shr_s := false |}
  = {| shr_m := m; shr_r := false; shr_s := false |}.
Proof.
  rewrite iter_pos_peano. intros Hm. revert m Hm.
  induction p as [|p IH] using Pos.peano_ind; intros m Hm.
  - simpl. rewrite Z.mul_comm. destruct m; try done; lia.
  - rewrite Pos.iter_succ. rewrite Pos2Z.inj_succ, Z.pow_succ_r by lia.
    replace (m * (2 * 2 ^ Zpos p)) with ((2 * m) * 2 ^ Zpos p) by ring.
    rewrite IH by lia. destruct m; try done; lia.
Qed.

Lemma shr_exact m m' e p :
  Zpos m' = Zpos m * 2 ^ Zpos p →
  shr (shr_record_of_loc (Zpos m') loc_Exact) e (Zpos p) =
  ({| shr_m := Zpos m; shr_r := false; shr_s := false |}, e + Zpos p).
Proof. intros E. simpl. by rewrite E, (iter_shr_1_exact (Zpos m) p) by lia. Qed.

Lemma f32_f64_f32 x : f32_valid x → f64_as_f32 (f32_as_f64 x) = x.
Proof.
  intros Hv. destruct x as [s|s| |s m e]; try done.
  apply f32_valid_finite in Hv as [Hc He].
  assert (Zpos (digits2_pos m) ≤ 24) by lia.
  unfold f32_as_f64. destruct (binary_round_exact 53 1024 s m e) as (m' & Hm' & ->).
  1,2: unfold fexp, emin; lia.
  unfold f64_as_f32, binary_round.
  set (k := e - fexp 53 1024 (Zpos (digits2_pos m) + e)) in *.
  assert (0 ≤ k) by (unfold k, fexp, emin; lia).
  replace (fexp 53 1024 (Zpos (digits2_pos m) + e)) with (e - k) by lia.
  rewrite (digits2_pos_shift m k) by done.
  replace (Zpos (digits2_pos m) + k + (e - k)) with (Zpos (digits2_pos m) + e) by lia.
  assert (fexp 24 128 (Zpos (digits2_pos m) + e) = e) as Hf by (unfold fexp, emin; lia).
  rewrite Hf. unfold shl_align.
  replace (e - (e - k)) with k by lia.
  destruct k as [|kp|kp] eqn:Ek; [| |lia].
  - rewrite Z.sub_0_r. rewrite Z.mul_1_r in Hm'. injection Hm' as ->.
    apply binary_round_aux_canonical; [done|lia].
  - unfold binary_round_aux, shr_fexp. cbn [Zdigits2].
    rewrite (digits2_pos_shift m (Zpos kp)) by done.
    replace (Zpos (digits2_pos m) + Zpos kp + (e - Zpos kp))
      with (Zpos (digits2_pos m) + e) by lia.
    rewrite Hf. replace (e - (e - Zpos kp)) with (Zpos kp) by lia.
    rewrite (shr_exact m m') by done.
    replace (e - Zpos kp + Zpos kp) with e by lia.
    cbn [shr_m loc_of_shr_record round_nearest_even Zdigits2].
    rewrite Hf, Z.sub_diag. cbn [shr shr_record_of_loc shr_m].
    destruct (Z.leb_spec e (128 - 24)); [done|lia].
Qed.

(** ** The interchange formats *)
Section Bits.
Context (p w : Z) (Hp : 2 ≤ p) (Hw : 2 ≤ w).

Lemma bits_fields (s : bool) ex frac :
  0 ≤ ex < 2 ^ w → 0 ≤ frac < 2 ^ (p - 1) →
  let b := (if s then 2 ^ (p - 1 + w) else 0) + ex * 2 ^ (p - 1) + frac in
  Z.testbit b (p - 1 + w) = s ∧ Z.land (Z.shiftr b (p - 1)) (2 ^ w - 1) = ex ∧
  Z.land b (2 ^ (p - 1) - 1) = frac.
Proof.
  intros He Hf b.
  assert (2 ^ (p - 1 + w) = 2 ^ w * 2 ^ (p - 1)) as Ep by (rewrite <- Z.pow_add_r by lia; f_equal; lia).
  assert (b = ((if s then 2 ^ w else 0) + ex) * 2 ^ (p - 1) + frac) as Hb.
  { unfold b. rewrite Ep. destruct s; ring. }
  assert (b / 2 ^ (p - 1) = (if s then 2 ^ w else 0) + ex) as Hq.
  { rewrite Hb, Z.div_add_l by lia. rewrite Z.div_small by lia. lia. }
  split_and!.
  - replace (p - 1 + w) with (w + (p - 1)) by lia. rewrite <- Z.shiftr_spec by lia.
    rewrite Z.shiftr_div_pow2, Hq by lia. destruct s.
    + rewrite <- (Z.mul_1_l (2 ^ w)), Z.testbit_true, Z.div_add_l by lia. by rewrite Z.div_small by lia.
    + apply Z.testbit_false; [lia|]. by rewrite Z.div_small by lia.
  - replace (2 ^ w - 1) with (Z.ones w) by (rewrite Z.ones_equiv; lia).
    rewrite Z.land_ones, Z.shiftr_div_pow2, Hq by lia.
    replace ((if s then 2 ^ w else 0) + ex) with (ex + (if s then 1 else 0) * 2 ^ w) by (destruct s; lia).
    rewrite Z.mod_add, Z.mod_small by lia. done.
  - replace (2 ^ (p - 1) - 1) with (Z.ones (p - 1)) by (rewrite Z.ones_equiv; lia).
    rewrite Z.land_ones, Hb by lia. rewrite Z.add_comm, Z.mod_add, Z.mod_small by lia. done.
Qed.

(** The canonical floats of the format. *)
Definition fits_format (x : spec_float) : Prop :=
  match x with
  | S754_finite s m e =>
      (Zpos m < 2 ^ (p - 1) ∧ e = 3 - 2 ^ (w - 1) - p) ∨
      (2 ^ (p - 1) ≤ Zpos m < 2 ^ p ∧ 3 - 2 ^ (w - 1) - p ≤ e ≤ 2 ^ (w - 1) - p)
  | _ => True
  end.

Lemma of_to_bits x : fits_format x → float_of_bits p w (float_to_bits p w x) = x.
Proof.
  intros Hx. assert (0 < 2 ^ (p - 2)) by lia. assert (2 ^ (p - 1) = 2 * 2 ^ (p - 2)).
  { replace (p - 1) with (Z.succ (p - 2)) by lia. by rewrite Z.pow_succ_r by lia. }
  assert (2 ^ w = 2 * 2 ^ (w - 1)).
  { replace w with (Z.succ (w - 1)) at 1 by lia. by rewrite Z.pow_succ_r by lia. }
  assert (2 ≤ 2 ^ (w - 1)) by (apply (Z.pow_le_mono_r 2 1 (w - 1)); lia).
  unfold float_of_bits, float_to_bits. destruct x as [s|s| |s m e].
  - pose proof (bits_fields s 0 0 ltac:(lia) ltac:(lia)) as Hb. rewrite !Z.add_0_r in Hb.
    destruct Hb as (-> & -> & ->). done.
  - pose proof (bits_fields s (2 ^ w - 1) 0 ltac:(lia) ltac:(lia)) as Hb. rewrite Z.add_0_r in Hb.
    destruct Hb as (-> & -> & ->). destruct (Z.eqb_spec (2 ^ w - 1) 0); [lia|]. by rewrite Z.eqb_refl.
  - pose proof (bits_fields false (2 ^ w - 1) (2 ^ (p - 2)) ltac:(lia) ltac:(lia)) as Hb. cbn zeta in Hb.
    rewrite Z.add_0_l in Hb. destruct Hb as (-> & -> & ->). destruct (Z.eqb_spec (2 ^ w - 1) 0); [lia|].
    rewrite Z.eqb_refl. by destruct (Z.eqb_spec (2 ^ (p - 2)) 0); [lia|].
  - destruct Hx as [[Hm ->]|[Hm He]].
    + destruct (Z.ltb_spec (Zpos m) (2 ^ (p - 1))); [|lia].
      pose proof (bits_fields s 0 (Zpos m) ltac:(lia) ltac:(lia)) as Hb. rewrite Z.add_0_r in Hb.
      destruct Hb as (-> & -> & ->). done.
    + destruct (Z.ltb_spec (Zpos m) (2 ^ (p - 1))); [lia|].
      assert (2 ^ p = 2 * 2 ^ (p - 1)).
      { replace p with (Z.succ (p - 1)) at 1 by lia. by rewrite Z.pow_succ_r by lia. }
      destruct (bits_fields s (e - 2 + 2 ^ (w - 1) + p) (Zpos m - 2 ^ (p - 1)) ltac:(lia) ltac:(lia))
        as (-> & -> & ->).
      destruct (Z.eqb_spec (e - 2 + 2 ^ (w - 1) + p) 0); [lia|].
      destruct (Z.eqb_spec (e - 2 + 2 ^ (w - 1) + p) (2 ^ w - 1)); [lia|].
      f_equal; [|lia]. replace (Zpos m - 2 ^ (p - 1) + 2 ^ (p - 1)) with (Zpos m) by lia. done.
Qed.
End Bits.

Lemma fits_format_32 x : f32_valid x → fits_format 24 8 x.
Proof.
  destruct x as [s|s| |s m e]; try done. intros Hv. apply f32_valid_finite in Hv as [Hc He].
  pose proof (digits2_pos_spec m) as [Hlo Hhi]. simpl.
  destruct (decide (Zpos (digits2_pos m) = 24)) as [E|E].
  - rewrite E in *. right. simpl in *. lia.
  - left. split; [|lia].
    pose proof (Z.pow_le_mono_r 2 (Zpos (digits2_pos m)) 23 ltac:(lia) ltac:(lia)). simpl in *. lia.
Qed.

(** [f32::from_bits(x.to_bits()) = x]. *)
Lemma f32_bits_roundtrip x : f32_valid x → f32_from_bits (f32_to_bits x) = x.
Proof. intros Hv. apply of_to_bits; [lia|lia|by apply fits_format_32]. Qed.

(** The bits of a single fit 32 bits. *)
Lemma f32_to_bits_range x : f32_valid x → is_u32 (f32_to_bits x).
Proof.
  unfold is_u32, f32_to_bits, float_to_bits. destruct x as [[]|[]| |s m e]; try (simpl; lia).
  intros Hv%fits_format_32. simpl in Hv |- *. destruct s; case_match; lia.
Qed.
