(* ===== verification/RustStr.v ===== *)
(** * Strings

    The methods of [str] and [String] the agent uses, on byte strings, and the
    decimal printing and parsing of numbers. *)
From Stdlib Require Import Ascii SpecFloat.
From stdpp Require Export pretty.
From S2P Require Import Prelude Float.
Local Open Scope Z_scope.

(** ** Bytes *)
Definition code (c : ascii) : Z := Z.of_N (N_of_ascii c).
Definition chr (z : Z) : ascii := ascii_of_N (Z.to_N (z mod 256)).

Lemma chr_code c : chr (code c) = c.
Proof.
  unfold chr, code. pose proof (N_ascii_bounded c).
  rewrite Z.mod_small, N2Z.id, ascii_N_embedding by lia. done.
Qed.
Lemma code_chr z : is_u8 z → code (chr z) = z.
Proof.
  unfold is_u8, chr, code. intros Hz.
  rewrite Z.mod_small, N_ascii_embedding, Z2N.id by lia. done.
Qed.
Lemma code_u8 c : is_u8 (code c).
Proof. unfold is_u8, code. pose proof (N_ascii_bounded c). lia. Qed.

Fixpoint bytes_of (s : string) : list Z :=
  match s with EmptyString => [] | String c s => code c :: bytes_of s end.
Fixpoint of_bytes (l : list Z) : string :=
  match l with [] => "" | z :: l => String (chr z) (of_bytes l) end.

Lemma of_bytes_of s : of_bytes (bytes_of s) = s.
Proof. induction s as [|c s IH]; simpl; [done|]. by rewrite chr_code, IH. Qed.

Definition is_digit (c : ascii) : bool := (48 <=? code c) && (code c <=? 57).
Definition is_upper (c : ascii) : bool := (65 <=? code c) && (code c <=? 90).
Definition is_lower (c : ascii) : bool := (97 <=? code c) && (code c <=? 122).
(** [u8::is_ascii_alphanumeric], [u8::is_ascii_graphic]. *)
Definition is_alnum (c : ascii) : bool := is_digit c || is_upper c || is_lower c.
Definition is_graphic (c : ascii) : bool := (33 <=? code c) && (code c <=? 126).
Definition is_white (c : ascii) : bool :=
  (code c =? 32) || ((9 <=? code c) && (code c <=? 13)).

Definition lower (c : ascii) : ascii := if is_upper c then chr (code c + 32) else c.
Definition upper (c : ascii) : ascii := if is_lower c then chr (code c - 32) else c.

Fixpoint smap (f : ascii → ascii) (s : string) : string :=
  match s with EmptyString => EmptyString | String c s => String (f c) (smap f s) end.
(** [str::to_ascii_lowercase] *)
Definition to_ascii_lowercase : string → string := smap lower.

Fixpoint sforall (p : ascii → bool) (s : string) : bool :=
  match s with EmptyString => true | String c s => p c && sforall p s end.
Fixpoint scount (c : ascii) (s : string) : Z :=
  match s with EmptyString => 0 | String c' s => (if decide (c = c') then 1 else 0) + scount c s end.
Definition slen (s : string) : Z := Z.of_nat (String.length s).

(** [str::strip_prefix], [str::starts_with] *)
Fixpoint strip_prefix (p s : string) : option string :=
  match p, s with
  | EmptyString, _ => Some s
  | String a p, String b s => if decide (a = b) then strip_prefix p s else None
  | String _ _, EmptyString => None
  end.
Definition starts_with (p s : string) : bool := match strip_prefix p s with Some _ => true | None => false end.

(** [str::contains] of a string *)
Fixpoint contains (p s : string) : bool :=
  starts_with p s || match s with EmptyString => false | String _ s => contains p s end.

Definition newline : string := String "010"%char EmptyString.

(** [str::split] on a character: always at least one part. *)
Fixpoint split_on (c : ascii) (s : string) : list string :=
  match s with
  | EmptyString => [EmptyString]
  | String a s =>
      if decide (a = c) then EmptyString :: split_on c s
      else match split_on c s with
           | [] => [String a EmptyString]
           | p :: ps => String a p :: ps
           end
  end.
Fixpoint join_with (c : ascii) (ps : list string) : string :=
  match ps with
  | [] => EmptyString
  | [p] => p
  | p :: ps => p +:+ String c (join_with c ps)
  end.

Fixpoint trim_start (s : string) : string :=
  match s with
  | EmptyString => EmptyString
  | String c s' => if is_white c then trim_start s' else s
  end.
Fixpoint trim_end (s : string) : string :=
  match s with
  | EmptyString => EmptyString
  | String c s =>
      match trim_end s with
      | EmptyString => if is_white c then EmptyString else String c EmptyString
      | s' => String c s'
      end
  end.
(** [str::trim] (ASCII white space). *)
Definition trim (s : string) : string := trim_end (trim_start s).

(** [trim_end_matches('/')] *)
Fixpoint trim_end_slashes (s : string) : string :=
  match s with
  | EmptyString => EmptyString
  | String c s =>
      match trim_end_slashes s with
      | EmptyString => if decide (c = "/"%char) then EmptyString else String c EmptyString
      | s' => String c s'
      end
  end.

(** [str::strip_suffix] *)
Definition strip_suffix (p s : string) : option string :=
  let n := (String.length s - String.length p)%nat in
  if (String.length p <=? String.length s)%nat && bool_decide (String.substring n (String.length p) s = p)
  then Some (String.substring 0 n s) else None.

(** [{:?}] of a string: quoted, with the quote, the backslash, tab, newline and
    carriage return escaped (other characters are printed as they are). *)
Definition quote : ascii := chr 34.
Definition escape (c : ascii) : string :=
  if decide (code c = 34 ∨ code c = 92) then String (chr 92) (String c EmptyString)
  else if decide (code c = 10) then String (chr 92) "n"
  else if decide (code c = 13) then String (chr 92) "r"
  else if decide (code c = 9) then String (chr 92) "t"
  else String c EmptyString.
Fixpoint escape_all (s : string) : string :=
  match s with EmptyString => EmptyString | String c s => escape c +:+ escape_all s end.
Definition debug_str (s : string) : string :=
  String quote (escape_all s +:+ String quote EmptyString).

(** ** Numbers *)

(** [str::parse::<u64>]: an optional [+], then digits. *)
Fixpoint digits_val (acc : Z) (s : string) : option Z :=
  match s with
  | EmptyString => Some acc
  | String c s => if is_digit c then digits_val (acc * 10 + (code c - 48)) s else None
  end.
Definition parse_uint (max : Z) (s : string) : option Z :=
  let body := default s (strip_prefix "+" s) in
  if decide (body = EmptyString) then None
  else z ← digits_val 0 body; if z <=? max then Some z else None.

(** The double nearest to [m * 10^e] (ties to even). *)
Definition f64_of_decimal (neg : bool) (m : Z) (e : Z) : f64 :=
  match m with
  | Zpos p =>
      if 0 <=? e then binary_normalize 53 1024 (cond_Zopp neg (m * 10 ^ e)) 0 neg
      else
        let '(q, e', l) := SFdiv_core_binary 53 1024 m 0 (10 ^ (- e)) 0 in
        binary_round_aux 53 1024 neg q e' l
  | _ => S754_zero neg
  end.

Fixpoint take_digits (s : string) : string * string :=
  match s with
  | String c s' => if is_digit c then let '(d, r) := take_digits s' in (String c d, r) else (EmptyString, s)
  | EmptyString => (EmptyString, EmptyString)
  end.

(** [str::parse::<f64>]: sign, then [inf], [infinity], [nan] in any case, or
    digits with an optional point and exponent. *)
Definition parse_f64 (s : string) : option f64 :=
  let '(neg, body) :=
    match strip_prefix "-" s with
    | Some b => (true, b)
    | None => (false, default s (strip_prefix "+" s))
    end in
  let low := to_ascii_lowercase body in
  if decide (low = "inf" ∨ low = "infinity") then Some (S754_infinity neg)
  else if decide (low = "nan") then Some f64_nan
  else
    let '(ip, r) := take_digits body in
    let '(fp, r) := match strip_prefix "." r with Some r' => take_digits r' | None => (EmptyString, r) end in
    if decide (ip = EmptyString ∧ fp = EmptyString) then None
    else
      m ← digits_val 0 (ip +:+ fp);
      let e0 := - slen fp in
      match r with
      | EmptyString => Some (f64_of_decimal neg m e0)
      | String c r =>
          if decide (lower c = "e"%char) then
            let '(eneg, ed) :=
              match strip_prefix "-" r with
              | Some b => (true, b)
              | None => (false, default r (strip_prefix "+" r))
              end in
            if decide (ed = EmptyString) then None
            else e ← digits_val 0 ed; Some (f64_of_decimal neg m (e0 + cond_Zopp eneg e))
          else None
      end.

(** [format!("{}", z)] *)
Definition dec (z : Z) : string := pretty z.

(** Two lower-case hexadecimal digits per byte, most significant first. *)
Definition hex_digit (z : Z) : ascii := if z <? 10 then chr (48 + z) else chr (87 + z).
Fixpoint hex (n : nat) (z : Z) : string :=
  match n with
  | O => EmptyString
  | S n => hex n (z / 16) +:+ String (hex_digit (z mod 16)) EmptyString
  end.

(** ** Laws *)

Lemma strip_prefix_spec p s r : strip_prefix p s = Some r ↔ s = p +:+ r.
Proof.
  revert s r. induction p as [|a p IH]; intros s r; simpl.
  - split; [by intros [= ->]|by intros ->].
  - destruct s as [|b s]; [done|]. case_decide as E; [|split; [done|intros [= ??]; done]].
    subst. rewrite IH. split; [by intros ->|by intros [=]].
Qed.

Lemma split_on_ne c s : split_on c s ≠ [].
Proof. destruct s as [|a s]; simpl; [done|]. case_decide; [done|]. by case_match. Qed.

Lemma join_split c s : join_with c (split_on c s) = s.
Proof.
  induction s as [|a s IH]; [done|]. simpl. case_decide as E.
  - subst. simpl. destruct (split_on c s) eqn:Es; [by apply split_on_ne in Es|]. by rewrite IH.
  - destruct (split_on c s) as [|p ps] eqn:Es; [by apply split_on_ne in Es|].
    destruct ps; simpl in *; by rewrite <- IH.
Qed.

Lemma str_app_nil s : s +:+ "" = s.
Proof. induction s as [|c s IH]; [done|]. exact (f_equal (String c) IH). Qed.
Lemma str_app_assoc s1 s2 s3 : (s1 +:+ s2) +:+ s3 = s1 +:+ s2 +:+ s3.
Proof. induction s1 as [|c s1 IH]; [done|]. exact (f_equal (String c) IH). Qed.

Lemma slen_app s1 s2 : slen (s1 +:+ s2) = slen s1 + slen s2.
Proof. unfold slen. induction s1 as [|c s IH]; simpl in *; [done|lia]. Qed.

Lemma scount_app c s1 s2 : scount c (s1 +:+ s2) = scount c s1 + scount c s2.
Proof. induction s1 as [|a s IH]; simpl; [done|]. rewrite IH. lia. Qed.

Lemma sforall_app p s1 s2 : sforall p (s1 +:+ s2) = sforall p s1 && sforall p s2.
Proof. induction s1 as [|a s IH]; simpl; [done|]. by rewrite IH, andb_assoc. Qed.

(** Two concatenations with the same separator, free on the right, split alike. *)
Lemma app_sep_inj_r (c : ascii) (a1 a2 b1 b2 : string) :
  sforall (λ x, bool_decide (x ≠ c)) b1 = true → sforall (λ x, bool_decide (x ≠ c)) b2 = true →
  a1 +:+ String c b1 = a2 +:+ String c b2 → a1 = a2 ∧ b1 = b2.
Proof.
  assert (∀ (a b1 b2 : string), sforall (λ x, bool_decide (x ≠ c)) b1 = true →
            b1 = a +:+ String c b2 → False) as Hno.
  { intros a b b' Hb ->. rewrite sforall_app in Hb. apply andb_prop in Hb as [_ Hb]. simpl in Hb.
    apply andb_prop in Hb as [Hb _]. by apply bool_decide_eq_true in Hb. }
  intros H1 H2. revert a2. induction a1 as [|x a1 IH]; intros [|y a2] E; simpl in E.
  - by injection E as ->.
  - injection E as -> E. by apply Hno in E.
  - injection E as -> E. symmetry in E. by apply Hno in E.
  - injection E as -> E. destruct (IH a2 E) as [-> ->]. done.
Qed.

Example parse_f64_ex : parse_f64 "-42.5" = Some (f64_div (f64_of_Z (-85)) (f64_of_Z 2)).
Proof. vm_compute. reflexivity. Qed.
Example parse_f64_ex2 : parse_f64 "1e-1" = Some (f64_div (f64_of_Z 1) (f64_of_Z 10)).
Proof. vm_compute. reflexivity. Qed.
Example split_ex : split_on "|"%char "a|b||" = ["a"; "b"; ""; ""].
Proof. reflexivity. Qed.

(** ** Positive numbers as texts of their bits, lowest first *)
Fixpoint pos_to_string (p : positive) : string :=
  match p with
  | xH => "1"
  | xO p => String "0"%char (pos_to_string p)
  | xI p => String "i"%char (pos_to_string p)
  end.

Fixpoint pos_of_string (s : string) : option positive :=
  match s with
  | EmptyString => None
  | String "1"%char EmptyString => Some xH
  | String "0"%char s => xO <$> pos_of_string s
  | String "i"%char s => xI <$> pos_of_string s
  | _ => None
  end.

Lemma pos_roundtrip p : pos_of_string (pos_to_string p) = Some p.
Proof. induction p as [p IH|p IH|]; simpl; rewrite ?IH; done. Qed.
