(* ===== verification/Proto.v ===== *)
(** * Ingest protocol messages

    The types [tonic] generates from [lymon/ingest/v1/ingest.proto] (the file is
    in a sibling repository), with the fields the agent builds and reads. The
    wire numbers of [AckStatus] are not in this repository: the decoding
    [AckStatus::try_from] is the operation of the interface [AckCodec]. *)
From S2P Require Import Prelude Float.

Record Sample := mkSample {
  point_id : string;
  ts_ms : Z;
  value : f64;
  quality : Z;
  attrs : gmap string string;
}.

Inductive AckStatus := AckOk | AckDuplicate | AckRejected | AckRetry | AckUnspecified.

Record BatchAck := mkBatchAck { ack_batch_id : string; ack_status : Z; ack_detail : string }.

Record SampleBatch := mkSampleBatch {
  sb_batch_id : string;
  sb_agent_id : string;
  sb_datasource_id : string;
  sb_sent_at_ms : Z;
  sb_samples : list Sample;
}.

Class AckCodec := ack_status_try_from : Z → option AckStatus.

#[export] Instance AckStatus_eq_dec : EqDecision AckStatus.
Proof. solve_decision. Defined.
#[export] Instance Sample_eq_dec : EqDecision Sample.
Proof. solve_decision. Defined.
