(* ===== verification/Buffer.v ===== *)
(** * The durable sample buffer ([src/buffer.rs])

    [Db] is the SQLite file: the table [pending_samples] as the list of its rows
    in rowid order, the table [in_flight_batches], and the AUTOINCREMENT
    counter. Each SQL statement of the source is a [sql_*] function; a handler is
    a computation of the monad [M], in which every SQLite call may fail (the
    fault plan) and [transaction] rolls the tables back on an error. *)
From S2P Require Import Prelude Float Proto.
Local Open Scope Z_scope.

(** ** State *)

Record PendingRow := mkPendingRow {
  id : Z;
  variable_id : string;
  row_ts_ms : Z;
  row_value : f64;
  row_quality : Z;
  attrs_json : option string;
  batch_id : option string;
  origin : option string;
}.

Record InFlightRow := mkInFlightRow { ib_batch_id : string; sent_at_ms : Z }.

Record Db := mkDb {
  pending_samples : list PendingRow;
  in_flight_batches : list InFlightRow;
  sqlite_seq : Z;
}.

Record BufferDb := mkBufferDb {
  conn : Db;
  max_rows : Z;
  dropped_total : Z;
  last_drop_log_ms : Z;
}.

Record ClaimedBatch := mkClaimedBatch {
  cb_batch_id : string;
  cb_samples : list Sample;
  cb_origin : option string;
}.

Definition DEFAULT_MAX_ROWS : Z := 5000000.

(** [BufferDb::open] on a file whose tables are [db] (an absent file has the
    empty tables): the schema statements are idempotent and the counters start
    at zero. *)
Definition empty_db : Db := mkDb [] [] 0.
Definition BufferDb_open (db : Db) (max : Z) : BufferDb := mkBufferDb db max 0 0.

#[export] Instance PendingRow_eq_dec : EqDecision PendingRow.
Proof. solve_decision. Defined.
#[export] Instance InFlightRow_eq_dec : EqDecision InFlightRow.
Proof. solve_decision. Defined.
#[export] Instance ClaimedBatch_eq_dec : EqDecision ClaimedBatch.
Proof. solve_decision. Defined.

(** ** The attribute column: [serde_json] on a string map *)
Class AttrsCodec := {
  attrs_to_string : gmap string string → result string string;
  attrs_from_str : string → option (gmap string string);
}.

(** What the code relies on: printing succeeds and parsing reads it back. *)
Class AttrsCodecOk `{AttrsCodec} :=
  attrs_roundtrip : ∀ a, ∃ s, attrs_to_string a = Ok s ∧ attrs_from_str s = Some a.

(** ** SQL statements *)

Definition with_rows (rows : list PendingRow) (db : Db) : Db :=
  mkDb rows (in_flight_batches db) (sqlite_seq db).
Definition with_in_flight (infl : list InFlightRow) (db : Db) : Db :=
  mkDb (pending_samples db) infl (sqlite_seq db).
Definition set_batch (b : option string) (r : PendingRow) : PendingRow :=
  mkPendingRow (id r) (variable_id r) (row_ts_ms r) (row_value r) (row_quality r)
    (attrs_json r) b (origin r).

(** [LIMIT n]: a negative limit means no limit. *)
Definition limit {A} (n : Z) (l : list A) : list A :=
  if n <? 0 then l else take (Z.to_nat n) l.

(** [... WHERE batch_id IS NULL ORDER BY id] *)
Definition unclaimed (rows : list PendingRow) : list PendingRow :=
  filter (λ r, batch_id r = None) rows.
(** [... WHERE batch_id = ?1 ORDER BY id] *)
Definition in_batch (b : string) (rows : list PendingRow) : list PendingRow :=
  filter (λ r, batch_id r = Some b) rows.

(** [SELECT count(...) FROM pending_samples] *)
Definition sql_count (db : Db) : Z := Z.of_nat (length (pending_samples db)).

(** [DELETE FROM pending_samples WHERE id IN (SELECT id FROM pending_samples
    WHERE batch_id IS NULL ORDER BY id LIMIT ?1)], and the rows deleted. *)
Definition sql_delete_oldest (n : Z) (db : Db) : Z * Db :=
  let ids := limit n (id <$> unclaimed (pending_samples db)) in
  let rows := filter (λ r, id r ∉ ids) (pending_samples db) in
  (Z.of_nat (length (pending_samples db)) - Z.of_nat (length rows), with_rows rows db).

(** [INSERT INTO pending_samples (...) VALUES (...)]: a NaN is bound as NULL and
    refused by [value REAL NOT NULL]; an exhausted rowid space is SQLITE_FULL. *)
Definition sql_insert_sample (s : Sample) (aj o : option string) (db : Db) : result string Db :=
  if is_nan (value s) then Err "NOT NULL constraint failed: pending_samples.value"
  else if i64_max <=? sqlite_seq db then Err "database or disk is full"
  else
    let r := mkPendingRow (sqlite_seq db + 1) (point_id s) (ts_ms s) (value s) (quality s)
               aj None o in
    Ok (mkDb (pending_samples db ++ [r]) (in_flight_batches db) (sqlite_seq db + 1)).

(** [SELECT origin ... WHERE batch_id IS NULL ORDER BY id LIMIT 1] *)
Definition sql_first_origin (db : Db) : option (option string) :=
  origin <$> head (unclaimed (pending_samples db)).

(** [SELECT id ... WHERE batch_id IS NULL AND origin IS ?1 ORDER BY id LIMIT ?2] *)
Definition sql_unclaimed_ids (o : option string) (n : Z) (db : Db) : list Z :=
  limit n (id <$> filter (λ r, origin r = o) (unclaimed (pending_samples db))).

(** [UPDATE pending_samples SET batch_id = ?1 WHERE id = ?2] *)
Definition sql_set_batch (b : string) (i : Z) (db : Db) : Db :=
  with_rows ((λ r, if decide (id r = i) then set_batch (Some b) r else r) <$> pending_samples db) db.

(** [INSERT INTO in_flight_batches ...]: the primary key refuses a known batch. *)
Definition sql_insert_in_flight (b : string) (t : Z) (db : Db) : result string Db :=
  if decide (b ∈ (ib_batch_id <$> in_flight_batches db))
  then Err "UNIQUE constraint failed: in_flight_batches.batch_id"
  else Ok (with_in_flight (in_flight_batches db ++ [mkInFlightRow b t]) db).

(** [DELETE FROM pending_samples WHERE batch_id = ?1] *)
Definition sql_delete_batch (b : string) (db : Db) : Db :=
  with_rows (filter (λ r, batch_id r ≠ Some b) (pending_samples db)) db.
(** [UPDATE pending_samples SET batch_id = NULL WHERE batch_id = ?1] *)
Definition sql_unclaim (b : string) (db : Db) : Db :=
  with_rows ((λ r, if decide (batch_id r = Some b) then set_batch None r else r)
             <$> pending_samples db) db.
(** [DELETE FROM in_flight_batches WHERE batch_id = ?1] *)
Definition sql_delete_in_flight (b : string) (db : Db) : Db :=
  with_in_flight (filter (λ r, ib_batch_id r ≠ b) (in_flight_batches db)) db.

(** [SELECT batch_id FROM in_flight_batches ORDER BY sent_at_ms] *)
Definition sent_le (r1 r2 : InFlightRow) : Prop := sent_at_ms r1 ≤ sent_at_ms r2.
#[export] Instance sent_le_dec : RelDecision sent_le.
Proof. intros r1 r2. unfold sent_le. apply _. Defined.
Definition sql_in_flight_ids (db : Db) : list string :=
  ib_batch_id <$> merge_sort sent_le (in_flight_batches db).

(** ** Effects: SQLite calls that may fail, transactions *)

(** A fault plan says, call by call, which SQLite calls fail; when it is
    exhausted the calls succeed. *)
Definition Faults := list bool.
Definition M (A : Type) : Type :=
  Faults → BufferDb → result string A * BufferDb * Faults.

Definition next_fault (p : Faults) : bool * Faults :=
  match p with [] => (false, []) | f :: p => (f, p) end.
Definition set_conn (db : Db) (b : BufferDb) : BufferDb :=
  mkBufferDb db (max_rows b) (dropped_total b) (last_drop_log_ms b).

#[export] Instance M_ret : MRet M := λ A a p b, (Ok a, b, p).
#[export] Instance M_bind : MBind M := λ A B k m p b,
  match m p b with
  | (Ok a, b', p') => k a p' b'
  | (Err e, b', p') => (Err e, b', p')
  end.
Definition throw {A} (e : string) : M A := λ p b, (Err e, b, p).
Definition of_result {A} (r : result string A) : M A :=
  match r with Ok a => mret a | Err e => throw e end.
Definition gets {A} (f : BufferDb → A) : M A := λ p b, (Ok (f b), b, p).
Definition modify (f : BufferDb → BufferDb) : M () := λ p b, (Ok (), f b, p).

Definition sqlite_error : string := "sqlite failure".
Definition call {A} (f : Db → result string (A * Db)) : M A := λ p b,
  let '(fault, p) := next_fault p in
  if fault then (Err sqlite_error, b, p)
  else match f (conn b) with
       | Ok (a, db) => (Ok a, set_conn db b, p)
       | Err e => (Err e, b, p)
       end.
Definition query {A} (f : Db → A) : M A := call (λ db, Ok (f db, db)).
Definition exec (f : Db → Db) : M () := call (λ db, Ok ((), f db)).
Definition exec_r (f : Db → result string Db) : M () := call (λ db, db' ← f db; Ok ((), db')).
Definition prepare : M () := query (λ _, ()).

(** [conn.transaction()? ... tx.commit()?]: the body says whether it reached the
    commit; anything else drops the transaction, which rolls the tables back. *)
Definition transaction {A} (body : M (A * bool)) : M A := λ p b,
  let '(fault, p) := next_fault p in
  if fault then (Err sqlite_error, b, p)
  else match body p b with
       | (Err e, b', p) => (Err e, set_conn (conn b) b', p)
       | (Ok (a, false), b', p) => (Ok a, set_conn (conn b) b', p)
       | (Ok (a, true), b', p) =>
           let '(fault, p) := next_fault p in
           if fault then (Err sqlite_error, set_conn (conn b) b', p) else (Ok a, b', p)
       end.

(** ** Operations *)

Section Operations.
Context `{AttrsCodec}.

Definition attrs_column (s : Sample) : result string (option string) :=
  if decide (attrs s = ∅) then Ok None else Some <$> attrs_to_string (attrs s).

Fixpoint insert_all (o : option string) (samples : list Sample) : M () :=
  match samples with
  | [] => mret ()
  | s :: samples =>
      aj ← of_result (attrs_column s);
      exec_r (sql_insert_sample s aj o);;
      insert_all o samples
  end.

(** The bookkeeping of a trim: the counter, and the log throttle. *)
Definition note_dropped (now_ms dropped : Z) : M () :=
  modify (λ b, mkBufferDb (conn b) (max_rows b) (as_u64 (dropped_total b + dropped))
                 (last_drop_log_ms b));;
  last ← gets last_drop_log_ms;
  if 30000 <=? as_i64 (now_ms - last)
  then modify (λ b, mkBufferDb (conn b) (max_rows b) (dropped_total b) now_ms)
  else mret ().

(** The drop-oldest part of an enqueue of [n] samples (inside its transaction). *)
Definition make_room (now_ms max_rows n : Z) : M () :=
  total ← query sql_count;
  let projected := as_u64 (as_u64 total + n) in
  if max_rows <? projected then
    let overshoot := projected - max_rows in
    let chunk := Z.max (max_rows / 100) 1 in
    let to_drop := Z.max overshoot chunk in
    dropped ← call (λ db, Ok (sql_delete_oldest (as_i64 to_drop) db));
    if 0 <? dropped then note_dropped now_ms dropped else mret ()
  else mret ().

Definition enqueue_with_origin (now_ms : Z) (o : option string) (samples : list Sample) : M () :=
  if decide (samples = []) then mret () else
  max_rows ← gets max_rows;
  transaction (
    make_room now_ms max_rows (Z.of_nat (length samples));;
    prepare;;
    insert_all o samples;;
    mret ((), true)).

(** What a call of [enqueue_with_origin] put into the table, for the histories: its
    samples under their origin when it returned, nothing when it failed. *)
Definition accepted_of {A} (o : option string) (samples : list Sample) (r : result string A) :
    list (option string * Sample) :=
  match r with Ok _ => pair o <$> samples | Err _ => [] end.

Definition row_sample (r : PendingRow) : Sample :=
  mkSample (variable_id r) (row_ts_ms r) (row_value r) (as_u32 (row_quality r))
    match attrs_json r with
    | Some s => default ∅ (attrs_from_str s)
    | None => ∅
    end.

Definition load_samples_for_batch (b : string) : M (list Sample) :=
  prepare;;
  rows ← query (λ db, in_batch b (pending_samples db));
  mret (row_sample <$> rows).

Fixpoint set_batch_all (b : string) (ids : list Z) : M () :=
  match ids with
  | [] => mret ()
  | i :: ids => exec (sql_set_batch b i);; set_batch_all b ids
  end.

(** [ulid] is the identifier [Ulid::new()] draws. *)
Definition claim_batch (ulid : string) (now_ms max_size : Z) : M (option ClaimedBatch) :=
  transaction (
    prepare;;
    first ← query sql_first_origin;
    match first with
    | None => mret (None, false)
    | Some o =>
        prepare;;
        ids ← query (sql_unclaimed_ids o (as_i64 max_size));
        if decide (ids = []) then mret (None, false) else
        prepare;;
        set_batch_all ulid ids;;
        exec_r (sql_insert_in_flight ulid now_ms);;
        samples ← load_samples_for_batch ulid;
        mret (Some (mkClaimedBatch ulid samples o), true)
    end).

Definition ack_ok (b : string) : M () :=
  transaction (
    exec (sql_delete_batch b);;
    exec (sql_delete_in_flight b);;
    mret ((), true)).

Definition ack_retry (b : string) : M () :=
  transaction (
    exec (sql_unclaim b);;
    exec (sql_delete_in_flight b);;
    mret ((), true)).

Fixpoint recover_batches (ids : list string) : M (list ClaimedBatch) :=
  match ids with
  | [] => mret []
  | b :: ids =>
      samples ← load_samples_for_batch b;
      o ← query (λ db, mjoin (origin <$> head (in_batch b (pending_samples db))));
      rest ← recover_batches ids;
      mret (mkClaimedBatch b samples o :: rest)
  end.

Definition recover_in_flight : M (list ClaimedBatch) :=
  prepare;;
  ids ← query sql_in_flight_ids;
  recover_batches ids.

Definition counts : M (Z * Z) :=
  pending ← query (λ db, Z.of_nat (length (unclaimed (pending_samples db))));
  in_flight ← query (λ db, Z.of_nat (length (filter (λ r, batch_id r ≠ None) (pending_samples db))));
  mret (pending, in_flight).
End Operations.
