(* ===== verification/BufferLogic.v ===== *)
(** * Reasoning about the buffer's computations

    A weakest precondition for the monad [M] that covers every fault plan, its
    rules, and the specification of each handler: what the tables are after a
    success, and that they are unchanged after an error. *)
From S2P Require Import Prelude Float Proto Buffer.
Local Open Scope Z_scope.

(** [wp m b Q E]: from [b], whatever calls fail, a success ends in [Q] and an
    error in [E]. *)
Definition wp {A} (m : M A) (b : BufferDb) (Q : A → BufferDb → Prop) (E : BufferDb → Prop) : Prop :=
  ∀ p, match m p b with (Ok a, b', _) => Q a b' | (Err _, b', _) => E b' end.

Lemma wp_mono {A} (m : M A) b (Q Q' : A → BufferDb → Prop) (E E' : BufferDb → Prop) :
  wp m b Q E → (∀ a b', Q a b' → Q' a b') → (∀ b', E b' → E' b') → wp m b Q' E'.
Proof. intros Hm HQ HE p. specialize (Hm p). repeat case_match; eauto. Qed.

Lemma wp_conj {A} (m : M A) b (Q Q' : A → BufferDb → Prop) (E E' : BufferDb → Prop) :
  wp m b Q E → wp m b Q' E' → wp m b (λ a b', Q a b' ∧ Q' a b') (λ b', E b' ∧ E' b').
Proof. intros Hm Hm' p. specialize (Hm p). specialize (Hm' p). by repeat case_match. Qed.

Lemma wp_ret {A} (a : A) b (Q : A → BufferDb → Prop) E : Q a b → wp (mret a) b Q E.
Proof. intros HQ p. exact HQ. Qed.

Lemma wp_bind {A B} (m : M A) (k : A → M B) b Q E :
  wp m b (λ a b', wp (k a) b' Q E) E → wp (m ≫= k) b Q E.
Proof.
  intros Hm p. specialize (Hm p). unfold mbind, M_bind.
  destruct (m p b) as [[[a|e] b'] p']; [apply Hm|done].
Qed.

Lemma wp_of_result {A} (r : result string A) b Q E :
  (∀ a, r = Ok a → Q a b) → E b → wp (of_result r) b Q E.
Proof. intros HQ HE p. destruct r; simpl; eauto. Qed.

Lemma wp_gets {A} (f : BufferDb → A) b (Q : A → BufferDb → Prop) E : Q (f b) b → wp (gets f) b Q E.
Proof. intros HQ p. exact HQ. Qed.

Lemma wp_modify f b (Q : () → BufferDb → Prop) E : Q () (f b) → wp (modify f) b Q E.
Proof. intros HQ p. exact HQ. Qed.

Lemma wp_call {A} (f : Db → result string (A * Db)) b (Q : A → BufferDb → Prop) (E : BufferDb → Prop) :
  (∀ a db, f (conn b) = Ok (a, db) → Q a (set_conn db b)) → E b → wp (call f) b Q E.
Proof.
  intros HQ HE p. unfold call. destruct (next_fault p) as [[] p']; [done|].
  destruct (f (conn b)) as [[a db]|e] eqn:Ef; eauto.
Qed.

Lemma set_conn_same b : set_conn (conn b) b = b.
Proof. by destruct b. Qed.

Lemma set_conn_conn db db' b : set_conn db (set_conn db' b) = set_conn db b.
Proof. done. Qed.

Lemma wp_query {A} (f : Db → A) b (Q : A → BufferDb → Prop) (E : BufferDb → Prop) :
  Q (f (conn b)) b → E b → wp (query f) b Q E.
Proof. intros HQ HE. apply wp_call; [|done]. intros a db [= <- <-]. by rewrite set_conn_same. Qed.

Lemma wp_exec f b (Q : () → BufferDb → Prop) (E : BufferDb → Prop) :
  Q () (set_conn (f (conn b)) b) → E b → wp (exec f) b Q E.
Proof. intros HQ HE. apply wp_call; [|done]. by intros [] db [= <-]. Qed.

Lemma wp_exec_r (f : Db → result string Db) b (Q : () → BufferDb → Prop) (E : BufferDb → Prop) :
  (∀ db, f (conn b) = Ok db → Q () (set_conn db b)) → E b → wp (exec_r f) b Q E.
Proof.
  intros HQ HE. apply wp_call; [|done]. intros [] db. unfold mbind, result_bind.
  destruct (f (conn b)) eqn:Ef; [|done]. intros [= <-]. by apply HQ.
Qed.

(** A transaction either commits the body's tables or keeps the old ones. *)
Lemma wp_transaction {A} (body : M (A * bool)) b (Q : A → BufferDb → Prop) (E : BufferDb → Prop) :
  wp body b
    (λ r b', (if r.2 then Q r.1 b' else Q r.1 (set_conn (conn b) b')) ∧ E (set_conn (conn b) b'))
    (λ b', E (set_conn (conn b) b')) →
  E b → wp (transaction body) b Q E.
Proof.
  intros Hbody HE p. unfold transaction. destruct (next_fault p) as [[] p1]; [done|].
  specialize (Hbody p1). destruct (body p1 b) as [[[[a []]|e] b'] p2]; simpl in Hbody; [| |done].
  - destruct Hbody. by destruct (next_fault p2) as [[] p3].
  - tauto.
Qed.

Ltac done_E := first [done | (simpl; by rewrite ?set_conn_conn, ?set_conn_same)].

(** [step_wp] applies the rule of the computation's head. *)
Ltac step_wp :=
  match goal with
  | |- wp (_ ≫= _) _ _ _ => apply wp_bind
  | |- wp (mret _) _ _ _ => apply wp_ret
  | |- wp prepare _ _ _ => apply wp_query; [|try done_E]
  | |- wp (query _) _ _ _ => apply wp_query; [|try done_E]
  | |- wp (exec _) _ _ _ => apply wp_exec; [|try done_E]
  | |- wp (exec_r _) _ _ _ => apply wp_exec_r; [intros ? ?|try done_E]
  | |- wp (gets _) _ _ _ => apply wp_gets
  | |- wp (modify _) _ _ _ => apply wp_modify
  | |- wp (of_result _) _ _ _ => apply wp_of_result; [intros ? ?|try done_E]
  | |- wp (call _) _ _ _ => apply wp_call; [intros ? ? ?|try done_E]
  end.

(** ** What the statements do to the two halves of the table *)

(** The rows [enqueue] adds for a batch of samples, ids counted from [seq + 1]. *)
Definition stored `{AttrsCodec} (o : option string) (s : Sample) (r : PendingRow) : Prop :=
  variable_id r = point_id s ∧ row_ts_ms r = ts_ms s ∧ row_value r = value s ∧
  row_quality r = quality s ∧ attrs_column s = Ok (attrs_json r) ∧
  batch_id r = None ∧ origin r = o ∧ is_nan (value s) = false.

Definition inserted `{AttrsCodec} (o : option string) (samples : list Sample) (db db' : Db) : Prop :=
  ∃ news, pending_samples db' = pending_samples db ++ news ∧
    in_flight_batches db' = in_flight_batches db ∧
    Forall2 (stored o) samples news ∧
    id <$> news = seqZ (sqlite_seq db + 1) (Z.of_nat (length samples)) ∧
    sqlite_seq db' = sqlite_seq db + Z.of_nat (length samples).

(** How many pending rows an enqueue of [n] samples trims. *)
Definition to_trim (max total n : Z) : Z :=
  if max <? total + n then Z.max (total + n - max) (Z.max (max / 100) 1) else 0.

Definition trimmed (k : Z) (db : Db) : Db := (sql_delete_oldest k db).2.

Section Handlers.
Context `{AttrsCodec}.

Lemma insert_all_spec (o : option string) (samples : list Sample) b :
  wp (insert_all o samples) b
    (λ _ b', inserted o samples (conn b) (conn b') ∧ b' = set_conn (conn b') b)
    (λ b', b' = set_conn (conn b') b).
Proof.
  revert b. induction samples as [|s samples IH]; intros b; cbn [insert_all].
  - step_wp. split; [|by rewrite set_conn_same]. exists []. simpl.
    rewrite app_nil_r, !Z.add_0_r. repeat split; constructor.
  - step_wp. step_wp. step_wp. step_wp.
    eapply wp_mono; [apply IH| |]; simpl.
    + intros _ b' [(news & Hr & Hi & Hs & Hid & Hseq) Hb']. split; [|by rewrite Hb'; simpl].
      unfold sql_insert_sample in *. case_match eqn:Hn; [done|]. case_match; [done|]. simplify_eq/=.
      eexists (mkPendingRow (sqlite_seq (conn b) + 1) (point_id s) (ts_ms s) (value s)
                 (quality s) a None o :: news).
      rewrite Hr, <- app_assoc. simpl in Hid, Hi, Hseq.
      split_and!; [done|done| |csimpl|simpl length; lia].
      * constructor; [|done]. unfold stored. simpl. by rewrite Hn.
      * rewrite Hid. rewrite (seqZ_cons (sqlite_seq (conn b) + 1)) by lia. f_equal. f_equal; lia.
    + intros b' ->. done.
Qed.

(** The rowid space bounds what an insert adds. *)
Lemma insert_all_bound (o : option string) (samples : list Sample) b :
  wp (insert_all o samples) b
    (λ _ b', sqlite_seq (conn b') = sqlite_seq (conn b) + Z.of_nat (length samples) ∧
             (samples = [] ∨ sqlite_seq (conn b') ≤ i64_max))
    (λ _, True).
Proof.
  revert b. induction samples as [|s samples IH]; intros b; cbn [insert_all].
  - step_wp. simpl. split; [lia|by left].
  - step_wp. step_wp. step_wp. step_wp. eapply wp_mono; [apply IH| |done]. simpl.
    intros _ b' [Hseq Hmax]. unfold sql_insert_sample in *. case_match; [done|].
    destruct (Z.leb_spec i64_max (sqlite_seq (conn b))); [done|]. simplify_eq/=.
    split; [lia|right]. destruct Hmax as [->|]; [simpl in *; lia|done].
Qed.

(** What the code relies on of the state: there are no more rows than rowids, and
    the cap is a [u64]. *)
Record sized (b : BufferDb) : Prop := {
  sz_count : sql_count (conn b) ≤ sqlite_seq (conn b);
  sz_max : is_u64 (max_rows b);
}.

(** The count and trim arithmetic stays within the machine types. *)
Definition fits (b : BufferDb) (n : Z) : Prop :=
  sql_count (conn b) + n ≤ i64_max ∧ is_u64 (max_rows b).

Lemma with_rows_same db : with_rows (pending_samples db) db = db.
Proof. by destruct db. Qed.

Lemma trimmed_0 db : sql_delete_oldest 0 db = (0, db).
Proof.
  unfold sql_delete_oldest, limit. simpl. rewrite filter_all by set_solver.
  rewrite with_rows_same. f_equal. lia.
Qed.

Definition dropped_by (k : Z) (db : Db) : Z := (sql_delete_oldest k db).1.

Lemma as_i64_small z : 0 ≤ z ≤ i64_max → as_i64 z = z.
Proof.
  intros Hz. unfold as_i64, as_signed, i64_max in *. rewrite Z.mod_small by lia.
  destruct (Z.ltb_spec z (2 ^ (64 - 1))); lia.
Qed.


Definition dropped_counter (b : BufferDb) (k : Z) : Z :=
  if 0 <? dropped_by k (conn b) then as_u64 (dropped_total b + dropped_by k (conn b))
  else dropped_total b.

Lemma note_dropped_spec now d b Q E :
  (∀ t, Q () (mkBufferDb (conn b) (max_rows b) (as_u64 (dropped_total b + d)) t)) →
  wp (note_dropped now d) b Q E.
Proof.
  intros HQ. unfold note_dropped. do 4 step_wp. simpl. case_match; step_wp; apply HQ.
Qed.

Lemma make_room_spec now n b :
  let k := to_trim (max_rows b) (sql_count (conn b)) n in
  0 ≤ n → fits b n →
  wp (make_room now (max_rows b) n) b
    (λ _ b', conn b' = trimmed k (conn b) ∧ max_rows b' = max_rows b ∧
             dropped_total b' = dropped_counter b k)
    (λ b', max_rows b' = max_rows b).
Proof.
  intros k Hn [Hfit Hmax]. unfold make_room. step_wp. step_wp.
  assert (0 ≤ sql_count (conn b)) by (unfold sql_count; lia).
  rewrite (as_u64_small (sql_count _)), as_u64_small
    by (unfold is_u64, i64_max in *; lia).
  destruct (Z.ltb_spec (max_rows b) (sql_count (conn b) + n)) as [Hlt|Hge].
  - assert (k = Z.max (sql_count (conn b) + n - max_rows b) (Z.max (max_rows b / 100) 1)) as <-.
    { unfold k, to_trim. destruct (Z.ltb_spec (max_rows b) (sql_count (conn b) + n)); lia. }
    rewrite as_i64_small.
    2: { unfold k, to_trim, i64_max, is_u64 in *. destruct (Z.ltb_spec (max_rows b) (sql_count (conn b) + n)); [dlia|lia]. }
    unfold dropped_counter, trimmed, dropped_by.
    destruct (sql_delete_oldest k (conn b)) as [d db] eqn:E. simpl.
    apply wp_bind, wp_call; [rewrite E; intros ? ? [= <- <-]|done].
    case_match; [apply note_dropped_spec; intros t|step_wp]; done.
  - assert (k = 0) as Hk.
    { unfold k, to_trim. destruct (Z.ltb_spec (max_rows b) (sql_count (conn b) + n)); lia. }
    rewrite Hk. unfold dropped_counter, trimmed, dropped_by. rewrite trimmed_0. simpl.
    by step_wp.
Qed.

(** Trimming does not give rowids back. *)
Lemma make_room_seq now max n b :
  wp (make_room now max n) b (λ _ b', sqlite_seq (conn b') = sqlite_seq (conn b)) (λ _, True).
Proof.
  unfold make_room. step_wp. step_wp. case_match; [|by step_wp]. step_wp. apply wp_call; [|done].
  intros d db. destruct (sql_delete_oldest _ _) as [d' db'] eqn:E. intros [= <- <-].
  assert (sqlite_seq db' = sqlite_seq (conn b)) as Hs by (unfold sql_delete_oldest in E; by injection E as _ <-).
  case_match; [|by step_wp]. by apply note_dropped_spec.
Qed.

Lemma make_room_keeps now max n b :
  wp (make_room now max n) b (λ _ b', max_rows b' = max_rows b) (λ b', max_rows b' = max_rows b).
Proof.
  unfold make_room. step_wp. step_wp. case_match; [|by step_wp]. step_wp. apply wp_call; [|done].
  intros d db _. case_match; [|by step_wp]. by apply note_dropped_spec.
Qed.

(** More samples than rowids left: the inserts fail, and nothing changes. *)
Lemma enqueue_full now (o : option string) (samples : list Sample) b :
  samples ≠ [] → i64_max < sqlite_seq (conn b) + Z.of_nat (length samples) →
  wp (enqueue_with_origin now o samples) b (λ _ _, False) (λ b', conn b' = conn b ∧ max_rows b' = max_rows b).
Proof.
  intros Hne Hbig. unfold enqueue_with_origin. rewrite decide_False by done. do 2 step_wp.
  apply wp_transaction; [|done]. step_wp.
  eapply wp_mono; [apply wp_conj; [apply make_room_seq|apply make_room_keeps]| |by intros b' [_ Hm]].
  intros [] b1 [Hs Hm]. do 2 step_wp. step_wp.
  eapply wp_mono; [apply wp_conj; [apply insert_all_bound|apply insert_all_spec]| |by intros b' [_ ->]].
  intros [] b2 [[Hs' [Hn|Hle]] _]; [done|]. lia.
Qed.

Lemma enqueue_spec now (o : option string) (samples : list Sample) b :
  let n := Z.of_nat (length samples) in
  let k := to_trim (max_rows b) (sql_count (conn b)) n in
  sized b → samples ≠ [] →
  wp (enqueue_with_origin now o samples) b
    (λ _ b', inserted o samples (trimmed k (conn b)) (conn b') ∧ max_rows b' = max_rows b ∧
             dropped_total b' = dropped_counter b k)
    (λ b', conn b' = conn b ∧ max_rows b' = max_rows b).
Proof.
  intros n k [Hcount Hmax] Hne. destruct (decide (sql_count (conn b) + n ≤ i64_max)) as [Hfit|Hbig].
  2:{ eapply wp_mono; [apply enqueue_full; [done|fold n; lia]|done|done]. }
  unfold enqueue_with_origin. rewrite decide_False by done. do 2 step_wp. apply wp_transaction; [|done].
  step_wp. eapply wp_mono; [apply make_room_spec; [lia|done]| |done].
  fold n. fold k. intros [] b1 (Hc & Hm & Hd). do 2 step_wp. step_wp.
  eapply wp_mono; [apply insert_all_spec| |].
  - intros [] b2 [Hi ->]. step_wp. simpl. rewrite Hc in Hi. done.
  - by intros b2 ->.
Qed.

(** The rows after [UPDATE ... SET batch_id = b WHERE id = i], for every [i] of a list. *)
Definition tag_rows (b : string) (ids : list Z) (rows : list PendingRow) : list PendingRow :=
  (λ r, if decide (id r ∈ ids) then set_batch (Some b) r else r) <$> rows.

Lemma tag_rows_cons b i ids rows :
  tag_rows b ids ((λ r, if decide (id r = i) then set_batch (Some b) r else r) <$> rows) =
  tag_rows b (i :: ids) rows.
Proof.
  unfold tag_rows. rewrite <- list_fmap_compose. apply list_fmap_ext. intros j r _. simpl.
  destruct (decide (id r = i)); simpl; repeat case_decide; try done; set_solver.
Qed.

Lemma set_batch_all_spec (u : string) (ids : list Z) b :
  wp (set_batch_all u ids) b
    (λ _ b', b' = set_conn (with_rows (tag_rows u ids (pending_samples (conn b))) (conn b)) b)
    (λ b', b' = set_conn (conn b') b).
Proof.
  revert b. induction ids as [|i ids IH]; intros b; cbn [set_batch_all].
  - step_wp. unfold tag_rows.
    assert (tag_rows u [] (pending_samples (conn b)) = pending_samples (conn b)) as E.
    { unfold tag_rows. rewrite <- (list_fmap_id (pending_samples (conn b))) at 2.
      apply list_fmap_ext. intros j r _. by rewrite decide_False by set_solver. }
    unfold tag_rows in E. rewrite E. destruct b as [[]]; done.
  - step_wp. step_wp. eapply wp_mono; [apply IH| |].
    + intros _ b' ->. simpl. by rewrite tag_rows_cons.
    + by intros b' ->.
Qed.

Lemma load_samples_spec (u : string) b :
  wp (load_samples_for_batch u) b
    (λ l b', b' = b ∧ l = row_sample <$> in_batch u (pending_samples (conn b))) (λ b', b' = b).
Proof. unfold load_samples_for_batch. by do 5 step_wp. Qed.

(** The rows a claim of at most [n] takes: the oldest unclaimed row's origin,
    oldest first. *)
Definition claimable (o : option string) (rows : list PendingRow) : list PendingRow :=
  filter (λ r, origin r = o) (unclaimed rows).
Definition selected (n : Z) (o : option string) (rows : list PendingRow) : list PendingRow :=
  limit n (claimable o rows).

Lemma limit_fmap {A B} (f : A → B) n (l : list A) : limit n (f <$> l) = f <$> limit n l.
Proof. unfold limit. case_match; [done|]. by rewrite fmap_take. Qed.

Lemma claim_spec u now n b :
  wp (claim_batch u now n) b
    (λ r b', (match r with
             | None => (conn b' = conn b) ∧
                 (unclaimed (pending_samples (conn b)) = [] ∨
                  ∃ o, sql_first_origin (conn b) = Some o ∧
                       selected (as_i64 n) o (pending_samples (conn b)) = [])
             | Some cb =>
                 let rows := pending_samples (conn b) in
                 let sel := selected (as_i64 n) (cb_origin cb) rows in
                 let rows' := tag_rows u (id <$> sel) rows in
                 sql_first_origin (conn b) = Some (cb_origin cb) ∧ sel ≠ [] ∧
                 (u ∉ (ib_batch_id <$> in_flight_batches (conn b))) ∧
                 conn b' = mkDb rows' (in_flight_batches (conn b) ++ [mkInFlightRow u now])
                             (sqlite_seq (conn b)) ∧
                 cb = mkClaimedBatch u (row_sample <$> in_batch u rows') (cb_origin cb)
             end) ∧ b' = set_conn (conn b') b)
    (λ b', b' = b).
Proof.
  unfold claim_batch. apply wp_transaction; [|done].
  step_wp. step_wp. step_wp. step_wp.
  destruct (sql_first_origin (conn b)) as [o|] eqn:Ho.
  2: { step_wp. simpl. rewrite set_conn_same. split_and!; try done. left.
       unfold sql_first_origin in Ho. by destruct (unclaimed _). }
  step_wp. step_wp. step_wp. step_wp.
  unfold sql_unclaimed_ids. rewrite limit_fmap.
  fold (claimable o (pending_samples (conn b))).
  fold (selected (as_i64 n) o (pending_samples (conn b))).
  set (sel := selected (as_i64 n) o (pending_samples (conn b))).
  case_decide as Hsel.
  { apply fmap_nil_inv in Hsel. step_wp. simpl. rewrite set_conn_same. split_and!; try done. eauto. }
  step_wp. step_wp. step_wp.
  eapply wp_mono; [apply set_batch_all_spec| |].
  2: { intros b' ->. simpl. by rewrite set_conn_conn, set_conn_same. }
  intros _ b1 ->. step_wp. step_wp.
  unfold sql_insert_in_flight in *. simpl in *. case_decide as Hu; [done|].
  simplify_eq. step_wp. eapply wp_mono; [apply load_samples_spec| |].
  2: { intros b' ->. simpl. by destruct b. }
  intros l b2 [-> ->]. step_wp. simpl. split_and!; try done; [|by destruct b].
  intros E. apply Hsel. unfold sel. cbn in E. by rewrite E.
Qed.
(** The two acknowledgements. *)
Lemma ack_ok_spec u b :
  wp (ack_ok u) b
    (λ _ b', b' = set_conn (sql_delete_in_flight u (sql_delete_batch u (conn b))) b)
    (λ b', b' = b).
Proof. unfold ack_ok. apply wp_transaction; [|done]. do 5 step_wp. simpl. by destruct b. Qed.

Lemma ack_retry_spec u b :
  wp (ack_retry u) b
    (λ _ b', b' = set_conn (sql_delete_in_flight u (sql_unclaim u (conn b))) b)
    (λ b', b' = b).
Proof. unfold ack_retry. apply wp_transaction; [|done]. do 5 step_wp. simpl. by destruct b. Qed.

(** The batch a restart reads back for an identifier. *)
Definition recovered (db : Db) (u : string) : ClaimedBatch :=
  mkClaimedBatch u (row_sample <$> in_batch u (pending_samples db))
    (mjoin (origin <$> head (in_batch u (pending_samples db)))).

Lemma recover_batches_spec ids b :
  wp (recover_batches ids) b (λ l b', b' = b ∧ l = recovered (conn b) <$> ids) (λ b', b' = b).
Proof.
  induction ids as [|u ids IH]; cbn [recover_batches]; [by step_wp|].
  step_wp. eapply wp_mono; [apply load_samples_spec| |done]. intros l b1 [-> ->].
  do 3 step_wp. eapply wp_mono; [apply IH| |done]. intros l' b1 [-> ->]. by step_wp.
Qed.

Lemma recover_in_flight_spec b :
  wp recover_in_flight b
    (λ l b', b' = b ∧ l = recovered (conn b) <$> sql_in_flight_ids (conn b)) (λ b', b' = b).
Proof. unfold recover_in_flight. do 4 step_wp. apply recover_batches_spec. Qed.
End Handlers.
