(* ===== verification/BufferInv.v ===== *)
(** * Invariants of the buffer's tables

    The well-formedness of the two tables, what each statement does to the
    pending rows and to each batch, and the preservation of well-formedness by
    every handler, whatever SQLite calls fail. *)
From S2P Require Import Prelude Float Proto Buffer BufferLogic.
Local Open Scope Z_scope.

(** ** Well-formed tables

    Row ids increase and are all drawn; a batch is in flight exactly when some
    row carries it; the rows of a batch share one origin; no batch twice. *)
Record wf (db : Db) : Prop := {
  wf_sorted : StronglySorted Z.lt (id <$> pending_samples db);
  wf_seq : ∀ r, r ∈ pending_samples db → id r ≤ sqlite_seq db;
  wf_batches : ∀ u, in_batch u (pending_samples db) ≠ [] ↔ u ∈ (ib_batch_id <$> in_flight_batches db);
  wf_origin : ∀ u r1 r2, r1 ∈ in_batch u (pending_samples db) →
    r2 ∈ in_batch u (pending_samples db) → origin r1 = origin r2;
  wf_unique : NoDup (ib_batch_id <$> in_flight_batches db);
}.
Arguments wf_sorted {_} _.
Arguments wf_seq {_} _.
Arguments wf_batches {_} _.
Arguments wf_origin {_} _.
Arguments wf_unique {_} _.

Lemma wf_NoDup db : wf db → NoDup (id <$> pending_samples db).
Proof. intros Hwf. apply StronglySorted_lt_NoDup, Hwf. Qed.

Lemma wf_empty : wf empty_db.
Proof. split; simpl; try set_solver; constructor. Qed.

#[export] Hint Resolve wf_NoDup wf_empty : lymon.

(** ** Membership in the halves *)
Lemma elem_of_unclaimed r rows : r ∈ unclaimed rows ↔ batch_id r = None ∧ r ∈ rows.
Proof. unfold unclaimed. by rewrite list_elem_of_filter. Qed.
Lemma elem_of_in_batch r u rows : r ∈ in_batch u rows ↔ batch_id r = Some u ∧ r ∈ rows.
Proof. unfold in_batch. by rewrite list_elem_of_filter. Qed.
Lemma elem_of_claimable r o rows :
  r ∈ claimable o rows ↔ origin r = o ∧ batch_id r = None ∧ r ∈ rows.
Proof. unfold claimable. by rewrite list_elem_of_filter, elem_of_unclaimed. Qed.
Lemma elem_of_limit {A} n (x : A) l : x ∈ limit n l → x ∈ l.
Proof.
  unfold limit. case_match; [done|]. intros (i & Hi)%list_elem_of_lookup.
  apply list_elem_of_lookup. exists i. by apply lookup_take_Some in Hi as [? _].
Qed.
Lemma elem_of_selected r n o rows :
  r ∈ selected n o rows → origin r = o ∧ batch_id r = None ∧ r ∈ rows.
Proof. intros Hr%elem_of_limit. by apply elem_of_claimable. Qed.

(** ** Trimming *)
Lemma trimmed_rows k db :
  pending_samples (trimmed k db) =
  filter (λ r, id r ∉ limit k (id <$> unclaimed (pending_samples db))) (pending_samples db).
Proof. done. Qed.

Lemma limit_nonneg {A} k (l : list A) : 0 ≤ k → limit k l = take (Z.to_nat k) l.
Proof. intros. unfold limit. destruct (Z.ltb_spec k 0); [lia|done]. Qed.

Lemma unclaimed_trimmed k db :
  NoDup (id <$> pending_samples db) → 0 ≤ k →
  unclaimed (pending_samples (trimmed k db)) = drop (Z.to_nat k) (unclaimed (pending_samples db)).
Proof.
  intros Hnd Hk. rewrite trimmed_rows, limit_nonneg by done.
  rewrite <- (filter_key_not_in_take id) by (by apply NoDup_key_filter).
  unfold unclaimed. rewrite !filter_filter. apply filter_iff_on. tauto.
Qed.

Lemma in_batch_trimmed u k db :
  NoDup (id <$> pending_samples db) →
  in_batch u (pending_samples (trimmed k db)) = in_batch u (pending_samples db).
Proof.
  intros Hnd. rewrite trimmed_rows. unfold in_batch. rewrite filter_filter.
  apply filter_iff_on. intros r Hr. split; [tauto|]. intros Hu. split; [done|].
  intros (r' & E & Hr')%elem_of_limit%list_elem_of_fmap.
  apply elem_of_unclaimed in Hr' as [Hn Hr']. 
  assert (r = r') as -> by (by eapply (NoDup_key_inj id)). congruence.
Qed.

(** ** Inserting *)
Section Insert.
Context `{AttrsCodec}.

Lemma stored_pending o samples news :
  Forall2 (stored o) samples news → ∀ r, r ∈ news → batch_id r = None ∧ origin r = o.
Proof.
  induction 1 as [|s r samples news Hs _ IH]; [set_solver|].
  intros r' [->|Hr]%elem_of_cons; [|by apply IH]. unfold stored in Hs. tauto.
Qed.

Lemma unclaimed_app_pending rows news :
  (∀ r, r ∈ news → batch_id r = None) → unclaimed (rows ++ news) = unclaimed rows ++ news.
Proof. intros Hn. unfold unclaimed. by rewrite filter_app, (filter_all _ news). Qed.

Lemma in_batch_app_pending u rows news :
  (∀ r, r ∈ news → batch_id r = None) → in_batch u (rows ++ news) = in_batch u rows.
Proof.
  intros Hn. unfold in_batch. rewrite filter_app, (filter_none _ news), app_nil_r; [done|].
  intros r Hr. rewrite Hn by done. done.
Qed.

Lemma inserted_wf o samples db db' : inserted o samples db db' → wf db → wf db'.
Proof.
  intros (news & Hr & Hi & Hs & Hid & Hseq) Hwf.
  assert (∀ r, r ∈ news → batch_id r = None) as Hn by (intros; by eapply stored_pending).
  assert (∀ r, r ∈ news → sqlite_seq db + 1 ≤ id r ≤ sqlite_seq db') as Hb.
  { intros r Hin. assert (id r ∈ id <$> news) as He by (by apply list_elem_of_fmap_2).
    rewrite Hid in He. apply elem_of_seqZ in He. lia. }
  split; rewrite ?Hr, ?Hi.
  - rewrite fmap_app. apply StronglySorted_lt_app; [apply Hwf|rewrite Hid; apply StronglySorted_seqZ|].
    intros x y (r & -> & Hx)%list_elem_of_fmap (r' & -> & Hy)%list_elem_of_fmap.
    apply (wf_seq Hwf) in Hx. apply Hb in Hy. lia.
  - intros r [Hin|Hin]%elem_of_app; [apply (wf_seq Hwf) in Hin; lia|apply Hb in Hin; lia].
  - intros u. rewrite in_batch_app_pending by done. apply (wf_batches Hwf).
  - intros u r1 r2. rewrite in_batch_app_pending by done. apply (wf_origin Hwf).
  - apply Hwf.
Qed.
End Insert.

(** ** Retagging rows: claim and retry *)
Section Retag.
Context (c : PendingRow → Prop) `{∀ r, Decision (c r)} (u : option string).

Definition retag (rows : list PendingRow) : list PendingRow :=
  (λ r, if decide (c r) then set_batch u r else r) <$> rows.

Lemma retag_id rows : id <$> retag rows = id <$> rows.
Proof.
  unfold retag. rewrite <- list_fmap_compose. apply list_fmap_ext. intros i r _. simpl. by case_match.
Qed.

Lemma retag_none rows : (∀ r, r ∈ rows → ¬ c r) → retag rows = rows.
Proof.
  intros Hc. unfold retag. rewrite <- (list_fmap_id rows) at 2. apply list_fmap_ext.
  intros i r Hr%list_elem_of_lookup_2. rewrite decide_False by auto. done.
Qed.

Lemma retag_all rows : (∀ r, r ∈ rows → c r) → retag rows = set_batch u <$> rows.
Proof.
  intros Hc. apply list_fmap_ext. intros i r Hr%list_elem_of_lookup_2. by rewrite decide_True by auto.
Qed.

(** A half [b] after a retag to [u]: the rows that keep their tag and, when
    [b = u], the retagged ones, in table order. *)
Lemma filter_retag (b : option string) `{∀ r, Decision (batch_id r = b)} rows :
  filter (λ r, batch_id r = b) (retag rows) =
  retag (filter (λ r, (c r ∧ u = b) ∨ (¬ c r ∧ batch_id r = b)) rows).
Proof.
  unfold retag. rewrite filter_fmap. f_equal. apply filter_iff_on. intros r _.
  destruct (decide (c r)); simpl; tauto.
Qed.

Lemma filter_retag_other (b : option string) `{∀ r, Decision (batch_id r = b)} rows :
  u ≠ b → filter (λ r, batch_id r = b) (retag rows) =
          filter (λ r, batch_id r = b ∧ ¬ c r) rows.
Proof.
  intros Hu. rewrite filter_retag, retag_none.
  - apply filter_iff_on. intros r _. tauto.
  - intros r [Hr _]%list_elem_of_filter. tauto.
Qed.

Lemma retag_wf_ids rows seq :
  StronglySorted Z.lt (id <$> rows) → (∀ r, r ∈ rows → id r ≤ seq) →
  StronglySorted Z.lt (id <$> retag rows) ∧ (∀ r, r ∈ retag rows → id r ≤ seq).
Proof.
  intros Hs Hq. rewrite retag_id. split; [done|]. intros r Hr.
  apply (list_elem_of_fmap_2 id) in Hr. rewrite retag_id in Hr.
  apply list_elem_of_fmap in Hr as (r' & -> & Hr'). auto.
Qed.
End Retag.

(** ** The halves after each handler *)
Section Halves.
Implicit Types (rows : list PendingRow) (db : Db).

Lemma tag_rows_retag u ids rows : tag_rows u ids rows = retag (λ r, id r ∈ ids) (Some u) rows.
Proof. done. Qed.
Lemma sql_unclaim_retag u db :
  pending_samples (sql_unclaim u db) = retag (λ r, batch_id r = Some u) None (pending_samples db).
Proof. done. Qed.

(** Claim: the selected rows move from the unclaimed half to batch [u]. *)
Lemma in_batch_tag_rows u v ids rows :
  u ≠ v → (∀ r, r ∈ rows → id r ∈ ids → batch_id r = None) →
  in_batch v (tag_rows u ids rows) = in_batch v rows.
Proof.
  intros Huv Hids. unfold in_batch. rewrite tag_rows_retag, filter_retag_other by congruence.
  apply filter_iff_on. intros r Hr. split; [tauto|]. intros E. split; [done|].
  intros Hin. rewrite Hids in E; done.
Qed.

Lemma unclaimed_tag_rows u ids rows :
  unclaimed (tag_rows u ids rows) = filter (λ r, id r ∉ ids) (unclaimed rows).
Proof.
  unfold unclaimed. rewrite tag_rows_retag, filter_retag_other by done.
  rewrite filter_filter. apply filter_iff_on. tauto.
Qed.

Lemma in_batch_tag_rows_new u sel rows :
  NoDup (id <$> rows) → in_batch u rows = [] → sublist sel rows →
  in_batch u (tag_rows u (id <$> sel) rows) = set_batch (Some u) <$> sel.
Proof.
  intros Hnd Hu Hsub. unfold in_batch. rewrite tag_rows_retag, filter_retag, retag_all.
  2: { intros r [[[Hr _]|[_ Hr]] Hin]%list_elem_of_filter; [done|].
       assert (r ∈ in_batch u rows) as Hc by (by apply elem_of_in_batch). rewrite Hu in Hc. set_solver. }
  f_equal. rewrite (filter_iff_on _ (λ r, id r ∈ (id <$> sel))).
  2: { intros r Hin. split; [|tauto]. intros [?|[_ Hr]]; [tauto|].
       assert (r ∈ in_batch u rows) as Hc by (by apply elem_of_in_batch). rewrite Hu in Hc. set_solver. }
  by apply filter_key_in_sublist.
Qed.

(** Retry: the rows of batch [u] return to the unclaimed half. *)
Lemma unclaimed_sql_unclaim u db :
  unclaimed (pending_samples (sql_unclaim u db)) =
  set_batch None <$> filter (λ r, batch_id r = Some u ∨ batch_id r = None) (pending_samples db).
Proof.
  unfold unclaimed. rewrite sql_unclaim_retag, filter_retag. rewrite (filter_iff_on _ (λ r, batch_id r = Some u ∨ batch_id r = None)).
  2: { intros r _. destruct (decide (batch_id r = Some u)); tauto. }
  apply list_fmap_ext. intros i r Hr%list_elem_of_lookup_2.
  apply list_elem_of_filter in Hr as [Hr _]. case_decide; [done|].
  destruct Hr as [|Hr]; [done|]. destruct r; simpl in Hr; by subst.
Qed.

Lemma in_batch_sql_unclaim u v db :
  in_batch v (pending_samples (sql_unclaim u db)) =
  if decide (u = v) then [] else in_batch v (pending_samples db).
Proof.
  unfold in_batch. rewrite sql_unclaim_retag, filter_retag_other by done. case_decide as E.
  - subst. apply filter_none. tauto.
  - apply filter_iff_on. naive_solver.
Qed.

(** Ack: batch [u] disappears, nothing else changes. *)
Lemma in_batch_sql_delete u v db :
  in_batch v (pending_samples (sql_delete_batch u db)) =
  if decide (u = v) then [] else in_batch v (pending_samples db).
Proof.
  unfold in_batch, sql_delete_batch. simpl. rewrite filter_filter. case_decide as E.
  - subst. apply filter_none. naive_solver.
  - apply filter_iff_on. naive_solver.
Qed.

Lemma unclaimed_sql_delete u db :
  unclaimed (pending_samples (sql_delete_batch u db)) = unclaimed (pending_samples db).
Proof.
  unfold unclaimed, sql_delete_batch. simpl. rewrite filter_filter. apply filter_iff_on. naive_solver.
Qed.

Lemma limit_sublist {A} n (l : list A) : sublist (limit n l) l.
Proof. unfold limit. case_match; [done|apply sublist_take]. Qed.

Lemma selected_sublist n o rows : sublist (selected n o rows) rows.
Proof.
  unfold selected, claimable, unclaimed.
  etrans; [apply limit_sublist|]. etrans; apply sublist_filter.
Qed.
End Halves.

(** ** Every handler keeps the tables well formed *)

Lemma pending_deleted u db : pending_samples (sql_delete_in_flight u db) = pending_samples db.
Proof. done. Qed.

Lemma in_flight_deleted u db :
  ∀ v, v ∈ (ib_batch_id <$> in_flight_batches (sql_delete_in_flight u db)) ↔
       u ≠ v ∧ v ∈ (ib_batch_id <$> in_flight_batches db).
Proof.
  intros v. simpl. rewrite !list_elem_of_fmap. split.
  - intros (i & -> & [Hi ?]%list_elem_of_filter). split; [congruence|eauto].
  - intros (Hu & i & -> & Hi). exists i. split; [done|].
    apply list_elem_of_filter. split; [congruence|done].
Qed.

Lemma in_flight_deleted_NoDup u db :
  NoDup (ib_batch_id <$> in_flight_batches db) →
  NoDup (ib_batch_id <$> in_flight_batches (sql_delete_in_flight u db)).
Proof.
  simpl. intros Hnd. eapply sublist_NoDup; [exact Hnd|]. apply fmap_sublist, sublist_filter.
Qed.

Lemma trimmed_wf k db : wf db → wf (trimmed k db).
Proof.
  intros Hwf. split.
  - rewrite trimmed_rows. apply StronglySorted_fmap_filter, Hwf.
  - rewrite trimmed_rows. intros r [_ Hr]%list_elem_of_filter. by apply (wf_seq Hwf).
  - intros u. rewrite in_batch_trimmed by auto with lymon. apply (wf_batches Hwf).
  - intros u r1 r2. rewrite in_batch_trimmed by auto with lymon. apply (wf_origin Hwf).
  - apply Hwf.
Qed.

Lemma ack_ok_wf u db : wf db → wf (sql_delete_in_flight u (sql_delete_batch u db)).
Proof.
  intros Hwf. split.
  - apply StronglySorted_fmap_filter, Hwf.
  - intros r [_ Hr]%list_elem_of_filter. by apply (wf_seq Hwf).
  - intros v. rewrite in_flight_deleted, pending_deleted, in_batch_sql_delete. simpl.
    rewrite <- (wf_batches Hwf). case_decide; naive_solver.
  - intros v r1 r2. rewrite pending_deleted, in_batch_sql_delete. case_decide; [set_solver|apply (wf_origin Hwf)].
  - apply in_flight_deleted_NoDup, Hwf.
Qed.

Lemma ack_retry_wf u db : wf db → wf (sql_delete_in_flight u (sql_unclaim u db)).
Proof.
  intros Hwf.
  destruct (retag_wf_ids (λ r, batch_id r = Some u) None _ _ (wf_sorted Hwf) (wf_seq Hwf)) as [Hs Hq].
  split; [exact Hs|exact Hq| | |apply in_flight_deleted_NoDup, Hwf].
  - intros v. rewrite in_flight_deleted, pending_deleted, in_batch_sql_unclaim. simpl.
    rewrite <- (wf_batches Hwf). case_decide; naive_solver.
  - intros v r1 r2. rewrite pending_deleted, in_batch_sql_unclaim. case_decide; [set_solver|apply (wf_origin Hwf)].
Qed.

(** What a claim needs of the rows it takes. *)
Lemma claimed_in_batch u v n o db :
  wf db → (u ∉ (ib_batch_id <$> in_flight_batches db)) →
  let sel := selected n o (pending_samples db) in
  in_batch v (tag_rows u (id <$> sel) (pending_samples db)) =
  if decide (u = v) then set_batch (Some u) <$> sel else in_batch v (pending_samples db).
Proof.
  intros Hwf Hu sel. case_decide as E.
  - subst v. apply in_batch_tag_rows_new; [auto with lymon| |apply selected_sublist].
    destruct (in_batch u (pending_samples db)) eqn:Hb; [done|].
    destruct Hu. apply (wf_batches Hwf). by rewrite Hb.
  - apply in_batch_tag_rows; [done|]. intros r Hr (r' & Hid & Hr')%list_elem_of_fmap.
    apply elem_of_selected in Hr' as (_ & Hn & Hr').
    rewrite (NoDup_key_inj id (pending_samples db) r r'); eauto with lymon.
Qed.

Lemma claim_wf u now n o db :
  wf db → (u ∉ (ib_batch_id <$> in_flight_batches db)) →
  let sel := selected n o (pending_samples db) in
  sel ≠ [] →
  wf (mkDb (tag_rows u (id <$> sel) (pending_samples db))
        (in_flight_batches db ++ [mkInFlightRow u now]) (sqlite_seq db)).
Proof.
  intros Hwf Hu sel Hne.
  destruct (retag_wf_ids (λ r, id r ∈ (id <$> sel)) (Some u) _ _ (wf_sorted Hwf) (wf_seq Hwf)) as [Hs Hq].
  split; [exact Hs|exact Hq| | |]; cbn [pending_samples in_flight_batches].
  - intros v. unfold sel. rewrite claimed_in_batch by done. rewrite fmap_app, elem_of_app. simpl.
    rewrite list_elem_of_singleton. fold sel. case_decide as E; subst.
    + split; [tauto|]. intros _ ?%fmap_nil_inv. done.
    + rewrite (wf_batches Hwf). naive_solver.
  - intros v r1 r2. unfold sel. rewrite claimed_in_batch by done. fold sel. case_decide; [|apply (wf_origin Hwf)].
    intros (x & -> & Hx)%list_elem_of_fmap (y & -> & Hy)%list_elem_of_fmap.
    apply elem_of_selected in Hx, Hy. simpl. naive_solver congruence.
  - rewrite fmap_app. apply NoDup_app. split; [apply Hwf|]. simpl. split; [|apply NoDup_singleton].
    intros v Hv ->%list_elem_of_singleton. done.
Qed.
