(* ===== verification/BufferSpec.v ===== *)
(** * What the buffer promises: an abstract queue, and the refinement

    [Spec] is the buffer as its callers see it: the pending entries oldest
    first, the batches in flight in claim order, and, as history, the entries
    delivered and the entries dropped. [spec_step] is each operation on it.
    The simulation lemmas say that a handler of [Buffer.v] that returns does its
    abstract step, and one that fails does nothing. *)
From S2P Require Import Prelude Float Proto Buffer BufferLogic BufferInv.
Local Open Scope Z_scope.

(** ** The abstract queue *)

Record Entry := mkEntry { e_id : Z; e_origin : option string; e_sample : Sample }.

Record Spec := mkSpec {
  sp_pending : list Entry;
  sp_flying : list (string * list Entry);
  sp_next : Z;
  sp_delivered : list Entry;
  sp_dropped : list Entry;
}.

Definition spec_init : Spec := mkSpec [] [] 1 [] [].

Inductive Op :=
| OEnqueue (now : Z) (o : option string) (samples : list Sample)
| OClaim (ulid : string) (now max_size : Z)
| OAckOk (b : string)
| OAckRetry (b : string)
| ORestart (max : Z).

Definition flying_entries (s : Spec) : list Entry := mjoin (sp_flying s).*2.
Definition sp_total (s : Spec) : Z :=
  Z.of_nat (length (sp_pending s) + length (flying_entries s)).

Definition new_entries (next : Z) (o : option string) (samples : list Sample) : list Entry :=
  zip_with (λ i s, mkEntry i o s) (seqZ next (Z.of_nat (length samples))) samples.

(** Drop-oldest, then append. *)
Definition spec_enqueue (max : Z) (o : option string) (samples : list Sample) (s : Spec) : Spec :=
  let n := Z.of_nat (length samples) in
  let k := Z.to_nat (to_trim max (sp_total s) n) in
  mkSpec (drop k (sp_pending s) ++ new_entries (sp_next s) o samples) (sp_flying s)
    (sp_next s + n) (sp_delivered s) (sp_dropped s ++ take k (sp_pending s)).

(** The oldest entries of the oldest entry's origin, at most [n]. *)
Definition claimed_entries (n : Z) (pending : list Entry) : list Entry :=
  match pending with
  | [] => []
  | e :: _ => limit n (filter (λ e', e_origin e' = e_origin e) pending)
  end.

Definition spec_claim (u : string) (n : Z) (s : Spec) : Spec :=
  match claimed_entries (as_i64 n) (sp_pending s) with
  | [] => s
  | es => mkSpec (filter (λ e, e_id e ∉ (e_id <$> es)) (sp_pending s)) (sp_flying s ++ [(u, es)])
            (sp_next s) (sp_delivered s) (sp_dropped s)
  end.

Definition flying_of (u : string) (s : Spec) : list Entry :=
  mjoin (filter (λ p, p.1 = u) (sp_flying s)).*2.
Definition not_flying (u : string) (s : Spec) : list (string * list Entry) :=
  filter (λ p, p.1 ≠ u) (sp_flying s).

Definition spec_ack_ok (u : string) (s : Spec) : Spec :=
  mkSpec (sp_pending s) (not_flying u s) (sp_next s)
    (sp_delivered s ++ flying_of u s) (sp_dropped s).

(** The entries of a refused batch go back to their place in the queue. *)
Definition entry_le (e1 e2 : Entry) : Prop := e_id e1 ≤ e_id e2.
#[export] Instance entry_le_dec : RelDecision entry_le.
Proof. intros e1 e2. unfold entry_le. apply _. Defined.
Definition spec_ack_retry (u : string) (s : Spec) : Spec :=
  mkSpec (merge_sort entry_le (sp_pending s ++ flying_of u s)) (not_flying u s) (sp_next s)
    (sp_delivered s) (sp_dropped s).

Definition spec_step (max : Z) (op : Op) (s : Spec) : Spec :=
  match op with
  | OEnqueue _ o samples => if decide (samples = []) then s else spec_enqueue max o samples s
  | OClaim u _ n => spec_claim u n s
  | OAckOk u => spec_ack_ok u s
  | OAckRetry u => spec_ack_retry u s
  | ORestart _ => s
  end.

(** What a claim hands to the streamer. *)
Definition batch_of (p : string * list Entry) : ClaimedBatch :=
  mkClaimedBatch p.1 (e_sample <$> p.2) (mjoin (e_origin <$> head p.2)).
Definition spec_output (op : Op) (s : Spec) : option ClaimedBatch :=
  match op with
  | OClaim u _ n =>
      match claimed_entries (as_i64 n) (sp_pending s) with
      | [] => None
      | es => Some (batch_of (u, es))
      end
  | _ => None
  end.

(** ** Conservation: nothing is lost or duplicated by the abstract steps *)

Definition all_entries (s : Spec) : list Entry :=
  sp_pending s ++ flying_entries s ++ sp_delivered s ++ sp_dropped s.

(** Distinct numbers, all below the next one, the queue in order, no batch twice. *)
Record spec_wf (s : Spec) : Prop := {
  sw_ids : e_id <$> all_entries s ≡ₚ seqZ 1 (sp_next s - 1);
  sw_next : 1 ≤ sp_next s;
  sw_sorted : StronglySorted Z.lt (e_id <$> sp_pending s);
  sw_unique : NoDup (sp_flying s).*1;
}.
Arguments sw_ids {_} _.
Arguments sw_next {_} _.
Arguments sw_sorted {_} _.
Arguments sw_unique {_} _.

Lemma spec_init_wf : spec_wf spec_init.
Proof. split; simpl; try constructor; lia. Qed.

Lemma new_entries_ids next o samples :
  e_id <$> new_entries next o samples = seqZ next (Z.of_nat (length samples)).
Proof.
  unfold new_entries. apply list_eq_same_length with (n := length samples); [| |].
  - rewrite length_seqZ. lia.
  - rewrite length_fmap, length_zip_with, length_seqZ. lia.
  - intros i x y Hi Hx Hy. rewrite list_lookup_fmap, lookup_zip_with in Hx.
    rewrite Hy in Hx. simpl in Hx. destruct (samples !! i); by simplify_eq/=.
Qed.

Lemma seqZ_snoc_range a n m : 0 ≤ n → 0 ≤ m → seqZ a n ++ seqZ (a + n) m = seqZ a (n + m).
Proof. intros. by rewrite seqZ_app. Qed.

Lemma flying_split u s :
  flying_entries s ≡ₚ flying_of u s ++ mjoin (not_flying u s).*2.
Proof.
  unfold flying_entries, flying_of, not_flying.
  rewrite <- join_app, <- fmap_app. by rewrite filter_app_complement.
Qed.

Lemma claimed_sublist n p : sublist (claimed_entries n p) p.
Proof.
  destruct p as [|e p]; [done|]. unfold claimed_entries.
  etrans; [apply limit_sublist|apply sublist_filter].
Qed.

Lemma claimed_split n p :
  NoDup (e_id <$> p) →
  p ≡ₚ claimed_entries n p ++ filter (λ e, e_id e ∉ (e_id <$> claimed_entries n p)) p.
Proof.
  intros Hnd. rewrite <- (filter_app_complement (λ e, e_id e ∈ (e_id <$> claimed_entries n p)) p) at 1.
  by rewrite (filter_key_in_sublist e_id) by auto using claimed_sublist.
Qed.

Lemma entries_lt_le (l : list Entry) :
  StronglySorted entry_le l → NoDup (e_id <$> l) → StronglySorted Z.lt (e_id <$> l).
Proof.
  induction 1 as [|e l Hs IH He]; rewrite ?fmap_cons, ?NoDup_cons; [constructor|].
  intros [Hn Hnd]. constructor; [auto|]. apply Forall_forall.
  intros z (e' & -> & Hin)%list_elem_of_fmap.
  assert (entry_le e e') as Hle by (by eapply (Forall_forall (entry_le e) l)). unfold entry_le in Hle.
  assert (e_id e ≠ e_id e'); [|lia]. intros E. apply Hn. rewrite E. by apply list_elem_of_fmap_2.
Qed.

#[export] Instance entry_le_trans : Transitive entry_le.
Proof. intros e1 e2 e3. unfold entry_le. lia. Qed.
#[export] Instance entry_le_total : Total entry_le.
Proof. intros e1 e2. unfold entry_le. lia. Qed.

(** ** Conservation *)

Lemma spec_enqueue_perm max o samples s :
  all_entries (spec_enqueue max o samples s) ≡ₚ all_entries s ++ new_entries (sp_next s) o samples.
Proof.
  unfold all_entries, spec_enqueue, flying_entries. simpl. set (k := Z.to_nat (to_trim max _ _)).
  rewrite <- (take_drop k (sp_pending s)) at 3. solve_perm.
Qed.

Lemma spec_enqueue_wf max o samples s : spec_wf s → spec_wf (spec_enqueue max o samples s).
Proof.
  intros Hwf. set (n := Z.of_nat (length samples)).
  set (k := Z.to_nat (to_trim max (sp_total s) n)).
  pose proof (sw_next Hwf) as Hnx. split.
  - rewrite spec_enqueue_perm, fmap_app, (sw_ids Hwf), new_entries_ids. simpl. fold n.
    replace (sp_next s + n - 1) with (sp_next s - 1 + n) by lia. rewrite <- seqZ_snoc_range by lia.
    by replace (1 + (sp_next s - 1)) with (sp_next s) by lia.
  - simpl. lia.
  - simpl. rewrite fmap_app, fmap_drop, new_entries_ids. apply StronglySorted_lt_app.
    + pose proof (sw_sorted Hwf) as Hs. rewrite <- (take_drop k) in Hs.
      by eapply StronglySorted_app_1_r.
    + apply StronglySorted_seqZ.
    + intros x y Hx Hy%elem_of_seqZ. assert (x ∈ e_id <$> all_entries s) as Hin.
      { unfold all_entries. rewrite fmap_app, elem_of_app. left. by eapply subseteq_drop. }
      rewrite (sw_ids Hwf), elem_of_seqZ in Hin. lia.
  - apply Hwf.
Qed.

Lemma spec_wf_pending_NoDup s : spec_wf s → NoDup (e_id <$> sp_pending s).
Proof. intros Hwf. apply StronglySorted_lt_NoDup, Hwf. Qed.

Lemma spec_claim_perm u n s : spec_wf s → all_entries (spec_claim u n s) ≡ₚ all_entries s.
Proof.
  intros Hwf. unfold spec_claim. destruct (claimed_entries _ _) as [|e es] eqn:Hes; [done|].
  pose proof (claimed_split (as_i64 n) _ (spec_wf_pending_NoDup s Hwf)) as HP. rewrite Hes in HP.
  unfold all_entries, flying_entries.
  cbn [sp_pending sp_flying sp_delivered sp_dropped]. rewrite HP at 2. rewrite fmap_app, join_app.
  simpl mjoin at 2. rewrite app_nil_r. solve_perm.
Qed.

Lemma spec_claim_wf u n s : spec_wf s → u ∉ (sp_flying s).*1 → spec_wf (spec_claim u n s).
Proof.
  intros Hwf Hu. pose proof (spec_claim_perm u n s Hwf) as HP. revert HP. unfold spec_claim.
  destruct (claimed_entries _ _) as [|e es] eqn:Hes; [done|]. intros HP.
  split; [| apply Hwf | |].
  - by rewrite HP, (sw_ids Hwf).
  - apply StronglySorted_fmap_filter, Hwf.
  - cbn [sp_flying]. rewrite fmap_app. apply NoDup_app. split; [apply Hwf|]. 
    split; [|apply NoDup_singleton]. intros v Hv ->%list_elem_of_singleton. done.
Qed.

Lemma not_flying_NoDup u s : NoDup (sp_flying s).*1 → NoDup (not_flying u s).*1.
Proof. intros Hnd. eapply sublist_NoDup; [exact Hnd|]. apply fmap_sublist, sublist_filter. Qed.

Lemma spec_ack_ok_perm u s : all_entries (spec_ack_ok u s) ≡ₚ all_entries s.
Proof.
  unfold all_entries at 2. rewrite (flying_split u). unfold all_entries, flying_entries. simpl. solve_perm.
Qed.

Lemma spec_ack_ok_wf u s : spec_wf s → spec_wf (spec_ack_ok u s).
Proof.
  intros Hwf. split; [|apply Hwf|apply Hwf|apply not_flying_NoDup, Hwf].
  by rewrite spec_ack_ok_perm, (sw_ids Hwf).
Qed.

Lemma spec_retry_perm u s : all_entries (spec_ack_retry u s) ≡ₚ all_entries s.
Proof.
  unfold all_entries at 2. rewrite (flying_split u).
  unfold all_entries, flying_entries. simpl. rewrite merge_sort_Permutation. solve_perm.
Qed.

Lemma spec_ack_retry_wf u s : spec_wf s → spec_wf (spec_ack_retry u s).
Proof.
  intros Hwf. split; [|apply Hwf| |apply not_flying_NoDup, Hwf].
  - by rewrite spec_retry_perm, (sw_ids Hwf).
  - apply entries_lt_le; [apply (StronglySorted_merge_sort _)|].
    assert (NoDup (e_id <$> all_entries (spec_ack_retry u s))) as Hnd.
    { rewrite spec_retry_perm, (sw_ids Hwf). apply NoDup_seqZ. }
    unfold all_entries in Hnd. rewrite fmap_app in Hnd. by apply NoDup_app in Hnd as [? _].
Qed.

(** A claim draws a fresh identifier. *)
Definition fresh_ulid (op : Op) (s : Spec) : Prop :=
  match op with OClaim u _ _ => u ∉ (sp_flying s).*1 | _ => True end.

Lemma spec_step_wf max op s : spec_wf s → fresh_ulid op s → spec_wf (spec_step max op s).
Proof.
  intros Hwf Hf. destruct op; simpl.
  - case_decide; [done|by apply spec_enqueue_wf].
  - by apply spec_claim_wf.
  - by apply spec_ack_ok_wf.
  - by apply spec_ack_retry_wf.
  - done.
Qed.

(** The entries an operation adds; every other entry stays what it is. *)
Definition added (op : Op) (s : Spec) : list Entry :=
  match op with OEnqueue _ o samples => new_entries (sp_next s) o samples | _ => [] end.

Lemma spec_step_perm max op s :
  spec_wf s → all_entries (spec_step max op s) ≡ₚ all_entries s ++ added op s.
Proof.
  intros Hwf. destruct op as [now o samples| | | |]; simpl; rewrite ?app_nil_r.
  - case_decide as Hn; [subst; simpl; by rewrite app_nil_r|apply spec_enqueue_perm].
  - by apply spec_claim_perm.
  - apply spec_ack_ok_perm.
  - apply spec_retry_perm.
  - done.
Qed.

Lemma new_entries_origin next o samples e : e ∈ new_entries next o samples → e_origin e = o.
Proof.
  unfold new_entries. intros (i & Hi)%list_elem_of_lookup. apply lookup_zip_with_Some in Hi as (? & ? & -> & _). done.
Qed.

(** Only an enqueue over the cap drops entries. *)
Lemma spec_step_dropped max op s : added op s = [] → sp_dropped (spec_step max op s) = sp_dropped s.
Proof.
  destruct op as [now o samples|u ? n| | |]; simpl; try done.
  - intros Ha. case_decide as Hs; [done|]. apply (f_equal (fmap e_id)) in Ha. rewrite new_entries_ids in Ha.
    apply (f_equal length) in Ha. rewrite length_seqZ, Nat2Z.id in Ha. by destruct samples.
  - intros _. unfold spec_claim. by case_match.
Qed.

Lemma spec_enqueue_dropped max o samples s :
  sp_dropped (spec_enqueue max o samples s) = sp_dropped s ∨ max < sp_total s + Z.of_nat (length samples).
Proof.
  unfold spec_enqueue, to_trim. simpl. destruct (Z.ltb_spec max (sp_total s + Z.of_nat (length samples))); [by right|left].
  simpl. by rewrite take_0, app_nil_r.
Qed.

Lemma sp_total_le s : sp_total s ≤ Z.of_nat (length (all_entries s)).
Proof. unfold sp_total, all_entries. rewrite !length_app. lia. Qed.
