(* ===== verification/BufferRefine.v ===== *)
(** * The buffer implements the abstract queue

    The abstraction relation between the tables of [Buffer.v] and the queue of
    [BufferSpec.v], and the simulation of every operation under every fault. *)
From S2P Require Import Prelude Float Proto Buffer BufferLogic BufferInv BufferSpec.
Local Open Scope Z_scope.

Section Refine.
Context `{AttrsCodec}.

Definition entry (r : PendingRow) : Entry := mkEntry (id r) (origin r) (row_sample r).

Record refines (db : Db) (s : Spec) : Prop := {
  rf_pending : sp_pending s = entry <$> unclaimed (pending_samples db);
  rf_flying : sp_flying s =
    (λ i, (ib_batch_id i, entry <$> in_batch (ib_batch_id i) (pending_samples db)))
      <$> in_flight_batches db;
  rf_next : sp_next s = sqlite_seq db + 1;
}.

(** One operation of the running agent; a restart reopens the same file. *)
Definition exec_op (op : Op) : M (option ClaimedBatch) :=
  match op with
  | OEnqueue now o samples => enqueue_with_origin now o samples;; mret None
  | OClaim u now n => claim_batch u now n
  | OAckOk u => ack_ok u;; mret None
  | OAckRetry u => ack_retry u;; mret None
  | ORestart max => modify (λ b, BufferDb_open (conn b) max);; mret None
  end.

(** The types of the arguments: [quality] is a [u32], [max_rows] a [u64]. *)
Definition op_ok (op : Op) : Prop :=
  match op with
  | OEnqueue _ _ samples => Forall (λ s, is_u32 (quality s)) samples
  | ORestart max => is_u64 max
  | _ => True
  end.

(** ** The abstraction of each half *)

Lemma entry_set_batch u r : entry (set_batch u r) = entry r.
Proof. done. Qed.

Lemma entries_set_batch u (rows : list PendingRow) : entry <$> (set_batch u <$> rows) = entry <$> rows.
Proof. by rewrite <- list_fmap_compose. Qed.

Lemma entry_ids (rows : list PendingRow) : e_id <$> (entry <$> rows) = id <$> rows.
Proof. by rewrite <- list_fmap_compose. Qed.

Lemma flying_ids db s : refines db s → (sp_flying s).*1 = ib_batch_id <$> in_flight_batches db.
Proof. intros Hr. rewrite (rf_flying _ _ Hr). by rewrite <- list_fmap_compose. Qed.

(** The rows are the unclaimed ones and those of the batches in flight. *)
Lemma claimed_rows_perm (ids : list string) rows :
  NoDup ids →
  filter (λ r, batch_id r ∈ Some <$> ids) rows ≡ₚ mjoin ((λ u, in_batch u rows) <$> ids).
Proof.
  induction 1 as [|u ids Hu Hnd IH].
  - rewrite filter_none; [done|]. set_solver.
  - rewrite (fmap_cons (λ u, in_batch u rows)), mjoin_cons, <- IH.
    rewrite <- (filter_app_complement (λ r, batch_id r = Some u)
                 (filter (λ r, batch_id r ∈ Some <$> u :: ids) rows)).
    rewrite !filter_filter. unfold in_batch.
    apply Permutation_app; apply reflexive_eq, filter_iff_on; intros r _; rewrite fmap_cons.
    + set_solver.
    + split; [set_solver|]. intros Hin. split; [|set_solver]. intros E. rewrite E in Hin.
      apply list_elem_of_fmap in Hin as (v & [= ->] & Hv). done.
Qed.

Lemma rows_perm db :
  wf db →
  pending_samples db ≡ₚ unclaimed (pending_samples db) ++
    mjoin ((λ u, in_batch u (pending_samples db)) <$> (ib_batch_id <$> in_flight_batches db)).
Proof.
  intros Hwf. rewrite <- claimed_rows_perm by apply Hwf.
  rewrite <- (filter_app_complement (λ r, batch_id r = None) (pending_samples db)) at 1.
  unfold unclaimed. apply Permutation_app; apply reflexive_eq; [done|].
  apply filter_iff_on. intros r Hr. destruct (batch_id r) as [u|] eqn:Hu.
  - split; [|done]. intros _. apply list_elem_of_fmap_2, (wf_batches Hwf).
    intros E. assert (r ∈ in_batch u (pending_samples db)) as Hin by (by apply elem_of_in_batch).
    rewrite E in Hin. set_solver.
  - split; [done|]. intros (? & [=] & _)%list_elem_of_fmap.
Qed.

Lemma flying_entries_rows db s :
  refines db s →
  flying_entries s = entry <$> mjoin ((λ u, in_batch u (pending_samples db)) <$>
                                      (ib_batch_id <$> in_flight_batches db)).
Proof.
  intros Hr. unfold flying_entries. rewrite (rf_flying _ _ Hr).
  induction (in_flight_batches db) as [|i l IH]; [done|].
  rewrite !fmap_cons, !mjoin_cons. rewrite fmap_app. by rewrite IH.
Qed.

Lemma refines_total db s : wf db → refines db s → sp_total s = sql_count db.
Proof.
  intros Hwf Hr. unfold sp_total, sql_count. rewrite (rows_perm db Hwf), length_app.
  rewrite (rf_pending _ _ Hr), (flying_entries_rows _ _ Hr), !length_fmap. done.
Qed.

(** ** Enqueue *)
Context `{!AttrsCodecOk}.

Lemma stored_entry o s r :
  stored o s r → is_u32 (quality s) → entry r = mkEntry (id r) o s.
Proof.
  intros (Hv & Ht & Hval & Hq & Ha & _ & Ho & _) Hu. unfold entry, row_sample.
  rewrite Hv, Ht, Hval, Hq, Ho, as_u32_small by done. f_equal.
  destruct s as [p t v q at_]; simpl in *. f_equal.
  unfold attrs_column in Ha. simpl in Ha. case_decide as Hat.
  - injection Ha as Ha. by rewrite <- Ha.
  - destruct (attrs_roundtrip at_) as (j & Hj & Hback). rewrite Hj in Ha. injection Ha as Ha.
    rewrite <- Ha, Hback. done.
Qed.

Lemma stored_entries o samples news seq :
  Forall2 (stored o) samples news → Forall (λ s, is_u32 (quality s)) samples →
  id <$> news = seqZ seq (Z.of_nat (length samples)) →
  entry <$> news = new_entries seq o samples.
Proof.
  intros Hs. revert seq. induction Hs as [|s r samples news Hsr Hs IH]; intros seq Hq Hid; [done|].
  inversion Hq as [|? ? Hq1 Hq2]; subst. unfold new_entries. cbn [length] in *.
  rewrite Nat2Z.inj_succ in *. rewrite seqZ_cons in Hid |- * by lia.
  rewrite Z.pred_succ in *. rewrite fmap_cons in *. injection Hid as Hi Hid. cbn [zip_with].
  rewrite (stored_entry o s r), Hi by done. f_equal. by apply IH.
Qed.

Lemma enqueue_refines now o samples b s :
  wf (conn b) → refines (conn b) s → sized b → op_ok (OEnqueue now o samples) →
  wp (enqueue_with_origin now o samples) b
    (λ _ b', refines (conn b') (spec_step (max_rows b) (OEnqueue now o samples) s) ∧ wf (conn b') ∧
             max_rows b' = max_rows b)
    (λ b', conn b' = conn b ∧ max_rows b' = max_rows b).
Proof.
  intros Hwf Hr Hsz Hq. simpl. case_decide as Hne.
  { subst. unfold enqueue_with_origin. rewrite decide_True by done. by step_wp. }
  eapply wp_mono; [by apply enqueue_spec| |done].
  set (n := Z.of_nat (length samples)). set (k := to_trim (max_rows b) (sql_count (conn b)) n).
  intros [] b' (Hins & Hm & _). split; [|split; [|done]].
  2: { eapply inserted_wf; [exact Hins|by apply trimmed_wf]. }
  assert (0 ≤ k) as Hk.
  { unfold k, to_trim. destruct (sz_max _ Hsz). case_match; [dlia|lia]. }
  destruct Hins as (news & Hrows & Hfl & Hst & Hid & Hseq). cbn in Hfl, Hid, Hseq.
  assert (∀ r, r ∈ news → batch_id r = None) as Hn by (intros; by eapply stored_pending).
  split; unfold spec_enqueue; cbn [sp_pending sp_flying sp_next]; fold n.
  - rewrite Hrows, unclaimed_app_pending, unclaimed_trimmed, fmap_app by auto with lymon.
    rewrite (refines_total _ _ Hwf Hr), (rf_pending _ _ Hr), (rf_next _ _ Hr), fmap_drop.
    fold k. f_equal. symmetry. by apply stored_entries.
  - rewrite (rf_flying _ _ Hr), Hfl, Hrows. apply list_fmap_ext. intros i x _.
    by rewrite in_batch_app_pending, in_batch_trimmed by auto with lymon.
  - rewrite Hseq, (rf_next _ _ Hr). fold n. lia.
Qed.

(** ** Claim *)

Lemma filter_entries (P : Entry → Prop) `{∀ e, Decision (P e)} (rows : list PendingRow) :
  filter P (entry <$> rows) = entry <$> filter (λ r, P (entry r)) rows.
Proof. apply filter_fmap. Qed.

Lemma claimed_entries_rows n db s :
  refines db s →
  claimed_entries n (sp_pending s) =
  match sql_first_origin db with
  | None => []
  | Some o => entry <$> selected n o (pending_samples db)
  end.
Proof.
  intros Hr. rewrite (rf_pending _ _ Hr). unfold sql_first_origin.
  unfold selected, claimable. destruct (unclaimed (pending_samples db)) as [|r rows] eqn:E; [done|].
  cbn [head]. rewrite fmap_cons. cbn [claimed_entries]. rewrite <- fmap_cons, filter_entries.
  by rewrite limit_fmap.
Qed.

Lemma claim_refines u now n b s :
  wf (conn b) → refines (conn b) s →
  wp (claim_batch u now n) b
    (λ out b', refines (conn b') (spec_claim u n s) ∧ wf (conn b') ∧
       out = spec_output (OClaim u now n) s ∧ b' = set_conn (conn b') b ∧
       fresh_ulid (OClaim u now n) s ∨
       out = None ∧ spec_output (OClaim u now n) s = None ∧ b' = b ∧ spec_claim u n s = s)
    (λ b', b' = b).
Proof.
  intros Hwf Hr. eapply wp_mono; [apply claim_spec| |done]. intros out b' [Hout Hb'].
  cbn [spec_output]. unfold spec_claim. rewrite (claimed_entries_rows _ _ _ Hr).
  destruct out as [cb|].
  - left. cbn zeta in Hout. destruct Hout as (Ho & Hne & Hu & Hc & Hcb). rewrite Ho.
    pose proof (claim_wf u now (as_i64 n) (cb_origin cb) _ Hwf Hu Hne) as Hwf'.
    pose proof (claimed_in_batch u u (as_i64 n) (cb_origin cb) _ Hwf Hu) as Hin.
    set (sel := selected (as_i64 n) (cb_origin cb) (pending_samples (conn b))) in *.
    cbn zeta in Hin. rewrite decide_True in Hin by done. rewrite Hin in Hcb.
    assert (∀ r, r ∈ sel → origin r = cb_origin cb) as Hor by (by intros r [? _]%elem_of_selected).
    destruct sel as [|r sel'] eqn:Hsel; [done|]. rewrite fmap_cons.
    split_and!; [|by rewrite Hc|rewrite Hcb|done|].
    + split; cbn [sp_pending sp_flying sp_next]; rewrite Hc; cbn [pending_samples in_flight_batches sqlite_seq].
      * rewrite unclaimed_tag_rows, (rf_pending _ _ Hr), filter_entries. f_equal.
        apply filter_iff_on. intros x _. by rewrite <- fmap_cons, entry_ids.
      * rewrite fmap_app, (rf_flying _ _ Hr). f_equal.
        -- apply list_fmap_ext. intros i x Hx%list_elem_of_lookup_2. f_equal. f_equal. rewrite <- Hsel.
           unfold sel. rewrite claimed_in_batch, decide_False; [done| |done|done].
           intros E. apply Hu. rewrite E. by apply list_elem_of_fmap_2.
        -- rewrite list_fmap_singleton. cbn [ib_batch_id]. rewrite Hin. by rewrite entries_set_batch, fmap_cons.
      * apply Hr.
    + unfold batch_of. cbn [fst snd head]. f_equal. f_equal.
      * rewrite <- !fmap_cons, <- !list_fmap_compose. done.
      * cbn. symmetry. apply Hor. set_solver.
    + simpl. by rewrite (flying_ids _ _ Hr).
  - right. destruct Hout as [Hc Hno]. rewrite Hc, set_conn_same in Hb'.
    assert (match sql_first_origin (conn b) with
            | None => [] | Some o => entry <$> selected (as_i64 n) o (pending_samples (conn b))
            end = []) as E.
    { destruct Hno as [Hn|(o & Ho & Hsel)]; [unfold sql_first_origin; by rewrite Hn|].
      by rewrite Ho, Hsel. }
    by rewrite E.
Qed.

(** ** Acknowledgements *)

Lemma not_flying_rows u db s :
  refines db s →
  not_flying u s =
  (λ i, (ib_batch_id i, entry <$> in_batch (ib_batch_id i) (pending_samples db)))
    <$> in_flight_batches (sql_delete_in_flight u db).
Proof.
  intros Hr. unfold not_flying. rewrite (rf_flying _ _ Hr), filter_fmap. done.
Qed.

Lemma ack_ok_refines u db s :
  refines db s → refines (sql_delete_in_flight u (sql_delete_batch u db)) (spec_ack_ok u s).
Proof.
  intros Hr. split; unfold spec_ack_ok; cbn [sp_pending sp_flying sp_next].
  - by rewrite pending_deleted, unclaimed_sql_delete, (rf_pending _ _ Hr).
  - rewrite (not_flying_rows _ _ _ Hr), pending_deleted. apply list_fmap_ext.
    intros i x Hx%list_elem_of_lookup_2. rewrite in_batch_sql_delete, decide_False; [done|].
    apply list_elem_of_filter in Hx as [? _]. congruence.
  - apply Hr.
Qed.

Lemma flying_of_rows u db s :
  wf db → refines db s → flying_of u s = entry <$> in_batch u (pending_samples db).
Proof.
  intros Hwf Hr. unfold flying_of. rewrite (rf_flying _ _ Hr), filter_fmap. cbn [fst].
  pose proof (wf_unique Hwf) as Hnd. pose proof (wf_batches Hwf u) as Hb.
  revert Hnd Hb. generalize (in_flight_batches db) as fl. intros fl Hnd Hb.
  destruct (decide (u ∈ (ib_batch_id <$> fl))) as [Hin|Hout].
  - clear Hb. induction fl as [|i fl IH]; [set_solver|].
    rewrite fmap_cons in Hnd, Hin. apply NoDup_cons in Hnd as [Hi Hnd]. rewrite filter_cons.
    case_decide as E.
    + rewrite E in Hi. rewrite !fmap_cons, mjoin_cons, filter_none; [by rewrite E, app_nil_r|].
      intros j Hj E'. apply Hi. rewrite <- E'. by apply list_elem_of_fmap_2.
    + apply IH; set_solver.
  - rewrite filter_none.
    + destruct (in_batch u (pending_samples db)) eqn:E; [done|]. destruct Hout. by apply Hb.
    + intros i Hi E. apply Hout. rewrite <- E. by apply list_elem_of_fmap_2.
Qed.

Lemma sorted_entries (rows : list PendingRow) :
  StronglySorted Z.lt (id <$> rows) → StronglySorted entry_le (entry <$> rows).
Proof.
  induction rows as [|r rows IH]; [constructor|]. rewrite !fmap_cons.
  inversion_clear 1 as [|? ? Hs Hall]. constructor; [auto|]. apply Forall_forall.
  intros e (r' & -> & Hr')%list_elem_of_fmap.
  assert (id r < id r'); [|unfold entry_le; simpl; lia].
  eapply (Forall_forall (Z.lt (id r)) (id <$> rows)); [done|]. by apply list_elem_of_fmap_2.
Qed.

(** The rows of a refused batch are back where their ids put them. *)
Lemma ack_retry_refines u db s :
  wf db → refines db s →
  refines (sql_delete_in_flight u (sql_unclaim u db)) (spec_ack_retry u s).
Proof.
  intros Hwf Hr. split; unfold spec_ack_retry; cbn [sp_pending sp_flying sp_next]; [| |apply Hr].
  - rewrite pending_deleted, unclaimed_sql_unclaim, entries_set_batch.
    rewrite (flying_of_rows _ _ _ Hwf Hr), (rf_pending _ _ Hr).
    set (both := filter (λ r, batch_id r = Some u ∨ batch_id r = None) (pending_samples db)).
    assert (entry <$> both ≡ₚ (entry <$> unclaimed (pending_samples db)) ++
              (entry <$> in_batch u (pending_samples db))) as HP.
    { rewrite <- fmap_app. apply fmap_Permutation. unfold both.
      rewrite <- (filter_app_complement (λ r, batch_id r = None) (filter _ (pending_samples db))).
      rewrite !filter_filter. unfold unclaimed, in_batch.
      apply Permutation_app; apply reflexive_eq, filter_iff_on; naive_solver. }
    assert (NoDup (id <$> both)) as Hnd by (apply NoDup_key_filter; auto with lymon).
    eapply (StronglySorted_unique_strong entry_le).
    + intros e1 e2 H1 H2 Hle1 Hle2. rewrite merge_sort_Permutation, <- HP in H1.
      apply (NoDup_key_inj e_id (entry <$> both)); [by rewrite entry_ids|done|done|].
      unfold entry_le in *. lia.
    + apply (StronglySorted_merge_sort _).
    + apply sorted_entries, StronglySorted_fmap_filter, Hwf.
    + by rewrite merge_sort_Permutation, HP.
  - rewrite (not_flying_rows _ _ _ Hr), pending_deleted. apply list_fmap_ext.
    intros i x Hx%list_elem_of_lookup_2. rewrite in_batch_sql_unclaim, decide_False; [done|].
    apply list_elem_of_filter in Hx as [? _]. congruence.
Qed.
End Refine.
