(* ===== verification/BufferProps.v ===== *)
(** * The buffer's correctness

    The buffer as a transition system: operations, restarts and SQLite failures
    in any order. Every reachable state is well formed and stands for an
    abstract queue in which no accepted sample is lost or duplicated; the cap,
    retry and recovery theorems; and the dropped counter's behaviour. *)
From Stdlib Require Import Ascii.
From S2P Require Import Prelude Float Proto Buffer BufferLogic BufferInv BufferSpec BufferRefine RustStr.
Local Open Scope Z_scope.


(** A codec for the witnesses: the binary digits of the map's encoding. *)
Module BitCodec.
#[export] Instance codec : AttrsCodec := {|
  attrs_to_string a := Ok (pos_to_string (encode a));
  attrs_from_str s := p ← pos_of_string s; decode p;
|}.

#[export] Instance codec_ok : AttrsCodecOk.
Proof.
  intros a. eexists. split; [done|]. simpl. rewrite pos_roundtrip. simpl. apply decode_encode.
Qed.
End BitCodec.

Section Props.
Context `{AttrsCodec}.

(** ** The transition system *)

(** One step: an operation under a fault plan, with its answer. *)
Definition step (b : BufferDb) (op : Op) (p : Faults) : result string (option ClaimedBatch) * BufferDb :=
  let '(r, b', _) := exec_op op p b in (r, b').

Inductive reachable : BufferDb → Spec → Prop :=
| reach_open max : is_u64 max → reachable (BufferDb_open empty_db max) spec_init
| reach_ok b s op p out b' :
    reachable b s → op_ok op → step b op p = (Ok out, b') →
    reachable b' (spec_step (max_rows b) op s)
| reach_err b s op p e b' :
    reachable b s → op_ok op → step b op p = (Err e, b') → reachable b' s.

Context `{!AttrsCodecOk}.

(** What an operation leaves in the cap. *)
Definition max_after (op : Op) (b : BufferDb) : Z :=
  match op with ORestart max => max | _ => max_rows b end.

Lemma exec_op_sim op b s :
  wf (conn b) → refines (conn b) s → sized b → op_ok op →
  wp (exec_op op) b
    (λ out b', (refines (conn b') (spec_step (max_rows b) op s) ∧ wf (conn b') ∧
       out = spec_output op s ∧
       (fresh_ulid op s ∨ spec_step (max_rows b) op s = s)) ∧ max_rows b' = max_after op b)
    (λ b', conn b' = conn b ∧ max_rows b' = max_rows b).
Proof.
  intros Hwf Hr Hsz Hok. destruct op; cbn [exec_op max_after].
  - step_wp. eapply wp_mono; [by apply enqueue_refines| |naive_solver].
    intros [] b' (Hr' & Hwf' & Hm). step_wp. split_and!; [done|done|done|by left|done].
  - eapply wp_mono; [by apply claim_refines| |naive_solver].
    intros out b' [(Hr' & Hwf' & Ho & Hb & Hf)|(Ho & Hs & -> & Hc)].
    { split_and!; [done|done|done|by left|by rewrite Hb]. }
    cbn [spec_step]. rewrite Hc. split_and!; [done|done|congruence|by right|done].
  - step_wp. eapply wp_mono; [apply ack_ok_spec| |naive_solver]. intros [] b' ->. step_wp.
    split_and!; [by apply ack_ok_refines|by apply ack_ok_wf|done|by left|done].
  - step_wp. eapply wp_mono; [apply ack_retry_spec| |naive_solver]. intros [] b' ->. step_wp.
    split_and!; [by apply ack_retry_refines|by apply ack_retry_wf|done|by left|done].
  - step_wp. step_wp. step_wp. simpl. split_and!; auto.
Qed.

Lemma step_sim b s op p r b' :
  wf (conn b) → refines (conn b) s → sized b → op_ok op → step b op p = (r, b') →
  match r with
  | Ok out => (refines (conn b') (spec_step (max_rows b) op s) ∧ wf (conn b') ∧
      out = spec_output op s ∧ (fresh_ulid op s ∨ spec_step (max_rows b) op s = s)) ∧ max_rows b' = max_after op b
  | Err _ => conn b' = conn b ∧ max_rows b' = max_rows b
  end.
Proof.
  intros Hwf Hr Hsz Hok Hstep. pose proof (exec_op_sim op b s Hwf Hr Hsz Hok p) as Hsim.
  unfold step in Hstep. destruct (exec_op op p b) as [[r0 b0] p0]. by simplify_eq.
Qed.

Lemma empty_refines : refines empty_db spec_init.
Proof. by split. Qed.

(** Every row has its own number. *)
Lemma refines_sized db s : wf db → refines db s → spec_wf s → sql_count db ≤ sqlite_seq db.
Proof.
  intros Hwf Hr Hs. pose proof (sw_next Hs) as Hn. rewrite (rf_next _ _ Hr) in Hn. rewrite <- (refines_total _ _ Hwf Hr). pose proof (Permutation_length (sw_ids Hs)) as Hl.
  rewrite length_fmap, length_seqZ, (rf_next _ _ Hr) in Hl. unfold all_entries in Hl.
  rewrite !length_app in Hl. unfold sp_total. lia.
Qed.

Lemma reachable_all b s :
  reachable b s → (wf (conn b) ∧ refines (conn b) s ∧ spec_wf s) ∧ sized b.
Proof.
  induction 1 as [max Hmax|b s op p out b' Hreach [(Hwf & Hr & Hs) Hsz] Hok Hstep
                 |b s op p e b' Hreach [(Hwf & Hr & Hs) Hsz] Hok Hstep].
  - split; [split_and!; [apply wf_empty|apply empty_refines|apply spec_init_wf]|by split].
  - apply (step_sim b s) in Hstep; [|done..]. destruct Hstep as [(Hr' & Hwf' & _ & Hf) Hm].
    assert (spec_wf (spec_step (max_rows b) op s)) as Hs' by (destruct Hf as [Hf| ->]; [by apply spec_step_wf|done]).
    split; [done|]. split; [by eapply refines_sized|]. rewrite Hm. destruct op; try apply Hsz. done.
  - apply (step_sim b s) in Hstep; [|done..]. destruct Hstep as [Hc Hm]. rewrite Hc. split; [done|].
    split; rewrite ?Hc, ?Hm; apply Hsz.
Qed.

Lemma reachable_inv b s : reachable b s → wf (conn b) ∧ refines (conn b) s ∧ spec_wf s.
Proof. intros H1%reachable_all. apply H1. Qed.
Lemma reachable_sized b s : reachable b s → sized b.
Proof. intros H1%reachable_all. apply H1. Qed.
#[local] Hint Resolve reachable_inv reachable_sized : lymon.

(** The cap changes only when the process starts anew. *)
Lemma step_max_rows b s op p r b' :
  reachable b s → op_ok op → step b op p = (r, b') →
  max_rows b' = match r with Ok _ => max_after op b | Err _ => max_rows b end.
Proof.
  intros [(Hwf & Hr & _) Hsz]%reachable_all Hok Hstep.
  pose proof (step_sim b s op p r b' Hwf Hr Hsz Hok Hstep). destruct r; tauto.
Qed.

(** The simulation from a reachable state. *)
Lemma step_sim_reach b s op p r b' :
  reachable b s → op_ok op → step b op p = (r, b') →
  match r with
  | Ok out => refines (conn b') (spec_step (max_rows b) op s) ∧ out = spec_output op s
  | Err _ => conn b' = conn b
  end.
Proof.
  intros [(Hwf & Hr & _) Hsz]%reachable_all Hok Hstep.
  pose proof (step_sim b s op p r b' Hwf Hr Hsz Hok Hstep). destruct r; tauto.
Qed.

(** C2. The buffer implements the abstract queue: in a reachable state, an
    operation that returns makes the queue's step and gives the queue's answer
    (the single-origin batch, oldest first, with the samples as enqueued), and
    an operation in which SQLite fails at any call leaves the tables as they
    were. *)
Theorem buffer_refines_queue b s op p r b' :
  reachable b s → op_ok op → step b op p = (r, b') →
  match r with
  | Ok out => refines (conn b') (spec_step (max_rows b) op s) ∧ out = spec_output op s
  | Err _ => conn b' = conn b
  end.
Proof. apply step_sim_reach. Qed.

(** C6. Nothing is lost or duplicated: in every reachable state, however many
    calls failed and restarts happened, each sample number drawn so far is in
    exactly one of the pending rows, the batches in flight, the delivered and
    the dropped entries; pending rows are in insertion order. *)
Theorem buffer_conserves b s :
  reachable b s →
  e_id <$> ((entry <$> pending_samples (conn b)) ++ sp_delivered s ++ sp_dropped s)
    ≡ₚ seqZ 1 (sqlite_seq (conn b)) ∧
  StronglySorted Z.lt (id <$> unclaimed (pending_samples (conn b))).
Proof.
  intros (Hwf & Hr & Hs)%reachable_inv. split.
  - rewrite (rows_perm _ Hwf) at 1. rewrite (fmap_app entry), <- (flying_entries_rows _ _ Hr).
    rewrite <- (rf_pending _ _ Hr), <- (assoc_L (++)). pose proof (sw_ids Hs) as Hids.
    rewrite (rf_next _ _ Hr) in Hids. by replace (sqlite_seq (conn b) + 1 - 1) with (sqlite_seq (conn b)) in Hids by lia.
  - apply StronglySorted_fmap_filter, Hwf.
Qed.

(** The entries of a batch in flight have one origin. *)
Lemma flying_single b s u es e :
  reachable b s → (u, es) ∈ sp_flying s → e ∈ es → e_origin e = mjoin (e_origin <$> head es).
Proof.
  intros (Hwf & Hr & _)%reachable_inv Hin He. rewrite (rf_flying _ _ Hr) in Hin.
  apply list_elem_of_fmap in Hin as (i & [= -> ->] & _).
  apply list_elem_of_fmap in He as (r & -> & Hrow).
  destruct (in_batch (ib_batch_id i) (pending_samples (conn b))) as [|r0 rows] eqn:E; [set_solver|].
  cbn. apply (wf_origin Hwf (ib_batch_id i)); rewrite E; set_solver.
Qed.

(** ** Claimed batches survive until they are acknowledged *)

Definition acks (u : string) (op : Op) : bool :=
  match op with OAckOk v | OAckRetry v => bool_decide (u = v) | _ => false end.

(** A step that does not acknowledge [u]: it may fail, drop rows or restart. *)
Definition step_keeping (u : string) (b b' : BufferDb) : Prop :=
  ∃ op p r, acks u op = false ∧ op_ok op ∧ step b op p = (r, b').

Lemma spec_step_keeps u es max op s :
  acks u op = false → (u, es) ∈ sp_flying s → (u, es) ∈ sp_flying (spec_step max op s).
Proof.
  intros Ha Hin. destruct op as [? ? samples|v ? n|v|v|]; simpl in *.
  - by case_decide.
  - unfold spec_claim. case_match; [done|]. simpl. set_solver.
  - apply list_elem_of_filter. split; [|done]. by apply bool_decide_eq_false in Ha.
  - apply list_elem_of_filter. split; [|done]. by apply bool_decide_eq_false in Ha.
  - done.
Qed.

Lemma keeping_reachable u es b b' s :
  rtc (step_keeping u) b b' → reachable b s → (u, es) ∈ sp_flying s →
  ∃ s', reachable b' s' ∧ (u, es) ∈ sp_flying s'.
Proof.
  intros Hk. revert s. induction Hk as [|b b1 b' (op & p & r & Ha & Hok & Hstep) _ IH]; [eauto|].
  intros s Hreach Hin. destruct r as [out|e].
  - eapply IH; [by eapply reach_ok|by apply spec_step_keeps].
  - eapply IH; [by eapply reach_err|done].
Qed.

Lemma recovered_batch db i :
  recovered db (ib_batch_id i) =
  batch_of (ib_batch_id i, entry <$> in_batch (ib_batch_id i) (pending_samples db)).
Proof.
  unfold recovered, batch_of. simpl. f_equal.
  - by rewrite <- list_fmap_compose.
  - by destruct (in_batch _ _).
Qed.

Lemma in_flight_ids_perm db : sql_in_flight_ids db ≡ₚ ib_batch_id <$> in_flight_batches db.
Proof. unfold sql_in_flight_ids. by rewrite merge_sort_Permutation. Qed.

Lemma recovered_flying db s :
  refines db s → recovered db <$> sql_in_flight_ids db ≡ₚ batch_of <$> sp_flying s.
Proof.
  intros Hr. rewrite in_flight_ids_perm, (rf_flying _ _ Hr), <- !list_fmap_compose.
  apply reflexive_eq, list_fmap_ext. intros k i _. apply recovered_batch.
Qed.

(** C13. What the streamer was handed is what a restart resends: after a claim,
    whatever enqueues, claims, failures, restarts and acknowledgements of other
    batches follow, recovery returns the claimed batch unchanged. *)
Theorem claimed_batch_recovered b s u now n p cb b1 b2 q l b3 q' :
  reachable b s → step b (OClaim u now n) p = (Ok (Some cb), b1) →
  rtc (step_keeping u) b1 b2 →
  recover_in_flight q b2 = (Ok l, b3, q') → cb ∈ l ∧ b3 = b2.
Proof.
  intros Hreach Hstep Hk Hrec.
  destruct (step_sim_reach b s (OClaim u now n) p _ b1 Hreach I Hstep) as [_ Hout].
  cbn [spec_output] in Hout. destruct (claimed_entries _ _) as [|e es] eqn:Hes; [done|].
  injection Hout as ->. destruct (keeping_reachable u (e :: es) b1 b2 (spec_step (max_rows b) (OClaim u now n) s))
    as (s2 & Hreach2 & Hin); [done|by eapply reach_ok| |].
  { cbn [spec_step]. unfold spec_claim. rewrite Hes. simpl. set_solver. }
  apply reachable_inv in Hreach2 as (_ & Hr2 & _).
  pose proof (recover_in_flight_spec b2 q) as Hs. rewrite Hrec in Hs. destruct Hs as [-> ->].
  split; [|done]. rewrite (recovered_flying _ _ Hr2). by apply list_elem_of_fmap_2.
Qed.

(** ** Retry puts everything back *)

Lemma retag_undo u sel rows :
  (∀ r, r ∈ rows → batch_id r ≠ Some u) → (∀ r, r ∈ rows → id r ∈ (id <$> sel) → batch_id r = None) →
  pending_samples (sql_unclaim u (with_rows (tag_rows u (id <$> sel) rows) empty_db)) = rows.
Proof.
  intros Hu Hsel. simpl. unfold tag_rows. rewrite <- list_fmap_compose.
  rewrite <- (list_fmap_id rows) at 2. apply list_fmap_ext. intros i r Hr%list_elem_of_lookup_2. simpl.
  destruct (decide (id r ∈ (id <$> sel))) as [Hin|].
  - rewrite decide_True by done. specialize (Hsel r Hr Hin). destruct r; simpl in *. by subst.
  - rewrite decide_False by auto. done.
Qed.

(** A claim followed by its retry is the identity on the file: the rows are
    pending again, in their places, under their origin, and nothing else
    changed. *)
Theorem retry_undoes_claim b s u now n p cb b1 q b2 :
  reachable b s → step b (OClaim u now n) p = (Ok (Some cb), b1) →
  step b1 (OAckRetry u) q = (Ok None, b2) → conn b2 = conn b.
Proof.
  intros Hreach Hc Ha. destruct (reachable_inv b s Hreach) as (Hwf & _ & _).
  pose proof (claim_spec u now n b p) as Hs. unfold step in Hc, Ha. cbn [exec_op] in Hc.
  destruct (claim_batch u now n p b) as [[r0 b0] p0]. injection Hc as -> ->.
  destruct Hs as [(Ho & Hne & Hu & Hconn & _) _].
  assert (wp (exec_op (OAckRetry u)) b1 (λ _ b', b' = set_conn (sql_delete_in_flight u (sql_unclaim u (conn b1))) b1) (λ b', b' = b1)) as Hw.
  { cbn [exec_op]. step_wp. eapply wp_mono; [apply ack_retry_spec| |done]. intros [] b' ->. by step_wp. }
  specialize (Hw q). destruct (exec_op (OAckRetry u) q b1) as [[r1 b1'] q1]. injection Ha as -> ->.
  subst b2. cbn [conn set_conn]. rewrite Hconn.
  set (sel := selected _ _ _) in *. unfold sql_delete_in_flight, with_in_flight.
  destruct (conn b) as [rows fl seq]. cbn [pending_samples in_flight_batches sqlite_seq] in *. f_equal.
  - apply retag_undo.
    + intros r Hr E. apply Hu, (wf_batches Hwf u). simpl. intros E'.
      assert (r ∈ in_batch u rows) as Hin by (by apply elem_of_in_batch). rewrite E' in Hin. set_solver.
    + intros r Hr (r' & Hid & (_ & Hn & Hr')%elem_of_selected)%list_elem_of_fmap.
      rewrite (NoDup_key_inj id rows r r'); [done|apply (wf_NoDup _ Hwf)|done..].
  - simpl. rewrite filter_app, filter_all; [by rewrite filter_cons_False, app_nil_r by naive_solver|].
    intros i Hi E. apply Hu. rewrite <- E. by apply list_elem_of_fmap_2.
Qed.

(** ** The cap *)

Definition in_flight_count (db : Db) : Z :=
  Z.of_nat (length (filter (λ r, batch_id r ≠ None) (pending_samples db))).

Lemma count_split db :
  sql_count db = Z.of_nat (length (unclaimed (pending_samples db))) + in_flight_count db.
Proof.
  unfold sql_count, in_flight_count, unclaimed.
  rewrite <- (filter_split_length (λ r, batch_id r = None) (pending_samples db)). lia.
Qed.

Lemma trimmed_count k db :
  NoDup (id <$> pending_samples db) → 0 ≤ k →
  sql_count (trimmed k db) = sql_count db - Z.min k (Z.of_nat (length (unclaimed (pending_samples db)))).
Proof.
  intros Hnd Hk. rewrite (count_split (trimmed k db)), (count_split db), unclaimed_trimmed, length_drop by done.
  assert (in_flight_count (trimmed k db) = in_flight_count db) as ->; [|lia].
  unfold in_flight_count. f_equal. f_equal. rewrite trimmed_rows, filter_filter. apply filter_iff_on.
  intros r Hr. split; [tauto|]. intros Hb. split; [done|].
  intros (r' & Hid & Hr')%elem_of_limit%list_elem_of_fmap. apply elem_of_unclaimed in Hr' as [Hn Hr'].
  destruct Hb. by rewrite (NoDup_key_inj id _ r r' Hnd).
Qed.

(** C21. The cap: after an enqueue of [n] samples the table holds at most
    [max_rows] rows, or, when the rows in flight and the batch alone exceed it,
    exactly those. Under the cap nothing is dropped. *)
Theorem enqueue_respects_cap b s now o samples p b' :
  reachable b s → op_ok (OEnqueue now o samples) → samples ≠ [] →
  step b (OEnqueue now o samples) p = (Ok None, b') →
  let n := Z.of_nat (length samples) in
  sql_count (conn b') ≤ Z.max (max_rows b) (in_flight_count (conn b) + n) ∧
  (sql_count (conn b) + n ≤ max_rows b → sql_count (conn b') = sql_count (conn b) + n).
Proof.
  intros [(Hwf & _ & _) Hsz]%reachable_all _ Hne Hstep n. unfold step in Hstep.
  assert (wp (exec_op (OEnqueue now o samples)) b
    (λ _ b', sql_count (conn b') = sql_count (trimmed (to_trim (max_rows b) (sql_count (conn b)) n) (conn b)) + n)
    (λ _, True)) as Hw.
  { cbn [exec_op]. step_wp. eapply wp_mono; [by apply enqueue_spec| |done].
    intros [] b1 [(news & Hrows & _ & _ & Hid & _) _]. step_wp.
    change (sql_count (conn b1)) with (Z.of_nat (length (pending_samples (conn b1)))).
    fold n in Hrows. set (k := to_trim (max_rows b) _ n) in *. unfold sql_count. rewrite Hrows, length_app. apply (f_equal length) in Hid. rewrite length_fmap, length_seqZ in Hid. lia. }
  specialize (Hw p). destruct (exec_op (OEnqueue now o samples) p b) as [[r1 b1] p1]. injection Hstep as -> ->.
  rewrite Hw. destruct (sz_max _ Hsz) as [Hm _]. unfold to_trim. destruct (Z.ltb_spec (max_rows b) (sql_count (conn b) + n)).
  - rewrite trimmed_count by (auto with lymon; lia). rewrite (count_split (conn b)) in *. lia.
  - unfold trimmed. rewrite trimmed_0. simpl. lia.
Qed.
End Props.

(** ** A concrete run

    A buffer of at most two rows; two enqueues, a claim. *)
Module Run.
Import BitCodec.

Definition sample1 : Sample := mkSample "hr-1" 1000 (f64_of_Z 5) 0 ∅.
Definition sample2 : Sample := mkSample "hr-2" 1001 (f64_of_Z 7) 1 {[ "unit" := "bar" ]}.

Definition enqueue1 : Op := OEnqueue 50000 (Some "plc-a") [sample1; sample2].
Definition enqueue2 : Op := OEnqueue 90000 (Some "plc-b") [sample1].
Definition claim1 : Op := OClaim "01J" 90001 100.

Definition b0 : BufferDb := BufferDb_open empty_db 2.
Definition b1 : BufferDb := (step b0 enqueue1 []).2.
Definition s1 : Spec := spec_step 2 enqueue1 spec_init.
Definition b2 : BufferDb := (step b1 claim1 []).2.
Definition s2 : Spec := spec_step 2 claim1 s1.

Lemma enqueue1_ok : op_ok enqueue1.
Proof. repeat constructor; vm_compute; done. Qed.
Lemma enqueue2_ok : op_ok enqueue2.
Proof. repeat constructor; vm_compute; done. Qed.

Lemma reach1 : reachable b1 s1.
Proof.
  eapply (reach_ok b0 spec_init enqueue1 []); [by apply reach_open|apply enqueue1_ok|].
  vm_compute. reflexivity.
Qed.

Lemma reach2 : reachable b2 s2.
Proof. eapply (reach_ok b1 s1 claim1 []); [apply reach1|done|]. vm_compute. reflexivity. Qed.

(** The second enqueue drops the oldest row of the first. *)
Lemma buffer_refines_queue_witness :
  let b' := (step b1 enqueue2 []).2 in
  refines (conn b') (spec_step 2 enqueue2 s1) ∧ length (sp_dropped (spec_step 2 enqueue2 s1)) = 1%nat.
Proof.
  split; [|by vm_compute].
  refine (proj1 (buffer_refines_queue b1 s1 enqueue2 [] (Ok None) _ reach1 _ _)).
  - apply enqueue2_ok.
  - vm_compute. reflexivity.
Defined.

Lemma buffer_conserves_witness :
  e_id <$> ((entry <$> pending_samples (conn b2)) ++ sp_delivered s2 ++ sp_dropped s2) ≡ₚ [1; 2].
Proof. exact (proj1 (buffer_conserves b2 s2 reach2)). Defined.

(** The batch claimed by [claim1], a restart after it, and its recovery. *)
Lemma claimed_batch_recovered_witness :
  ∃ cb l, step b1 claim1 [] = (Ok (Some cb), b2) ∧ cb ∈ l ∧
    recover_in_flight [] (BufferDb_open (conn b2) 7) = (Ok l, BufferDb_open (conn b2) 7, []).
Proof.
  eexists _, _. split; [vm_compute; reflexivity|]. split; [|vm_compute; reflexivity].
  refine (proj1 (claimed_batch_recovered b1 s1 "01J" 90001 100 [] _ b2 (BufferDb_open (conn b2) 7) []
    _ (BufferDb_open (conn b2) 7) [] reach1 _ _ _)); [vm_compute; reflexivity| |vm_compute; reflexivity].
  apply rtc_once. exists (ORestart 7), [], (Ok None). split_and!; [done|done|]. vm_compute. reflexivity.
Defined.

Lemma retry_undoes_claim_witness : conn (step b2 (OAckRetry "01J") []).2 = conn b1.
Proof.
  eapply (retry_undoes_claim b1 s1 "01J" 90001 100 [] _ b2 []); [apply reach1|vm_compute; reflexivity|].
  vm_compute. reflexivity.
Defined.

Lemma enqueue_respects_cap_witness : sql_count (conn (step b1 enqueue2 []).2) ≤ 2.
Proof.
  refine (proj1 (enqueue_respects_cap b1 s1 90000 (Some "plc-b") [sample1] [] _ reach1 _ _ _)).
  - apply enqueue2_ok.
  - done.
  - vm_compute. reflexivity.
Defined.

(** The dropped counter is not transactional: an enqueue whose insert fails
    rolls its trim back, yet the counter keeps the drop. *)
Theorem dropped_total_counts_rolled_back :
  let nan := mkSample "hr-9" 1002 f64_nan 0 ∅ in
  let '(r, b') := step b1 (OEnqueue 90000 None [nan]) [] in
  is_ok r = false ∧ conn b' = conn b1 ∧ dropped_total b1 = 0 ∧ dropped_total b' = 1.
Proof. vm_compute. done. Qed.
End Run.
