(* ===== verification/Words.v ===== *)
(** * Register words of a supervisory Modbus write ([src/control.rs])

    [split_u32]/[join_u32] and [encode_words]/[decode_words]: the value a
    datatype can hold, its registers, and what reading them back gives. *)
From S2P Require Import Prelude Float.
Local Open Scope Z_scope.

Definition split_u32 (v : Z) (word_order : string) : list Z :=
  let hi := as_u16 (Z.shiftr v 16) in
  let lo := as_u16 (Z.land v 65535) in
  if decide (word_order = "little") then [lo; hi] else [hi; lo].

Definition join_u32 (regs : list Z) (word_order : string) : Z :=
  let a := default 0 (head regs) in
  let b := default 0 (regs !! 1%nat) in
  let '(hi, lo) := if decide (word_order = "little") then (b, a) else (a, b) in
  Z.lor (Z.shiftl hi 16) lo.

Definition encode_words (datatype : string) (raw : f64) (word_order : string) : result string (list Z) :=
  if decide (datatype = "bool") then Ok [if f64_eqb raw f64_zero then 0 else 1]
  else if decide (datatype = "uint16") then Ok [as_u16 (clamp 0 65535 (f64_as_i64 (f64_round raw)))]
  else if decide (datatype = "int16") then
    Ok [as_u16 (as_i16 (clamp (-32768) 32767 (f64_as_i64 (f64_round raw))))]
  else if decide (datatype = "uint32") then
    Ok (split_u32 (as_u32 (clamp 0 4294967295 (f64_as_i64 (f64_round raw)))) word_order)
  else if decide (datatype = "int32") then
    Ok (split_u32 (as_u32 (as_i32 (clamp (-2147483648) 2147483647 (f64_as_i64 (f64_round raw))))) word_order)
  else if decide (datatype = "float32") then Ok (split_u32 (f32_to_bits (f64_as_f32 raw)) word_order)
  else Err ("unsupported datatype " +:+ datatype).

Definition decode_raw (datatype : string) (regs : list Z) (word_order : string) : f64 :=
  let r0 := default 0 (head regs) in
  if decide (datatype = "bool") then if r0 =? 0 then f64_zero else f64_one
  else if decide (datatype = "uint16") then f64_of_Z r0
  else if decide (datatype = "int16") then f64_of_Z (as_i16 r0)
  else if decide (datatype = "uint32") then f64_of_Z (join_u32 regs word_order)
  else if decide (datatype = "int32") then f64_of_Z (as_i32 (join_u32 regs word_order))
  else if decide (datatype = "float32") then f32_as_f64 (f32_from_bits (join_u32 regs word_order))
  else f64_of_Z r0.

Definition decode_words (datatype : string) (regs : list Z) (word_order : string)
    (scale offset : f64) : f64 :=
  f64_add (f64_mul (decode_raw datatype regs word_order) scale) offset.

(** ** Splitting and joining *)

Lemma split_u32_words v wo : Forall is_u16 (split_u32 v wo).
Proof. unfold split_u32. case_decide; repeat constructor; apply as_u16_range. Qed.

Lemma split_u32_length v wo : length (split_u32 v wo) = 2%nat.
Proof. unfold split_u32. by case_decide. Qed.

Lemma lor_halves hi lo : is_u16 hi → is_u16 lo → Z.lor (Z.shiftl hi 16) lo = hi * 65536 + lo.
Proof.
  unfold is_u16. intros ? ?. by rewrite lor_shiftl_add by lia.
Qed.

Lemma join_split_u32 v wo : is_u32 v → join_u32 (split_u32 v wo) wo = v.
Proof.
  intros Hv. unfold is_u32, join_u32, split_u32 in *.
  assert (as_u16 (Z.shiftr v 16) = v / 65536) as Hhi.
  { rewrite Z.shiftr_div_pow2 by lia. apply as_u16_small. unfold is_u16. dlia. }
  assert (as_u16 (Z.land v 65535) = v mod 65536) as Hlo.
  { change 65535 with (Z.ones 16). rewrite Z.land_ones by lia. apply as_u16_small. unfold is_u16. dlia. }
  case_decide; simpl; rewrite Hhi, Hlo, lor_halves by (unfold is_u16; dlia); dlia.
Qed.

Lemma clamp_range lo hi z : lo ≤ hi → lo ≤ clamp lo hi z ≤ hi.
Proof. unfold clamp. lia. Qed.

Lemma as_i16_u16 z : -32768 ≤ z ≤ 32767 → as_i16 (as_u16 (as_i16 z)) = z.
Proof.
  intros Hz. assert (as_i16 z = z) as ->.
  { unfold as_i16, as_signed. destruct (Z.ltb_spec (z mod 2 ^ 16) (2 ^ (16 - 1))); dlia. }
  unfold as_i16, as_u16. apply as_signed_small; lia.
Qed.

Lemma as_i32_u32 z : -2147483648 ≤ z ≤ 2147483647 → as_i32 (as_u32 (as_i32 z)) = z.
Proof.
  intros Hz. assert (as_i32 z = z) as ->.
  { unfold as_i32, as_signed. destruct (Z.ltb_spec (z mod 2 ^ 32) (2 ^ (32 - 1))); dlia. }
  unfold as_i32, as_u32. apply as_signed_small; lia.
Qed.

(** Case analysis on the datatype, with the string comparisons decided. *)
Ltac decide_strings := repeat first [rewrite decide_True by done | rewrite decide_False by done].
Ltac datatype_cases dt :=
  destruct (decide (dt = "bool")) as [->|?];
  [|destruct (decide (dt = "uint16")) as [->|?];
  [|destruct (decide (dt = "int16")) as [->|?];
  [|destruct (decide (dt = "uint32")) as [->|?];
  [|destruct (decide (dt = "int32")) as [->|?];
  [|destruct (decide (dt = "float32")) as [->|?]]]]]];
  decide_strings.

(** ** The value a datatype keeps of a raw value *)

Definition int_bounds (datatype : string) : option (Z * Z) :=
  if decide (datatype = "uint16") then Some (0, 65535)
  else if decide (datatype = "int16") then Some (-32768, 32767)
  else if decide (datatype = "uint32") then Some (0, 4294967295)
  else if decide (datatype = "int32") then Some (-2147483648, 2147483647)
  else None.

(** The nearest representable value: saturated for the integer types. *)
Definition representable (datatype : string) (raw : f64) : f64 :=
  match int_bounds datatype with
  | Some (lo, hi) => f64_of_Z (clamp lo hi (f64_as_i64 (f64_round raw)))
  | None =>
      if decide (datatype = "bool") then if f64_eqb raw f64_zero then f64_zero else f64_one
      else f32_as_f64 (f64_as_f32 raw)
  end.

Definition is_single (datatype : string) (raw : f64) : Prop :=
  datatype = "float32" → f32_valid (f64_as_f32 raw).

(** What was encoded is what is decoded, in either word order. *)
Lemma decode_encode_raw dt raw wo ws :
  is_single dt raw → encode_words dt raw wo = Ok ws → decode_raw dt ws wo = representable dt raw.
Proof.
  unfold encode_words, decode_raw, representable, int_bounds. intros Hs.
  datatype_cases dt; (intros [= <-] || done); cbn [head from_option id].
  - by destruct (f64_eqb raw f64_zero).
  - by rewrite as_u16_small by (unfold is_u16; pose proof (clamp_range 0 65535 (f64_as_i64 (f64_round raw))); lia).
  - by rewrite as_i16_u16 by (apply clamp_range; lia).
  - rewrite join_split_u32 by apply as_u32_range.
    by rewrite as_u32_small by (unfold is_u32; pose proof (clamp_range 0 4294967295 (f64_as_i64 (f64_round raw))); lia).
  - rewrite join_split_u32 by apply as_u32_range. by rewrite as_i32_u32 by (apply clamp_range; lia).
  - specialize (Hs eq_refl). rewrite join_split_u32 by (by apply f32_to_bits_range).
    by rewrite f32_bits_roundtrip.
Qed.

Lemma encode_words_words dt raw wo ws :
  encode_words dt raw wo = Ok ws → Forall is_u16 ws ∧ (1 ≤ length ws ≤ 2)%nat.
Proof.
  assert (∀ l : list Z, length l = 2%nat → (1 ≤ length l ≤ 2)%nat) as H2 by (intros; lia).
  unfold encode_words. datatype_cases dt; (intros [= <-] || done); split;
    first [apply split_u32_words | apply H2, split_u32_length | simpl; lia
          | apply Forall_singleton; apply as_u16_range
          | apply Forall_singleton; destruct (f64_eqb _ _); unfold is_u16; lia].
Qed.

(** C22. A supervisory write is read back as the nearest value its datatype can
    hold: the registers [encode_words] produces are 16-bit words, one or two of
    them, and [decode_words] on them, in the same word order, gives the raw value
    rounded and saturated to the type's range (not wrapped), scaled and offset. *)
Theorem encode_decode dt raw wo ws scale offset :
  is_single dt raw → encode_words dt raw wo = Ok ws →
  Forall is_u16 ws ∧ (1 ≤ length ws ≤ 2)%nat ∧
  decode_words dt ws wo scale offset = f64_add (f64_mul (representable dt raw) scale) offset.
Proof.
  intros Hs Hws. pose proof (encode_words_words _ _ _ _ Hws) as [? ?]. split_and!; try done; try lia.
  unfold decode_words. by rewrite (decode_encode_raw dt raw wo ws).
Qed.

Lemma encode_decode_witness :
  ∃ ws, encode_words "int32" (f64_of_Z (-70000)) "little" = Ok ws ∧
    decode_words "int32" ws "little" f64_one f64_zero = f64_of_Z (-70000).
Proof.
  eexists. split; [vm_compute; reflexivity|].
  etrans; [refine (proj2 (proj2 (encode_decode "int32" (f64_of_Z (-70000)) "little" _ f64_one f64_zero _ _)))|].
  - intros [=].
  - vm_compute. reflexivity.
  - vm_compute. reflexivity.
Defined.

(** An integer within the datatype's range is written exactly: reading its
    registers back gives that very number. *)
Theorem encode_exact dt lo hi z wo ws :
  int_bounds dt = Some (lo, hi) → lo ≤ z ≤ hi → encode_words dt (f64_of_Z z) wo = Ok ws →
  f64_as_i64 (decode_raw dt ws wo) = z.
Proof.
  intros Hb Hz Hws. assert (Z.abs z < 2 ^ 53).
  { unfold int_bounds in Hb. repeat case_decide; simplify_eq; lia. }
  assert (is_single dt (f64_of_Z z)) as Hs.
  { intros ->. done. }
  rewrite (decode_encode_raw dt _ wo ws Hs Hws). unfold representable. rewrite Hb.
  assert (i64_min ≤ z ≤ i64_max) by (unfold i64_min, i64_max; lia).
  unfold f64_as_i64. rewrite f64_round_of_Z, (f64_as_int_of_Z _ _ z) by done. unfold clamp.
  replace (Z.max lo (Z.min hi z)) with z by lia. by apply f64_as_int_of_Z.
Qed.

Lemma encode_exact_witness :
  ∃ ws, encode_words "uint32" (f64_of_Z 70000) "big" = Ok ws ∧ f64_as_i64 (decode_raw "uint32" ws "big") = 70000.
Proof.
  eexists. split; [vm_compute; reflexivity|].
  eapply (encode_exact "uint32" 0 4294967295); [done|lia|]. vm_compute. reflexivity.
Defined.
