(* ===== verification/Decimal.v ===== *)
(** * Decimal numbers

    [dec] prints digits only, as many as the number has, and [digits_val] reads
    them back. *)
From Stdlib Require Import Ascii.
From S2P Require Import Prelude Float RustStr.
Local Open Scope Z_scope.

Lemma pretty_char_digit (d : N) : (d < 10)%N → is_digit (pretty_N_char d) = true.
Proof.
  intros Hd. assert (d = 0 ∨ d = 1 ∨ d = 2 ∨ d = 3 ∨ d = 4 ∨ d = 5 ∨ d = 6 ∨ d = 7 ∨ d = 8 ∨ d = 9)%N
    as Hc by lia. repeat destruct Hc as [->|Hc]; [done..|by subst].
Qed.

Lemma pretty_N_go_digits n s : sforall is_digit s = true → sforall is_digit (pretty_N_go n s) = true.
Proof.
  revert s. induction (N.lt_wf_0 n) as [n _ IH]. intros s Hs. destruct (decide (n = 0)%N) as [->|Hn].
  - by rewrite pretty_N_go_0.
  - rewrite pretty_N_go_step by lia. apply IH; [apply N.div_lt; lia|]. simpl.
    rewrite pretty_char_digit; [done|]. apply N.mod_lt. lia.
Qed.

Lemma dec_digits z : 0 ≤ z → sforall is_digit (dec z) = true.
Proof.
  intros Hz. unfold dec, pretty, pretty_Z. destruct z as [|p|p]; [done| |lia].
  change (sforall is_digit (pretty (N.pos p)) = true). unfold pretty, pretty_N.
  rewrite decide_False by done. by apply pretty_N_go_digits.
Qed.

Lemma pretty_char_val (d : N) : (d < 10)%N → code (pretty_N_char d) - 48 = Z.of_N d.
Proof.
  intros Hd. assert (d = 0 ∨ d = 1 ∨ d = 2 ∨ d = 3 ∨ d = 4 ∨ d = 5 ∨ d = 6 ∨ d = 7 ∨ d = 8 ∨ d = 9)%N
    as Hc by lia. repeat destruct Hc as [->|Hc]; [done..|by subst].
Qed.

Lemma digits_val_go n s : digits_val 0 (pretty_N_go n s) = digits_val (Z.of_N n) s.
Proof.
  revert s. induction (N.lt_wf_0 n) as [n _ IH]. intros s. destruct (decide (n = 0)%N) as [->|Hn].
  - by rewrite pretty_N_go_0.
  - assert (n `mod` 10 < 10)%N by (apply N.mod_lt; lia).
    rewrite pretty_N_go_step, IH by (lia || apply N.div_lt; lia). cbn [digits_val].
    rewrite pretty_char_digit, pretty_char_val by done. f_equal.
    rewrite N2Z.inj_div, N2Z.inj_mod. pose proof (Z.div_mod (Z.of_N n) 10). lia.
Qed.

Lemma pretty_N_go_length k n s : (n < 10 ^ N.of_nat k)%N →
  (String.length (pretty_N_go n s) ≤ k + String.length s)%nat.
Proof.
  revert n s. induction k as [|k IH]; intros n s Hn; destruct (decide (n = 0)%N) as [->|Hz];
    rewrite ?pretty_N_go_0; try lia.
  - rewrite pretty_N_go_step by lia. etrans; [apply IH|simpl; lia].
    apply N.Div0.div_lt_upper_bound. by rewrite Nat2N.inj_succ, N.pow_succ_r' in Hn.
Qed.

(** What [dec] prints of a number that is not negative. *)
Lemma dec_spec z : 0 ≤ z →
  digits_val 0 (dec z) = Some z ∧ dec z ≠ "" ∧
  ∀ k, (0 < k)%nat → z < 10 ^ Z.of_nat k → (String.length (dec z) ≤ k)%nat.
Proof.
  intros Hz. destruct z as [|p|p]; [|  |lia].
  { split_and!; [done|done|]. intros k Hk _. change (String.length (dec 0)) with 1%nat. lia. }
  assert (dec (Z.pos p) = pretty_N_go (N.pos p) "") as ->.
  { change (dec (Z.pos p)) with (pretty (N.pos p)). unfold pretty, pretty_N. by rewrite decide_False by done. }
  split_and!.
  - by rewrite digits_val_go.
  - intros E. pose proof (digits_val_go (N.pos p) "") as Hd. rewrite E in Hd. done.
  - intros k _ Hk. pose proof (pretty_N_go_length k (N.pos p) "") as Hl. simpl in Hl. rewrite Nat.add_0_r in Hl.
    apply Hl. apply N2Z.inj_lt. rewrite N2Z.inj_pow. rewrite nat_N_Z. done.
Qed.
