(* ===== verification/S7Decode.v ===== *)
(** * S7 scalar types ([crates/plugin-s7/src/s7/decode.rs])

    The types a selection can name, their sizes, and the decoding of big-endian
    PLC bytes into the double that is stored. *)
From S2P Require Import Prelude Float RustStr.
Local Open Scope Z_scope.

Inductive DType := DBool | SInt | USInt | DInt16 | UInt | DInt | UDInt | Real | LReal.
#[export] Instance DType_eq_dec : EqDecision DType.
Proof. solve_decision. Defined.

(** [DType::parse]; [DInt16] is the source's [Int]. *)
Definition DType_parse (s : string) : result string DType :=
  let l := to_ascii_lowercase s in
  if decide (l ∈ ["bool"; "bit"]) then Ok DBool
  else if decide (l = "sint") then Ok SInt
  else if decide (l ∈ ["usint"; "byte"]) then Ok USInt
  else if decide (l = "int") then Ok DInt16
  else if decide (l ∈ ["uint"; "word"]) then Ok UInt
  else if decide (l = "dint") then Ok DInt
  else if decide (l ∈ ["udint"; "dword"]) then Ok UDInt
  else if decide (l ∈ ["real"; "float"]) then Ok Real
  else if decide (l ∈ ["lreal"; "double"]) then Ok LReal
  else Err ("unknown s7 type: " +:+ debug_str l).

Definition byte_len (t : DType) : nat :=
  match t with
  | DBool => 0
  | SInt | USInt => 1
  | DInt16 | UInt => 2
  | DInt | UDInt | Real => 4
  | LReal => 8
  end%nat.

(** [from_be_bytes] of the first [n] bytes, unsigned. *)
Definition from_be (bs : list Z) : Z := foldl (λ acc b, acc * 256 + b) 0 bs.

Definition decode (t : DType) (buf : list Z) : result string f64 :=
  let need := byte_len t in
  if (length buf <? need)%nat then
    Err ("s7 decode: need " +:+ dec (Z.of_nat need) +:+ " bytes, got " +:+ dec (Z.of_nat (length buf)))
  else
    let be := from_be (take need buf) in
    match t with
    | DBool => Err "s7 decode() called on Bool — use the bit path"
    | SInt => Ok (f64_of_Z (as_i8 be))
    | USInt => Ok (f64_of_Z be)
    | DInt16 => Ok (f64_of_Z (as_i16 be))
    | UInt => Ok (f64_of_Z be)
    | DInt => Ok (f64_of_Z (as_i32 be))
    | UDInt => Ok (f64_of_Z be)
    | Real => Ok (f32_as_f64 (f32_from_bits be))
    | LReal => Ok (f64_from_bits be)
    end.

(** ** Big-endian bytes *)

(** The [n] low bytes of [z], most significant first. *)
Fixpoint to_be (n : nat) (z : Z) : list Z :=
  match n with O => [] | S n => to_be n (z / 256) ++ [z mod 256] end.

Lemma to_be_length n z : length (to_be n z) = n.
Proof. revert z. induction n as [|n IH]; intros z; simpl; [done|]. rewrite length_app, IH. simpl. lia. Qed.

Lemma to_be_u8 n z : Forall is_u8 (to_be n z).
Proof.
  revert z. induction n as [|n IH]; intros z; simpl; [constructor|].
  apply Forall_app. split; [apply IH|]. apply Forall_singleton. unfold is_u8. dlia.
Qed.

Lemma from_be_snoc bs b : from_be (bs ++ [b]) = from_be bs * 256 + b.
Proof. unfold from_be. by rewrite foldl_app. Qed.

Lemma from_to_be n z : from_be (to_be n z) = z mod 2 ^ (8 * Z.of_nat n).
Proof.
  revert z. induction n as [|n IH]; intros z; cbn [to_be]; [by rewrite Z.mod_1_r|].
  rewrite from_be_snoc, IH. replace (8 * Z.of_nat (S n)) with (8 + 8 * Z.of_nat n) by lia.
  rewrite Z.pow_add_r by lia. change (2 ^ 8) with 256.
  rewrite Z.rem_mul_r by (first [lia|apply Z.pow_pos_nonneg; lia]). ring.
Qed.

Lemma from_be_range bs : Forall is_u8 bs → 0 ≤ from_be bs < 2 ^ (8 * Z.of_nat (length bs)).
Proof.
  induction bs as [|b bs IH] using rev_ind; [done|]. intros [Hbs Hb]%Forall_app.
  rewrite Forall_singleton in Hb. unfold is_u8 in Hb. specialize (IH Hbs).
  rewrite from_be_snoc, length_app. simpl length.
  replace (8 * Z.of_nat (length bs + 1)) with (8 * Z.of_nat (length bs) + 8) by lia.
  rewrite Z.pow_add_r by lia. change (2 ^ 8) with 256 in *.
  generalize dependent (2 ^ (8 * Z.of_nat (length bs))). intros. lia.
Qed.

(** ** Correctness of the decoding *)

(** The values an integer type ranges over. *)
Definition int_range (t : DType) : option (Z * Z) :=
  match t with
  | SInt => Some (-128, 127)
  | USInt => Some (0, 255)
  | DInt16 => Some (-32768, 32767)
  | UInt => Some (0, 65535)
  | DInt => Some (-2147483648, 2147483647)
  | UDInt => Some (0, 4294967295)
  | _ => None
  end.

(** The numbers the typed bytes stand for: integers in two's complement, floats
    by their IEEE bits. *)
Definition encode_value (t : DType) (v : f64) : list Z :=
  match t with
  | Real => to_be 4 (f32_to_bits (f64_as_f32 v))
  | LReal => to_be 8 (float_to_bits 53 11 v)
  | _ => to_be (byte_len t) (f64_trunc v)
  end.

Lemma decode_ok_iff t buf :
  is_ok (decode t buf) = true ↔ t ≠ DBool ∧ (byte_len t ≤ length buf)%nat.
Proof.
  unfold decode. destruct (Nat.ltb_spec (length buf) (byte_len t)); destruct t; simpl in *; naive_solver lia.
Qed.

Lemma decode_prefix t bs rest :
  length bs = byte_len t → decode t (bs ++ rest) = decode t bs.
Proof.
  intros Hlen. unfold decode. rewrite length_app, <- Hlen.
  rewrite take_app_length, firstn_all.
  destruct (Nat.ltb_spec (length bs + length rest) (length bs)); [lia|].
  destruct (Nat.ltb_spec (length bs) (length bs)); [lia|]. done.
Qed.

Lemma decode_int_at t lo hi z :
  int_range t = Some (lo, hi) → lo ≤ z ≤ hi → decode t (to_be (byte_len t) z) = Ok (f64_of_Z z).
Proof.
  intros Ht Hz. unfold decode. rewrite to_be_length, Nat.ltb_irrefl.
  rewrite (take_ge (to_be _ z)) by (rewrite to_be_length; lia).
  rewrite from_to_be. destruct t; try discriminate Ht; injection Ht as <- <-; cbn [byte_len];
    unfold as_i8, as_i16, as_i32; f_equal; f_equal;
    first [apply as_signed_small; lia | apply Z.mod_small; simpl; lia].
Qed.

(** Finite doubles and infinities in canonical form. *)
Definition f64_canonical (v : f64) : Prop := fits_format 53 11 v.

(** C23. Decoding inverts the PLC's encoding for every type but Bool: a value the
    type can hold, laid out big-endian and followed by any other bytes, is read
    back as that double exactly. *)
Theorem s7_decode_encode t v rest :
  match t with
  | DBool => False
  | Real => ∃ x, f32_valid x ∧ v = f32_as_f64 x
  | LReal => f64_canonical v
  | _ => ∃ lo hi z, int_range t = Some (lo, hi) ∧ lo ≤ z ≤ hi ∧ v = f64_of_Z z
  end →
  decode t (encode_value t v ++ rest) = Ok v.
Proof.
  intros Hv. destruct t; try done.
  1-6: destruct Hv as (lo & hi & z & Ht & Hz & ->); rewrite decode_prefix by apply to_be_length;
    cbn [encode_value]; injection Ht as <- <-; rewrite f64_of_Z_trunc by lia;
    (by eapply decode_int_at).
  - destruct Hv as (x & Hx & ->). rewrite decode_prefix by apply to_be_length. unfold encode_value.
    rewrite f32_f64_f32 by done. unfold decode. rewrite to_be_length. simpl Nat.ltb.
    rewrite (take_ge (to_be _ _)) by (by rewrite to_be_length). rewrite from_to_be.
    rewrite Z.mod_small by (apply f32_to_bits_range; done). by rewrite f32_bits_roundtrip.
  - rewrite decode_prefix by apply to_be_length. unfold encode_value, decode.
    rewrite to_be_length. simpl Nat.ltb. rewrite (take_ge (to_be _ _)) by (by rewrite to_be_length).
    rewrite from_to_be, Z.mod_small; [f_equal; by apply of_to_bits|].
    unfold float_to_bits. unfold f64_canonical in Hv. destruct v as [[]|[]| |s m e]; try (simpl; lia).
    simpl in Hv |- *. destruct s; case_match; lia.
Qed.

Lemma s7_decode_encode_witness :
  decode DInt (encode_value DInt (f64_of_Z (-2)) ++ [7]) = Ok (f64_of_Z (-2)).
Proof. apply (s7_decode_encode DInt). exists (-2147483648), 2147483647, (-2). split_and!; [done|lia|lia|done]. Defined.

(** Case and aliases do not matter. *)
Lemma lower_idem c : lower (lower c) = lower c.
Proof. by destruct c as [[] [] [] [] [] [] [] []]. Qed.
Lemma to_ascii_lowercase_idem s : to_ascii_lowercase (to_ascii_lowercase s) = to_ascii_lowercase s.
Proof. unfold to_ascii_lowercase. induction s as [|c s IH]; simpl; [done|]. by rewrite lower_idem, IH. Qed.
Lemma DType_parse_lower s : DType_parse (to_ascii_lowercase s) = DType_parse s.
Proof. unfold DType_parse. by rewrite to_ascii_lowercase_idem. Qed.
