(* ===== verification/S7Client.v ===== *)
(** * The S7 client ([crates/plugin-s7/src/s7/client.rs])

    The client's state, its telegrams byte by byte, and every operation, over a
    TCP connection that is a parameter ([Tcp]): any peer, any failure. A
    computation ends in a value, an [S7Error], a panic (an index out of range) or,
    for the chunk loops, by running out of fuel. *)
From S2P Require Import Prelude Float RustStr.
Local Open Scope Z_scope.

(** ** Constants *)
Definition CT_PG : Z := 1.
Definition CT_OP : Z := 2.
Definition CT_S7 : Z := 3.
Definition S7_AREA_PE : Z := 0x81.
Definition S7_AREA_PA : Z := 0x82.
Definition S7_AREA_MK : Z := 0x83.
Definition S7_AREA_DB : Z := 0x84.
Definition S7_WL_BIT : Z := 1.
Definition S7_WL_BYTE : Z := 2.
Definition TS_RES_BIT : Z := 3.
Definition TS_RES_BYTE : Z := 4.
Definition TPKT_ISO_LEN : nat := 7.
Definition PDU_LEN_REQ : Z := 480.
Definition ISO_CR_LEN : nat := 22.
Definition ISO_CONN_REQ : Z := 0xE0.
Definition ISO_CONN_OK : Z := 0xD0.
Definition ISO_PN_RES_LEN : nat := 27.
Definition ISO_ID : Z := 3.
Definition S7_ID : Z := 0x32.
Definition READ_RES_LEN : Z := 18.
Definition WRITE_RES_LEN : Z := 15.
Definition EOT : Z := 0x80.
Definition RW_RES_OFFSET : nat := 14.
Definition RES_SUCCESS : Z := 0xFF.
Definition RES_INVALID_ADDRESS : Z := 5.
Definition RES_NOT_FOUND : Z := 0x0A.

(** [hi_part!], [lo_part!], [make_u16!] *)
Definition hi_part (x : Z) : Z := as_u8 (Z.land (Z.shiftr x 8) 255).
Definition lo_part (x : Z) : Z := as_u8 (Z.land x 255).
Definition make_u16 (hi lo : Z) : Z := Z.lor (Z.shiftl hi 8) lo.

Inductive S7Error :=
| Io (e : string)
| NotConnected
| TcpConnectionFailed
| ConnectionClosed
| IsoConnectionFailed
| IsoFragmentedPacket
| IsoInvalidHeader
| IsoInvalidTelegram
| PduNegotiationFailed
| InvalidFunParameter
| S7NotFound
| S7InvalidAddress
| S7Unspecified
| Other (msg : string).
#[export] Instance S7Error_eq_dec : EqDecision S7Error.
Proof. solve_decision. Defined.

Definition S7Error_fmt (e : S7Error) : string :=
  match e with
  | Io e => "IO error: " +:+ e
  | NotConnected => "Not connected"
  | TcpConnectionFailed => "TCP connection failed"
  | ConnectionClosed => "TCP connection closed by the peer"
  | IsoConnectionFailed => "ISO-on-TCP connection failed"
  | IsoFragmentedPacket => "Fragmented ISO Packet"
  | IsoInvalidHeader => "Invalid ISO Header"
  | IsoInvalidTelegram => "Invalid ISO Telegram"
  | PduNegotiationFailed => "S7 PDU negotiation failed"
  | InvalidFunParameter => "Invalid parameter supplied to the function"
  | S7NotFound => "S7 Resource not found in the CPU"
  | S7InvalidAddress => "S7 Invalid address"
  | S7Unspecified => "S7 unspecified error"
  | Other msg => msg
  end.

(** ** The connection *)

(** [std::net::TcpStream] over a state [W] of the network: an [Err] is an
    [io::Error]. [tcp_read n] returns at most [n] bytes, [tcp_read_exact n]
    exactly [n]. *)
Class Tcp (W : Type) := {
  tcp_connect : string → Z → Z → Z → Z → W → result string () * W;
  tcp_resolve : string → Z → W → result string bool * W;
  tcp_write_all : list Z → W → result string () * W;
  tcp_read : nat → W → result string (list Z) * W;
  tcp_read_exact : nat → W → result string (list Z) * W;
  tcp_shutdown : W → W;
  tcp_elapsed_ms : W → W → f64;
}.

(** What the standard library promises of what is read: bytes, that many. *)
Class TcpOk (W : Type) `{Tcp W} := {
  tcp_read_length : ∀ n w l w', tcp_read n w = (Ok l, w') → (length l ≤ n)%nat;
  tcp_read_exact_length : ∀ n w l w', tcp_read_exact n w = (Ok l, w') → length l = n;
  tcp_read_u8 : ∀ n w l w', tcp_read n w = (Ok l, w') → Forall is_u8 l;
  tcp_read_exact_u8 : ∀ n w l w', tcp_read_exact n w = (Ok l, w') → Forall is_u8 l;
}.

Record S7Client := mkS7Client {
  stream : bool;
  port : Z;
  co_timeout_ms : Z;
  rd_timeout_ms : Z;
  wr_timeout_ms : Z;
  conn_type : Z;
  max_rd_pdu_data : Z;
  max_wr_pdu_data : Z;
  pdu_length : Z;
  connected : bool;
  last_time : f64;
  chunks : Z;
}.

Definition S7Client_new : S7Client :=
  mkS7Client false 102 3000 1000 500 CT_PG 0 0 0 false f64_zero 0.

Definition set_link (s c : bool) (x : S7Client) : S7Client :=
  mkS7Client s (port x) (co_timeout_ms x) (rd_timeout_ms x) (wr_timeout_ms x) (conn_type x)
    (max_rd_pdu_data x) (max_wr_pdu_data x) (pdu_length x) c (last_time x) (chunks x).
Definition set_pdu (p rd wr : Z) (x : S7Client) : S7Client :=
  mkS7Client (stream x) (port x) (co_timeout_ms x) (rd_timeout_ms x) (wr_timeout_ms x) (conn_type x)
    rd wr p (connected x) (last_time x) (chunks x).
Definition set_stats (t : f64) (n : Z) (x : S7Client) : S7Client :=
  mkS7Client (stream x) (port x) (co_timeout_ms x) (rd_timeout_ms x) (wr_timeout_ms x) (conn_type x)
    (max_rd_pdu_data x) (max_wr_pdu_data x) (pdu_length x) (connected x) t n.
Definition set_timeouts (co rd wr : Z) (x : S7Client) : S7Client :=
  mkS7Client (stream x) (port x) co rd wr (conn_type x)
    (max_rd_pdu_data x) (max_wr_pdu_data x) (pdu_length x) (connected x) (last_time x) (chunks x).
Definition set_port (p : Z) (x : S7Client) : S7Client :=
  mkS7Client (stream x) p (co_timeout_ms x) (rd_timeout_ms x) (wr_timeout_ms x) (conn_type x)
    (max_rd_pdu_data x) (max_wr_pdu_data x) (pdu_length x) (connected x) (last_time x) (chunks x).
Definition set_ctype (t : Z) (x : S7Client) : S7Client :=
  mkS7Client (stream x) (port x) (co_timeout_ms x) (rd_timeout_ms x) (wr_timeout_ms x) t
    (max_rd_pdu_data x) (max_wr_pdu_data x) (pdu_length x) (connected x) (last_time x) (chunks x).

(** ** Outcomes *)
Inductive outcome (A : Type) :=
| ORet (a : A)
| OErr (e : S7Error)
| OPanic
| OFuel.
Arguments ORet {A} a.
Arguments OErr {A} e.
Arguments OPanic {A}.
Arguments OFuel {A}.

(** ** Telegrams *)

(** The 24-bit address, in bits, at the end of an item specification. *)
Definition address_of (wordlen long_start : Z) : Z :=
  if wordlen =? S7_WL_BIT then long_start else as_u32 (Z.shiftl long_start 3).
Definition address_bytes (a : Z) : list Z :=
  [as_u8 (Z.land (Z.shiftr a 16) 255); as_u8 (Z.land (Z.shiftr a 8) 255); as_u8 (Z.land a 255)].

Definition read_request (wordlen chunk_size db_number area long_start : Z) : list Z :=
  [ISO_ID; 0; 0; 0x1f; 0x02; 0xf0; 0x80; S7_ID; 1; 0; 0; 5; 0; 0; 0x0e; 0; 0; 4; 1; 0x12; 0x0a; 0x10;
   wordlen; hi_part chunk_size; lo_part chunk_size; hi_part db_number; lo_part db_number; area]
  ++ address_bytes (address_of wordlen long_start).

Definition write_request (wordlen db_number area long_start : Z) (chunk : list Z) : list Z :=
  let chunk_size := Z.of_nat (length chunk) in
  let transport := if wordlen =? S7_WL_BIT then TS_RES_BIT else TS_RES_BYTE in
  let bits_payload := if wordlen =? S7_WL_BIT then 1 else as_u16 (Z.shiftl chunk_size 3) in
  let total_len := 35 + chunk_size in
  [ISO_ID; 0; hi_part total_len; lo_part total_len; 0x02; 0xf0; 0x80; S7_ID; 1; 0; 0; 5; 0; 0; 0x0e;
   hi_part (chunk_size + 4); lo_part (chunk_size + 4); 5; 1; 0x12; 0x0a; 0x10;
   wordlen; hi_part chunk_size; lo_part chunk_size; hi_part db_number; lo_part db_number; area]
  ++ address_bytes (address_of wordlen long_start)
  ++ [0; transport; hi_part bits_payload; lo_part bits_payload] ++ chunk.

Definition iso_cr (local_tsap remote_tsap : Z) : list Z :=
  [ISO_ID; 0; hi_part 22; lo_part 22; 0x11; ISO_CONN_REQ; 0; 0; 0; 1; 0; 0xC0; 1; 0x0A; 0xC1; 2;
   hi_part local_tsap; lo_part local_tsap; 0xC2; 2; hi_part remote_tsap; lo_part remote_tsap].

Definition s7_pn : list Z :=
  [ISO_ID; 0; 0; 0x19; 0x02; 0xf0; 0x80; S7_ID; 1; 0; 0; 4; 0; 0; 8; 0; 0; 0xf0; 0; 0; 1; 0; 1;
   hi_part PDU_LEN_REQ; lo_part PDU_LEN_REQ].

(** [check_iso_packet] on the seven header bytes: the bytes left to read. *)
Definition check_iso_packet (pdu_length : Z) (iso : list Z) : result S7Error Z :=
  let at_ i := default 0 (iso !! i) in
  if negb (at_ 0%nat =? ISO_ID) || negb (at_ 4%nat =? 2) || negb (at_ 5%nat =? 0xF0)
  then Err IsoInvalidHeader
  else if negb (at_ 6%nat =? EOT) then Err IsoFragmentedPacket
  else
    let telegram_length := make_u16 (at_ 2%nat) (at_ 3%nat) in
    if (telegram_length <? 7) || (pdu_length <? telegram_length - 7) || (telegram_length - 7 =? 0)
    then Err IsoInvalidTelegram
    else Ok (telegram_length - 7).

Definition check_area (area : Z) : result S7Error () :=
  if decide (area ∈ [S7_AREA_PE; S7_AREA_PA; S7_AREA_MK; S7_AREA_DB]) then Ok () else Err InvalidFunParameter.

(** The return code of an item. *)
Definition item_error (code : Z) : S7Error :=
  if code =? RES_NOT_FOUND then S7NotFound
  else if code =? RES_INVALID_ADDRESS then S7InvalidAddress
  else S7Unspecified.

(** ** Operations *)
Section Client.
Context {W : Type} `{Tcp W}.

Definition S7 (A : Type) : Type := S7Client * W → outcome A * (S7Client * W).

#[export] Instance S7_ret : MRet S7 := λ A a s, (ORet a, s).
#[export] Instance S7_bind : MBind S7 := λ A B k m s,
  match m s with
  | (ORet a, s) => k a s
  | (OErr e, s) => (OErr e, s)
  | (OPanic, s) => (OPanic, s)
  | (OFuel, s) => (OFuel, s)
  end.
Definition fail {A} (e : S7Error) : S7 A := λ s, (OErr e, s).
Definition panic {A} : S7 A := λ s, (OPanic, s).
Definition no_fuel {A} : S7 A := λ s, (OFuel, s).
Definition get : S7 S7Client := λ s, (ORet s.1, s).
Definition put (f : S7Client → S7Client) : S7 () := λ s, (ORet (), (f s.1, s.2)).
Definition lift {A} (r : result S7Error A) : S7 A :=
  match r with Ok a => mret a | Err e => fail e end.
(** A TCP call, its [io::Error] converted by [?]. *)
Definition io {A} (f : W → result string A * W) : S7 A := λ s,
  match f s.2 with (Ok a, w) => (ORet a, (s.1, w)) | (Err e, w) => (OErr (Io e), (s.1, w)) end.
Definition world : S7 W := λ s, (ORet s.2, s).
Definition guard (b : bool) (e : S7Error) : S7 () := if b then mret () else fail e.
(** Indexing a slice panics out of range. *)
Definition index (l : list Z) (i : nat) : S7 Z :=
  match l !! i with Some z => mret z | None => panic end.
Definition slice (l : list Z) (i n : nat) : S7 (list Z) :=
  if (i + n <=? length l)%nat then mret (take n (drop i l)) else panic.

Definition set_connection_type (t : Z) : S7 () :=
  guard (negb ((t <? CT_PG) || (CT_S7 <? t))) InvalidFunParameter;; put (set_ctype t).
Definition set_timeout (co rd wr : Z) : S7 () :=
  guard (negb ((co =? 0) || (rd =? 0) || (wr =? 0))) InvalidFunParameter;; put (set_timeouts co rd wr).
Definition set_connection_port (p : Z) : S7 () :=
  guard (negb (p =? 0)) InvalidFunParameter;; put (set_port p).

Definition connect_tsap (ip : string) (local_tsap remote_tsap : Z) : S7 () :=
  put (λ c, set_stats f64_zero (chunks c) (set_link (stream c) false c));;
  w0 ← world;
  c ← get;
  found ← io (tcp_resolve ip (port c));
  guard found TcpConnectionFailed;;
  io (tcp_connect ip (port c) (co_timeout_ms c) (rd_timeout_ms c) (wr_timeout_ms c));;
  io (tcp_write_all (iso_cr local_tsap remote_tsap));;
  iso_resp ← io (tcp_read ISO_CR_LEN);
  guard (negb ((length iso_resp <? ISO_CR_LEN)%nat || negb (default 0 (iso_resp !! 5%nat) =? ISO_CONN_OK)))
    IsoConnectionFailed;;
  io (tcp_write_all s7_pn);;
  pn_resp ← io (tcp_read ISO_PN_RES_LEN);
  guard (negb ((length pn_resp <? ISO_PN_RES_LEN)%nat || negb (default 0 (pn_resp !! 0%nat) =? ISO_ID)
               || negb (default 0 (pn_resp !! 7%nat) =? S7_ID) || negb (default 0 (pn_resp !! 17%nat) =? 0)))
    PduNegotiationFailed;;
  let pdu := make_u16 (default 0 (pn_resp !! 25%nat)) (default 0 (pn_resp !! 26%nat)) in
  put (λ c, set_pdu pdu (max_rd_pdu_data c) (max_wr_pdu_data c) c);;
  guard (negb (pdu =? 0)) PduNegotiationFailed;;
  put (set_pdu pdu (as_u16 (pdu - 18)) (as_u16 (pdu - 28)));;
  put (set_link true true);;
  w1 ← world;
  put (λ c, set_stats (tcp_elapsed_ms w0 w1) (chunks c) c).

Definition connect_rack_slot (ip : string) (rack slot : Z) : S7 () :=
  c ← get;
  let remote_tsap := as_u16 (as_u16 (as_u16 (Z.shiftl (conn_type c) 8) + as_u16 (rack * 0x20)) + slot) in
  connect_tsap ip 0x0100 remote_tsap.
Definition connect_s71200_1500 (ip : string) : S7 () := connect_rack_slot ip 0 0.
Definition connect_s7300 (ip : string) : S7 () := connect_rack_slot ip 0 2.

(** [as_mut().unwrap()] on the stream. *)
Definition need_stream : S7 () := c ← get; if stream c then mret () else panic.

Definition disconnect : S7 () :=
  c ← get;
  if connected c then
    need_stream;;
    (λ s, (ORet (), (s.1, tcp_shutdown s.2)));;
    put (set_link false false)
  else mret ().

(** One request/response of a read or a write: the S7 part of the reply, padded
    to the 480-byte buffer it is read into. *)
Definition transact (request : list Z) (min_len : Z) : S7 (Z * list Z) :=
  io (tcp_write_all request);;
  iso ← io (tcp_read_exact TPKT_ISO_LEN);
  c ← get;
  s7_comm_size ← lift (check_iso_packet (pdu_length c) iso);
  guard (min_len <=? s7_comm_size) IsoInvalidTelegram;;
  guard (s7_comm_size <=? PDU_LEN_REQ) IsoInvalidTelegram;;
  data ← io (tcp_read_exact (Z.to_nat s7_comm_size));
  let response := data ++ replicate (480 - length data) 0 in
  code ← index response RW_RES_OFFSET;
  guard (code =? RES_SUCCESS) (item_error code);;
  mret (s7_comm_size, response).

Definition count_chunk : S7 () := put (λ c, set_stats (last_time c) (chunks c + 1) c).

(** [buffer[o..o+payload.len()].copy_from_slice(payload)] *)
Definition copy_at (o : nat) (payload buffer : list Z) : S7 (list Z) :=
  if (o + length payload <=? length buffer)%nat
  then mret (take o buffer ++ payload ++ drop (o + length payload) buffer)
  else panic.

(** The loop of [read_area]; the result is the buffer. *)
Fixpoint read_loop (fuel : nat) (area db_number wordlen datasize offset long_start : Z)
    (buffer : list Z) : S7 (list Z) :=
  if offset <? datasize then
    match fuel with
    | O => no_fuel
    | S fuel =>
        c ← get;
        let chunk_size := Z.min (datasize - offset) (max_rd_pdu_data c) in
        count_chunk;;
        r ← transact (read_request wordlen chunk_size db_number area long_start) READ_RES_LEN;
        let '(s7_comm_size, response) := r in
        payload ← slice response 18 (Z.to_nat (Z.min (s7_comm_size - READ_RES_LEN) chunk_size));
        buffer ← copy_at (Z.to_nat offset) payload buffer;
        read_loop fuel area db_number wordlen datasize (as_u16 (offset + chunk_size))
          (as_u32 (long_start + chunk_size)) buffer
    end
  else mret buffer.

Definition begin_job (area wordlen : Z) : S7 W :=
  put (set_stats f64_zero 0);;
  lift (check_area area);;
  guard (negb (negb (wordlen =? S7_WL_BIT) && negb (wordlen =? S7_WL_BYTE))) InvalidFunParameter;;
  c ← get;
  guard (connected c) NotConnected;;
  need_stream;;
  world.
Definition end_job (w0 : W) : S7 () :=
  w1 ← world; put (λ c, set_stats (tcp_elapsed_ms w0 w1) (chunks c) c).

Definition data_size (wordlen : Z) (buffer : list Z) : Z :=
  if wordlen =? S7_WL_BYTE then Z.min (Z.of_nat (length buffer)) 65535 else 1.

(** [read_area] into [buffer]. *)
Definition read_area (fuel : nat) (area db_number start wordlen : Z) (buffer : list Z) : S7 (list Z) :=
  w0 ← begin_job area wordlen;
  buffer ← read_loop fuel area db_number wordlen (data_size wordlen buffer) 0 start buffer;
  end_job w0;;
  mret buffer.

Fixpoint write_loop (fuel : nat) (area db_number wordlen datasize offset long_start : Z)
    (buffer : list Z) : S7 () :=
  if offset <? datasize then
    match fuel with
    | O => no_fuel
    | S fuel =>
        count_chunk;;
        c ← get;
        let chunk_size := Z.min (datasize - offset) (max_wr_pdu_data c) in
        chunk ← slice buffer (Z.to_nat offset) (Z.to_nat chunk_size);
        transact (write_request wordlen db_number area long_start chunk) WRITE_RES_LEN;;
        write_loop fuel area db_number wordlen datasize (offset + chunk_size)
          (as_u32 (long_start + chunk_size)) buffer
    end
  else mret ().

Definition write_area (fuel : nat) (area db_number start wordlen : Z) (buffer : list Z) : S7 () :=
  w0 ← begin_job area wordlen;
  write_loop fuel area db_number wordlen (data_size wordlen buffer) 0 start buffer;;
  end_job w0.

Definition read_db (fuel : nat) (db_number start : Z) (buffer : list Z) : S7 (list Z) :=
  read_area fuel S7_AREA_DB db_number start S7_WL_BYTE buffer.
Definition write_db (fuel : nat) (db_number start : Z) (buffer : list Z) : S7 () :=
  write_area fuel S7_AREA_DB db_number start S7_WL_BYTE buffer.

Definition bit_start (byte_num bit_idx : Z) : Z := as_u16 (as_u16 (byte_num * 8) + bit_idx).

Definition read_bit (fuel : nat) (area db_number byte_num bit_idx : Z) : S7 bool :=
  guard (bit_idx <=? 7) InvalidFunParameter;;
  buffer ← read_area fuel area db_number (bit_start byte_num bit_idx) S7_WL_BIT [0];
  mret (negb (default 0 (buffer !! 0%nat) =? 0)).

Definition write_bit (fuel : nat) (area db_number byte_num bit_idx : Z) (value : bool) : S7 () :=
  guard (bit_idx <=? 7) InvalidFunParameter;;
  write_area fuel area db_number (bit_start byte_num bit_idx) S7_WL_BIT [if value then 1 else 0].

Definition exchange (request : list Z) : S7 (list Z) :=
  c ← get;
  guard (connected c) NotConnected;;
  need_stream;;
  io (tcp_write_all request);;
  iso ← io (tcp_read_exact TPKT_ISO_LEN);
  c ← get;
  s7_size ← lift (check_iso_packet (pdu_length c) iso);
  io (tcp_read_exact (Z.to_nat s7_size)).
End Client.
