(* ===== verification/S7Safety.v ===== *)
(** * The S7 client against any peer

    Total correctness of the client's operations, whatever the PLC sends and the
    network does: on a link whose negotiated PDU leaves room for data they return
    or fail, never panic and never loop, and keep the link state consistent. On one
    of 18 bytes a read does not return. *)
From S2P Require Import Prelude Float RustStr S7Client.
Local Open Scope Z_scope.

Section Safety.
Context {W : Type} `{TcpOk W}.

(** [ends m s Q E]: from [s], [m] ends, in a value satisfying [Q] or in an error
    satisfying [E]. *)
Definition ends {A} (m : S7 A) (s : S7Client * W) (Q : A → S7Client * W → Prop)
    (E : S7Client * W → Prop) : Prop :=
  match m s with
  | (ORet a, s) => Q a s
  | (OErr _, s) => E s
  | (OPanic, _) | (OFuel, _) => False
  end.

Implicit Types (s : S7Client * W).

Lemma ends_mono {A} (m : S7 A) s (Q Q' : A → S7Client * W → Prop) (E E' : S7Client * W → Prop) :
  ends m s Q E → (∀ a s, Q a s → Q' a s) → (∀ s, E s → E' s) → ends m s Q' E'.
Proof. unfold ends. repeat case_match; eauto. Qed.
Lemma ends_ret {A} (a : A) s (Q : A → S7Client * W → Prop) E : Q a s → ends (mret a) s Q E.
Proof. done. Qed.
Lemma ends_bind {A B} (m : S7 A) (k : A → S7 B) s Q E :
  ends m s (λ a s, ends (k a) s Q E) E → ends (m ≫= k) s Q E.
Proof. unfold ends, mbind, S7_bind. by destruct (m s) as [[] ?]. Qed.
Lemma ends_fail {A} e s (Q : A → S7Client * W → Prop) (E : S7Client * W → Prop) : E s → ends (fail e) s Q E.
Proof. done. Qed.
Lemma ends_get s (Q : S7Client → S7Client * W → Prop) E : Q s.1 s → ends get s Q E.
Proof. done. Qed.
Lemma ends_world s (Q : W → S7Client * W → Prop) E : Q s.2 s → ends world s Q E.
Proof. done. Qed.
Lemma ends_put f s (Q : () → S7Client * W → Prop) E : Q () (f s.1, s.2) → ends (put f) s Q E.
Proof. done. Qed.
Lemma ends_lift {A} (r : result S7Error A) s (Q : A → S7Client * W → Prop) (E : S7Client * W → Prop) :
  (∀ a, r = Ok a → Q a s) → E s → ends (lift r) s Q E.
Proof. destruct r; unfold ends; simpl; eauto. Qed.
Lemma ends_guard b e s (Q : () → S7Client * W → Prop) (E : S7Client * W → Prop) :
  (b = true → Q () s) → E s → ends (guard b e) s Q E.
Proof. destruct b; unfold ends; simpl; eauto. Qed.
Lemma ends_io {A} (f : W → result string A * W) s (Q : A → S7Client * W → Prop) (E : S7Client * W → Prop) :
  (∀ a w, f s.2 = (Ok a, w) → Q a (s.1, w)) → (∀ w, E (s.1, w)) → ends (io f) s Q E.
Proof. unfold ends, io. destruct (f s.2) as [[] ?] eqn:Hf; simpl; eauto. Qed.
Lemma ends_index l i s (Q : Z → S7Client * W → Prop) E :
  (i < length l)%nat → (∀ z, Q z s) → ends (index l i) s Q E.
Proof.
  intros Hi HQ. unfold ends, index. destruct (lookup_lt_is_Some_2 l i Hi) as [z ->]. apply HQ.
Qed.
Lemma ends_slice l i n s (Q : list Z → S7Client * W → Prop) E :
  (i + n ≤ length l)%nat → Q (take n (drop i l)) s → ends (slice l i n) s Q E.
Proof. intros Hi HQ. unfold ends, slice. by destruct (Nat.leb_spec (i + n) (length l)); [|lia]. Qed.

Ltac step_ends :=
  match goal with
  | |- ends (_ ≫= _) _ _ _ => apply ends_bind
  | |- ends (mret _) _ _ _ => apply ends_ret
  | |- ends (fail _) _ _ _ => apply ends_fail
  | |- ends get _ _ _ => apply ends_get
  | |- ends world _ _ _ => apply ends_world
  | |- ends (put _) _ _ _ => apply ends_put
  | |- ends (lift _) _ _ _ => apply ends_lift; [intros ? ?|]
  | |- ends (guard _ _) _ _ _ => apply ends_guard; [intros ?|]
  | |- ends (io _) _ _ _ => apply ends_io; [intros ? ? ?|intros ?]
  end.

(** ** The invariant of the client *)

(** A connected client has a stream and a payload size a read can advance by. *)
Definition link_ok (c : S7Client) : Prop := connected c = true → stream c = true.
Definition rd_ok (c : S7Client) : Prop := connected c = true → 1 ≤ max_rd_pdu_data c.
Definition wr_ok (c : S7Client) : Prop := connected c = true → 1 ≤ max_wr_pdu_data c.

(** What a job leaves as it was: everything but the statistics. *)
Definition same_link (c c' : S7Client) : Prop :=
  connected c' = connected c ∧ stream c' = stream c ∧ pdu_length c' = pdu_length c ∧
  max_rd_pdu_data c' = max_rd_pdu_data c ∧ max_wr_pdu_data c' = max_wr_pdu_data c.
#[local] Instance same_link_refl : Reflexive same_link.
Proof. by intros c. Qed.
#[local] Instance same_link_trans : Transitive same_link.
Proof. unfold same_link. intros c1 c2 c3. intros (-> & -> & -> & -> & ->). naive_solver congruence. Qed.

Lemma check_iso_packet_range pdu iso n : check_iso_packet pdu iso = Ok n → 1 ≤ n ≤ pdu.
Proof.
  unfold check_iso_packet. repeat case_match; try done. intros [= <-].
  match goal with H : (_ || _) || _ = false |- _ => revert H end.
  rewrite !orb_false_iff, !Z.ltb_ge, Z.eqb_neq. lia.
Qed.

(** Run to the end, discharging the error cases by reflexivity. *)
Ltac run_ends := repeat (step_ends; simpl; try done).

Lemma transact_ends request m s :
  0 ≤ m →
  ends (transact request m) s
    (λ r s', same_link s.1 s'.1 ∧ m ≤ r.1 ≤ 480 ∧ length r.2 = 480%nat) (λ s', same_link s.1 s'.1).
Proof.
  intros Hm. unfold transact. run_ends.
  match goal with Hr : tcp_read_exact (Z.to_nat ?n) _ = (Ok ?d, _), Hlo : (m <=? ?n) = true, Hhi : (?n <=? _) = true |- _ =>
    apply tcp_read_exact_length in Hr; apply Z.leb_le in Hlo, Hhi; unfold PDU_LEN_REQ in Hhi;
    assert (length (d ++ replicate (480 - length d) 0) = 480%nat) as Hlen
      by (rewrite length_app, length_replicate; lia)
  end.
  apply ends_index; [rewrite Hlen; unfold RW_RES_OFFSET; lia|]. intros code. run_ends.
Qed.

Lemma copy_at_ends o payload buffer s (Q : list Z → S7Client * W → Prop) E :
  (o + length payload ≤ length buffer)%nat →
  (∀ b, length b = length buffer → b = take o buffer ++ payload ++ drop (o + length payload) buffer → Q b s) →
  ends (copy_at o payload buffer) s Q E.
Proof.
  intros Ho HQ. unfold copy_at, ends. destruct (Nat.leb_spec (o + length payload) (length buffer)); [|lia].
  apply HQ; [|done]. rewrite !length_app, length_take, length_drop. lia.
Qed.

(** ** The chunk loops end *)

Lemma read_loop_ends fuel area db wl ds off ls buffer s :
  1 ≤ max_rd_pdu_data s.1 → 0 ≤ off → ds ≤ 65535 → ds ≤ Z.of_nat (length buffer) →
  ds - off ≤ Z.of_nat fuel →
  ends (read_loop fuel area db wl ds off ls buffer) s
    (λ b s', same_link s.1 s'.1 ∧ length b = length buffer) (λ s', same_link s.1 s'.1).
Proof.
  revert off ls buffer s. induction fuel as [|fuel IH]; intros off ls buffer s Hrd Hoff Hds Hlen Hf;
    cbn [read_loop]; destruct (Z.ltb_spec off ds) as [Hlt|Hge]; try (by apply ends_ret); [lia|].
  unfold count_chunk. run_ends. set (n := Z.min (ds - off) (max_rd_pdu_data s.1)).
  eapply ends_mono; [apply transact_ends; unfold READ_RES_LEN; lia| |done].
  intros [size response] s1 (Hs & Hsz & Hr). simpl in *. unfold READ_RES_LEN in *. step_ends.
  apply ends_slice; [lia|]. step_ends.
  set (payload := take _ _). assert (Z.of_nat (length payload) ≤ n) as Hp.
  { unfold payload. rewrite length_take. lia. }
  apply copy_at_ends; [lia|]. intros b Hb _.
  assert (as_u16 (off + n) = off + n) as -> by (apply as_u16_small; unfold is_u16; lia).
  eapply ends_mono; [apply IH| |].
  - destruct Hs as (_ & _ & _ & -> & _). done.
  - lia.
  - done.
  - lia.
  - lia.
  - intros b' s' [Hs' Hl]. split; [|congruence]. etrans; [|exact Hs']. by etrans; [|exact Hs].
  - intros s' Hs'. etrans; [|exact Hs']. by etrans; [|exact Hs].
Qed.

Lemma write_loop_ends fuel area db wl ds off ls buffer s :
  1 ≤ max_wr_pdu_data s.1 → 0 ≤ off → ds ≤ Z.of_nat (length buffer) →
  ds - off ≤ Z.of_nat fuel →
  ends (write_loop fuel area db wl ds off ls buffer) s
    (λ _ s', same_link s.1 s'.1) (λ s', same_link s.1 s'.1).
Proof.
  revert off ls s. induction fuel as [|fuel IH]; intros off ls s Hwr Hoff Hlen Hf;
    cbn [write_loop]; destruct (Z.ltb_spec off ds) as [Hlt|Hge]; try (by apply ends_ret); [lia|].
  unfold count_chunk. run_ends. set (n := Z.min (ds - off) (max_wr_pdu_data s.1)).
  apply ends_slice; [lia|]. step_ends.
  eapply ends_mono; [apply transact_ends; unfold WRITE_RES_LEN; lia| |done].
  intros r s1 (Hs & _). eapply ends_mono; [apply IH| |].
  - destruct Hs as (_ & _ & _ & _ & ->). done.
  - lia.
  - done.
  - lia.
  - intros b' s' Hs'. etrans; [|exact Hs']. by etrans; [|exact Hs].
  - intros s' Hs'. etrans; [|exact Hs']. by etrans; [|exact Hs].
Qed.

Lemma begin_job_ends area wl s :
  link_ok s.1 →
  ends (begin_job area wl) s
    (λ _ s', same_link s.1 s'.1 ∧ (wl = S7_WL_BIT ∨ wl = S7_WL_BYTE) ∧ connected s.1 = true)
    (λ s', same_link s.1 s'.1).
Proof.
  intros Hl. unfold begin_job, need_stream. run_ends.
  match goal with Hw : negb (negb _ && negb _) = true, Hc : connected _ = true |- _ =>
    rewrite (Hl Hc); rename Hw into Hwl end.
  run_ends. split_and!; [done| |done].
  destruct (Z.eqb_spec wl S7_WL_BIT); [by left|]. destruct (Z.eqb_spec wl S7_WL_BYTE); [by right|done].
Qed.

Lemma data_size_bound wl buffer :
  wl = S7_WL_BIT ∨ wl = S7_WL_BYTE → (wl = S7_WL_BIT → buffer ≠ []) →
  0 ≤ data_size wl buffer ≤ 65535 ∧ data_size wl buffer ≤ Z.of_nat (length buffer).
Proof.
  intros [-> | ->] Hb; unfold data_size; simpl; [|lia].
  destruct buffer; [by destruct Hb|]. simpl. lia.
Qed.

(** ** Operations *)

Lemma end_job_ends w0 s : ends (end_job w0) s (λ _ s', same_link s.1 s'.1) (λ s', same_link s.1 s'.1).
Proof. unfold end_job. run_ends. Qed.

Lemma read_area_ends fuel area db start wl buffer s :
  link_ok s.1 → rd_ok s.1 → (wl = S7_WL_BIT → buffer ≠ []) →
  data_size wl buffer ≤ Z.of_nat fuel →
  ends (read_area fuel area db start wl buffer) s
    (λ b s', same_link s.1 s'.1 ∧ length b = length buffer) (λ s', same_link s.1 s'.1).
Proof.
  intros Hl Hs Hb Hf. unfold read_area. step_ends.
  eapply ends_mono; [by apply begin_job_ends| |done]. intros w0 s1 (H1 & Hwl & Hc). step_ends.
  pose proof (data_size_bound wl buffer Hwl Hb) as [Hd1 Hd2].
  eapply ends_mono; [apply read_loop_ends; try lia| |intros; by etrans].
  { destruct H1 as (_ & _ & _ & -> & _). by apply Hs. }
  intros b s2 [H2 Hlen]. step_ends. eapply ends_mono; [apply end_job_ends| |].
  - intros [] s3 H3. step_ends. split; [|done]. etrans; [exact H1|]. etrans; [exact H2|exact H3].
  - intros s3 H3. etrans; [exact H1|]. etrans; [exact H2|exact H3].
Qed.

Lemma write_area_ends fuel area db start wl buffer s :
  link_ok s.1 → wr_ok s.1 → (wl = S7_WL_BIT → buffer ≠ []) →
  data_size wl buffer ≤ Z.of_nat fuel →
  ends (write_area fuel area db start wl buffer) s
    (λ _ s', same_link s.1 s'.1) (λ s', same_link s.1 s'.1).
Proof.
  intros Hl Hs Hb Hf. unfold write_area. step_ends.
  eapply ends_mono; [by apply begin_job_ends| |done]. intros w0 s1 (H1 & Hwl & Hc). step_ends.
  pose proof (data_size_bound wl buffer Hwl Hb) as [Hd1 Hd2].
  eapply ends_mono; [apply write_loop_ends; try lia| |intros; by etrans].
  { destruct H1 as (_ & _ & _ & _ & ->). by apply Hs. }
  intros b s2 H2. eapply ends_mono; [apply end_job_ends| |].
  - intros [] s3 H3. etrans; [exact H1|]. etrans; [exact H2|exact H3].
  - intros s3 H3. etrans; [exact H1|]. etrans; [exact H2|exact H3].
Qed.

Lemma u8_default l i : Forall is_u8 l → is_u8 (default 0 (l !! i)).
Proof.
  intros Hl. destruct (l !! i) as [z|] eqn:E; simpl; [|by unfold is_u8].
  by eapply Forall_lookup_1.
Qed.

Lemma make_u16_range hi lo : is_u8 hi → is_u8 lo → is_u16 (make_u16 hi lo).
Proof. unfold is_u8, is_u16, make_u16. intros. rewrite lor_shiftl_add by lia. lia. Qed.

(** Connecting ends in one of two states: connected over a stream, with the
    PDU length the peer announced and the payload sizes derived from it in 16-bit
    arithmetic, and ready for jobs unless that length is exactly 18 or 28; or
    failed and not connected. *)
Theorem connect_tsap_ends ip lt rt s :
  ends (connect_tsap ip lt rt) s
    (λ _ s', let c := s'.1 in
       connected c = true ∧ link_ok c ∧ 0 < pdu_length c ≤ 65535 ∧
       max_rd_pdu_data c = as_u16 (pdu_length c - 18) ∧ max_wr_pdu_data c = as_u16 (pdu_length c - 28) ∧
       (pdu_length c ≠ 18 → rd_ok c) ∧ (pdu_length c ≠ 28 → wr_ok c))
    (λ s', connected s'.1 = false).
Proof.
  unfold connect_tsap. run_ends.
  match goal with Hr : tcp_read ISO_PN_RES_LEN _ = (Ok ?l, _), Hp : negb (?p =? 0) = true |- _ =>
    apply tcp_read_u8 in Hr; set (pdu := p) in *;
    pose proof (make_u16_range _ _ (u8_default l 25 Hr) (u8_default l 26 Hr)) as Hu;
    apply negb_true_iff, Z.eqb_neq in Hp end.
  fold pdu in Hu. unfold is_u16 in Hu. split_and!; [done|done|lia|lia|done|done| |].
  - intros H18 _. simpl in *. unfold as_u16. dlia.
  - intros H28 _. simpl in *. unfold as_u16. dlia.
Qed.

(** Disconnecting is always possible and idempotent. *)
Lemma disconnect_ends s :
  link_ok s.1 →
  ends disconnect s (λ _ s', connected s'.1 = false ∧ link_ok s'.1) (λ _, False).
Proof.
  intros Hl. unfold disconnect, need_stream. run_ends. destruct (connected s.1) eqn:Hc.
  - run_ends. rewrite (Hl Hc). run_ends.
  - run_ends.
Qed.

Definition no_ret {A} (m : S7 A) s : Prop := match m s with (ORet _, _) => False | _ => True end.

Lemma no_ret_bind {A B} (m : S7 A) (k : A → S7 B) s :
  (∀ a s', m s = (ORet a, s') → no_ret (k a) s') → no_ret (m ≫= k) s.
Proof.
  intros Hk. unfold no_ret, mbind, S7_bind in *. destruct (m s) as [[a| | |] s'] eqn:E; try done.
  by apply (Hk a s').
Qed.
Lemma no_ret_bind_l {A B} (m : S7 A) (k : A → S7 B) s : no_ret m s → no_ret (m ≫= k) s.
Proof. unfold no_ret, mbind, S7_bind. by destruct (m s) as [[a| | |] s']. Qed.

Lemma begin_job_max_rd area wl s w s' :
  begin_job area wl s = (ORet w, s') → max_rd_pdu_data s'.1 = max_rd_pdu_data s.1.
Proof.
  unfold begin_job, need_stream, mbind, S7_bind, put, get, world. cbn.
  destruct (check_area area); cbn; [|done]. destruct (negb _); cbn; [|done].
  destruct (connected s.1); cbn; [|done]. destruct (stream s.1); cbn; [|done].
  intros Hs. by injection Hs as _ <-.
Qed.

(** A chunk of no bytes does not advance. *)
Lemma read_loop_no_ret fuel area db ds ls b s :
  0 < ds → max_rd_pdu_data s.1 = 0 → no_ret (read_loop fuel area db S7_WL_BYTE ds 0 ls b) s.
Proof.
  intros Hds. revert ls b s. induction fuel as [|fuel IH]; intros ls b s Hrd; cbn [read_loop];
    (destruct (Z.ltb_spec 0 ds); [|lia]); [done|].
  apply no_ret_bind. intros c s1 Hg. injection Hg as <- <-. rewrite Hrd. replace (Z.min (ds - 0) 0) with 0 by lia.
  apply no_ret_bind. intros [] s2 Hc.
  assert (max_rd_pdu_data s2.1 = 0) as Hrd2 by (injection Hc as <-; exact Hrd). clear Hc.
  apply no_ret_bind. intros [n r] s3 Htr.
  assert (max_rd_pdu_data s3.1 = 0) as Hrd3.
  { pose proof (transact_ends (read_request S7_WL_BYTE 0 db area ls) READ_RES_LEN s2 ltac:(done)) as He.
    unfold ends in He. rewrite Htr in He. destruct He as [(_ & _ & _ & E & _) _]. by rewrite E. }
  apply no_ret_bind. intros payload s4 Hsl. unfold slice in Hsl. case_match; [|done]. injection Hsl as <- <-.
  apply no_ret_bind. intros b' s5 Hcp. unfold copy_at in Hcp. case_match; [|done]. injection Hcp as <- <-.
  by apply IH.
Qed.

(** A peer that announces a PDU of 18 bytes leaves no room for data: every
    read of a non-empty block then fails or never ends, whatever the fuel. *)
Theorem read_area_stuck fuel area db start buffer s :
  max_rd_pdu_data s.1 = 0 → buffer ≠ [] →
  match read_area fuel area db start S7_WL_BYTE buffer s with
  | (ORet _, _) => False
  | _ => True
  end.
Proof.
  intros Hrd Hb. unfold read_area.
  apply (no_ret_bind (begin_job area S7_WL_BYTE)). intros w0 s1 Hs1. apply no_ret_bind_l.
  apply read_loop_no_ret.
  - unfold data_size. simpl. destruct buffer; [done|]. simpl. lia.
  - by rewrite (begin_job_max_rd _ _ _ _ _ Hs1).
Qed.
(** C14. Transfers terminate when the negotiated PDU leaves room for data: on a
    consistent connection state whose payload sizes are at least 1, and with a
    buffer that is not empty when bits are transferred, [read_area] returns the
    buffer at its length or fails and [write_area] returns or fails, whatever the
    peer sends, in at most one round per byte; neither indexes out of range or
    changes the state of the link. A peer that announced a PDU of 18 bytes leaves
    no room: a read of a non-empty block then never returns. *)
Theorem area_transfer_total fuel area db start wl buffer s :
  (link_ok s.1 → (wl = S7_WL_BIT → buffer ≠ []) → data_size wl buffer ≤ Z.of_nat fuel →
   (rd_ok s.1 → ends (read_area fuel area db start wl buffer) s
     (λ b s', same_link s.1 s'.1 ∧ length b = length buffer) (λ s', same_link s.1 s'.1)) ∧
   (wr_ok s.1 → ends (write_area fuel area db start wl buffer) s
     (λ _ s', same_link s.1 s'.1) (λ s', same_link s.1 s'.1))) ∧
  (max_rd_pdu_data s.1 = 0 → buffer ≠ [] → ∀ rounds,
   match read_area rounds area db start S7_WL_BYTE buffer s with (ORet _, _) => False | _ => True end).
Proof.
  split; [intros Hl Hb Hf; split; intros Hs; [by apply read_area_ends|by apply write_area_ends]|].
  intros Hs Hb rounds. by apply read_area_stuck.
Qed.
End Safety.
