(* ===== verification/S7Plc.v ===== *)
(** * The S7 client against a PLC that follows the protocol

    [Plc] is the contract of the peer: each read or write request the client
    builds is answered by one telegram with the memory's bytes. Against it, the
    chunked [read_area] and [write_area] are a read and an update of the memory. *)
From S2P Require Import Prelude Float RustStr S7Client S7Safety.
Local Open Scope Z_scope.

(** A memory: area, DB number, byte address. *)
Definition Mem := Z → Z → Z → Z.

Definition region (m : Mem) (area db a n : Z) : list Z := m area db <$> seqZ a n.

Definition update (m : Mem) (area db a : Z) (data : list Z) : Mem := λ area' db' i,
  if decide (area' = area ∧ db' = db ∧ a ≤ i < a + Z.of_nat (length data))
  then default 0 (data !! Z.to_nat (i - a)) else m area' db' i.

Definition iso_header (size : Z) : list Z :=
  [ISO_ID; 0; hi_part (size + 7); lo_part (size + 7); 2; 0xF0; EOT].

(** One answered request: the header, then a telegram of [size] bytes. *)
Definition answers {W} `{Tcp W} (w : W) (request : list Z) (size : Z) (reply : list Z) (w' : W) : Prop :=
  ∃ w1 w2, tcp_write_all request w = (Ok (), w1) ∧
    tcp_read_exact TPKT_ISO_LEN w1 = (Ok (iso_header size), w2) ∧
    tcp_read_exact (Z.to_nat size) w2 = (Ok reply, w') ∧
    length reply = Z.to_nat size ∧ reply !! RW_RES_OFFSET = Some RES_SUCCESS.

(** Bit [b] of a byte, and the byte with that bit set to [v]. *)
Definition set_bit (byte b : Z) (v : bool) : Z :=
  if v then Z.lor byte (Z.shiftl 1 b) else Z.ldiff byte (Z.shiftl 1 b).

(** The peer: its memory, when it is ready for a request, which regions exist. *)
Class Plc (W : Type) `{Tcp W} := {
  plc_ready : W → Prop;
  plc_mem : W → Mem;
  plc_has : W → Z → Z → Z → Z → Prop;
  plc_has_sub : ∀ w area db a n b k,
    plc_has w area db a n → a ≤ b → 0 ≤ k → b + k ≤ a + n → plc_has w area db b k;
  plc_read : ∀ w area db a n,
    plc_ready w → plc_has w area db a n → 1 ≤ n ≤ 462 →
    ∃ hdr w', answers w (read_request S7_WL_BYTE n db area a) (18 + n)
                (hdr ++ region (plc_mem w) area db a n) w' ∧
      length hdr = 18%nat ∧ plc_ready w' ∧ plc_mem w' = plc_mem w ∧ plc_has w' = plc_has w;
  plc_write : ∀ w area db a data,
    plc_ready w → plc_has w area db a (Z.of_nat (length data)) → 1 ≤ Z.of_nat (length data) ≤ 452 →
    Forall is_u8 data →
    ∃ reply w', answers w (write_request S7_WL_BYTE db area a data) 15 reply w' ∧
      plc_ready w' ∧ (∀ x y z, plc_mem w' x y z = update (plc_mem w) area db a data x y z) ∧
      plc_has w' = plc_has w;
  plc_read_bit : ∀ w area db a,
    plc_ready w → plc_has w area db (a / 8) 1 → 0 ≤ a ≤ 65535 →
    ∃ hdr w', answers w (read_request S7_WL_BIT 1 db area a) 19
                (hdr ++ [Z.b2z (Z.testbit (plc_mem w area db (a / 8)) (a mod 8))]) w' ∧
      length hdr = 18%nat ∧ plc_ready w' ∧ plc_mem w' = plc_mem w ∧ plc_has w' = plc_has w;
  plc_write_bit : ∀ w area db a (v : bool),
    plc_ready w → plc_has w area db (a / 8) 1 → 0 ≤ a ≤ 65535 →
    ∃ reply w', answers w (write_request S7_WL_BIT db area a [if v then 1 else 0]) 15 reply w' ∧
      plc_ready w' ∧
      (∀ x y z, plc_mem w' x y z =
         update (plc_mem w) area db (a / 8) [set_bit (plc_mem w area db (a / 8)) (a mod 8) v] x y z) ∧
      plc_has w' = plc_has w;
}.

Section Plc.
Context {W : Type} `{Plc W}.

(** ** Headers *)

Lemma make_u16_parts x : is_u16 x → make_u16 (hi_part x) (lo_part x) = x.
Proof.
  unfold is_u16. intros Hx. unfold make_u16, hi_part, lo_part.
  change 255 with (Z.ones 8). rewrite !Z.land_ones, Z.shiftr_div_pow2 by lia.
  rewrite !as_u8_small by (unfold is_u8; dlia). rewrite lor_shiftl_add by dlia. dlia.
Qed.

Lemma check_iso_header pdu size :
  1 ≤ size ≤ pdu → size + 7 ≤ 65535 → check_iso_packet pdu (iso_header size) = Ok size.
Proof.
  intros Hs Hb. unfold check_iso_packet, iso_header. cbn [lookup list_lookup default from_option id].
  rewrite make_u16_parts by (unfold is_u16; lia). simpl negb. simpl orb.
  destruct (Z.ltb_spec (size + 7) 7); [lia|]. destruct (Z.ltb_spec pdu (size + 7 - 7)); [lia|].
  destruct (Z.eqb_spec (size + 7 - 7) 0); [lia|]. simpl. f_equal. lia.
Qed.

Lemma transact_answers request m size reply (c : S7Client) w w' :
  answers w request size reply w' → 15 ≤ m → m ≤ size ≤ 480 → size ≤ pdu_length c →
  transact request m (c, w) = (ORet (size, reply ++ replicate (480 - length reply) 0), (c, w')).
Proof.
  intros (w1 & w2 & Hw & Hi & Hr & Hlen & Hcode) Hm Hs Hp. unfold transact.
  unfold mbind, S7_bind, io. simpl. rewrite Hw. simpl. rewrite Hi. simpl.
  rewrite check_iso_header by lia. simpl.
  destruct (Z.leb_spec m size); [|lia]. simpl. destruct (Z.leb_spec size PDU_LEN_REQ); [|unfold PDU_LEN_REQ in *; lia].
  simpl. rewrite Hr. simpl. unfold index. rewrite lookup_app_l, Hcode by (unfold RW_RES_OFFSET; lia).
  done.
Qed.

(** ** Regions *)

Lemma region_length m area db a n : length (region m area db a n) = Z.to_nat n.
Proof. unfold region. by rewrite length_fmap, length_seqZ. Qed.

Lemma region_app m area db a n k :
  0 ≤ n → 0 ≤ k → region m area db a (n + k) = region m area db a n ++ region m area db (a + n) k.
Proof. intros. unfold region. by rewrite seqZ_app, fmap_app. Qed.

Lemma region_lookup m area db a n i :
  (i < Z.to_nat n)%nat → region m area db a n !! i = Some (m area db (a + Z.of_nat i)).
Proof.
  intros Hi. unfold region. rewrite list_lookup_fmap.
  rewrite (proj2 (lookup_seqZ a n i (a + Z.of_nat i))) by lia. done.
Qed.

Lemma region_ext (m m' : Mem) area db a n :
  (∀ i, a ≤ i < a + n → m area db i = m' area db i) → region m area db a n = region m' area db a n.
Proof.
  intros Hm. unfold region. apply list_fmap_ext. intros i x Hx%lookup_seqZ. apply Hm. lia.
Qed.

(** ** Reading *)

Definition ready_client (c : S7Client) : Prop :=
  connected c = true ∧ stream c = true ∧ 29 ≤ pdu_length c ≤ 480 ∧
  max_rd_pdu_data c = pdu_length c - 18 ∧ max_wr_pdu_data c = pdu_length c - 28.

Lemma ready_stats t n c : ready_client c → ready_client (set_stats t n c).
Proof. done. Qed.

Lemma read_loop_plc fuel area db ds off start buffer c w :
  ready_client c → plc_ready w → plc_has w area db start ds →
  0 ≤ off ≤ ds → ds ≤ 65535 → 0 ≤ start ≤ 65535 → Z.of_nat (length buffer) = ds →
  take (Z.to_nat off) buffer = region (plc_mem w) area db start off →
  ds - off ≤ Z.of_nat fuel →
  ∃ c' w', read_loop fuel area db S7_WL_BYTE ds off (start + off) buffer (c, w)
             = (ORet (region (plc_mem w) area db start ds), (c', w')) ∧
    ready_client c' ∧ same_link c c' ∧ plc_ready w' ∧ plc_mem w' = plc_mem w ∧ plc_has w' = plc_has w.
Proof.
  revert off buffer c w. induction fuel as [|fuel IH];
    intros off buffer c w Hc Hw Hhas Hoff Hds Hst Hlen Hpre Hf; cbn [read_loop];
    destruct (Z.ltb_spec off ds) as [Hlt|Hge]; [lia| | |].
  1,3: assert (off = ds) as -> by lia; exists c, w; split_and!; try done;
    rewrite take_ge in Hpre by lia; rewrite Hpre; done.
  pose proof Hc as (Hcon & Hstr & Hpdu & Hrd & Hwr).
  unfold mbind at 1, S7_bind at 1, get. simpl.
  set (n := Z.min (ds - off) (max_rd_pdu_data c)).
  assert (1 ≤ n ≤ 462 ∧ n ≤ ds - off) as Hn by lia.
  unfold mbind at 1, S7_bind at 1, count_chunk, put. simpl.
  set (c1 := set_stats (last_time c) (chunks c + 1) c).
  destruct (plc_read w area db (start + off) n) as (hdr & w1 & Hans & Hh & Hw1 & Hm1 & Hs1);
    [done|by eapply plc_has_sub; [exact Hhas|lia..]|lia|].
  unfold mbind at 1, S7_bind at 1.
  rewrite (transact_answers _ READ_RES_LEN _ _ c1 w w1 Hans) by (unfold READ_RES_LEN; simpl; lia).
  set (payload := region (plc_mem w) area db (start + off) n) in *.
  assert (length payload = Z.to_nat n) as Hp by apply region_length.
  unfold READ_RES_LEN. replace (Z.min (18 + n - 18) n) with n by lia.
  unfold mbind at 1, S7_bind at 1, slice.
  destruct (Nat.leb_spec (18 + Z.to_nat n) (length ((hdr ++ payload) ++ replicate (480 - length (hdr ++ payload)) 0)));
    [|rewrite !length_app, length_replicate in *; lia].
  assert (take (Z.to_nat n) (drop 18 ((hdr ++ payload) ++ replicate (480 - length (hdr ++ payload)) 0)) = payload) as ->.
  { rewrite <- (assoc_L (++)), <- Hh, drop_app_length, <- Hp. apply take_app_length. }
  unfold mbind at 1, S7_bind at 1, copy_at. simpl.
  destruct (Nat.leb_spec (Z.to_nat off + length payload) (length buffer)); [|lia].
  set (b' := take (Z.to_nat off) buffer ++ payload ++ drop (Z.to_nat off + length payload) buffer).
  rewrite as_u16_small by (unfold is_u16; lia). rewrite as_u32_small by (unfold is_u32; lia).
  replace (start + off + n) with (start + (off + n)) by lia.
  destruct (IH (off + n) b' c1 w1) as (c' & w' & E & Hc' & Hl' & Hw' & Hm' & Hs'); try done.
  - by rewrite Hs1.
  - lia.
  - unfold b'. rewrite !length_app, length_take, length_drop. lia.
  - rewrite Hm1. rewrite region_app by lia. unfold b'. rewrite Hpre. fold payload.
    rewrite (assoc_L (++)). rewrite take_app_length'; [done|].
    rewrite length_app, region_length, Hp. lia.
  - lia.
  - exists c', w'. rewrite Hm1 in E, Hm'. split_and!; try done; try congruence.

Qed.

Lemma begin_job_ready area wl c (w : W) :
  ready_client c → check_area area = Ok () → wl = S7_WL_BYTE ∨ wl = S7_WL_BIT →
  begin_job area wl (c, w) = (ORet w, (set_stats f64_zero 0 c, w)).
Proof.
  intros (Hcon & Hstr & _) Ha Hwl. unfold begin_job, need_stream, mbind, S7_bind, put, get. cbn.
  rewrite Ha. cbn. assert (negb (negb (wl =? S7_WL_BIT) && negb (wl =? S7_WL_BYTE)) = true) as ->
    by (by destruct Hwl as [-> | ->]). cbn. rewrite Hcon. cbn. rewrite Hstr. done.
Qed.

Lemma data_size_bytes buffer :
  Z.of_nat (length buffer) ≤ 65535 → data_size S7_WL_BYTE buffer = Z.of_nat (length buffer).
Proof. intros Hb. unfold data_size. simpl. lia. Qed.

(** A block read is the memory: against a PLC that follows the protocol,
    [read_area] fills the whole buffer with the bytes at the addresses asked,
    however the negotiated PDU splits the block into chunks, and changes nothing
    on the PLC. *)
Lemma read_area_plc fuel area db start buffer c w :
  let n := Z.of_nat (length buffer) in
  ready_client c → plc_ready w → check_area area = Ok () → plc_has w area db start n →
  0 ≤ start ≤ 65535 → n ≤ 65535 → n ≤ Z.of_nat fuel →
  ∃ c' w', read_area fuel area db start S7_WL_BYTE buffer (c, w)
             = (ORet (region (plc_mem w) area db start n), (c', w')) ∧
    ready_client c' ∧ plc_ready w' ∧ plc_mem w' = plc_mem w ∧ plc_has w' = plc_has w.
Proof.
  intros n Hc Hw Ha Hhas Hst Hn Hf. unfold read_area.
  unfold mbind at 1, S7_bind at 1. rewrite begin_job_ready by auto.
  rewrite data_size_bytes by done. fold n. set (c1 := set_stats f64_zero 0 c).
  destruct (read_loop_plc fuel area db n 0 start buffer c1 w) as (c' & w' & E & Hc' & _ & Hw' & Hm' & Hs');
    [done|done|done|lia|lia|lia|done|done|lia|].
  rewrite Z.add_0_r in E. unfold mbind at 1, S7_bind at 1. rewrite E.
  eexists _, w'. split; [reflexivity|]. done.
Qed.

(** ** Writing *)

Lemma update_app (m : Mem) area db a d1 d2 x y z :
  update (update m area db a d1) area db (a + Z.of_nat (length d1)) d2 x y z =
  update m area db a (d1 ++ d2) x y z.
Proof.
  unfold update. rewrite length_app.
  destruct (decide (x = area ∧ y = db)) as [[-> ->]|Hne].
  2: { repeat case_decide; try done; naive_solver. }
  destruct (decide (a + Z.of_nat (length d1) ≤ z < a + Z.of_nat (length d1) + Z.of_nat (length d2))) as [Hz|Hz].
  - rewrite decide_True by (split_and!; lia). rewrite decide_True by (split_and!; lia).
    rewrite lookup_app_r by lia. do 2 f_equal. lia.
  - rewrite (decide_False (P := _ ∧ _ ∧ (_ + _ ≤ z < _))) by (intros (_ & _ & ?); lia).
    destruct (decide (a ≤ z < a + Z.of_nat (length d1))) as [Hz'|Hz'].
    + rewrite decide_True by done. rewrite decide_True by (split_and!; lia).
      rewrite lookup_app_l by lia. done.
    + rewrite decide_False by (intros (_ & _ & ?); lia). rewrite decide_False by (intros (_ & _ & ?); lia). done.
Qed.

Lemma update_nil (m : Mem) area db a x y z : update m area db a [] x y z = m x y z.
Proof. unfold update. rewrite decide_False; [done|]. simpl. lia. Qed.

Lemma update_ext (m m' : Mem) area db a d x y z :
  (∀ x y z, m x y z = m' x y z) → update m area db a d x y z = update m' area db a d x y z.
Proof. intros Hm. unfold update. case_decide; [done|apply Hm]. Qed.

Lemma write_loop_plc fuel area db ds off start buffer c w :
  ready_client c → plc_ready w → plc_has w area db start ds → Forall is_u8 buffer →
  0 ≤ off ≤ ds → ds ≤ 65535 → 0 ≤ start ≤ 65535 → Z.of_nat (length buffer) = ds →
  ds - off ≤ Z.of_nat fuel →
  ∃ c' w', write_loop fuel area db S7_WL_BYTE ds off (start + off) buffer (c, w) = (ORet (), (c', w')) ∧
    ready_client c' ∧ plc_ready w' ∧
    (∀ x y z, plc_mem w' x y z = update (plc_mem w) area db (start + off) (drop (Z.to_nat off) buffer) x y z) ∧
    plc_has w' = plc_has w.
Proof.
  revert off c w. induction fuel as [|fuel IH];
    intros off c w Hc Hw Hhas Hu8 Hoff Hds Hst Hlen Hf; cbn [write_loop];
    destruct (Z.ltb_spec off ds) as [Hlt|Hge]; [lia| | |].
  1,3: exists c, w; split_and!; try done; intros; rewrite drop_ge by lia; by rewrite update_nil.
  pose proof Hc as (Hcon & Hstr & Hpdu & Hrd & Hwr).
  unfold mbind at 1, S7_bind at 1, count_chunk, put. simpl.
  set (c1 := set_stats (last_time c) (chunks c + 1) c).
  unfold mbind at 1, S7_bind at 1, get. cbn [fst snd].
  change (max_wr_pdu_data c1) with (max_wr_pdu_data c).
  set (n := Z.min (ds - off) (max_wr_pdu_data c)).
  assert (1 ≤ n ≤ 452 ∧ n ≤ ds - off) as Hn by lia.
  unfold mbind at 1, S7_bind at 1, slice.
  destruct (Nat.leb_spec (Z.to_nat off + Z.to_nat n) (length buffer)); [|lia].
  set (chunk := take (Z.to_nat n) (drop (Z.to_nat off) buffer)).
  assert (length chunk = Z.to_nat n) as Hch by (unfold chunk; rewrite length_take, length_drop; lia).
  destruct (plc_write w area db (start + off) chunk) as (reply & w1 & Hans & Hw1 & Hm1 & Hs1);
    [done|eapply plc_has_sub; [exact Hhas|lia..]|lia|by apply Forall_take, Forall_drop|].
  unfold mbind at 1, S7_bind at 1. simpl.
  rewrite (transact_answers _ WRITE_RES_LEN _ _ c1 w w1 Hans) by (unfold WRITE_RES_LEN; simpl; lia).
  rewrite as_u32_small by (unfold is_u32; lia).
  replace (start + off + n) with (start + (off + n)) by lia.
  destruct (IH (off + n) c1 w1) as (c' & w' & E & Hc' & Hw' & Hm' & Hs'); try done; try lia.
  { by rewrite Hs1. }
  exists c', w'. split_and!; [done|done|done| |congruence].
  intros x y z. rewrite Hm', (update_ext _ _ _ _ _ _ _ _ _ Hm1).
  replace (drop (Z.to_nat off) buffer) with (chunk ++ drop (Z.to_nat (off + n)) buffer).
  2: { unfold chunk. replace (Z.to_nat (off + n)) with (Z.to_nat off + Z.to_nat n)%nat by lia.
       by rewrite <- drop_drop, take_drop. }
  rewrite <- update_app, Hch. by replace (start + off + Z.of_nat (Z.to_nat n)) with (start + (off + n)) by lia.
Qed.

(** A block write is an update of the memory at exactly its addresses: it
    reaches the PLC whole, in the right order, whatever the chunking, and touches
    nothing else. *)
Lemma write_area_plc fuel area db start buffer c w :
  let n := Z.of_nat (length buffer) in
  ready_client c → plc_ready w → check_area area = Ok () → plc_has w area db start n →
  Forall is_u8 buffer → 0 ≤ start ≤ 65535 → n ≤ 65535 → n ≤ Z.of_nat fuel →
  ∃ c' w', write_area fuel area db start S7_WL_BYTE buffer (c, w) = (ORet (), (c', w')) ∧
    ready_client c' ∧ plc_ready w' ∧
    (∀ x y z, plc_mem w' x y z = update (plc_mem w) area db start buffer x y z) ∧
    plc_has w' = plc_has w.
Proof.
  intros n Hc Hw Ha Hhas Hu8 Hst Hn Hf. unfold write_area.
  unfold mbind at 1, S7_bind at 1. rewrite begin_job_ready by auto.
  rewrite data_size_bytes by done. fold n. set (c1 := set_stats f64_zero 0 c).
  destruct (write_loop_plc fuel area db n 0 start buffer c1 w) as (c' & w' & E & Hc' & Hw' & Hm' & Hs');
    [done|done|done|done|lia|lia|lia|done|lia|].
  rewrite Z.add_0_r in E, Hm'. unfold mbind at 1, S7_bind at 1. rewrite E.
  eexists _, w'. split; [reflexivity|]. done.
Qed.

Lemma region_update m area db a data : region (update m area db a data) area db a (Z.of_nat (length data)) = data.
Proof.
  apply list_eq. intros i. destruct (decide (i < length data)%nat) as [Hi|Hi].
  - rewrite region_lookup by lia. unfold update. rewrite decide_True by lia.
    replace (Z.to_nat (a + Z.of_nat i - a)) with i by lia. destruct (lookup_lt_is_Some_2 data i Hi) as [x ->]. done.
  - rewrite !lookup_ge_None_2; [done|lia|]. rewrite region_length. lia.
Qed.

(** C24. What is written is read back: against a PLC that follows the protocol a
    block write followed by a block read of any region gives the memory with the
    data at exactly its addresses, in order, whatever the PDU makes of the chunks;
    reading the region written gives the data. *)
Theorem area_write_read fuel area db start data fuel' area' db' start' buffer c w :
  let n := Z.of_nat (length data) in
  let n' := Z.of_nat (length buffer) in
  ready_client c → plc_ready w → check_area area = Ok () → check_area area' = Ok () →
  plc_has w area db start n → plc_has w area' db' start' n' → Forall is_u8 data →
  0 ≤ start ≤ 65535 → 0 ≤ start' ≤ 65535 → n ≤ 65535 → n' ≤ 65535 → n ≤ Z.of_nat fuel → n' ≤ Z.of_nat fuel' →
  ∃ c1 w1 c2 w2, write_area fuel area db start S7_WL_BYTE data (c, w) = (ORet (), (c1, w1)) ∧
    read_area fuel' area' db' start' S7_WL_BYTE buffer (c1, w1)
      = (ORet (region (update (plc_mem w) area db start data) area' db' start' n'), (c2, w2)) ∧
    region (update (plc_mem w) area db start data) area db start n = data.
Proof.
  intros n n' Hc Hw Ha Ha' Hh Hh' Hu Hs Hs' Hn Hn' Hf Hf'.
  destruct (write_area_plc fuel area db start data c w) as (c1 & w1 & E1 & Hc1 & Hw1 & Hm1 & Hhas); [done..|].
  destruct (read_area_plc fuel' area' db' start' buffer c1 w1) as (c2 & w2 & E2 & _);
    [done|done|done|by rewrite Hhas|done..|].
  exists c1, w1, c2, w2. split_and!; [done| |apply region_update].
  fold n' in E2. by rewrite (region_ext _ (update (plc_mem w) area db start data)) in E2 by done.
Qed.

(** ** Bits *)

(** The byte a bit access addresses: the bit address is computed in 16 bits. *)
Definition bit_byte (byte_num : Z) : Z := byte_num mod 8192.

Lemma bit_start_split byte_num bit_idx :
  0 ≤ byte_num ≤ 65535 → 0 ≤ bit_idx ≤ 7 →
  bit_start byte_num bit_idx / 8 = bit_byte byte_num ∧ bit_start byte_num bit_idx mod 8 = bit_idx ∧
  0 ≤ bit_start byte_num bit_idx ≤ 65535.
Proof.
  intros Hb Hi. unfold bit_start, bit_byte, as_u16. change (2 ^ 16) with 65536.
  assert ((byte_num * 8) mod 65536 = byte_num mod 8192 * 8) as ->.
  { change 65536 with (8192 * 8). by rewrite Z.mul_mod_distr_r. }
  rewrite (Z.mod_small (_ * 8 + bit_idx)) by dlia. split_and!; dlia.
Qed.

(** A bit read is the bit of the PLC's memory, provided the byte number is
    below 8192; the 16-bit bit address wraps, so that a byte number from 8192 on
    reads the byte 8192 (or a multiple) lower. *)
Lemma read_bit_plc fuel area db byte_num bit_idx c w :
  ready_client c → plc_ready w → check_area area = Ok () → plc_has w area db (bit_byte byte_num) 1 →
  0 ≤ byte_num ≤ 65535 → 0 ≤ bit_idx ≤ 7 → (1 ≤ fuel)%nat →
  ∃ c' w', read_bit fuel area db byte_num bit_idx (c, w)
             = (ORet (Z.testbit (plc_mem w area db (bit_byte byte_num)) bit_idx), (c', w')) ∧
    ready_client c' ∧ plc_ready w' ∧ plc_mem w' = plc_mem w ∧ plc_has w' = plc_has w.
Proof.
  intros Hc Hw Ha Hhas Hb Hi Hf.
  destruct (bit_start_split byte_num bit_idx Hb Hi) as (Hq & Hr & Hrange).
  unfold read_bit. destruct (Z.leb_spec bit_idx 7); [|lia]. cbn [guard].
  unfold mbind at 1, S7_bind at 1, mret at 1, S7_ret. unfold mbind at 1, S7_bind at 1, read_area.
  unfold mbind at 1, S7_bind at 1. rewrite begin_job_ready by auto.
  set (c1 := set_stats f64_zero 0 c).
  destruct fuel as [|fuel]; [lia|].
  destruct (plc_read_bit w area db (bit_start byte_num bit_idx)) as (hdr & w1 & Hans & Hh & Hw1 & Hm1 & Hs1);
    [done|by rewrite Hq|done|]. rewrite Hq, Hr in Hans.
  set (b := Z.testbit _ _) in *.
  assert (read_loop (S fuel) area db S7_WL_BIT (data_size S7_WL_BIT [0]) 0 (bit_start byte_num bit_idx) [0] (c1, w)
          = (ORet [Z.b2z b], (set_stats (last_time c1) (chunks c1 + 1) c1, w1))) as E.
  { change (data_size S7_WL_BIT [0]) with 1. cbn [read_loop]. destruct (Z.ltb_spec 0 1); [|lia].
    unfold mbind at 1, S7_bind at 1, get. cbn [fst snd].
    pose proof Hc as (_ & _ & Hpdu & Hrd & _).
    change (max_rd_pdu_data c1) with (max_rd_pdu_data c).
    replace (Z.min (1 - 0) (max_rd_pdu_data c)) with 1 by lia.
    unfold mbind at 1, S7_bind at 1, count_chunk, put. cbn [fst snd].
    unfold mbind at 1, S7_bind at 1.
    rewrite (transact_answers _ READ_RES_LEN 19 _ _ w w1 Hans) by (unfold READ_RES_LEN; simpl; lia).
    unfold READ_RES_LEN. change (Z.to_nat (Z.min (19 - 18) 1)) with 1%nat.
    unfold mbind at 1, S7_bind at 1, slice.
    destruct (Nat.leb_spec (18 + 1) (length ((hdr ++ [Z.b2z b]) ++ replicate (480 - length (hdr ++ [Z.b2z b])) 0)));
      [|rewrite !length_app, length_replicate in *; simpl in *; lia].
    assert (take 1 (drop 18 ((hdr ++ [Z.b2z b]) ++ replicate (480 - length (hdr ++ [Z.b2z b])) 0)) = [Z.b2z b]) as ->.
    { rewrite <- (assoc_L (++)), <- Hh, drop_app_length. done. }
    destruct fuel; done. }
  unfold mbind at 1, S7_bind at 1. rewrite E. clear E Hans.
  destruct b; eexists _, w1; (split; [reflexivity|done]).
Qed.

Lemma write_bit_plc fuel area db byte_num bit_idx v c w :
  ready_client c → plc_ready w → check_area area = Ok () → plc_has w area db (bit_byte byte_num) 1 →
  0 ≤ byte_num ≤ 65535 → 0 ≤ bit_idx ≤ 7 → (1 ≤ fuel)%nat →
  ∃ c' w', write_bit fuel area db byte_num bit_idx v (c, w) = (ORet (), (c', w')) ∧
    ready_client c' ∧ plc_ready w' ∧
    (∀ x y z, plc_mem w' x y z = update (plc_mem w) area db (bit_byte byte_num)
                [set_bit (plc_mem w area db (bit_byte byte_num)) bit_idx v] x y z).
Proof.
  intros Hc Hw Ha Hhas Hb Hi Hf.
  destruct (bit_start_split byte_num bit_idx Hb Hi) as (Hq & Hr & Hrange).
  unfold write_bit. destruct (Z.leb_spec bit_idx 7); [|lia]. cbn [guard].
  unfold mbind at 1, S7_bind at 1, mret at 1, S7_ret, write_area.
  unfold mbind at 1, S7_bind at 1. rewrite begin_job_ready by auto.
  set (c1 := set_stats f64_zero 0 c). destruct fuel as [|fuel]; [lia|].
  destruct (plc_write_bit w area db (bit_start byte_num bit_idx) v) as (reply & w1 & Hans & Hw1 & Hm1 & Hs1);
    [done|by rewrite Hq|done|]. rewrite Hq, Hr in Hm1.
  set (data := [if v then 1 else 0]) in *.
  assert (write_loop (S fuel) area db S7_WL_BIT (data_size S7_WL_BIT data) 0 (bit_start byte_num bit_idx) data (c1, w)
          = (ORet (), (set_stats (last_time c1) (chunks c1 + 1) c1, w1))) as E.
  { change (data_size S7_WL_BIT data) with 1. cbn [write_loop]. destruct (Z.ltb_spec 0 1); [|lia].
    unfold mbind at 1, S7_bind at 1, count_chunk, put. cbn [fst snd].
    unfold mbind at 1, S7_bind at 1, get. cbn [fst snd].
    pose proof Hc as (_ & _ & Hpdu & _ & Hwr).
    change (max_wr_pdu_data (set_stats (last_time c1) (chunks c1 + 1) c1)) with (max_wr_pdu_data c).
    replace (Z.min (1 - 0) (max_wr_pdu_data c)) with 1 by lia. change (Z.to_nat 1) with 1%nat.
    unfold mbind at 1, S7_bind at 1, slice. change (Z.to_nat 0 + 1 <=? length data)%nat with true. cbn match. change (take 1 (drop (Z.to_nat 0) data)) with data.
    unfold mbind at 1, S7_bind at 1.
    cbn [mret S7_ret]. unfold mret, S7_ret. cbn beta iota.
    rewrite (transact_answers _ WRITE_RES_LEN 15 _ _ w w1 Hans) by (unfold WRITE_RES_LEN; simpl; lia).
    destruct fuel; done. }
  unfold mbind at 1, S7_bind at 1. rewrite E. eexists _, w1. split; [reflexivity|]. done.
Qed.
End Plc.
