(* ===== verification/S7Sim.v ===== *)
(** * A PLC that follows the protocol

    A simulated peer: it parses the telegrams the client sends, accepts the
    connection with a PDU of 480 bytes, and answers reads and writes from a
    memory. It satisfies the contract [Plc] and discharges it in the concrete runs
    of the client at the end. *)
From S2P Require Import Prelude Float RustStr S7Client S7Safety S7Plc.
Local Open Scope Z_scope.

Record Sim := mkSim { sim_mem : Mem; sim_out : list Z }.

Definition at_ (l : list Z) (i : nat) : Z := default 0 (l !! i).

Definition ok_reply (data : list Z) : list Z := replicate 14 0 ++ [RES_SUCCESS; 0; 0; 0] ++ data.

Definition sim_serve (req : list Z) (s : Sim) : Sim :=
  let wl := at_ req 22 in
  let n := make_u16 (at_ req 23) (at_ req 24) in
  let db := make_u16 (at_ req 25) (at_ req 26) in
  let area := at_ req 27 in
  let addr := at_ req 28 * 65536 + at_ req 29 * 256 + at_ req 30 in
  if at_ req 5 =? ISO_CONN_REQ then
    mkSim (sim_mem s) ([ISO_ID; 0; 0; 22; 17; ISO_CONN_OK] ++ replicate 16 0)
  else if at_ req 17 =? 0xF0 then
    mkSim (sim_mem s) ([ISO_ID; 0; 0; 27; 2; 0xF0; EOT; S7_ID] ++ replicate 17 0 ++ [1; 224])
  else if at_ req 17 =? 4 then
    let data :=
      if wl =? S7_WL_BIT
      then [Z.b2z (Z.testbit (sim_mem s area db (addr / 8)) (addr mod 8))]
      else region (sim_mem s) area db (addr / 8) n in
    let reply := ok_reply data in
    mkSim (sim_mem s) (iso_header (Z.of_nat (length reply)) ++ reply)
  else
    let data :=
      if wl =? S7_WL_BIT
      then [set_bit (sim_mem s area db (addr / 8)) (addr mod 8) (negb (at_ req 35 =? 0))]
      else drop 35 req in
    mkSim (update (sim_mem s) area db (addr / 8) data) (iso_header 15 ++ replicate 14 0 ++ [RES_SUCCESS]).

Definition sim_take (n : nat) (s : Sim) : list Z * Sim :=
  (as_u8 <$> take n (sim_out s), mkSim (sim_mem s) (drop n (sim_out s))).

#[export] Instance sim_tcp : Tcp Sim := {|
  tcp_resolve _ _ s := (Ok true, s);
  tcp_connect _ _ _ _ _ s := (Ok (), s);
  tcp_write_all req s := (Ok (), sim_serve req s);
  tcp_read n s := let '(l, s) := sim_take n s in (Ok l, s);
  tcp_read_exact n s :=
    if (n <=? length (sim_out s))%nat then let '(l, s) := sim_take n s in (Ok l, s)
    else (Err "failed to fill whole buffer", s);
  tcp_shutdown s := mkSim (sim_mem s) [];
  tcp_elapsed_ms _ _ := f64_one;
|}.

Lemma as_u8_all l : Forall is_u8 (as_u8 <$> l).
Proof. apply Forall_fmap, Forall_true. intros x. apply as_u8_range. Qed.

#[export] Instance sim_tcp_ok : TcpOk Sim.
Proof.
  split.
  - intros n w l w'. simpl. intros [= <- _]. rewrite length_fmap, length_take. lia.
  - intros n w l w'. simpl. case_match eqn:Hn; [|done]. intros [= <- _].
    apply Nat.leb_le in Hn. rewrite length_fmap, length_take. lia.
  - intros n w l w'. simpl. intros [= <- _]. apply as_u8_all.
  - intros n w l w'. simpl. case_match; [|done]. intros [= <- _]. apply as_u8_all.
Qed.

(** ** The simulator parses what the client builds *)

Lemma address_bytes_sum a :
  0 ≤ a < 2 ^ 24 →
  at_ (address_bytes a) 0 * 65536 + at_ (address_bytes a) 1 * 256 + at_ (address_bytes a) 2 = a.
Proof.
  intros Ha. unfold address_bytes, at_. simpl. change 255 with (Z.ones 8).
  rewrite !Z.land_ones, !Z.shiftr_div_pow2 by lia. unfold as_u8. dlia.
Qed.

Lemma address_of_byte a : 0 ≤ a < 2 ^ 21 → address_of S7_WL_BYTE a = a * 8.
Proof.
  intros Ha. unfold address_of. simpl. rewrite Z.shiftl_mul_pow2 by lia.
  apply as_u32_small. unfold is_u32. lia.
Qed.

Definition sim_ready (s : Sim) : Prop := sim_out s = [] ∧ ∀ x y z, is_u8 (sim_mem s x y z).
Definition sim_has (s : Sim) (area db a n : Z) : Prop :=
  0 ≤ a ∧ a + n ≤ 131072 ∧ is_u16 db ∧ is_u8 area.

Lemma hi_part_u8 x : is_u8 (hi_part x).
Proof. apply as_u8_range. Qed.
Lemma lo_part_u8 x : is_u8 (lo_part x).
Proof. apply as_u8_range. Qed.

Lemma as_u8_id l : Forall is_u8 l → as_u8 <$> l = l.
Proof. induction 1 as [|z l Hz _ IH]; [done|]. rewrite fmap_cons, IH. by rewrite as_u8_small. Qed.

Lemma iso_header_u8 n : Forall is_u8 (iso_header n).
Proof. repeat constructor; try apply hi_part_u8; try apply lo_part_u8; unfold is_u8; done. Qed.

Lemma region_u8 m area db a n : (∀ x y z, is_u8 (m x y z)) → Forall is_u8 (region m area db a n).
Proof. intros Hm. apply Forall_fmap, Forall_true. intros. apply Hm. Qed.

(** The exchange of one telegram through the two reads. *)
Lemma sim_answers s req m reply :
  sim_serve req s = mkSim m (iso_header (Z.of_nat (length reply)) ++ reply) →
  Forall is_u8 reply → reply !! RW_RES_OFFSET = Some RES_SUCCESS →
  answers s req (Z.of_nat (length reply)) reply (mkSim m []).
Proof.
  intros Hs Hu Hc. exists (mkSim m (iso_header (Z.of_nat (length reply)) ++ reply)), (mkSim m reply).
  rewrite Nat2Z.id. split_and!; try done.
  - simpl. by rewrite Hs.
  - cbn [tcp_read_exact sim_tcp sim_out sim_take]. rewrite length_app.
    destruct (Nat.leb_spec TPKT_ISO_LEN (length (iso_header (Z.of_nat (length reply))) + length reply));
      [|unfold TPKT_ISO_LEN in *; simpl in *; lia].
    unfold sim_take. cbn [sim_out sim_mem].
    change TPKT_ISO_LEN with (length (iso_header (Z.of_nat (length reply)))).
    rewrite take_app_length, drop_app_length, as_u8_id by apply iso_header_u8. done.
  - simpl. rewrite Nat.leb_refl. unfold sim_take. cbn [sim_out sim_mem].
    rewrite firstn_all, drop_all, as_u8_id by done. done.
Qed.

Lemma update_u8 m area db a data :
  (∀ x y z, is_u8 (m x y z)) → Forall is_u8 data → ∀ x y z, is_u8 (update m area db a data x y z).
Proof.
  intros Hm Hd x y z. unfold update. case_decide; [|done]. by apply u8_default.
Qed.

Lemma set_bit_u8 byte b v : is_u8 byte → 0 ≤ b < 8 → is_u8 (set_bit byte b v).
Proof.
  intros Hb Hi.
  assert (Forall (λ x, Forall (λ i, 0 ≤ set_bit x i v < 2 ^ 8) (seqZ 0 8)) (seqZ 0 256)) as Hall
    by (destruct v; apply (bool_decide_unpack _); by vm_compute).
  rewrite Forall_forall in Hall. specialize (Hall byte). rewrite Forall_forall in Hall.
  apply Hall; apply elem_of_seqZ; unfold is_u8 in *; lia.
Qed.

Lemma make_u16_id x : is_u16 x → make_u16 (hi_part x) (lo_part x) = x.
Proof. apply make_u16_parts. Qed.

(** What the simulator does with each request of the client. *)
Lemma sim_serve_read s wl n db area ls :
  is_u16 n → is_u16 db → 0 ≤ address_of wl ls < 2 ^ 24 →
  sim_serve (read_request wl n db area ls) s =
  let addr := address_of wl ls in
  let data := if wl =? S7_WL_BIT then [Z.b2z (Z.testbit (sim_mem s area db (addr / 8)) (addr mod 8))]
              else region (sim_mem s) area db (addr / 8) n in
  mkSim (sim_mem s) (iso_header (Z.of_nat (length (ok_reply data))) ++ ok_reply data).
Proof.
  intros Hn Hdb Ha. unfold sim_serve.
  change (at_ (read_request wl n db area ls) 22) with wl.
  change (at_ (read_request wl n db area ls) 23) with (hi_part n).
  change (at_ (read_request wl n db area ls) 24) with (lo_part n).
  change (at_ (read_request wl n db area ls) 25) with (hi_part db).
  change (at_ (read_request wl n db area ls) 26) with (lo_part db).
  change (at_ (read_request wl n db area ls) 27) with area.
  change (at_ (read_request wl n db area ls) 28) with (at_ (address_bytes (address_of wl ls)) 0).
  change (at_ (read_request wl n db area ls) 29) with (at_ (address_bytes (address_of wl ls)) 1).
  change (at_ (read_request wl n db area ls) 30) with (at_ (address_bytes (address_of wl ls)) 2).
  rewrite (make_u16_id n), (make_u16_id db) by done. by rewrite (address_bytes_sum _ Ha).
Qed.

Lemma sim_serve_write s wl db area ls chunk :
  is_u16 db → 0 ≤ address_of wl ls < 2 ^ 24 →
  sim_serve (write_request wl db area ls chunk) s =
  let addr := address_of wl ls in
  let data := if wl =? S7_WL_BIT
              then [set_bit (sim_mem s area db (addr / 8)) (addr mod 8) (negb (default 0 (chunk !! 0%nat) =? 0))]
              else chunk in
  mkSim (update (sim_mem s) area db (addr / 8) data) (iso_header 15 ++ replicate 14 0 ++ [RES_SUCCESS]).
Proof.
  intros Hdb Ha. unfold sim_serve. set (req := write_request wl db area ls chunk).
  change (at_ req 22) with wl.
  change (at_ req 25) with (hi_part db). change (at_ req 26) with (lo_part db). change (at_ req 27) with area.
  change (at_ req 28) with (at_ (address_bytes (address_of wl ls)) 0).
  change (at_ req 29) with (at_ (address_bytes (address_of wl ls)) 1).
  change (at_ req 30) with (at_ (address_bytes (address_of wl ls)) 2).
  change (at_ req 35) with (default 0 (chunk !! 0%nat)). change (drop 35 req) with chunk.
  rewrite (make_u16_id db) by done. by rewrite (address_bytes_sum _ Ha).
Qed.

Lemma ok_reply_u8 data : Forall is_u8 data → Forall is_u8 (ok_reply data).
Proof. intros Hd. unfold ok_reply. repeat constructor; try (unfold is_u8; done). Qed.

Lemma sim_read_answers s wl n db area ls data :
  sim_ready s → is_u16 n → is_u16 db → 0 ≤ address_of wl ls < 2 ^ 24 →
  data = (if wl =? S7_WL_BIT
          then [Z.b2z (Z.testbit (sim_mem s area db (address_of wl ls / 8)) (address_of wl ls mod 8))]
          else region (sim_mem s) area db (address_of wl ls / 8) n) →
  answers s (read_request wl n db area ls) (18 + Z.of_nat (length data)) (ok_reply data) (mkSim (sim_mem s) []).
Proof.
  intros [Ho Hm] Hn Hdb Ha Hdata.
  replace (18 + Z.of_nat (length data)) with (Z.of_nat (length (ok_reply data))) by (simpl; lia).
  apply sim_answers; [|apply ok_reply_u8|done].
  - rewrite sim_serve_read by done. cbn zeta. by rewrite <- Hdata.
  - rewrite Hdata. case_match; [|by apply region_u8].
    apply Forall_singleton. destruct (Z.testbit _ _); unfold is_u8; simpl; lia.
Qed.

Lemma sim_write_answers s wl db area ls chunk data :
  sim_ready s → is_u16 db → 0 ≤ address_of wl ls < 2 ^ 24 →
  data = (if wl =? S7_WL_BIT
          then [set_bit (sim_mem s area db (address_of wl ls / 8)) (address_of wl ls mod 8)
                  (negb (default 0 (chunk !! 0%nat) =? 0))]
          else chunk) →
  answers s (write_request wl db area ls chunk) 15 (replicate 14 0 ++ [RES_SUCCESS])
    (mkSim (update (sim_mem s) area db (address_of wl ls / 8) data) []).
Proof.
  intros [Ho Hm] Hdb Ha Hdata.
  apply (sim_answers s _ _ (replicate 14 0 ++ [RES_SUCCESS])); [| |done].
  - rewrite sim_serve_write by done. cbn zeta. by rewrite <- Hdata.
  - repeat constructor; unfold is_u8; done.
Qed.

Lemma sim_has_sub : ∀ s area db a n b k,
  sim_has s area db a n → a ≤ b → 0 ≤ k → b + k ≤ a + n → sim_has s area db b k.
Proof. intros w area db a n b k (? & ? & ? & ?) ? ? ?. split_and!; (lia || done). Qed.

Lemma sim_read : ∀ s area db a n,
  sim_ready s → sim_has s area db a n → 1 ≤ n ≤ 462 →
  ∃ hdr w', answers s (read_request S7_WL_BYTE n db area a) (18 + n)
              (hdr ++ region (sim_mem s) area db a n) w' ∧
    length hdr = 18%nat ∧ sim_ready w' ∧ sim_mem w' = sim_mem s ∧ sim_has w' = sim_has s.
Proof.
  intros s area db a n Hr (Ha & Hb & Hdb & Har) Hn.
  assert (address_of S7_WL_BYTE a = a * 8) as E by (apply address_of_byte; lia).
  exists (replicate 14 0 ++ [RES_SUCCESS; 0; 0; 0]), (mkSim (sim_mem s) []).
  split_and!; [|done|split; [done|apply Hr]|done|done].
  pose proof (sim_read_answers s S7_WL_BYTE n db area a (region (sim_mem s) area db a n) Hr) as Hans.
  rewrite E, Z.div_mul, region_length, Z2Nat.id in Hans by lia.
  apply Hans; [unfold is_u16; lia|done|lia|done].
Qed.

Lemma sim_write : ∀ s area db a data,
  sim_ready s → sim_has s area db a (Z.of_nat (length data)) → 1 ≤ Z.of_nat (length data) ≤ 452 →
  Forall is_u8 data →
  ∃ reply w', answers s (write_request S7_WL_BYTE db area a data) 15 reply w' ∧
    sim_ready w' ∧ (∀ x y z, sim_mem w' x y z = update (sim_mem s) area db a data x y z) ∧
    sim_has w' = sim_has s.
Proof.
  intros s area db a data Hr (Ha & Hb & Hdb & Har) Hn Hu.
  assert (address_of S7_WL_BYTE a = a * 8) as E by (apply address_of_byte; lia).
  exists (replicate 14 0 ++ [RES_SUCCESS]), (mkSim (update (sim_mem s) area db a data) []).
  split_and!; [|split; [done|by apply update_u8; [apply Hr|]]|done|done].
  pose proof (sim_write_answers s S7_WL_BYTE db area a data data Hr Hdb) as Hans.
  rewrite E, Z.div_mul in Hans by lia. apply Hans; [lia|done].
Qed.

Lemma sim_read_bit : ∀ s area db a,
  sim_ready s → sim_has s area db (a / 8) 1 → 0 ≤ a ≤ 65535 →
  ∃ hdr w', answers s (read_request S7_WL_BIT 1 db area a) 19
              (hdr ++ [Z.b2z (Z.testbit (sim_mem s area db (a / 8)) (a mod 8))]) w' ∧
    length hdr = 18%nat ∧ sim_ready w' ∧ sim_mem w' = sim_mem s ∧ sim_has w' = sim_has s.
Proof.
  intros s area db a Hr (Ha & Hb & Hdb & Har) Hn.
  exists (replicate 14 0 ++ [RES_SUCCESS; 0; 0; 0]), (mkSim (sim_mem s) []).
  split_and!; [|done|split; [done|apply Hr]|done|done].
  refine (sim_read_answers s S7_WL_BIT 1 db area a [_] Hr _ Hdb _ _); [unfold is_u16; lia| |done].
  unfold address_of. simpl. lia.
Qed.

Lemma sim_write_bit : ∀ s area db a (v : bool),
  sim_ready s → sim_has s area db (a / 8) 1 → 0 ≤ a ≤ 65535 →
  ∃ reply w', answers s (write_request S7_WL_BIT db area a [if v then 1 else 0]) 15 reply w' ∧
    sim_ready w' ∧
    (∀ x y z, sim_mem w' x y z =
       update (sim_mem s) area db (a / 8) [set_bit (sim_mem s area db (a / 8)) (a mod 8) v] x y z) ∧
    sim_has w' = sim_has s.
Proof.
  intros s area db a v Hr (Ha & Hb & Hdb & Har) Hn.
  exists (replicate 14 0 ++ [RES_SUCCESS]),
    (mkSim (update (sim_mem s) area db (a / 8) [set_bit (sim_mem s area db (a / 8)) (a mod 8) v]) []).
  split_and!; [|split; [done|]|done|done].
  - refine (sim_write_answers s S7_WL_BIT db area a _ [_] Hr Hdb _ _); [unfold address_of; simpl; lia|].
    simpl. by destruct v.
  - apply update_u8; [apply Hr|]. apply Forall_singleton, set_bit_u8; [apply Hr|dlia].
Qed.

#[export] Instance sim_plc : Plc Sim := {|
  plc_ready := sim_ready; plc_mem := sim_mem; plc_has := sim_has;
  plc_has_sub := sim_has_sub; plc_read := sim_read; plc_write := sim_write;
  plc_read_bit := sim_read_bit; plc_write_bit := sim_write_bit;
|}.

(** ** Concrete runs *)
Module Run.

Definition w0 : Sim := mkSim (λ _ _ i, i mod 256) [].
Definition c1 : S7Client := (connect_rack_slot "plc" 0 1 (S7Client_new, w0)).2.1.

Lemma w0_ready : sim_ready w0.
Proof. split; [done|]. intros. unfold is_u8. simpl. dlia. Qed.

Lemma connected_run : connect_rack_slot "plc" 0 1 (S7Client_new, w0) = (ORet (), (c1, w0)).
Proof. vm_compute. reflexivity. Qed.

Lemma c1_ready : ready_client c1.
Proof. vm_compute. repeat split; discriminate. Qed.

Lemma area_ok : check_area S7_AREA_DB = Ok ().
Proof. reflexivity. Qed.

Lemma has_ok n : n ≤ 2000 → plc_has w0 S7_AREA_DB 1 10 n.
Proof. intros Hn. split_and!; [lia|lia|done|done]. Qed.

(** Three chunks of a thousand-byte read. *)
Lemma read_area_plc_witness :
  ∃ s', read_area 1000 S7_AREA_DB 1 10 S7_WL_BYTE (replicate 1000 0) (c1, w0)
          = (ORet (region (sim_mem w0) S7_AREA_DB 1 10 1000), s').
Proof.
  destruct (read_area_plc 1000 S7_AREA_DB 1 10 (replicate 1000 0) c1 w0) as (c' & w' & E & _);
    rewrite ?length_replicate; [apply c1_ready|apply w0_ready|apply area_ok|by apply has_ok|lia|lia|lia|]. exists (c', w'). exact E.
Defined.

Lemma area_write_read_witness :
  ∃ c' w' s', write_area 3 S7_AREA_DB 1 10 S7_WL_BYTE [1; 2; 3] (c1, w0) = (ORet (), (c', w')) ∧
    read_area 5 S7_AREA_DB 1 9 S7_WL_BYTE [0; 0; 0; 0; 0] (c', w') = (ORet [9; 1; 2; 3; 13], s').
Proof.
  destruct (area_write_read 3 S7_AREA_DB 1 10 [1; 2; 3] 5 S7_AREA_DB 1 9 [0; 0; 0; 0; 0] c1 w0)
    as (c' & w' & c2 & w2 & E1 & E2 & _);
    [apply c1_ready|apply w0_ready|apply area_ok|apply area_ok|by apply has_ok|by split_and!| |lia|lia|done|done|done|done|].
  - repeat constructor; unfold is_u8; done.
  - exists c', w', (c2, w2). split; [exact E1|exact E2].
Defined.

(** Byte 8197 is read at byte 5: bit 0 of 5 is set. *)
Lemma read_bit_plc_witness :
  ∃ s', read_bit 1 S7_AREA_DB 1 8197 0 (c1, w0) = (ORet true, s').
Proof.
  destruct (read_bit_plc 1 S7_AREA_DB 1 8197 0 c1 w0) as (c' & w' & E & _);
    [apply c1_ready|apply w0_ready|apply area_ok|by split_and!|lia|lia|lia|]. exists (c', w'). exact E.
Defined.

Lemma area_transfer_total_witness :
  let buffer := [0; 0; 0; 0] in
  ends (read_area 4 S7_AREA_DB 1 0 S7_WL_BYTE buffer) (c1, w0)
    (λ b s', same_link c1 s'.1 ∧ length b = 4%nat) (λ s', same_link c1 s'.1) ∧
  ends (write_area 4 S7_AREA_DB 1 0 S7_WL_BYTE buffer) (c1, w0)
    (λ _ s', same_link c1 s'.1) (λ s', same_link c1 s'.1) ∧
  match read_area 50 S7_AREA_DB 1 0 S7_WL_BYTE buffer (set_pdu 18 0 65526 c1, w0) with
  | (ORet _, _) => False | _ => True
  end.
Proof.
  destruct (area_transfer_total 4 S7_AREA_DB 1 0 S7_WL_BYTE [0; 0; 0; 0] (c1, w0)) as [[Hr Hw] _];
    [done|done|vm_compute; discriminate|].
  split; [apply Hr; intros _; vm_compute; discriminate|].
  split; [apply Hw; intros _; vm_compute; discriminate|].
  destruct (area_transfer_total 0 S7_AREA_DB 1 0 S7_WL_BYTE [0; 0; 0; 0] (set_pdu 18 0 65526 c1, w0)) as [_ Hn].
  exact (Hn eq_refl ltac:(discriminate) 50%nat).
Defined.

Lemma connect_tsap_ends_witness :
  ends (connect_tsap "plc" 256 257) (S7Client_new, w0)
    (λ _ s', connected s'.1 = true ∧ max_rd_pdu_data s'.1 = as_u16 (pdu_length s'.1 - 18))
    (λ s', connected s'.1 = false).
Proof.
  eapply ends_mono; [exact (connect_tsap_ends "plc" 256 257 (S7Client_new, w0))| |done].
  intros [] s' (Hc & _ & _ & Hm & _). done.
Defined.

(** A connection with an 18-byte PDU. *)
Lemma read_area_stuck_witness :
  match read_area 50 S7_AREA_DB 1 0 S7_WL_BYTE [0] (set_pdu 18 0 65526 c1, w0) with
  | (ORet _, _) => False
  | _ => True
  end.
Proof. apply read_area_stuck; [done|discriminate]. Defined.
End Run.
