(* ===== verification/S7Blocks.v ===== *)
(** * Browsing the data blocks ([crates/plugin-s7/src/s7/blocks.rs])

    The two userdata requests (list the data blocks, describe one), their
    replies and the parsing of them. *)
From S2P Require Import Prelude Float RustStr S7Decode S7Client S7Safety S7Sim.
Local Open Scope Z_scope.

Definition ERRNO_OFF : nat := 20.
Definition RETVAL_OFF : nat := 22.
Definition DATALEN_OFF : nat := 24.
Definition ITEMS_START : nat := 26.
Definition BI_LANG_OFF : nat := 36.
Definition BI_MC7LEN_OFF : nat := 66.
Definition BI_HEADER_OFF : nat := 84.
Definition BI_HEADER_LEN : nat := 8.

Definition LIST_DB_TELEGRAM : list Z :=
  [0x03; 0x00; 0x00; 0x1f; 0x02; 0xf0; 0x80;
   0x32; 0x07; 0x00; 0x00; 0x05; 0x00; 0x00; 0x08; 0x00; 0x06;
   0x00; 0x01; 0x12; 0x04; 0x11; 0x43; 0x02; 0x00;
   0xff; 0x09; 0x00; 0x02; 0x30; 0x41].

Record BlockInfo := mkBlockInfo { size : option Z; name : option string; lang : option Z }.
#[export] Instance BlockInfo_eq_dec : EqDecision BlockInfo.
Proof. solve_decision. Defined.

(** The DB number as five ASCII digits. *)
Definition digit (n div : Z) : Z := as_u8 (n / div mod 10) + 48.
Definition block_info_telegram (db : Z) : list Z :=
  [0x03; 0x00; 0x00; 0x25; 0x02; 0xf0; 0x80;
   0x32; 0x07; 0x00; 0x00; 0x05; 0x00; 0x00; 0x08; 0x00; 0x0c;
   0x00; 0x01; 0x12; 0x04; 0x11; 0x43; 0x03; 0x00;
   0xff; 0x09; 0x00; 0x08; 0x30; 0x41;
   digit db 10000; digit db 1000; digit db 100; digit db 10; digit db 1;
   0x41].

(** [payload.get(i..i+n)] *)
Definition get_slice (l : list Z) (i n : nat) : option (list Z) :=
  if (i + n <=? length l)%nat then Some (take n (drop i l)) else None.

Fixpoint take_until_zero (l : list Z) : list Z :=
  match l with [] => [] | b :: l => if b =? 0 then [] else b :: take_until_zero l end.

Definition parse_header_name (header : list Z) : option string :=
  let s := of_bytes (filter (λ b, is_graphic (chr b) = true ∨ b = 32) (take_until_zero header)) in
  let t := trim s in
  if decide (t = "") then None else Some t.

Section Blocks.
Context {W : Type} `{Tcp W}.

Definition check_userdata_ok (payload : list Z) (op : string) : @S7 W () :=
  e0 ← index payload ERRNO_OFF;
  e1 ← index payload (ERRNO_OFF + 1);
  let err_no := from_be [e0; e1] in
  if negb (err_no =? 0) then fail (Other (op +:+ ": CPU error 0x" +:+ hex 4 err_no))
  else
    rv ← index payload RETVAL_OFF;
    if negb (rv =? 0xFF) then fail (Other (op +:+ ": not available (retval 0x" +:+ hex 2 rv +:+ ")"))
    else mret ().

(** The records' numbers, four bytes each. *)
Fixpoint read_items (payload : list Z) (i n : nat) : @S7 W (list Z) :=
  match n with
  | O => mret []
  | S n =>
      hi ← index payload (ITEMS_START + i * 4);
      lo ← index payload (ITEMS_START + i * 4 + 1);
      rest ← read_items payload (S i) n;
      mret (from_be [hi; lo] :: rest)
  end%nat.

Definition parse_block_list (payload : list Z) : @S7 W (list Z) :=
  if (length payload <? ITEMS_START)%nat then
    fail (Other ("list-blocks response too short (" +:+ dec (Z.of_nat (length payload)) +:+ " bytes)"))
  else
    check_userdata_ok payload "list-blocks";;
    d0 ← index payload DATALEN_OFF;
    d1 ← index payload (DATALEN_OFF + 1);
    let avail := (length payload - ITEMS_START)%nat in
    let count := (Nat.min (Z.to_nat (from_be [d0; d1])) avail / 4)%nat in
    read_items payload 0 count.

Definition list_data_blocks : @S7 W (list Z) :=
  payload ← exchange LIST_DB_TELEGRAM; parse_block_list payload.

Definition parse_block_info (payload : list Z) : @S7 W BlockInfo :=
  if (length payload <=? RETVAL_OFF)%nat then
    fail (Other ("block-info response too short (" +:+ dec (Z.of_nat (length payload)) +:+ " bytes)"))
  else
    check_userdata_ok payload "block-info";;
    mret (mkBlockInfo (from_be <$> get_slice payload BI_MC7LEN_OFF 2)
            (get_slice payload BI_HEADER_OFF BI_HEADER_LEN ≫= parse_header_name)
            (payload !! BI_LANG_OFF)).

Definition get_block_info (db : Z) : @S7 W BlockInfo :=
  payload ← exchange (block_info_telegram db); parse_block_info payload.

(** ** Any reply is handled *)
Context `{!TcpOk W}.

Lemma check_userdata_ends payload op s :
  (RETVAL_OFF < length payload)%nat → ends (check_userdata_ok payload op) s (λ _ s', s' = s) (λ s', s' = s).
Proof.
  intros Hlen. unfold check_userdata_ok, ERRNO_OFF, RETVAL_OFF in *.
  apply ends_bind, ends_index; [lia|]. intros e0. apply ends_bind, ends_index; [lia|]. intros e1.
  case_match; [done|]. apply ends_bind, ends_index; [lia|]. intros rv. by case_match.
Qed.

Lemma read_items_ends payload i n s :
  (ITEMS_START + (i + n) * 4 ≤ length payload)%nat →
  ends (read_items payload i n) s (λ l s', s' = s ∧ length l = n) (λ _, False).
Proof.
  revert i. induction n as [|n IH]; intros i Hlen; cbn [read_items]; [done|].
  apply ends_bind, ends_index; [lia|]. intros hi. apply ends_bind, ends_index; [lia|]. intros lo.
  apply ends_bind. eapply ends_mono; [apply IH; lia| |done]. intros l s' [-> Hl]. apply ends_ret.
  split; [done|]. simpl. lia.
Qed.

(** No reply makes the block parsers index out of range: any payload gives a
    list or an error, and a list of at most a quarter of its length. *)
Theorem parse_blocks_total payload s :
  ends (parse_block_list payload) s (λ l s', s' = s ∧ (4 * length l ≤ length payload)%nat) (λ s', s' = s) ∧
  ends (parse_block_info payload) s (λ _ s', s' = s) (λ s', s' = s).
Proof.
  split.
  - unfold parse_block_list. destruct (Nat.ltb_spec (length payload) ITEMS_START) as [|Hlen]; [done|].
    apply ends_bind. eapply ends_mono; [apply check_userdata_ends; unfold ITEMS_START, RETVAL_OFF in *; lia| |done].
    intros [] s' ->. unfold DATALEN_OFF, ITEMS_START in *.
    apply ends_bind, ends_index; [lia|]. intros d0. apply ends_bind, ends_index; [lia|]. intros d1.
    set (n := Nat.min _ _). pose proof (Nat.Div0.div_le_mono). 
    assert (4 * (n / 4) ≤ n)%nat by apply Nat.Div0.mul_div_le.
    assert (n ≤ length payload - 26)%nat by (unfold n; lia).
    eapply ends_mono; [apply read_items_ends; unfold ITEMS_START; lia| |done].
    intros l s' [-> Hl]. split; [done|]. lia.
  - unfold parse_block_info. destruct (Nat.leb_spec (length payload) RETVAL_OFF) as [|Hlen]; [done|].
    apply ends_bind. eapply ends_mono; [by apply check_userdata_ends| |done]. intros [] s' ->. by apply ends_ret.
Qed.

(** ** A reply of the PLC is read back *)

(** A successful reply listing blocks: number, flags, language. *)
Definition block_record (r : Z * Z * Z) : list Z := to_be 2 r.1.1 ++ [r.1.2; r.2].
Definition block_list_reply (hdr : list Z) (records : list (Z * Z * Z)) : list Z :=
  hdr ++ [0; 0; 0xFF; 9] ++ to_be 2 (4 * Z.of_nat (length records)) ++ mjoin (block_record <$> records).

Lemma index_app_r (l k : list Z) i (s : S7Client * W) z :
  k !! i = Some z → index (l ++ k) (length l + i) s = (ORet z, s).
Proof.
  intros Hk. unfold index. rewrite lookup_app_r by lia.
  replace (length l + i - length l)%nat with i by lia. by rewrite Hk.
Qed.

Lemma from_be_2 z : is_u16 z → from_be (to_be 2 z) = z.
Proof. intros Hz. rewrite from_to_be. by apply Z.mod_small. Qed.

Lemma read_items_reply pre records i s :
  length pre = (ITEMS_START + i * 4)%nat → Forall (λ r, is_u16 r.1.1) records →
  read_items (pre ++ mjoin (block_record <$> records)) i (length records) s = (ORet ((λ r, r.1.1) <$> records), s).
Proof.
  revert pre i. induction records as [|r records IH]; intros pre i Hpre Hr; [done|].
  inversion_clear Hr as [|? ? Hr1 Hr2]. rewrite fmap_cons, mjoin_cons. cbn [length read_items].
  rewrite <- Hpre. unfold mbind at 1, S7_bind at 1.
  set (l := pre ++ _). replace (index l (length pre) s) with (index l (length pre + 0) s) by (f_equal; lia).
  unfold l. rewrite (index_app_r pre _ 0 s (r.1.1 / 256 mod 256)) by done.
  unfold mbind at 1, S7_bind at 1. rewrite (index_app_r pre _ 1 s (r.1.1 mod 256)) by done.
  unfold mbind at 1, S7_bind at 1.
  replace (pre ++ block_record r ++ mjoin (block_record <$> records))
    with ((pre ++ block_record r) ++ mjoin (block_record <$> records)) by (by rewrite (assoc_L (++))).
  rewrite IH; [|rewrite length_app; change (length (block_record r)) with 4%nat; lia|done].
  change [r.1.1 / 256 mod 256; r.1.1 mod 256] with (to_be 2 r.1.1). by rewrite from_be_2.
Qed.

(** The block numbers a PLC lists are the ones returned, in order, whatever
    the other fields of the records and the twenty header bytes are. *)
Theorem block_list_roundtrip hdr records s :
  length hdr = 20%nat → Forall (λ r, is_u16 r.1.1) records → Z.of_nat (length records) ≤ 16383 →
  parse_block_list (block_list_reply hdr records) s = (ORet ((λ r, r.1.1) <$> records), s).
Proof.
  intros Hh Hr Hn. unfold parse_block_list.
  assert (length (mjoin (block_record <$> records)) = (4 * length records)%nat) as Hj.
  { clear. induction records as [|r l IH]; [done|]. rewrite fmap_cons, mjoin_cons, length_app, IH. simpl. lia. }
  set (n := 4 * Z.of_nat (length records)).
  assert (length (block_list_reply hdr records) = (26 + 4 * length records)%nat) as Hlen.
  { unfold block_list_reply. rewrite !length_app, Hj, to_be_length, Hh. simpl. lia. }
  rewrite Hlen. unfold ITEMS_START. destruct (Nat.ltb_spec (26 + 4 * length records) 26); [lia|].
  assert (∀ i z, ([0; 0; 255; 9] ++ to_be 2 n ++ mjoin (block_record <$> records)) !! i = Some z →
    index (block_list_reply hdr records) (20 + i) s = (ORet z, s)) as Hidx.
  { intros i z Hi. unfold block_list_reply. rewrite <- Hh. by apply index_app_r. }
  set (R := block_list_reply hdr records) in *.
  assert (index R ERRNO_OFF s = (ORet 0, s)) as E1 by (by apply (Hidx 0%nat)).
  assert (index R (ERRNO_OFF + 1) s = (ORet 0, s)) as E2 by (by apply (Hidx 1%nat)).
  assert (index R RETVAL_OFF s = (ORet 255, s)) as E3 by (by apply (Hidx 2%nat)).
  assert (index R DATALEN_OFF s = (ORet (n / 256 mod 256), s)) as E4 by (by apply (Hidx 4%nat)).
  assert (index R (DATALEN_OFF + 1) s = (ORet (n mod 256), s)) as E5 by (by apply (Hidx 5%nat)).
  unfold check_userdata_ok, mbind, S7_bind. rewrite E1, E2.
  change (negb (from_be [0; 0] =? 0)) with false. cbn beta match. rewrite E3. change (negb (255 =? 255)) with false.
  cbn beta match. unfold mret at 1, S7_ret. rewrite E4, E5.
  change [n / 256 mod 256; n mod 256] with (to_be 2 n). rewrite from_be_2 by (unfold is_u16, n; lia).
  replace (Nat.min (Z.to_nat n) (26 + 4 * length records - 26) / 4)%nat with (length records).
  2: { replace (Nat.min (Z.to_nat n) _) with (length records * 4)%nat by (unfold n; lia). by rewrite Nat.div_mul. }
  unfold R, block_list_reply. rewrite !(assoc_L (++)). apply read_items_reply; [|done].
  rewrite !length_app, to_be_length, Hh. done.
Qed.
End Blocks.

(** The telegram names the data block it asks for. *)
Lemma block_info_digits db :
  is_u16 db →
  digits_val 0 (of_bytes (take 5 (drop 31 (block_info_telegram db)))) = Some db.
Proof.
  unfold is_u16. intros Hdb.
  assert (∀ d, 0 ≤ d < 10 → code (chr (as_u8 d + 48)) = d + 48) as Hc.
  { intros d Hd. unfold as_u8. rewrite Z.mod_small by lia. apply code_chr. unfold is_u8. lia. }
  unfold block_info_telegram, digit. simpl take. cbn [of_bytes digits_val].
  assert (∀ d, 0 ≤ d < 10 → is_digit (chr (as_u8 d + 48)) = true) as Hdig.
  { intros d Hd. unfold is_digit. rewrite Hc by done. apply andb_true_iff. rewrite !Z.leb_le. lia. }
  rewrite !Hdig, !Hc by dlia. f_equal. dlia.
Qed.

(** ** Concrete replies *)
Module BlocksRun.
Import S7Sim.

Lemma parse_blocks_total_witness :
  ends (parse_block_list [1; 2; 3]) (S7Client_new, Run.w0)
    (λ l s', s' = (S7Client_new, Run.w0) ∧ (4 * length l ≤ 3)%nat) (λ s', s' = (S7Client_new, Run.w0)).
Proof. exact (proj1 (parse_blocks_total [1; 2; 3] (S7Client_new, Run.w0))). Defined.

Lemma block_list_roundtrip_witness :
  parse_block_list (block_list_reply (replicate 20 7) [(1, 0, 10); (300, 0, 10)]) (S7Client_new, Run.w0)
  = (ORet [1; 300], (S7Client_new, Run.w0)).
Proof.
  apply (block_list_roundtrip (replicate 20 7) [(1, 0, 10); (300, 0, 10)]); [done| |done].
  repeat constructor; unfold is_u16; done.
Defined.
End BlocksRun.
