(* ===== verification/Json.v ===== *)
(** * JSON values

    [serde_json::Value] is third-party: [Json] is the interface the agent uses
    (the accessors of [Value], the [json!] constructors, printing and parsing),
    [JsonLaws] what it documents. [Tree] is a model of the interface, used by the
    concrete witnesses. *)
From Stdlib Require Import Ascii.
From S2P Require Import Prelude Float RustStr.
Set Warnings "-register-all".
Local Open Scope Z_scope.

Class Json (J : Type) := {
  j_null : J;
  j_bool : bool → J;
  j_u64 : Z → J;
  j_i64 : Z → J;
  j_f64 : f64 → J;
  j_str : string → J;
  j_array : list J → J;
  j_object : list (string * J) → J;
  jget : J → string → option J;
  as_str : J → option string;
  as_bool : J → option bool;
  as_u64' : J → option Z;
  as_i64' : J → option Z;
  as_f64 : J → option f64;
  as_array : J → option (list J);
  entries : J → option (list (string * J));
  is_null : J → bool;
  set_key : J → string → J → J;
  to_string : J → string;
  from_str : string → option J;
  error_text : string → string;
}.

(** The last binding of a key wins, as in [json!]. *)
Fixpoint assoc_last {A} (k : string) (l : list (string * A)) : option A :=
  match l with
  | [] => None
  | (k', v) :: l =>
      match assoc_last k l with
      | Some v' => Some v'
      | None => if decide (k = k') then Some v else None
      end
  end.

Class JsonLaws (J : Type) `{Json J} := {
  get_object : ∀ l k, jget (j_object l) k = assoc_last k l;
  as_str_str : ∀ s, as_str (j_str s) = Some s;
  as_bool_bool : ∀ b, as_bool (j_bool b) = Some b;
  as_u64_u64 : ∀ n, is_u64 n → as_u64' (j_u64 n) = Some n;
  as_u64_range : ∀ j n, as_u64' j = Some n → is_u64 n;
  as_i64_i64 : ∀ n, i64_min ≤ n ≤ i64_max → as_i64' (j_i64 n) = Some n;
  as_f64_f64 : ∀ x, is_finite x = true → as_f64 (j_f64 x) = Some x;
  as_f64_not_finite : ∀ x, is_finite x = false → j_f64 x = j_null;
  as_array_array : ∀ l, as_array (j_array l) = Some l;
  as_str_null : as_str j_null = None;
  as_f64_null : as_f64 j_null = None;
  as_array_null : as_array j_null = None;
  get_set : ∀ l k v k', jget (set_key (j_object l) k v) k' =
    if decide (k = k') then Some v else jget (j_object l) k';
  entries_object : ∀ l, ∃ es, entries (j_object l) = Some es ∧ (NoDup l.*1 → NoDup es.*1);
  get_null : ∀ k, jget j_null k = None;
  is_null_null : is_null j_null = true;
}.

(** A number or a text is never null. *)
Class ScalarLaws (J : Type) `{Json J} := {
  not_null_i64 : ∀ z, is_null (j_i64 z) = false;
  not_null_u64 : ∀ z, is_null (j_u64 z) = false;
  not_null_f64 : ∀ x, is_finite x = true → is_null (j_f64 x) = false;
  not_null_str : ∀ s, is_null (j_str s) = false;
}.

Section Helpers.
Context `{Json J}.

(** [v.get(k).and_then(Value::as_str)] and the like. *)
Definition get_str (v : J) (k : string) : option string := jget v k ≫= as_str.
Definition get_bool (v : J) (k : string) : option bool := jget v k ≫= as_bool.
Definition get_u64 (v : J) (k : string) : option Z := jget v k ≫= as_u64'.
Definition get_f64 (v : J) (k : string) : option f64 := jget v k ≫= as_f64.
Definition get_array (v : J) (k : string) : option (list J) := jget v k ≫= as_array.
(** [v.get(k).cloned().unwrap_or(Value::Null)] *)
Definition get_or_null (v : J) (k : string) : J := default j_null (jget v k).
Definition str_or (d : string) (v : J) (k : string) : string := default d (get_str v k).
End Helpers.

(** The keys of a literal object are distinct. *)
Ltac distinct := repeat case_match; apply (bool_decide_eq_true_1 _); reflexivity.

#[export] Instance is_u32_dec n : Decision (is_u32 n).
Proof. unfold is_u32. apply _. Defined.

(** ** Derived deserialisation

    What [#[derive(Deserialize)]] does with a document: a struct is read from an
    object by field name, or from an array by position; a field of the struct that
    is there twice fails; a field marked [default] may be missing; a present field
    of the wrong type fails. *)
Section Serde.
Context `{Json J}.

Definition struct_view (names : list string) (j : J) : option (string → option J) :=
  match entries j, as_array j with
  | Some es, _ => if decide (NoDup (filter (.∈ names) es.*1)) then Some (jget j) else None
  | None, Some l =>
      if (length l <=? length names)%nat
      then Some (λ k, assoc_last k (zip names l)) else None
  | None, None => None
  end.

(** An object made of distinct keys can be viewed. *)
Lemma struct_view_distinct names j es :
  entries j = Some es → NoDup es.*1 → struct_view names j = Some (jget j).
Proof. intros E Hnd. unfold struct_view. rewrite E. rewrite decide_True; [done|by apply NoDup_filter]. Qed.

Definition de_default {A} (d : A) (f : J → option A) (v : option J) : option A :=
  match v with None => Some d | Some j => f j end.
Definition de_u32 (j : J) : option Z :=
  n ← as_u64' j; if decide (is_u32 n) then Some n else None.
Definition de_option {A} (f : J → option A) (j : J) : option (option A) :=
  if is_null j then Some None else Some <$> f j.
Definition de_vec {A} (f : J → option A) (j : J) : option (list A) :=
  l ← as_array j; mapM f l.
End Serde.
(** ** A model *)
Inductive Tree :=
| TNull
| TBool (b : bool)
| TInt (z : Z)
| TFloat (x : f64)
| TStr (s : string)
| TArr (l : list Tree)
| TObj (l : list (string * Tree)).

Definition tree_f64 (x : f64) : Tree := if is_finite x then TFloat x else TNull.

Definition comma (ps : list string) : string := join_with ","%char ps.

Fixpoint tree_print (t : Tree) : string :=
  match t with
  | TNull => "null"
  | TBool b => if b then "true" else "false"
  | TInt z => dec z
  | TFloat x => "f" +:+ dec (float_to_bits 53 11 x)
  | TStr s => debug_str s
  | TArr l => "[" +:+ comma (tree_print <$> l) +:+ "]"
  | TObj l => "{" +:+ comma ((λ p, debug_str p.1 +:+ ":" +:+ tree_print p.2) <$> l) +:+ "}"
  end.

Definition tree_json_with (print : Tree → string) (parse : string → option Tree) : Json Tree := {|
  j_null := TNull;
  j_bool := TBool;
  j_u64 := TInt;
  j_i64 := TInt;
  j_f64 := tree_f64;
  j_str := TStr;
  j_array := TArr;
  j_object := TObj;
  jget t k := match t with TObj l => assoc_last k l | _ => None end;
  as_str t := match t with TStr s => Some s | _ => None end;
  as_bool t := match t with TBool b => Some b | _ => None end;
  as_u64' t := match t with TInt z => if decide (0 ≤ z < 2 ^ 64) then Some z else None | _ => None end;
  as_i64' t := match t with TInt z => if decide (i64_min ≤ z ≤ i64_max) then Some z else None | _ => None end;
  as_f64 t := match t with TFloat x => Some x | TInt z => Some (f64_of_Z z) | _ => None end;
  as_array t := match t with TArr l => Some l | _ => None end;
  entries t := match t with TObj l => Some l | _ => None end;
  is_null t := match t with TNull => true | _ => false end;
  set_key t k v := match t with TObj l => TObj (l ++ [(k, v)]) | _ => TObj [(k, v)] end;
  to_string := print;
  from_str := parse;
  error_text _ := "expected value";
|}.

(** Parsing is by the texts the peer may send. *)
Definition tree_json (parse : string → option Tree) : Json Tree := tree_json_with tree_print parse.

Lemma tree_with_scalars print parse : @ScalarLaws Tree (tree_json_with print parse).
Proof. split; try done. intros x Hx. simpl. unfold tree_f64. by rewrite Hx. Qed.

Lemma tree_with_laws print parse : @JsonLaws Tree (tree_json_with print parse).
Proof.
  split; simpl; try done.
  - intros n Hn. by rewrite decide_True.
  - intros [] n; try done. case_decide; [|done]. by intros [= <-].
  - intros n Hn. by rewrite decide_True.
  - intros x Hx. unfold tree_f64. by rewrite Hx.
  - intros x Hx. unfold tree_f64. by rewrite Hx.
  - intros l k v k'. induction l as [|[k0 v0] l IH]; simpl; [by repeat case_decide; simplify_eq|].
    rewrite IH. by destruct (decide (k = k')).
  - eauto.
Qed.

Lemma tree_laws parse : @JsonLaws Tree (tree_json parse).
Proof. apply tree_with_laws. Qed.
