(* ===== verification/Wire.v ===== *)
(** * JSON on a pipe

    A value that is printed by one process and parsed by the other: [wire] is
    what arrives. Texts, integers and the shape of documents arrive as they were
    sent; a floating-point number arrives as [wire_f64] of it ([serde_json] without
    its [float_roundtrip] feature parses with best-effort precision), and the
    parser refuses documents nested deeper than its recursion limit. *)
From Stdlib Require Import Ascii.
From stdpp Require Import countable.
From S2P Require Import Prelude Float RustStr Json.
Set Warnings "-register-all".
Local Open Scope Z_scope.

(** ** The interface *)

Class Wire (J : Type) := {
  wire : J → J;
  wire_f64 : f64 → f64;
  depth : J → nat;
}.

(** [serde_json::de::Deserializer]: [remaining_depth] starts at 128. *)
Definition nesting_limit : nat := 127.

Definition one_line (s : string) : Prop :=
  sforall (λ c, negb (bool_decide (c = "010"%char))) s = true.

Class WireLaws (J : Type) `{Json J} `{!Wire J} := {
  parse_print : ∀ j, from_str (to_string j) = if decide (depth j ≤ nesting_limit)%nat then Some (wire j) else None;
  print_one_line : ∀ j, one_line (to_string j);
  print_not_blank : ∀ j, trim (to_string j) ≠ "";
  wire_null : wire j_null = j_null;
  wire_bool : ∀ b, wire (j_bool b) = j_bool b;
  wire_str : ∀ s, wire (j_str s) = j_str s;
  wire_u64 : ∀ n, is_u64 n → wire (j_u64 n) = j_u64 n;
  wire_i64 : ∀ n, i64_min ≤ n ≤ i64_max → wire (j_i64 n) = j_i64 n;
  wire_float : ∀ x, is_finite x = true → wire (j_f64 x) = j_f64 (wire_f64 x);
  wire_f64_finite : ∀ x, is_finite x = true → is_finite (wire_f64 x) = true;
  wire_array : ∀ l, wire (j_array l) = j_array (wire <$> l);
  wire_get : ∀ l k, jget (wire (j_object l)) k = wire <$> assoc_last k l;
  wire_entries : ∀ l, ∃ es, entries (wire (j_object l)) = Some es ∧ (NoDup l.*1 → NoDup es.*1);
  wire_is_null : ∀ j, is_null (wire j) = is_null j;
  depth_null : depth j_null = 0%nat;
  depth_bool : ∀ b, depth (j_bool b) = 0%nat;
  depth_str : ∀ s, depth (j_str s) = 0%nat;
  depth_u64 : ∀ n, depth (j_u64 n) = 0%nat;
  depth_i64 : ∀ n, depth (j_i64 n) = 0%nat;
  depth_f64 : ∀ x, depth (j_f64 x) = 0%nat;
  depth_array : ∀ n l, Forall (λ j, depth j ≤ n)%nat l → (depth (j_array l) ≤ S n)%nat;
  depth_object : ∀ n l, Forall (λ p, depth p.2 ≤ n)%nat l → (depth (j_object l) ≤ S n)%nat;
}.

(** A document whose fields are nested less deep than the limit arrives. *)
Definition shallow `{Wire J} (j : J) : Prop := (depth j < nesting_limit)%nat.

Section Lemmas.
Context `{WireLaws J}.

Lemma wire_view names (l : list (string * J)) :
  NoDup l.*1 → struct_view names (wire (j_object l)) = Some (jget (wire (j_object l))).
Proof. intros Hl. destruct (wire_entries l) as (es & E & Hes). exact (struct_view_distinct _ _ es E (Hes Hl)). Qed.

(** A number that may not be finite. *)
Lemma wire_number x `{!JsonLaws J} :
  wire (j_f64 x) = if is_finite x then j_f64 (wire_f64 x) else j_null.
Proof.
  destruct (is_finite x) eqn:Hx; [by apply wire_float|]. rewrite as_f64_not_finite by done. apply wire_null.
Qed.

Lemma parse_object (l : list (string * J)) :
  Forall (λ p, shallow p.2) l → from_str (to_string (j_object l)) = Some (wire (j_object l)).
Proof.
  intros Hl. rewrite parse_print, decide_True; [done|]. unfold nesting_limit.
  apply (depth_object 126). eapply Forall_impl; [exact Hl|]. unfold shallow, nesting_limit. intros p Hp. simpl in *. lia.
Qed.

Lemma shallow_of (j : J) : depth j = 0%nat → shallow j.
Proof. unfold shallow, nesting_limit. lia. Qed.
End Lemmas.

Create HintDb wire.
Create Rewrite HintDb wire.
#[export] Hint Rewrite @wire_null @wire_bool @wire_str @as_str_str @as_bool_bool @as_array_array @wire_array
  @wire_is_null @is_null_null @not_null_str using typeclasses eauto : wire.
#[export] Hint Resolve depth_null depth_bool depth_str depth_u64 depth_i64 depth_f64 : wire.

(** ** Lines of text *)


(** The complete and last lines of a text ([BufRead::lines]). *)
Definition lines (s : string) : list string :=
  let ps := split_on "010"%char s in
  match last ps with Some EmptyString => removelast ps | _ => ps end.

Lemma split_line s : one_line s → split_on "010"%char (s +:+ newline) = [s; ""].
Proof.
  unfold one_line. induction s as [|c s IH]; intros Hs; [done|].
  change (String c s +:+ newline) with (String c (s +:+ newline)). cbn [split_on sforall] in *.
  apply andb_prop in Hs as [Hc Hs]. apply negb_true_iff, bool_decide_eq_false in Hc.
  rewrite decide_False by done. by rewrite IH.
Qed.

Lemma lines_line s : one_line s → lines (s +:+ newline) = [s].
Proof. intros Hs. unfold lines. by rewrite split_line. Qed.

(** ** A model *)
Module TreeWire.

Fixpoint tree_depth (t : Tree) : nat :=
  match t with
  | TArr l => S (max_list (tree_depth <$> l))
  | TObj l => S (max_list ((λ p, tree_depth p.2) <$> l))
  | _ => 0
  end.

(** *** Numbers and trees as positives *)

#[export] Instance f64_countable : Countable f64.
Proof.
  refine (inj_countable' (A := (bool + bool) + (() + (bool * positive * Z)))
    (λ x : f64, match x with
      | SpecFloat.S754_zero s => inl (inl s) | SpecFloat.S754_infinity s => inl (inr s)
      | SpecFloat.S754_nan => inr (inl ()) | SpecFloat.S754_finite s m e => inr (inr (s, m, e)) end)
    (λ y, match y with
      | inl (inl s) => SpecFloat.S754_zero s | inl (inr s) => SpecFloat.S754_infinity s
      | inr (inl _) => SpecFloat.S754_nan | inr (inr (s, m, e)) => SpecFloat.S754_finite s m e end) _).
  by intros [].
Defined.

Definition leaf : Type := (() + bool) + (Z + (f64 + string)).
Fixpoint to_gen (t : Tree) : gen_tree leaf :=
  match t with
  | TNull => GenLeaf (inl (inl ()))
  | TBool b => GenLeaf (inl (inr b))
  | TInt z => GenLeaf (inr (inl z))
  | TFloat x => GenLeaf (inr (inr (inl x)))
  | TStr s => GenLeaf (inr (inr (inr s)))
  | TArr l => GenNode 0 (to_gen <$> l)
  | TObj l => GenNode 1 ((λ p, GenNode 2 [GenLeaf (inr (inr (inr p.1))); to_gen p.2]) <$> l)
  end.
Fixpoint of_gen (g : gen_tree leaf) : Tree :=
  match g with
  | GenLeaf (inl (inl _)) => TNull
  | GenLeaf (inl (inr b)) => TBool b
  | GenLeaf (inr (inl z)) => TInt z
  | GenLeaf (inr (inr (inl x))) => TFloat x
  | GenLeaf (inr (inr (inr s))) => TStr s
  | GenNode 0 l => TArr (of_gen <$> l)
  | GenNode _ l => TObj ((λ p, match p with
      | GenNode _ [GenLeaf (inr (inr (inr k))); v] => (k, of_gen v) | _ => ("", TNull) end) <$> l)
  end.

Fixpoint of_to_gen (t : Tree) : of_gen (to_gen t) = t.
Proof.
  destruct t as [| | | | |l|l]; [reflexivity..| |]; simpl; f_equal.
  - induction l as [|t l IH]; [done|]. exact (f_equal2 cons (of_to_gen t) IH).
  - induction l as [|[k t] l IH]; [done|]. exact (f_equal2 cons (f_equal (pair k) (of_to_gen t)) IH).
Qed.

Definition print (t : Tree) : string := pos_to_string (encode (to_gen t)).
Definition parse (s : string) : option Tree :=
  t ← (p ← pos_of_string s; of_gen <$> decode p);
  if decide (tree_depth t ≤ nesting_limit)%nat then Some t else None.

#[export] Instance json : Json Tree := tree_json_with print parse.
#[export] Instance laws : JsonLaws Tree := tree_with_laws print parse.
#[export] Instance scalars : ScalarLaws Tree := tree_with_scalars print parse.
#[export] Instance wires : Wire Tree := {| wire := id; wire_f64 := id; depth := tree_depth |}.

Lemma print_chars p : sforall (λ c, negb (is_white c)) (pos_to_string p) = true ∧ pos_to_string p ≠ "".
Proof. induction p as [p [IH _]|p [IH _]|]; simpl; rewrite ?IH; done. Qed.

Lemma no_white_trim s : sforall (λ c, negb (is_white c)) s = true → trim s = s.
Proof.
  intros Hs. assert (trim_end s = s) as He.
  { induction s as [|c s IH]; [done|]. cbn [sforall trim_end] in *. apply andb_prop in Hs as [Hc Hs].
    apply negb_true_iff in Hc. rewrite IH by done. destruct s; [by rewrite Hc|done]. }
  unfold trim. destruct s as [|c s]; [done|]. cbn [sforall trim_start] in *. apply andb_prop in Hs as [Hc Hs].
  apply negb_true_iff in Hc. by rewrite Hc.
Qed.

Lemma no_white_one_line s : sforall (λ c, negb (is_white c)) s = true → one_line s.
Proof.
  unfold one_line. induction s as [|c s IH]; [done|]. cbn [sforall]. intros [Hc Hs]%andb_prop. rewrite IH by done.
  rewrite bool_decide_eq_false_2; [done|]. by intros ->.
Qed.

Lemma max_list_bound n (l : list nat) : Forall (λ d, d ≤ n)%nat l → (max_list l ≤ n)%nat.
Proof. induction 1; simpl; lia. Qed.

#[export] Instance wire_ok : WireLaws Tree.
Proof.
  split; try done.
  - intros j. change (from_str (to_string j)) with (parse (print j)). unfold parse, print. rewrite pos_roundtrip. simpl.
    rewrite decode_encode. simpl. by rewrite of_to_gen.
  - intros j. apply no_white_one_line, print_chars.
  - intros j. destruct (print_chars (encode (to_gen j))) as [Hs Hne].
    change (to_string j) with (pos_to_string (encode (to_gen j))). by rewrite no_white_trim.
  - intros l. simpl. by rewrite list_fmap_id.
  - intros l k. simpl. by destruct (assoc_last k l).
  - eauto.
  - intros x. simpl. unfold tree_f64. by destruct (is_finite x).
  - intros n l Hl. simpl. apply le_n_S, max_list_bound. by apply Forall_fmap.
  - intros n l Hl. simpl. apply le_n_S, max_list_bound. by apply Forall_fmap.
Qed.
End TreeWire.
