(* ===== verification/Sdk.v ===== *)
(** * The plugin SDK ([crates/collector-sdk/src/lib.rs])

    Requests, the [Collector] trait as a class, the dispatch of a request to it
    and the stdin/stdout loop of a plugin process. *)
From S2P Require Import Prelude Float RustStr Json.
Local Open Scope Z_scope.
Set Warnings "-register-all".

Definition PROTOCOL : Z := 1.

(** ** Requests *)
Record Point (J : Type) := mkPoint { p_selection : J; p_naming : J }.
Arguments mkPoint {J} _ _.
Arguments p_selection {J} _.
Arguments p_naming {J} _.

Record ReadRequest (J : Type) := mkReadRequest {
  rq_v : Z;
  rq_op : string;
  rq_connector_id : string;
  rq_ds_type : string;
  rq_config : J;
  rq_secrets : J;
  rq_selection : J;
  rq_args : J;
  rq_naming : J;
  rq_points : list (Point J);
  rq_target : J;
  rq_write_value : option f64;
  rq_readback : bool;
}.
Arguments mkReadRequest {J} _ _ _ _ _ _ _ _ _ _ _ _ _.
Arguments rq_v {J} _.
Arguments rq_op {J} _.
Arguments rq_connector_id {J} _.
Arguments rq_ds_type {J} _.
Arguments rq_config {J} _.
Arguments rq_secrets {J} _.
Arguments rq_selection {J} _.
Arguments rq_args {J} _.
Arguments rq_naming {J} _.
Arguments rq_points {J} _.
Arguments rq_target {J} _.
Arguments rq_write_value {J} _.
Arguments rq_readback {J} _.

(** A reading a plugin returns. *)
Record PluginSample := mkPluginSample {
  ps_variable_id : string;
  ps_value : f64;
  ps_ts_ms : option Z;
  ps_quality : Z;
}.
Definition PluginSample_new (variable_id : string) (value : f64) : PluginSample :=
  mkPluginSample variable_id value None 0.
#[export] Instance PluginSample_eq_dec : EqDecision PluginSample.
Proof. solve_decision. Defined.

Inductive Node (J : Type) :=
| mkNode (id label node_type : string) (children : list (Node J)) (meta : J).
Arguments mkNode {J} _ _ _ _ _.

Record Discovery (J : Type) := mkDiscovery { d_schema_kind : string; d_nodes : list (Node J) }.
Arguments mkDiscovery {J} _ _.
Arguments d_schema_kind {J} _.
Arguments d_nodes {J} _.

Section Requests.
Context `{Json J}.

Definition Node_leaf (id label node_type : string) : Node J := mkNode id label node_type [] j_null.
Definition Node_branch (id label node_type : string) (children : list (Node J)) : Node J :=
  mkNode id label node_type children j_null.

Definition p_variable_id (p : Point J) : option string := get_str (p_naming p) "variable_id".
Definition selection_str (p : Point J) (key : string) : option string := get_str (p_selection p) key.
Definition selection_u64 (p : Point J) (key : string) : option Z := get_u64 (p_selection p) key.
Definition rq_variable_id (r : ReadRequest J) : option string := get_str (rq_naming r) "variable_id".
Definition config_str (r : ReadRequest J) (key : string) : option string := get_str (rq_config r) key.

Definition points (r : ReadRequest J) : list (Point J) :=
  match rq_points r with
  | [] => [mkPoint (rq_selection r) (rq_naming r)]
  | ps => ps
  end.

(** ** The derived parsers and printers *)
Definition de_point (j : J) : option (Point J) :=
  f ← struct_view ["selection"; "naming"] j;
  s ← de_default j_null Some (f "selection");
  n ← de_default j_null Some (f "naming");
  Some (mkPoint s n).

Definition request_fields : list string :=
  ["v"; "op"; "connector_id"; "type"; "config"; "secrets"; "selection"; "args"; "naming"; "points";
   "target"; "write_value"; "readback"].

Definition de_request (j : J) : option (ReadRequest J) :=
  f ← struct_view request_fields j;
  v ← de_default 0 de_u32 (f "v");
  op ← de_default "" as_str (f "op");
  cid ← de_default "" as_str (f "connector_id");
  ty ← de_default "" as_str (f "type");
  config ← de_default j_null Some (f "config");
  secrets ← de_default j_null Some (f "secrets");
  selection ← de_default j_null Some (f "selection");
  args ← de_default j_null Some (f "args");
  naming ← de_default j_null Some (f "naming");
  pts ← de_default [] (de_vec de_point) (f "points");
  target ← de_default j_null Some (f "target");
  wv ← de_default None (de_option as_f64) (f "write_value");
  rb ← de_default false as_bool (f "readback");
  Some (mkReadRequest v op cid ty config secrets selection args naming pts target wv rb).

Definition sample_json (s : PluginSample) : J :=
  j_object ([("variable_id", j_str (ps_variable_id s)); ("value", j_f64 (ps_value s))]
    ++ (match ps_ts_ms s with Some t => [("ts_ms", j_i64 t)] | None => [] end)
    ++ [("quality", j_u64 (ps_quality s))]).

Fixpoint node_json (n : Node J) : J :=
  match n with
  | mkNode id label ty children meta =>
      j_object ([("id", j_str id); ("label", j_str label); ("node_type", j_str ty)]
        ++ (match children with [] => [] | _ => [("children", j_array (node_json <$> children))] end)
        ++ (if is_null meta then [] else [("meta", meta)]))
  end.

Definition ok_with (fields : list (string * J)) : J := j_object (("ok", j_bool true) :: fields).
Definition err_with (e : string) : J := j_object [("ok", j_bool false); ("error", j_str e)].
End Requests.

(** ** The [Collector] trait *)
Class Collector (J C : Type) := {
  c_read : ReadRequest J → C → result string (list PluginSample) * C;
  c_query : ReadRequest J → C → result string J * C;
  c_write : ReadRequest J → C → result string (option f64) * C;
  c_discover : ReadRequest J → C → result string (Discovery J) * C;
  c_subscribe : ReadRequest J → C → list (list PluginSample) * result string () * C;
}.

(** The trait's default methods. *)
Section Defaults.
Context `{Json J} {C : Type}.
Definition default_query (read : ReadRequest J → C → result string (list PluginSample) * C)
    (r : ReadRequest J) (c : C) : result string J * C :=
  match read r c with
  | (Err e, c) => (Err e, c)
  | (Ok [one], c) => (Ok (j_object [("kind", j_str "scalar"); ("value", j_f64 (ps_value one))]), c)
  | (Ok many, c) =>
      (Ok (j_object [("kind", j_str "vector"); ("values", j_array (j_f64 <$> (ps_value <$> many)))]), c)
  end.
Definition default_write (_ : ReadRequest J) (c : C) : result string (option f64) * C :=
  (Err "write not supported by this connector", c).
Definition default_discover (_ : ReadRequest J) (c : C) : result string (Discovery J) * C :=
  (Err "discover not supported by this plugin", c).
Definition default_subscribe (_ : ReadRequest J) (c : C) : list (list PluginSample) * result string () * C :=
  ([], Err "subscribe (push) not supported by this plugin", c).
End Defaults.

(** ** Dispatch and the process loop *)
Section Run.
Context `{Json J} {C : Type} `{!Collector J C}.

Definition dispatch (r : ReadRequest J) (c : C) : J * C :=
  if decide (rq_op r = "read") then
    match c_read r c with
    | (Ok samples, c) => (ok_with [("samples", j_array (sample_json <$> samples))], c)
    | (Err e, c) => (err_with e, c)
    end
  else if decide (rq_op r = "discover") then
    match c_discover r c with
    | (Ok d, c) =>
        (ok_with [("result", j_object [("kind", j_str "tree"); ("schema_kind", j_str (d_schema_kind d));
                                       ("nodes", j_array (node_json <$> d_nodes d))])], c)
    | (Err e, c) => (err_with e, c)
    end
  else if decide (rq_op r ∈ ["query"; "test"; "history"]) then
    match c_query r c with
    | (Ok v, c) => (ok_with [("result", v)], c)
    | (Err e, c) => (err_with e, c)
    end
  else if decide (rq_op r = "write") then
    match c_write r c with
    | (Ok rb, c) => (ok_with [("readback", default j_null (j_f64 <$> rb))], c)
    | (Err e, c) => (err_with e, c)
    end
  else (ok_with [], c).

(** [args] stands in for a missing [selection]. *)
Definition mirror (r : ReadRequest J) : ReadRequest J :=
  if is_null (rq_selection r) && negb (is_null (rq_args r))
  then mkReadRequest (rq_v r) (rq_op r) (rq_connector_id r) (rq_ds_type r) (rq_config r) (rq_secrets r)
         (rq_args r) (rq_args r) (rq_naming r) (rq_points r) (rq_target r) (rq_write_value r) (rq_readback r)
  else r.

Definition parse_request (line : string) : result string (ReadRequest J) :=
  match from_str line ≫= de_request with
  | Some r => Ok (mirror r)
  | None => Err (error_text line)
  end.

(** The lines a subscription writes. *)
Definition sdk_stream (r : ReadRequest J) (c : C) : list J * C :=
  let '(batches, res, c) := c_subscribe r c in
  (((λ b, ok_with [("samples", j_array (sample_json <$> b))]) <$> batches)
     ++ [match res with Ok _ => ok_with [] | Err e => err_with e end], c).

(** [writeln!] and [flush] on stdout: [ok] says whether each one works. Only the
    response of a request ends the loop when it cannot be written. *)
Fixpoint run (lines : list (result string string)) (ok : list bool) (c : C) : list J * C :=
  match lines with
  | [] => ([], c)
  | Err _ :: _ => ([], c)
  | Ok line :: lines =>
      if decide (trim line = "") then run lines ok c
      else
        match parse_request line with
        | Err e =>
            let '(out, c) := run lines ok c in
            (err_with ("bad request: " +:+ e) :: out, c)
        | Ok r =>
            if decide (rq_op r = "subscribe") then
              let '(sent, c) := sdk_stream r c in
              let '(out, c) := run lines ok c in (sent ++ out, c)
            else
              let '(resp, c) := dispatch r c in
              match ok with
              | false :: _ => ([], c)
              | true :: ok | ok => let '(out, c) := run lines ok c in (resp :: out, c)
              end
        end
  end.

(** ** One response per request *)

Definition blank (line : string) : bool := bool_decide (trim line = "").
Definition is_subscribe (line : string) : bool :=
  match parse_request line with Ok r => bool_decide (rq_op r = "subscribe") | Err _ => false end.

(** The answer to one request line, and the plugin after it. *)
Definition answer (line : string) (c : C) : J * C :=
  match parse_request line with
  | Ok r => dispatch r c
  | Err e => (err_with ("bad request: " +:+ e), c)
  end.
Definition run_ok (lines : list string) (c : C) : list J * C := run (Ok <$> lines) [] c.

Lemma run_ok_cons line lines c :
  is_subscribe line = false →
  run_ok (line :: lines) c =
  if blank line then run_ok lines c
  else ((answer line c).1 :: (run_ok lines (answer line c).2).1, (run_ok lines (answer line c).2).2).
Proof.
  unfold run_ok, is_subscribe, blank, answer. intros Hs. rewrite fmap_cons. cbn [run].
  destruct (decide (trim line = "")) as [Ht|Ht].
  - by rewrite bool_decide_eq_true_2.
  - rewrite bool_decide_eq_false_2 by done. destruct (parse_request line) as [r|e].
    + apply bool_decide_eq_false in Hs. rewrite decide_False by done.
      destruct (dispatch r c) as [resp c']. simpl. by destruct (run _ [] c').
    + simpl. by destruct (run _ [] c).
Qed.

(** The plugin answers in lockstep: on a working stdout, the process writes
    exactly one line per request line that is not blank (subscriptions aside),
    in order, malformed requests included, so the host's n-th answer is the
    answer to its n-th request. *)
Theorem run_lockstep lines1 line lines2 c :
  Forall (λ l, is_subscribe l = false) (lines1 ++ line :: lines2) → blank line = false →
  let before := run_ok lines1 c in
  length before.1 = length (filter (λ l, blank l = false) lines1) ∧
  (run_ok (lines1 ++ line :: lines2) c).1 !! length before.1 = Some (answer line before.2).1.
Proof.
  revert c. induction lines1 as [|l lines1 IH]; intros c Hsub Hb; inversion_clear Hsub as [|? ? Hs Hsub'].
  - split; [done|]. simpl app. by rewrite run_ok_cons, Hb.
  - simpl app. rewrite !run_ok_cons by done. rewrite filter_cons.
    destruct (blank l) eqn:Hl; [rewrite decide_False by done; by apply IH|].
    rewrite decide_True by done. destruct (IH (answer l c).2 Hsub' Hb) as [IH1 IH2].
    split; [simpl; by rewrite IH1|done].
Qed.

Lemma points_ne (r : ReadRequest J) : points r ≠ [].
Proof. unfold points. by destruct (rq_points r). Qed.
End Run.

(** ** A concrete plugin *)
Module SdkRun.
Definition parse (s : string) : option Tree :=
  if decide (s = "hello") then Some (TObj [("op", TStr "hello")])
  else if decide (s = "read") then Some (TObj [("op", TStr "read")]) else None.
#[local] Instance json : Json Tree := tree_json parse.
#[local] Instance counter : Collector Tree Z := {|
  c_read r n := (Ok [PluginSample_new "n" (f64_of_Z n)], n + 1);
  c_query := default_query (λ r n, (Ok [PluginSample_new "n" (f64_of_Z n)], n + 1));
  c_write := default_write;
  c_discover := default_discover;
  c_subscribe := default_subscribe;
|}.

Lemma run_lockstep_witness :
  (run_ok ["hello"; " "; "junk"; "read"; "hello"] 7).1 !! 2%nat =
  Some (ok_with [("samples", j_array [sample_json (PluginSample_new "n" (f64_of_Z 7))])]).
Proof.
  refine (proj2 (run_lockstep ["hello"; " "; "junk"] "read" ["hello"] 7 _ _)).
  - repeat constructor.
  - vm_compute. reflexivity.
Defined.
End SdkRun.
