(* ===== verification/S7Plugin.v ===== *)
(** * The S7 connector ([crates/plugin-s7/src/main.rs])

    Configuration and selection parsing, the cached session, and the [read] and
    [discover] operations over the client of [S7Client.v]. *)
From Stdlib Require Import Ascii.
From S2P Require Import Prelude Float RustStr Json Sdk S7Decode S7Client S7Safety S7Blocks.
Local Open Scope Z_scope.

(** ** Parsing *)

Definition parse_area (s : string) : result string Z :=
  let l := to_ascii_lowercase s in
  if decide (l ∈ ["db"; "datablock"]) then Ok S7_AREA_DB
  else if decide (l ∈ ["m"; "mk"; "merker"; "flag"]) then Ok S7_AREA_MK
  else if decide (l ∈ ["i"; "e"; "input"; "pe"]) then Ok S7_AREA_PE
  else if decide (l ∈ ["q"; "a"; "output"; "pa"]) then Ok S7_AREA_PA
  else Err ("unknown area " +:+ debug_str l +:+ " (expected db/m/i/q)").

Record Selection := mkSelection { s_area : Z; s_db : Z; s_byte : Z; s_bit : Z; s_dtype : DType }.

Section Config.
Context `{Json J}.

Definition resolve_rack_slot (config : J) : result string (Z * Z) :=
  let rack := get_u64 config "rack" in
  let slot := get_u64 config "slot" in
  match rack, slot with
  | Some r, Some s => Ok (as_u16 r, as_u16 s)
  | _, _ =>
      match get_str config "family" with
      | Some fam =>
          let l := to_ascii_lowercase fam in
          '(fr, fs) ←
            (if decide (l ∈ ["s7-1500"; "s71500"; "s7-1200"; "s71200"]) then Ok (0, 1)
             else if decide (l ∈ ["s7-300"; "s7300"]) then Ok (0, 2)
             else if decide (l ∈ ["s7-400"; "s7400"]) then
               Err "family s7-400 has no fixed rack/slot — set rack and slot explicitly"
             else Err ("unknown family " +:+ debug_str l +:+
                       " (use s7-1500/s7-1200/s7-300, or set rack+slot)"));
          Ok (default fr (as_u16 <$> rack), default fs (as_u16 <$> slot))
      | None => Ok (default 0 (as_u16 <$> rack), default 1 (as_u16 <$> slot))
      end
  end.

Definition parse_selection (sel : J) : result string Selection :=
  area ← match get_str sel "area" with Some a => parse_area a | None => Ok S7_AREA_DB end;
  dtype ← DType_parse (default "real" (get_str sel "type"));
  if decide (area = S7_AREA_DB ∧ jget sel "db" = None) then Err "selection.db is required for a DB read"
  else
    let db := as_u16 (default 0 (get_u64 sel "db")) in
    let byte := as_u16 (default 0 (get_u64 sel "byte")) in
    let bit := as_u8 (default 0 (get_u64 sel "bit")) in
    if decide (dtype = DBool ∧ 7 < bit) then Err ("selection.bit must be 0..7 for bool, got " +:+ dec bit)
    else Ok (mkSelection area db byte bit dtype).

(** A DB as a node of the browse tree. *)
Definition db_node (db : Z) (info : option BlockInfo) : Node J :=
  let nm := info ≫= name in
  let sz := info ≫= size in
  let lg := info ≫= lang in
  let base := "DB" +:+ dec db in
  let label :=
    match nm, sz with
    | Some n, Some s => base +:+ " · " +:+ n +:+ " (" +:+ dec s +:+ " B)"
    | Some n, None => base +:+ " · " +:+ n
    | None, Some s => base +:+ " (" +:+ dec s +:+ " B)"
    | None, None => base
    end in
  mkNode base label "db" []
    (j_object [("db", j_u64 db); ("name", default j_null (j_str <$> nm));
               ("size_bytes", default j_null (j_u64 <$> sz)); ("lang", default j_null (j_u64 <$> lg))]).
End Config.

Definition map_s7_err (e : string) (sel : Selection) : string :=
  let el := to_ascii_lowercase e in
  if contains "invalid address" el then
    "s7 read failed: " +:+ e +:+ " (DB" +:+ dec (s_db sel) +:+
      " out of range, or the DB is optimized; set standard access)"
  else if contains "not found" el then
    "s7 read failed: " +:+ e +:+ " (DB" +:+ dec (s_db sel) +:+ " does not exist in the CPU)"
  else "s7 read failed: " +:+ e.

(** ** The connector *)

Record Conn := mkConn { key : string * Z * Z; client : S7Client }.

Section Connector.
Context `{Json J} {W : Type} `{Tcp W}.

(** The plugin's state: its session, if any, and the network. *)
Definition State : Type := option Conn * W.

(** The result of a computation, [None] when it panicked or did not end. *)
Definition answer_of {A} (o : outcome A) : option (result string A) :=
  match o with
  | ORet a => Some (Ok a)
  | OErr e => Some (Err (S7Error_fmt e))
  | OPanic | OFuel => None
  end.

(** Dropping a session disconnects it. *)
Definition reset (s : State) : State :=
  match s.1 with
  | Some c => (None, (disconnect (client c, s.2)).2.2)
  | None => s
  end.

(** A new session: the timeouts are set, then the connection is made. *)
Definition connect_new (host : string) (rack slot : Z) (s : State) : option (result string S7Client) * State :=
  let '(_, (c0, w0)) := set_timeout 5000 2000 2000 (S7Client_new, s.2) in
  let '(o, (c, w)) := connect_rack_slot host rack slot (c0, w0) in
  match answer_of o with
  | None => (None, (None, w))
  | Some (Err e) =>
      (Some (Err ("s7 connect " +:+ host +:+ " rack" +:+ dec rack +:+ "/slot" +:+ dec slot +:+ ": " +:+ e)),
       (None, (disconnect (c, w)).2.2))
  | Some (Ok _) => (Some (Ok c), (Some (mkConn (host, rack, slot) c), w))
  end.

(** A connected client for (host, rack, slot), reconnecting on a key change. *)
Definition client_for (host : string) (rack slot : Z) (s : State) : option (result string S7Client) * State :=
  match s.1 with
  | Some c =>
      if decide (key c = (host, rack, slot)) then (Some (Ok (client c)), s)
      else connect_new host rack slot (reset s)
  | None => connect_new host rack slot s
  end.

(** One scalar; eight rounds are enough for the eight bytes a type can have. *)
Definition read_fuel : nat := 8.
Definition read_value (sel : Selection) (s : S7Client * W) : option (result string f64) * (S7Client * W) :=
  if decide (s_dtype sel = DBool) then
    let '(o, s) := read_bit read_fuel (s_area sel) (s_db sel) (s_byte sel) (s_bit sel) s in
    (fmap (M := option) (fmap (λ b : bool, if b then f64_one else f64_zero)) (answer_of o), s)
  else
    let '(o, s) := read_area read_fuel (s_area sel) (s_db sel) (s_byte sel) S7_WL_BYTE
                     (replicate (byte_len (s_dtype sel)) 0) s in
    (fmap (M := option) (λ r, r ≫= decode (s_dtype sel)) (answer_of o), s).

(** The loop over the targets: a failed read gives a bad-quality sample. *)
Fixpoint read_targets (targets : list (string * Selection)) (s : S7Client * W)
    : option (list PluginSample * bool) * (S7Client * W) :=
  match targets with
  | [] => (Some ([], false), s)
  | (var_id, sel) :: targets =>
      match read_value sel s with
      | (None, s) => (None, s)
      | (Some r, s) =>
          match read_targets targets s with
          | (None, s) => (None, s)
          | (Some (samples, bad), s) =>
              match r with
              | Ok v => (Some (PluginSample_new var_id v :: samples, bad), s)
              | Err _ => (Some (mkPluginSample var_id f64_zero None 1 :: samples, true), s)
              end
          end
      end
  end.

Definition parse_target (p : Point J) : result string (string * Selection) :=
  sel ← parse_selection (p_selection p);
  Ok (default "s7.value" (p_variable_id p), sel).

(** Everything that is decided before the device is touched. *)
Definition read_plan (req : ReadRequest J) : result string (string * Z * Z * list (string * Selection)) :=
  host ← ok_or "config.host is required" (config_str req "host");
  rs ← resolve_rack_slot (rq_config req);
  targets ← mapR parse_target (points req);
  Ok (host, rs.1, rs.2, targets).

Definition read (req : ReadRequest J) (s : State) : option (result string (list PluginSample)) * State :=
  match read_plan req with
  | Err e => (Some (Err e), s)
  | Ok (host, rack, slot, targets) =>
      match client_for host rack slot s with
      | (None, s) => (None, s)
      | (Some (Err e), s) => (Some (Err e), s)
      | (Some (Ok c), s) =>
          let '(r, (c, w)) := read_targets targets (c, s.2) in
          let s := (Some (mkConn (host, rack, slot) c), w) in
          match r with
          | None => (None, s)
          | Some (samples, bad) => (Some (Ok samples), if bad then reset s else s)
          end
      end
  end.

(** [discover]: the block list is required, each block's description is not. *)
Fixpoint discover_nodes (dbs : list Z) (s : S7Client * W) : option (list (Node J)) * (S7Client * W) :=
  match dbs with
  | [] => (Some [], s)
  | db :: dbs =>
      let '(o, s) := get_block_info db s in
      match answer_of o with
      | None => (None, s)
      | Some r =>
          let '(rest, s) := discover_nodes dbs s in
          ((λ ns, db_node db (res_ok r) :: ns) <$> rest, s)
      end
  end.

Definition discover (req : ReadRequest J) (s : State) : option (result string (Discovery J)) * State :=
  match (host ← ok_or "config.host is required" (config_str req "host");
         rs ← resolve_rack_slot (rq_config req); Ok (host, rs.1, rs.2)) with
  | Err e => (Some (Err e), s)
  | Ok (host, rack, slot) =>
      match client_for host rack slot s with
      | (None, s) => (None, s)
      | (Some (Err e), s) => (Some (Err e), s)
      | (Some (Ok c), s) =>
          let '(o, (c, w)) := list_data_blocks (c, s.2) in
          let s := (Some (mkConn (host, rack, slot) c), w) in
          match answer_of o with
          | None => (None, s)
          | Some (Err e) => (Some (Err ("s7 discover: " +:+ e)), reset s)
          | Some (Ok dbs) =>
              let '(ns, (c, w)) := discover_nodes dbs (c, w) in
              let s := (Some (mkConn (host, rack, slot) c), w) in
              match ns with
              | None => (None, s)
              | Some ns => (Some (Ok (mkDiscovery "s7_blocks" ns)), s)
              end
          end
      end
  end.
End Connector.
