(* ===== verification/S7PluginProps.v ===== *)
(** * Correctness of the S7 connector

    What a parsed selection guarantees; that a poll answers every point, whatever
    the PLC and the network do; and that a poll of a PLC that follows the protocol
    reads its memory. *)
From S2P Require Import Prelude Float RustStr Json Sdk S7Decode S7Client S7Safety S7Plc S7Sim S7Blocks S7Plugin.
Local Open Scope Z_scope.

(** ** Selections *)

(** What the client accepts without an [InvalidFunParameter]. *)
Definition selection_ok (sel : Selection) : Prop :=
  check_area (s_area sel) = Ok () ∧ is_u16 (s_db sel) ∧ is_u16 (s_byte sel) ∧ is_u8 (s_bit sel) ∧
  (s_dtype sel = DBool → s_bit sel ≤ 7).

Section Selections.
Context `{JsonLaws J}.

Lemma parse_area_ok s a : parse_area s = Ok a → check_area a = Ok ().
Proof. unfold parse_area. repeat case_decide; by intros [= <-]. Qed.

(** A selection that parses is one the client accepts: a known area, 16-bit
    numbers, a bit index below eight for a Bool; a DB read names its DB. *)
Lemma parse_selection_ok (j : J) sel :
  parse_selection j = Ok sel →
  selection_ok sel ∧ (s_area sel = S7_AREA_DB → jget j "db" ≠ None).
Proof.
  unfold parse_selection. intros Hp.
  destruct (match get_str j "area" with Some a => parse_area a | None => Ok S7_AREA_DB end) as [area|] eqn:Ha; [|done].
  assert (check_area area = Ok ()) as Hc.
  { destruct (get_str j "area"); [by eapply parse_area_ok|]. by injection Ha as <-. }
  cbn in Hp. destruct (DType_parse _) as [ty|]; [|done]. cbn in Hp.
  case_decide as Hdb; [done|]. case_decide as Hbit; [done|]. injection Hp as <-. unfold selection_ok. simpl.
  split_and!; [done|apply as_u16_range|apply as_u16_range|apply as_u8_range| |].
  - intros ->. destruct (decide (7 < as_u8 (default 0 (get_u64 j "bit")))); [naive_solver|lia].
  - intros -> E. by apply Hdb.
Qed.

Lemma mapR_parse_ok (ps : list (Point J)) targets :
  mapR parse_target ps = Ok targets → Forall (λ t, selection_ok t.2) targets.
Proof.
  revert targets. induction ps as [|p ps IH]; intros targets; cbn [mapR]; [by intros [= <-]|].
  destruct (parse_target p) as [t|] eqn:Ht; [|done]. unfold mbind at 1, result_bind at 1.
  destruct (mapR parse_target ps) as [ts|]; [|done]. unfold mbind, result_bind. intros [= <-].
  constructor; [|by apply IH]. unfold parse_target in Ht.
  destruct (parse_selection (p_selection p)) as [sel|] eqn:Es; [|done]. injection Ht as <-. by apply parse_selection_ok in Es as [? _].
Qed.

Lemma read_plan_parts (req : ReadRequest J) host rack slot targets :
  read_plan req = Ok (host, rack, slot, targets) →
  config_str req "host" = Some host ∧ resolve_rack_slot (rq_config req) = Ok (rack, slot) ∧
  mapR parse_target (points req) = Ok targets.
Proof.
  unfold read_plan. destruct (config_str req "host") as [h|]; [|done]. cbn.
  destruct (resolve_rack_slot _) as [[r sl]|]; [|done]. cbn. destruct (mapR _ _) as [ts|]; [|done]. by intros [= <- <- <- <-].
Qed.
Lemma read_plan_targets (req : ReadRequest J) host rack slot targets :
  read_plan req = Ok (host, rack, slot, targets) → Forall (λ t, selection_ok t.2) targets.
Proof. intros (_ & _ & Ht)%read_plan_parts. by eapply mapR_parse_ok. Qed.

(** Rack and slot: explicit numbers win one by one, then the family, then
    rack 0 and slot 1; only an unknown family, or s7-400 without both numbers, is
    refused. *)
Theorem resolve_rack_slot_spec (config : J) :
  let rack := as_u16 <$> get_u64 config "rack" in
  let slot := as_u16 <$> get_u64 config "slot" in
  let fam := to_ascii_lowercase <$> get_str config "family" in
  match resolve_rack_slot config with
  | Ok (r, s) =>
      (∀ x, rack = Some x → r = x) ∧ (∀ x, slot = Some x → s = x) ∧
      (rack = None → r = 0) ∧
      (slot = None → s = match fam with
                         | Some f => if decide (f ∈ ["s7-300"; "s7300"]) then 2 else 1
                         | None => 1
                         end)
  | Err _ =>
      (rack = None ∨ slot = None) ∧
      ∃ f, fam = Some f ∧ f ∉ ["s7-1500"; "s71500"; "s7-1200"; "s71200"; "s7-300"; "s7300"]
  end.
Proof.
  cbn zeta. unfold resolve_rack_slot.
  destruct (get_u64 config "rack") as [r|]; destruct (get_u64 config "slot") as [s|]; simpl; [naive_solver|..].
  all: destruct (get_str config "family") as [f|]; simpl; [|naive_solver].
  all: generalize (to_ascii_lowercase f) as l; intros l.
  all: destruct (decide (l ∈ ["s7-1500"; "s71500"; "s7-1200"; "s71200"])) as [H1|H1];
    [|destruct (decide (l ∈ ["s7-300"; "s7300"])) as [H3|H3];
      [|destruct (decide (l ∈ ["s7-400"; "s7400"])) as [H4|H4]]]; simpl.
  all: try (split; [tauto|]; exists l; split; [done|set_solver]).
  all: split_and!; intros; simplify_eq; try done.
  all: try (case_decide; [|done]); try (exfalso; set_unfold; naive_solver).
Qed.
Lemma mapR_parse_ids (ps : list (Point J)) targets :
  mapR parse_target ps = Ok targets →
  targets.*1 = (λ p, default "s7.value" (p_variable_id p)) <$> ps.
Proof.
  revert targets. induction ps as [|p ps IH]; intros targets; cbn [mapR]; [by intros [= <-]|].
  destruct (parse_target p) as [t|] eqn:Ht; [|done]. unfold mbind at 1, result_bind at 1.
  destruct (mapR parse_target ps) as [ts|]; [|done]. unfold mbind, result_bind. intros [= <-].
  rewrite !fmap_cons. f_equal; [|by apply IH].
  unfold parse_target in Ht. destruct (parse_selection (p_selection p)) as [sel|]; [|done].
  by injection Ht as <-.
Qed.

Lemma rack_slot_u16 (config : J) r s : resolve_rack_slot config = Ok (r, s) → is_u16 r ∧ is_u16 s.
Proof.
  unfold resolve_rack_slot. pose proof as_u16_range as Hu.
  destruct (get_u64 config "rack") as [x|], (get_u64 config "slot") as [y|]; [by intros [= <- <-]|..].
  all: destruct (get_str config "family") as [fam|]; [|by intros [= <- <-]].
  all: repeat case_decide; intros [= <- <-]; split; apply Hu || done.
Qed.

(** C25. What a poll that starts asks is what the client accepts: 16-bit rack and
    slot, and for every point, in order and under its variable, a known area,
    16-bit DB and byte numbers and, for a Bool, a bit index below eight. *)
Theorem read_plan_ok (req : ReadRequest J) host rack slot targets :
  read_plan req = Ok (host, rack, slot, targets) →
  config_str req "host" = Some host ∧ is_u16 rack ∧ is_u16 slot ∧
  targets.*1 = (λ p, default "s7.value" (p_variable_id p)) <$> points req ∧
  Forall (λ t, selection_ok t.2) targets.
Proof.
  intros Hp. pose proof (read_plan_parts _ _ _ _ _ Hp) as (Hh & Hr & Ht).
  destruct (rack_slot_u16 _ _ _ Hr) as [Hr1 Hs1].
  split_and!; [done..|by apply mapR_parse_ids|by eapply mapR_parse_ok].
Qed.

End Selections.

(** ** Polls *)
Section Polls.
Context `{Json J} {W : Type} `{TcpOk W}.

(** PLCs negotiate PDUs of 240 bytes and more. *)
Class FairPdu := fair_pdu : ∀ ip lt rt (s s' : S7Client * W),
  connect_tsap ip lt rt s = (ORet (), s') → pdu_length s'.1 ≠ 18.
Context `{!FairPdu}.

Definition client_ok (c : S7Client) : Prop :=
  connected c = true ∧ stream c = true ∧ 1 ≤ max_rd_pdu_data c.
Definition session_ok (s : State (W := W)) : Prop := ∀ c, s.1 = Some c → client_ok (client c).

Lemma reset_none (s : State (W := W)) : (reset s).1 = None.
Proof. unfold reset. by destruct s as [[c|] w]. Qed.

Lemma connect_tsap_client ip lt rt (s s' : S7Client * W) :
  connect_tsap ip lt rt s = (ORet (), s') → client_ok s'.1.
Proof.
  intros E. pose proof (fair_pdu _ _ _ _ _ E) as Hf. pose proof (connect_tsap_ends ip lt rt s) as He.
  unfold ends in He. rewrite E in He. cbn zeta in He.
  destruct He as (Hc & Hl & Hp & Hm & _ & _). split_and!; [done|by apply Hl|].
  rewrite Hm. unfold as_u16. dlia.
Qed.

Lemma answer_of_ends {A} (m : S7 A) (s : S7Client * W) Q E :
  ends m s Q E → answer_of (m s).1 ≠ None.
Proof. unfold ends. by destruct (m s) as [[] ?]. Qed.

Lemma client_for_ok host rack slot (s : State (W := W)) :
  session_ok s →
  match client_for host rack slot s with
  | (None, _) => False
  | (Some (Err _), s') => s'.1 = None
  | (Some (Ok c), s') => s'.1 = Some (mkConn (host, rack, slot) c) ∧ client_ok c
  end.
Proof.
  intros Hs.
  assert (∀ s, match connect_new host rack slot s with
    | (None, _) => False
    | (Some (Err _), s') => s'.1 = None
    | (Some (Ok c), s') => s'.1 = Some (mkConn (host, rack, slot) c) ∧ client_ok c end) as Hnew.
  { clear s Hs. intros s. unfold connect_new.
    destruct (set_timeout 5000 2000 2000 (S7Client_new, s.2)) as [o0 [c0 w0]].
    set (rt := as_u16 (as_u16 (as_u16 (Z.shiftl (conn_type c0) 8) + as_u16 (rack * 0x20)) + slot)).
    assert (connect_rack_slot host rack slot (c0, w0) = connect_tsap host 0x0100 rt (c0, w0)) as -> by done.
    pose proof (answer_of_ends _ _ _ _ (connect_tsap_ends host 0x0100 rt (c0, w0))) as Hne.
    destruct (connect_tsap host 0x0100 rt (c0, w0)) as [o [c w]] eqn:E.
    destruct o as [[]|e| |]; try done. simpl. split; [done|]. by apply connect_tsap_client in E. }
  unfold client_for. destruct s as [[c|] w]; simpl; [|apply Hnew].
  case_decide as Hk; [|apply Hnew]. simpl. split; [|by apply Hs]. f_equal. destruct c. simpl in *. by subst.
Qed.

Lemma read_bit_ends area db byte bit (s : S7Client * W) :
  client_ok s.1 →
  ends (read_bit read_fuel area db byte bit) s (λ _ s', client_ok s'.1) (λ s', client_ok s'.1).
Proof.
  intros Hc. unfold read_bit. apply ends_bind, ends_guard; [intros _|done]. apply ends_bind.
  pose proof Hc as (Hcon & Hstr & Hrd).
  eapply ends_mono; [apply read_area_ends; [by intros _|by intros _|done|unfold data_size, read_fuel; simpl; lia]|..].
  - intros b s' [(E1 & E2 & _ & E4 & _) _]. apply ends_ret. split_and!; congruence.
  - intros s' (E1 & E2 & _ & E4 & _). split_and!; congruence.
Qed.

(** Reading one value ends, and leaves the client usable. *)
Lemma read_value_ok sel (s : S7Client * W) :
  client_ok s.1 →
  match read_value sel s with (None, _) => False | (Some _, s') => client_ok s'.1 end.
Proof.
  intros Hc. unfold read_value. case_decide as Hb.
  - pose proof (read_bit_ends (s_area sel) (s_db sel) (s_byte sel) (s_bit sel) s Hc) as He.
    unfold ends in He. destruct (read_bit _ _ _ _ _ _) as [[] s']; simpl; done.
  - set (buffer := replicate (byte_len (s_dtype sel)) 0).
    assert (data_size S7_WL_BYTE buffer ≤ Z.of_nat read_fuel) as Hf.
    { unfold buffer. by destruct (s_dtype sel). }
    pose proof Hc as (Hcon & Hstr & Hrd).
    pose proof (read_area_ends read_fuel (s_area sel) (s_db sel) (s_byte sel) S7_WL_BYTE buffer s
                  ltac:(by intros _) ltac:(by intros _) ltac:(done) Hf) as He.
    unfold ends in He. destruct (read_area _ _ _ _ _ _ _) as [[b|e| |] s']; try done; simpl.
    + destruct He as [(E1 & E2 & _ & E4 & _) _]. split_and!; congruence.
    + destruct He as (E1 & E2 & _ & E4 & _). split_and!; congruence.
Qed.

Definition bad_or_good (x : PluginSample) : Prop :=
  ps_quality x = 0 ∨ (ps_quality x = 1 ∧ ps_value x = f64_zero).

Lemma read_targets_ok targets (s : S7Client * W) :
  client_ok s.1 →
  match read_targets targets s with
  | (None, _) => False
  | (Some (samples, bad), s') =>
      client_ok s'.1 ∧ ps_variable_id <$> samples = targets.*1 ∧ Forall bad_or_good samples ∧
      bad = existsb (λ x, negb (ps_quality x =? 0)) samples
  end.
Proof.
  revert s. induction targets as [|[v sel] targets IH]; intros s Hc; cbn [read_targets]; [done|].
  pose proof (read_value_ok sel s Hc) as Hv. destruct (read_value sel s) as [[r|] s1]; [|done].
  specialize (IH s1 Hv). destruct (read_targets targets s1) as [[[samples bad]|] s2]; [|done].
  destruct IH as (Hc2 & Hids & Hall & ->). destruct r as [x|e].
  - split_and!; [done|by rewrite fmap_cons, Hids| |done]. constructor; [by left|done].
  - split_and!; [done|by rewrite fmap_cons, Hids| |done]. constructor; [by right|done].
Qed.

(** C26. A poll answers every point or says why it cannot. With peers none of which
    negotiates a PDU of 18 bytes (with such a one a poll may never return) and a
    session that is good, if there is one, it never aborts; when
    the request and the session are good it returns one sample per point, in
    order and under the point's variable, a failed read giving the value 0 with
    quality 1 and not sinking the others; the session survives exactly when no
    read failed. *)
Theorem s7_read_spec (req : ReadRequest J) (s : State (W := W)) :
  session_ok s →
  match read req s with
  | (None, _) => False
  | (Some (Err e), s') => read_plan req = Err e ∧ s' = s ∨ s'.1 = None
  | (Some (Ok samples), s') =>
      ps_variable_id <$> samples = (λ p, default "s7.value" (p_variable_id p)) <$> points req ∧
      Forall bad_or_good samples ∧
      session_ok s' ∧
      (s'.1 ≠ None ↔ Forall (λ x, ps_quality x = 0) samples)
  end.
Proof.
  intros Hs. unfold read. destruct (read_plan req) as [[[[host rack] slot] targets]|e] eqn:Hp; [|by left].
  assert (mapR parse_target (points req) = Ok targets) as Ht.
  { by apply read_plan_parts in Hp as (_ & _ & ?). }
  pose proof (client_for_ok host rack slot s Hs) as Hcl.
  destruct (client_for host rack slot s) as [[[c|e]|] s1]; [|by right|done].
  destruct Hcl as [Hs1 Hc]. pose proof (read_targets_ok targets (c, s1.2) Hc) as Hr.
  destruct (read_targets targets (c, s1.2)) as [[[samples bad]|] [c2 w2]]; [|done].
  destruct Hr as (Hc2 & Hids & Hall & Hbad).
  assert (bad = false ↔ Forall (λ x, ps_quality x = 0) samples) as Hq.
  { rewrite Hbad. clear. induction samples as [|x l IH]; [done|]. simpl.
    rewrite Forall_cons, orb_false_iff, IH, negb_false_iff, Z.eqb_eq. done. }
  split_and!; [by rewrite Hids, (mapR_parse_ids _ _ Ht)|done| |].
  - destruct bad; [intros c' E; by rewrite reset_none in E|]. by intros c' [= <-].
  - rewrite <- Hq. destruct bad; [by rewrite reset_none|]. done.
Qed.
End Polls.

(** ** Values *)

(** The value of a selection in a memory. *)
Definition value_at (m : Mem) (sel : Selection) : result string f64 :=
  match s_dtype sel with
  | DBool => Ok (if Z.testbit (m (s_area sel) (s_db sel) (s_byte sel)) (s_bit sel) then f64_one else f64_zero)
  | ty => decode ty (region m (s_area sel) (s_db sel) (s_byte sel) (Z.of_nat (byte_len ty)))
  end.

(** A selection the PLC has the bytes of; bit addresses wrap at byte 8192. *)
Definition served {W : Type} `{Plc W} (w : W) (sel : Selection) : Prop :=
  plc_has w (s_area sel) (s_db sel) (s_byte sel) (Z.max 1 (Z.of_nat (byte_len (s_dtype sel)))) ∧
  (s_dtype sel = DBool → s_byte sel < 8192).

Lemma value_at_ok m sel : is_ok (value_at m sel) = true.
Proof.
  unfold value_at. destruct (s_dtype sel) eqn:E; [done|..]; unfold decode; rewrite region_length; simpl; done.
Qed.

Section Values.
Context {W : Type} `{Plc W}.

(** The value a selection reads is the PLC's. *)
Lemma read_value_plc (sel : Selection) (c : S7Client) (w : W) :
  ready_client c → plc_ready w → selection_ok sel → served w sel →
  ∃ c' w', read_value sel (c, w) = (Some (value_at (plc_mem w) sel), (c', w')) ∧
    ready_client c' ∧ plc_ready w' ∧ plc_mem w' = plc_mem w ∧ plc_has w' = plc_has w.
Proof.
  intros Hc Hw (Ha & Hdb & Hbyte & Hbit & Hb7) [Hhas Hlow]. unfold is_u16, is_u8 in *. unfold read_value, value_at.
  case_decide as Hty.
  - rewrite Hty in *. simpl in Hhas. specialize (Hb7 eq_refl). specialize (Hlow eq_refl).
    assert (bit_byte (s_byte sel) = s_byte sel) as Hbb by (unfold bit_byte; apply Z.mod_small; lia).
    destruct (read_bit_plc read_fuel (s_area sel) (s_db sel) (s_byte sel) (s_bit sel) c w)
      as (c' & w' & E & Hc' & Hw' & Hm'); [done|done|done|by rewrite Hbb|lia|lia|unfold read_fuel; lia|].
    rewrite E, Hbb. exists c', w'. done.
  - set (buffer := replicate (byte_len (s_dtype sel)) 0).
    assert (Z.of_nat (length buffer) = Z.of_nat (byte_len (s_dtype sel))) as Hlen
      by (unfold buffer; by rewrite length_replicate).
    assert (1 ≤ Z.of_nat (byte_len (s_dtype sel)) ≤ 8) as Hbl by (destruct (s_dtype sel); simpl; done || lia).
    destruct (read_area_plc read_fuel (s_area sel) (s_db sel) (s_byte sel) buffer c w)
      as (c' & w' & E & Hc' & Hw' & Hm'); rewrite ?Hlen in *; [done|done|done| |lia|lia|unfold read_fuel; lia|].
    { by rewrite Z.max_r in Hhas by lia. }
    rewrite E. exists c', w'. split; [|done]. simpl. do 2 f_equal. by destruct (s_dtype sel).
Qed.

(** The good sample of a target. *)
Definition sampled (m : Mem) (target : string * Selection) (x : PluginSample) : Prop :=
  ∃ v, value_at m target.2 = Ok v ∧ x = PluginSample_new target.1 v.

Lemma read_targets_plc targets (c : S7Client) (w : W) :
  ready_client c → plc_ready w → Forall (λ t, selection_ok t.2) targets → Forall (λ t, served w t.2) targets →
  ∃ samples c' w', read_targets targets (c, w) = (Some (samples, false), (c', w')) ∧
    Forall2 (sampled (plc_mem w)) targets samples ∧
    ready_client c' ∧ plc_ready w' ∧ plc_mem w' = plc_mem w ∧ plc_has w' = plc_has w.
Proof.
  intros Hc Hw Hok. revert c w Hc Hw. induction Hok as [|[v sel] targets Hsel Hok IH]; intros c w Hc Hw Hs.
  { exists [], c, w. done. }
  apply Forall_cons in Hs as [Hs1 Hs]. cbn [read_targets].
  destruct (read_value_plc sel c w Hc Hw Hsel Hs1) as (c1 & w1 & -> & Hc1 & Hw1 & Hm1 & Hh1).
  destruct (IH c1 w1 Hc1 Hw1) as (samples & c2 & w2 & -> & Hall & Hc2 & Hw2 & Hm2 & Hh2).
  { eapply Forall_impl; [exact Hs|]. intros t. unfold served. by rewrite Hh1. }
  pose proof (value_at_ok (plc_mem w) sel) as Hv. destruct (value_at (plc_mem w) sel) as [x|] eqn:Ev; [|done].
  eexists _, c2, w2. split; [reflexivity|]. rewrite Hm2, Hm1 in *. split_and!; try done; [|by rewrite Hh2, Hh1].
  constructor; [|done]. by exists x.
Qed.

Context `{JsonLaws J}.

(** A poll is the memory of the PLC: with a session to a PLC that follows
    the protocol, and its points within the memory the PLC has, a poll returns one
    good sample per point, in order, under the point's variable, whose value is
    the decoding of the bytes at the point's area, DB and byte, or the bit; the
    memory is unchanged and the session kept. *)
Lemma s7_poll_plc (req : ReadRequest J) s host rack slot targets c (s1 : State (W := W)) :
  read_plan req = Ok (host, rack, slot, targets) →
  client_for host rack slot s = (Some (Ok c), s1) → ready_client c → plc_ready s1.2 →
  Forall (λ t, served s1.2 t.2) targets →
  ∃ samples c' w', read req s = (Some (Ok samples), (Some (mkConn (host, rack, slot) c'), w')) ∧
    Forall2 (sampled (plc_mem s1.2)) targets samples ∧
    ready_client c' ∧ plc_ready w' ∧ plc_mem w' = plc_mem s1.2.
Proof.
  intros Hp Hcl Hc Hw Hs. destruct (read_targets_plc targets c s1.2 Hc Hw (read_plan_targets _ _ _ _ _ Hp) Hs)
    as (samples & c' & w' & E & Hall & Hc' & Hw' & Hm' & _).
  exists samples, c', w'. split; [|done]. unfold read. by rewrite Hp, Hcl, E.
Qed.
End Values.

(** ** Concrete polls *)
Module PollRun.
Import S7Sim.
#[local] Instance json : Json Tree := tree_json (λ _, None).
#[local] Instance laws : JsonLaws Tree := tree_laws (λ _, None).

Definition selection : Tree := TObj [("area", TStr "DB"); ("db", TInt 1); ("byte", TInt 10); ("type", TStr "INT")].
Definition request : ReadRequest Tree :=
  mkReadRequest 1 "read" "c1" "s7" (TObj [("host", TStr "plc"); ("family", TStr "S7-1500")]) TNull TNull TNull
    TNull [mkPoint selection (TObj [("variable_id", TStr "speed")]); mkPoint selection TNull] TNull None false.

Lemma parse_selection_ok_witness :
  ∃ sel, parse_selection selection = Ok sel ∧ selection_ok sel.
Proof.
  eexists. split; [vm_compute; reflexivity|].
  refine (proj1 (parse_selection_ok selection _ _)). vm_compute. reflexivity.
Defined.

Lemma resolve_rack_slot_spec_witness :
  resolve_rack_slot (TObj [("slot", TInt 4); ("family", TStr "S7-300")]) = Ok (0, 4) ∧
  ∃ f, f ∉ ["s7-1500"; "s71500"; "s7-1200"; "s71200"; "s7-300"; "s7300"] ∧ f = "logo".
Proof.
  split; [vm_compute; reflexivity|].
  pose proof (resolve_rack_slot_spec (TObj [("family", TStr "LOGO")])) as H.
  vm_compute in H. destruct H as [_ (f & [= <-] & H)]. eexists. split; [exact H|done].
Defined.

(** The simulator always announces 480 bytes. *)
#[local] Instance sim_fair : FairPdu (W := Sim).
Proof.
  intros ip lt rt [c w] s'. intros E. vm_compute in E. injection E as <-. done.
Qed.

Lemma s7_read_spec_witness :
  ∃ samples s', read request (None, Run.w0) = (Some (Ok samples), s') ∧
    ps_variable_id <$> samples = ["speed"; "s7.value"] ∧ Forall bad_or_good samples.
Proof.
  eexists _, _. split; [vm_compute; reflexivity|].
  pose proof (s7_read_spec request (None, Run.w0) ltac:(intros c [=])) as H.
  assert (∃ samples s', read request (None, Run.w0) = (Some (Ok samples), s')) as (l & s' & E)
    by (eexists _, _; vm_compute; reflexivity).
  rewrite E in H. vm_compute in E. injection E as <- _.
  exact (conj (proj1 H) (proj1 (proj2 H))).
Defined.

Definition target : Selection := mkSelection S7_AREA_DB 1 10 0 DInt16.
Definition targets : list (string * Selection) := [("speed", target); ("s7.value", target)].
Lemma request_plan : read_plan request = Ok ("plc", 0, 1, targets).
Proof. vm_compute. reflexivity. Qed.

Lemma read_plan_ok_witness :
  read_plan request = Ok ("plc", 0, 1, targets) ∧ is_u16 1 ∧ Forall (λ t, selection_ok t.2) targets.
Proof.
  destruct (read_plan_ok request "plc" 0 1 targets request_plan) as (_ & _ & Hslot & _ & Hok).
  exact (conj request_plan (conj Hslot Hok)).
Defined.

(** The first poll connects. *)
Definition fresh_session := client_for (W := Sim) "plc" 0 1 (None, Run.w0).
Definition fresh_client : S7Client := match fresh_session with (Some (Ok c), _) => c | _ => S7Client_new end.

Lemma s7_poll_plc_witness :
  ∃ samples s', read request (None, Run.w0) = (Some (Ok samples), s') ∧
    samples = [PluginSample_new "speed" (f64_of_Z 2571); PluginSample_new "s7.value" (f64_of_Z 2571)].
Proof.
  destruct (s7_poll_plc (W := Sim) request (None, Run.w0) "plc" 0 1 targets fresh_client
    (Some (mkConn ("plc", 0, 1) fresh_client), Run.w0)) as (samples & c' & w' & E & Hall & _).
  - exact request_plan.
  - vm_compute. reflexivity.
  - vm_compute. repeat split; discriminate.
  - apply Run.w0_ready.
  - assert (served Run.w0 target) by (split; [by apply Run.has_ok|done]). by repeat apply Forall_cons_2.
  - exists samples. eexists. split; [exact E|].
    inversion_clear Hall as [|? ? ? ? (v1 & E1 & ->) Hall']. inversion_clear Hall' as [|? ? ? ? (v2 & E2 & ->) Hn].
    inversion_clear Hn. vm_compute in E1, E2. injection E1 as <-. injection E2 as <-. vm_compute. reflexivity.
Defined.
End PollRun.
