(* ===== verification/Ingest.v ===== *)
(** * The ingest streamer ([src/ingest_client.rs])

    [run] connects, resends the batches in flight, then claims, sends and
    settles one batch at a time. The gRPC channel, the clock and the other tasks
    of the agent are the interface [IngestEnv]: at every [.await] the other tasks
    may use the buffer, and the process may be killed. *)
From Stdlib Require Import Ascii.
From S2P Require Import Prelude Float Proto Buffer RustStr.
Local Open Scope Z_scope.

(** ** The environment *)

Class IngestEnv (W : Type) := {
  (* what the other tasks do to the buffer while this one waits; [false]: killed *)
  others : W → BufferDb → Faults → bool * BufferDb * Faults * W;
  from_shared_ok : string → bool;
  metadata_ok : string → bool;
  tls_config_ok : W → bool;
  connect : bool → W → bool * W;
  stream_samples : W → result string () * W;
  push : SampleBatch → W → bool * W;
  message : W → result string (option BatchAck) * W;
  sleep_ms : Z → W → W;
  epoch_ms : W → Z;
  ulid_new : W → string * W;
}.

Record BufferStreamer := mkBufferStreamer {
  endpoint : string;
  api_key : string;
  agent_id : string;
  datasource_id : string;
  max_batch_size : Z;
}.

Definition BufferStreamer_new (endpoint api_key agent_id datasource_id : string) : BufferStreamer :=
  mkBufferStreamer endpoint api_key agent_id datasource_id 1000.

(** ** The ACK of a batch *)

Definition resolve_ack `{AckCodec} (ack : BatchAck) (in_flight_batch_id : string) : option AckStatus :=
  if decide (ack_batch_id ack ≠ in_flight_batch_id) then None
  else Some (default AckUnspecified (ack_status_try_from (ack_status ack))).

(** ** The streamer's computations *)

Record Sys (W : Type) := mkSys {
  world : W;
  buf : BufferDb;
  faults : Faults;
  backoff_secs : Z;
}.
Arguments mkSys {W} _ _ _ _.
Arguments world {W} _.
Arguments buf {W} _.
Arguments faults {W} _.
Arguments backoff_secs {W} _.

(** Why a computation stopped without a value: an error, a panic, the end of the
    process, or the bound on the loops. *)
Inductive Stop := Failed (e : string) | Panicked (e : string) | Killed | StillRunning.

Definition IM (W A : Type) : Type := Sys W → result Stop A * Sys W.
#[export] Instance IM_ret {W} : MRet (IM W) := λ A a s, (Ok a, s).
#[export] Instance IM_bind {W} : MBind (IM W) := λ A B k m s,
  match m s with (Ok a, s') => k a s' | (Err e, s') => (Err e, s') end.
Definition stop {W A} (e : Stop) : IM W A := λ s, (Err e, s).
Definition bail {W A} (e : string) : IM W A := stop (Failed e).

Section Streamer.
Context `{AttrsCodec} `{AckCodec} {W : Type} `{IngestEnv W}.

Definition set_world (w : W) (s : Sys W) : Sys W := mkSys w (buf s) (faults s) (backoff_secs s).
Definition set_backoff (n : Z) : IM W () := λ s, (Ok (), mkSys (world s) (buf s) (faults s) n).
Definition get_backoff : IM W Z := λ s, (Ok (backoff_secs s), s).

(** An [.await] of this task: the others run first. *)
Definition await : IM W () := λ s,
  let '(alive, b, p, w) := others (world s) (buf s) (faults s) in
  (if alive then Ok () else Err Killed, mkSys w b p (backoff_secs s)).
Definition with_world {A} (f : W → A * W) : IM W A := λ s,
  let '(a, w) := f (world s) in (Ok a, set_world w s).
(** A call of the buffer; [?] on its result. *)
Definition call_buffer {A} (m : M A) : IM W A := λ s,
  let '(r, b, p) := m (faults s) (buf s) in
  (match r with Ok a => Ok a | Err e => Err (Failed e) end,
   mkSys (world s) b p (backoff_secs s)).
Definition with_buffer {A} (m : M A) : IM W A := await;; call_buffer m.
Definition now_epoch : IM W Z := λ s, (Ok (as_i64 (epoch_ms (world s))), s).

Definition proto_batch (cfg : BufferStreamer) (now : Z) (claimed : ClaimedBatch) : SampleBatch :=
  mkSampleBatch (cb_batch_id claimed) (agent_id cfg)
    (default (datasource_id cfg) (cb_origin claimed)) now (cb_samples claimed).

(** The loop of [send_and_ack]: read ACKs until one names the batch. *)
Fixpoint wait_ack (fuel : nat) (batch_id : string) : IM W AckStatus :=
  match fuel with
  | O => stop StillRunning
  | S fuel =>
      await;;
      r ← with_world message;
      match r with
      | Err e => bail e
      | Ok None => bail "server closed ACK stream unexpectedly"
      | Ok (Some ack) =>
          match resolve_ack ack batch_id with
          | Some status => mret status
          | None => wait_ack fuel batch_id
          end
      end
  end.

Definition settle (status : AckStatus) (batch_id : string) : IM W () :=
  match status with
  | AckOk | AckDuplicate => with_buffer (ack_ok batch_id)
  | AckRejected => with_buffer (ack_ok batch_id)
  | AckRetry => with_buffer (ack_retry batch_id)
  | AckUnspecified => with_buffer (ack_retry batch_id)
  end.

Definition send_and_ack (fuel : nat) (cfg : BufferStreamer) (claimed : ClaimedBatch) : IM W () :=
  now ← now_epoch;
  await;;
  sent ← with_world (push (proto_batch cfg now claimed));
  if negb sent then bail "failed to push batch onto stream" else
  status ← wait_ack fuel (cb_batch_id claimed);
  settle status (cb_batch_id claimed).

Fixpoint resend (fuel : nat) (cfg : BufferStreamer) (in_flight : list ClaimedBatch) : IM W () :=
  match in_flight with
  | [] => mret ()
  | batch :: in_flight => send_and_ack fuel cfg batch;; resend fuel cfg in_flight
  end.

Definition claim (cfg : BufferStreamer) : IM W (option ClaimedBatch) :=
  await;;
  u ← with_world ulid_new;
  now ← now_epoch;
  call_buffer (claim_batch u now (max_batch_size cfg)).

(** One round of the main loop. *)
Definition send_round (fuel : nat) (cfg : BufferStreamer) : IM W () :=
  batch ← claim cfg;
  match batch with
  | Some batch => send_and_ack fuel cfg batch;; set_backoff 1
  | None => await;; with_world (λ w, ((), sleep_ms 50 w))
  end.

Fixpoint send_loop (fuel : nat) (cfg : BufferStreamer) : IM W () :=
  match fuel with
  | O => stop StillRunning
  | S fuel => send_round fuel cfg;; send_loop fuel cfg
  end.

Definition open_stream (cfg : BufferStreamer) : IM W () :=
  if negb (from_shared_ok (endpoint cfg)) then bail "invalid ingest endpoint" else
  tls_ok ← with_world (λ w, (tls_config_ok w, w));
  if starts_with "https" (endpoint cfg) && negb tls_ok then bail "configuring TLS for ingest" else
  await;;
  connected ← with_world (connect (starts_with "https" (endpoint cfg)));
  if negb connected then bail "ingest connect failed" else
  if negb (metadata_ok (api_key cfg)) then stop (Panicked "api key not ascii") else
  await;;
  r ← with_world stream_samples;
  match r with Ok () => mret () | Err e => bail e end.

Definition run_one_attempt (fuel : nat) (cfg : BufferStreamer) : IM W () :=
  open_stream cfg;;
  in_flight ← with_buffer recover_in_flight;
  resend fuel cfg in_flight;;
  send_loop fuel cfg.

Definition max_backoff : Z := 60.

(** [attempts] bounds the reconnections, [fuel] each loop within one. *)
Fixpoint run (attempts fuel : nat) (cfg : BufferStreamer) : IM W () :=
  match attempts with
  | O => stop StillRunning
  | S attempts => λ s,
      match run_one_attempt fuel cfg s with
      | (Ok (), s') => (set_backoff 1;; run attempts fuel cfg) s'
      | (Err (Failed e), s') =>
          (current ← get_backoff;
           await;;
           with_world (λ w, ((), sleep_ms (current * 1000) w));;
           set_backoff (Z.min (current * 2) max_backoff);;
           run attempts fuel cfg) s'
      | (Err e, s') => (Err e, s')
      end
  end.
End Streamer.
