(* ===== verification/IngestProps.v ===== *)
(** * Exactly-once delivery of the ingest streamer

    [IngestOk] is what the streamer relies on: the ingest server stores a batch
    identifier at most once and its answers say whether it has, identifiers are
    fresh, and the other tasks only enqueue. Under it every run, crash and
    restart keeps the agent and the server [consistent]: what the server holds is
    what left the buffer as delivered plus the batches in flight it has stored. *)
From S2P Require Import Prelude Float Proto RustStr Buffer BufferLogic BufferInv BufferSpec BufferRefine BufferProps Ingest.
Local Open Scope Z_scope.

(** A batch as the server has it: its identifier, the datasource it is booked
    under and its samples. *)
Definition Batch : Type := string * (string * list Sample).
Definition batch_on_wire (sb : SampleBatch) : Batch := (sb_batch_id sb, (sb_datasource_id sb, sb_samples sb)).

(** The origin of a list of entries, and the lists that have one. *)
Definition origin_of (es : list Entry) : option string := mjoin (e_origin <$> head es).
Definition single_origin (es : list Entry) : Prop := ∀ e, e ∈ es → e_origin e = origin_of es.

(** The batch that is sent for the entries of a claim: it is booked under their
    origin, or [ds] when they have none. *)
Definition sent_of (ds : string) (p : string * list Entry) : Batch :=
  (p.1, (default ds (origin_of p.2), e_sample <$> p.2)).

(** What the environment's past amounts to. *)
Class IngestView (W : Type) := {
  stored_batches : W → list Batch;
  outstanding : W → list Batch;
  rejections : W → list string;
  drawn : W → list string;
  (* what the other tasks put into the buffer so far, with its origin, in order *)
  accepted : W → list (option string * Sample);
}.

(** The entries of a history of enqueues: numbered from one, as they were put in. *)
Definition log_entries (log : list (option string * Sample)) : list Entry :=
  imap (λ i x, mkEntry (Z.of_nat i + 1) x.1 x.2) log.

Lemma log_entries_app log o samples :
  log_entries (log ++ (pair o <$> samples)) =
  log_entries log ++ new_entries (Z.of_nat (length log) + 1) o samples.
Proof.
  unfold log_entries, new_entries. rewrite imap_app. f_equal. apply list_eq. intros i.
  rewrite list_lookup_imap, list_lookup_fmap, lookup_zip_with.
  destruct (samples !! i) as [s|] eqn:E; simpl.
  - rewrite lookup_seqZ_lt by (apply lookup_lt_Some in E; lia). simpl. do 2 f_equal. lia.
  - by destruct (seqZ _ _ !! i).
Qed.

Lemma log_entries_length log : length (log_entries log) = length log.
Proof. unfold log_entries. by rewrite length_imap. Qed.

Section Laws.
Context `{AttrsCodecOk} `{AckCodec} {W : Type} `{IngestEnv W} `{IngestView W}.

(** An enqueue, successful or not, under one of the [origins], and what it put
    into the table. *)
Definition enqueue_step (origins : option string → Prop) (log : list (option string * Sample))
    (b b' : BufferDb) : Prop :=
  ∃ now o samples p r, origins o ∧ op_ok (OEnqueue now o samples) ∧
    step b (OEnqueue now o samples) p = (r, b') ∧ log = accepted_of o samples r.

(** While time passes the server may store batches that were sent to it, each
    identifier once; the history grows by [log]. *)
Definition srv_step (pushed : list Batch) (log : list (option string * Sample)) (w w' : W) : Prop :=
  ∃ new, stored_batches w' = stored_batches w ++ new ∧
    (∀ x, x ∈ new → x ∈ outstanding w ++ pushed) ∧
    (NoDup (stored_batches w).*1 → NoDup (stored_batches w').*1) ∧
    (∀ x, x ∈ outstanding w' → x ∈ outstanding w ++ pushed) ∧
    (∀ u, u ∈ rejections w → u ∈ rejections w') ∧
    drawn w' = drawn w ∧ accepted w' = accepted w ++ log.

Definition has_stored (u : string) (w : W) : Prop := u ∈ (stored_batches w).*1.
Definition refused (u : string) (w : W) : Prop :=
  u ∉ (stored_batches w).*1 ∧ u ∉ (outstanding w).*1.

(** What a status tells about the batch it names. *)
Definition status_means (st : AckStatus) (u : string) (w : W) : Prop :=
  match st with
  | AckOk | AckDuplicate => has_stored u w
  | AckRejected => refused u w ∧ u ∈ rejections w
  | AckRetry | AckUnspecified => refused u w
  end.

(** [origins] are the connectors the other tasks enqueue under. *)
Class IngestOk := {
  origins : option string → Prop;
  others_ok : ∀ w b p alive b' p' w', others w b p = (alive, b', p', w') →
    ∃ log, logged (enqueue_step origins) log b b' ∧ srv_step [] log w w';
  connect_ok : ∀ tls w, srv_step [] [] w (connect tls w).2;
  stream_ok : ∀ w, srv_step [] [] w (stream_samples w).2;
  sleep_ok : ∀ n w, srv_step [] [] w (sleep_ms n w);
  push_ok : ∀ sb w, srv_step [batch_on_wire sb] [] w (push sb w).2;
  message_ok : ∀ w, srv_step [] [] w (message w).2;
  ack_ok_means : ∀ w ack w', message w = (Ok (Some ack), w') →
    status_means (default AckUnspecified (ack_status_try_from (ack_status ack))) (ack_batch_id ack) w';
  ulid_ok : ∀ w, let '(u, w') := ulid_new w in
    u ∉ drawn w ∧ drawn w' = u :: drawn w ∧
    stored_batches w' = stored_batches w ∧ outstanding w' = outstanding w ∧
    rejections w' = rejections w ∧ accepted w' = accepted w;
}.

(** ** Consistency of the agent and the server *)

Context `{!IngestOk} (ds : string).
#[local] Abbreviation sent_of := (sent_of ds).

(** [D]: the batches acknowledged as stored; [R]: the ones the server rejected. *)
Record consistent (w : W) (b : BufferDb) (s : Spec) (D R : list (string * list Entry)) : Prop := {
  c_reach : reachable b s;
  c_delivered : sp_delivered s ≡ₚ mjoin D.*2 ++ mjoin R.*2;
  c_rejected : ∀ u, u ∈ R.*1 → u ∈ rejections w;
  c_stored : stored_batches w ≡ₚ
    sent_of <$> (D ++ filter (λ p, p.1 ∈ (stored_batches w).*1) (sp_flying s));
  c_unique : NoDup (stored_batches w).*1;
  c_out : ∀ x, x ∈ outstanding w → x.1 ∈ D.*1 ∨ ∃ p, p ∈ sp_flying s ∧ x = sent_of p;
  c_drawn : ∀ u, u ∈ (sp_flying s).*1 ++ D.*1 ++ (outstanding w).*1 → u ∈ drawn w;
  c_disjoint : ∀ u, u ∈ D.*1 → u ∉ (sp_flying s).*1;
  c_single : ∀ p, p ∈ D → single_origin p.2;
  c_origins : ∀ e, e ∈ all_entries s → origins (e_origin e);
}.

Lemma sent_of_ids (l : list (string * list Entry)) : (sent_of <$> l).*1 = l.*1.
Proof. by rewrite <- list_fmap_compose. Qed.

Lemma flying_unique b s (p q : string * list Entry) :
  reachable b s → p ∈ sp_flying s → q ∈ sp_flying s → p.1 = q.1 → p = q.
Proof.
  intros (_ & _ & Hs)%reachable_inv Hp Hq E. pose proof (sw_unique Hs) as Hnd.
  revert Hp Hq. induction (sp_flying s) as [|r l IH]; [set_solver|].
  rewrite fmap_cons, NoDup_cons in Hnd. destruct Hnd as [Hr Hl].
  intros [->|Hp]%elem_of_cons [->|Hq]%elem_of_cons; [done| | |auto]; destruct Hr;
    [rewrite E|rewrite <- E]; by apply list_elem_of_fmap_2.
Qed.

Lemma flying_at b s u (es : list Entry) :
  reachable b s → (u, es) ∈ sp_flying s →
  filter (λ p, p.1 = u) (sp_flying s) = [(u, es)] ∧
  sp_flying s ≡ₚ (u, es) :: not_flying u s ∧ flying_of u s = es.
Proof.
  intros Hreach Hin. assert (filter (λ p, p.1 = u) (sp_flying s) = [(u, es)]) as E.
  { pose proof (reachable_inv b s Hreach) as (_ & _ & Hs). pose proof (sw_unique Hs) as Hnd.
    clear Hs Hreach. induction (sp_flying s) as [|r l IH]; [set_solver|].
    rewrite fmap_cons, NoDup_cons in Hnd. destruct Hnd as [Hr Hl].
    apply elem_of_cons in Hin as [<-|Hin].
    - rewrite filter_cons_True by done. rewrite filter_none; [done|].
      intros q Hq Eq. apply Hr. simpl. rewrite <- Eq. by apply list_elem_of_fmap_2.
    - rewrite filter_cons_False; [auto|]. intros Eq. apply Hr. rewrite Eq.
      by apply (list_elem_of_fmap_2 fst _ (u, es)). }
  split_and!; [done| |].
  - rewrite <- (filter_app_complement (λ p, p.1 = u) (sp_flying s)) at 1. by rewrite E.
  - unfold flying_of. rewrite E. simpl. by rewrite app_nil_r.
Qed.

Lemma delivered_stored w b s D R u : consistent w b s D R → u ∈ D.*1 → u ∈ (stored_batches w).*1.
Proof.
  intros Hc Hu. rewrite (fmap_Permutation fst _ _ (c_stored _ _ _ _ _ Hc)), sent_of_ids, fmap_app. set_solver.
Qed.

Lemma stored_known w b s D R u :
  consistent w b s D R → u ∈ (stored_batches w).*1 → u ∈ D.*1 ∨ u ∈ (sp_flying s).*1.
Proof.
  intros Hc Hu. rewrite (fmap_Permutation fst _ _ (c_stored _ _ _ _ _ Hc)), sent_of_ids, fmap_app in Hu.
  apply elem_of_app in Hu as [Hu|(p & -> & [_ Hp]%list_elem_of_filter)%list_elem_of_fmap]; [by left|right].
  by apply list_elem_of_fmap_2.
Qed.

(** The server's progress keeps consistency. *)
Lemma consistent_srv pushed log w w' b s D R :
  consistent w b s D R → srv_step pushed log w w' →
  (∀ x, x ∈ pushed → ∃ p, p ∈ sp_flying s ∧ x = sent_of p) →
  consistent w' b s D R.
Proof.
  intros Hc (new & Est & Hnew & Hnd & Hout & Hrej & Edr & _) Hp.
  specialize (Hnd (c_unique _ _ _ _ _ Hc)).
  assert (∀ x, x ∈ outstanding w ++ pushed → x.1 ∈ D.*1 ∨ ∃ p, p ∈ sp_flying s ∧ x = sent_of p) as Hop.
  { intros x [Hx|Hx]%elem_of_app; [by eapply c_out|right; by apply Hp]. }
  assert (∀ x, x ∈ new → ∃ p, p ∈ sp_flying s ∧ x = sent_of p) as Hfl.
  { intros x Hx. destruct (Hop x) as [HD|]; [by apply Hnew| |done]. exfalso.
    apply (delivered_stored _ _ _ _ _ _ Hc) in HD. rewrite Est, fmap_app in Hnd.
    apply NoDup_app in Hnd as (_ & Hd & _). eapply Hd; [exact HD|by apply list_elem_of_fmap_2]. }
  assert (new ≡ₚ sent_of <$> filter (λ p, p.1 ∈ new.*1) (sp_flying s)) as Hpn.
  { assert (NoDup (sp_flying s).*1) as Hfu
      by (pose proof (reachable_inv _ _ (c_reach _ _ _ _ _ Hc)) as (_ & _ & Hs); apply (sw_unique Hs)).
    apply NoDup_Permutation.
    - rewrite Est, fmap_app in Hnd. apply NoDup_app in Hnd as (_ & _ & Hn). by apply NoDup_fmap_1 in Hn.
    - apply (NoDup_fmap_1 fst). rewrite sent_of_ids. eapply sublist_NoDup; [exact Hfu|].
      apply fmap_sublist, sublist_filter.
    - intros x. split.
      + intros Hx. destruct (Hfl x Hx) as (p & Hp' & ->). apply list_elem_of_fmap_2.
        apply list_elem_of_filter. split; [|done].
        change (p.1) with ((sent_of p).1). by apply list_elem_of_fmap_2.
      + intros (p & -> & [Hin Hpf]%list_elem_of_filter)%list_elem_of_fmap.
        apply list_elem_of_fmap in Hin as (y & Ey & Hy). destruct (Hfl y Hy) as (q & Hq & ->).
        by rewrite (flying_unique b s p q) by (eauto using c_reach). }
  split; try apply Hc.
  - intros u Hu. by apply Hrej, (c_rejected _ _ _ _ _ Hc).
  - rewrite Est. rewrite (c_stored _ _ _ _ _ Hc) at 1. rewrite Hpn at 1. rewrite !fmap_app, <- (assoc_L (++)).
    apply Permutation_app; [done|]. rewrite <- fmap_app. apply fmap_Permutation.
    rewrite Est in Hnd. rewrite fmap_app in Hnd. apply NoDup_app in Hnd as (_ & Hd & _).
    rewrite <- (filter_app_complement (λ p, p.1 ∈ (stored_batches w).*1)
      (filter (λ p, p.1 ∈ (stored_batches w).*1 ++ new.*1) (sp_flying s))).
    rewrite !filter_filter. apply Permutation_app; apply reflexive_eq, filter_iff_on; intros q Hq;
      rewrite elem_of_app; naive_solver.
  - done.
  - intros x Hx. by apply Hop, Hout.
  - intros u Hu. rewrite Edr. apply (c_drawn _ _ _ _ _ Hc). rewrite !elem_of_app in *.
    destruct Hu as [|[|(x & -> & Hx)%list_elem_of_fmap]]; [tauto|tauto|].
    apply Hout in Hx. apply elem_of_app in Hx as [Hx|Hx].
    + right; right. by apply list_elem_of_fmap_2.
    + left. destruct (Hp _ Hx) as (p & Hp' & ->). by apply (list_elem_of_fmap_2 fst _ p).
Qed.

(** ** The buffer's operations keep consistency *)

Lemma consistent_spec w b b' s s' D R :
  consistent w b s D R → reachable b' s' → sp_flying s' = sp_flying s →
  sp_delivered s' = sp_delivered s → (∀ e, e ∈ all_entries s' → origins (e_origin e)) →
  consistent w b' s' D R.
Proof. intros [] Hr Ef Ed Ho. split; rewrite ?Ef, ?Ed; done. Qed.

Lemma consistent_same w b b' s D R :
  consistent w b s D R → reachable b' s → consistent w b' s D R.
Proof. intros Hc Hr. eapply consistent_spec; try done. apply Hc. Qed.

(** The origins of the entries after an operation. *)
Lemma step_origins w b s D R max op e :
  consistent w b s D R → (∀ now o samples, op = OEnqueue now o samples → origins o) →
  e ∈ all_entries (spec_step max op s) → origins (e_origin e).
Proof.
  intros Hc Hop. destruct (reachable_inv _ _ (c_reach _ _ _ _ _ Hc)) as (_ & _ & Hs).
  rewrite spec_step_perm by done. intros [He|He]%elem_of_app; [by eapply c_origins|].
  destruct op as [now o samples| | | |]; simpl in He; [|set_solver..].
  apply new_entries_origin in He as ->. by eapply Hop.
Qed.

(** The queue holds what the history [log] says: every entry it ever had is the
    one that was put in, under its number and its origin. With caps of at least
    [cap] none was dropped before more than [cap] had been put in. *)
Definition holds_log (cap : Z) (log : list (option string * Sample)) (b : BufferDb) (s : Spec) : Prop :=
  all_entries s ≡ₚ log_entries log ∧ cap ≤ max_rows b ∧
  (sp_dropped s = [] ∨ cap < Z.of_nat (length log)).

Lemma holds_log_length cap log b s : holds_log cap log b s → length (all_entries s) = length log.
Proof. intros [Hl _]. by rewrite (Permutation_length Hl), log_entries_length. Qed.

Lemma holds_log_next cap log b s : reachable b s → holds_log cap log b s → sp_next s = Z.of_nat (length log) + 1.
Proof.
  intros (_ & _ & Hs)%reachable_inv Hl%holds_log_length. pose proof (Permutation_length (sw_ids Hs)) as E.
  rewrite length_fmap, Hl, length_seqZ in E. pose proof (sw_next Hs). lia.
Qed.

(** An operation other than an enqueue leaves the history. *)
Lemma holds_log_step cap log b s op p out b' max :
  reachable b s → op_ok op → step b op p = (Ok out, b') → cap ≤ max_after op b → added op s = [] →
  holds_log cap log b s → holds_log cap log b' (spec_step max op s).
Proof.
  intros Hreach Hok Hstep Hcap Ha (Hl & _ & Hd). pose proof (reachable_inv _ _ Hreach) as (_ & _ & Hs).
  unfold holds_log. rewrite spec_step_perm, spec_step_dropped, Ha, app_nil_r, (step_max_rows b s op p _ b' Hreach Hok Hstep); done.
Qed.

Lemma holds_log_failed cap log b s op p e b' :
  reachable b s → op_ok op → step b op p = (Err e, b') → holds_log cap log b s → holds_log cap log b' s.
Proof.
  intros Hreach Hok Hstep Hl. unfold holds_log. by rewrite (step_max_rows b s op p _ b' Hreach Hok Hstep).
Qed.

Lemma holds_log_enqueue cap log b s now o samples p out b' :
  let op := OEnqueue now o samples in
  reachable b s → op_ok op → step b op p = (Ok out, b') → holds_log cap log b s →
  holds_log cap (log ++ (pair o <$> samples)) b' (spec_step (max_rows b) op s).
Proof.
  intros op Hreach Hok Hstep Hl. pose proof (reachable_inv _ _ Hreach) as (_ & _ & Hs).
  pose proof (holds_log_length _ _ _ _ Hl) as Hlen. pose proof (sp_total_le s) as Ht.
  unfold holds_log. rewrite (step_max_rows b s op p _ b' Hreach Hok Hstep). split_and!.
  - rewrite spec_step_perm by done. cbn [op added].
    rewrite log_entries_app, (holds_log_next cap log b s) by done. by destruct Hl as [<- _].
  - apply Hl.
  - rewrite length_app, length_fmap. destruct Hl as (_ & Hcap & Hd). simpl. case_decide as Hn; [naive_solver lia|].
    destruct (spec_enqueue_dropped (max_rows b) o samples s) as [->|]; [|right; lia]. destruct Hd; [by left|right; lia].
Qed.

Lemma consistent_enqueues cap w b b' s D R log0 log :
  consistent w b s D R → holds_log cap log0 b s → logged (enqueue_step origins) log b b' →
  ∃ s', consistent w b' s' D R ∧ holds_log cap (log0 ++ log) b' s' ∧ sp_flying s' = sp_flying s.
Proof.
  intros Hc Hl Hs. revert s log0 Hc Hl.
  induction Hs as [b|l1 l2 b b1 b2 (now & o & samples & p & r & Ho & Hok & Hstep & ->) _ IH];
    intros s log0 Hc Hl; [rewrite app_nil_r; eauto|].
  pose proof (c_reach _ _ _ _ _ Hc) as Hreach. destruct r as [out|e]; cbn [accepted_of].
  - destruct (IH (spec_step (max_rows b) (OEnqueue now o samples) s) (log0 ++ (pair o <$> samples)))
      as (s' & Hc' & Hl' & Hf).
    { eapply consistent_spec; [done|by eapply reach_ok| | |]; [simpl; by case_decide..|].
      intros e. eapply step_origins; [done|]. by intros ? ? ? [= <- <- <-]. }
    { by eapply holds_log_enqueue. }
    exists s'. rewrite (assoc_L (++)). split_and!; [done|done|]. rewrite Hf. simpl. by case_decide.
  - apply (IH s log0); [|by eapply holds_log_failed]. eapply consistent_same; [done|by eapply reach_err].
Qed.

(** A batch leaves the flight: what stays is still consistent. *)
Lemma consistent_settled w b b' s s' D R u es D' R' :
  consistent w b s D R → (u, es) ∈ sp_flying s → reachable b' s' →
  sp_flying s' = not_flying u s → sp_delivered s' ≡ₚ mjoin D'.*2 ++ mjoin R'.*2 →
  (∀ v, v ∈ R'.*1 → v ∈ rejections w) →
  (D' = D ++ [(u, es)] ∧ has_stored u w ∨ D' = D ∧ refused u w) →
  (∀ e, e ∈ all_entries s' → origins (e_origin e)) →
  consistent w b' s' D' R'.
Proof.
  intros Hc Hin Hreach Ef Ed HR HD Horig. pose proof (c_reach _ _ _ _ _ Hc) as Hr0.
  destruct (flying_at b s u es Hr0 Hin) as (_ & Hsp & _).
  assert (∀ p, p ∈ sp_flying s → p.1 ≠ u → p ∈ not_flying u s) as Hkeep
    by (intros p Hp Hn; by apply list_elem_of_filter).
  assert (∀ v, v ∈ (not_flying u s).*1 → v ∈ (sp_flying s).*1 ∧ v ≠ u) as Hnot.
  { intros v (p & -> & [Hn Hp]%list_elem_of_filter)%list_elem_of_fmap. split; [|done].
    by apply list_elem_of_fmap_2. }
  assert (u ∈ (sp_flying s).*1) as Hu by (by apply (list_elem_of_fmap_2 fst _ (u, es))).
  split; [done|done|done| |apply Hc| | | | |done].
  - rewrite (c_stored _ _ _ _ _ Hc) at 1. apply fmap_Permutation. rewrite Ef, Hsp.
    destruct HD as [[-> Hst]|[-> [Hst _]]].
    + rewrite filter_cons_True by done. by rewrite <- (assoc_L (++)).
    + by rewrite filter_cons_False.
  - rewrite Ef. intros x Hx. destruct (c_out _ _ _ _ _ Hc x Hx) as [|(p & Hp & ->)].
    { destruct HD as [[-> _]|[-> _]]; [|by left]. rewrite fmap_app. set_solver. }
    destruct (decide (p.1 = u)) as [<-|Hn]; [|right; eauto].
    destruct HD as [[-> _]|[_ [_ Hout]]].
    + left. rewrite fmap_app. set_solver.
    + destruct Hout. apply (list_elem_of_fmap_2 fst _ (sent_of p)). done.
  - intros v Hv. apply (c_drawn _ _ _ _ _ Hc). rewrite Ef, !elem_of_app in *.
    destruct Hv as [Hv%Hnot|[Hv|]]; [tauto| |tauto].
    destruct HD as [[-> _]|[-> _]]; [|tauto]. rewrite fmap_app, elem_of_app in Hv.
    destruct Hv as [|Hv]; [tauto|]. simpl in Hv. apply list_elem_of_singleton in Hv as ->. tauto.
  - rewrite Ef. intros v Hv Hv'. apply Hnot in Hv' as [Hvf Hvu].
    destruct HD as [[-> _]|[-> _]]; [|by eapply c_disjoint].
    rewrite fmap_app, elem_of_app in Hv. destruct Hv as [|Hv]; [by eapply c_disjoint|].
    simpl in Hv. by apply list_elem_of_singleton in Hv.
  - intros p Hp. destruct HD as [[-> _]|[-> _]]; [|by eapply c_single].
    apply elem_of_app in Hp as [Hp| ->%list_elem_of_singleton]; [by eapply c_single|].
    intros e. by apply (flying_single b s u es e).
Qed.

Lemma consistent_claimed w b b' s u n D R :
  consistent w b s D R → reachable b' (spec_claim u n s) → u ∈ drawn w →
  u ∉ (sp_flying s).*1 ++ D.*1 ++ (outstanding w).*1 ++ (stored_batches w).*1 →
  consistent w b' (spec_claim u n s) D R.
Proof.
  intros Hc Hr Hd Hu. rewrite !elem_of_app in Hu. simpl. unfold spec_claim in *.
  destruct (claimed_entries _ _) as [|e es] eqn:Ees; [by eapply consistent_same|].
  assert (filter (λ p, p.1 ∈ (stored_batches w).*1) [(u, e :: es)] = []) as Enew
    by (rewrite filter_cons_False; naive_solver).
  split; simpl; try apply Hc; [done| | | | |].
  - rewrite filter_app, Enew, app_nil_r. apply Hc.
  - intros x Hx. destruct (c_out _ _ _ _ _ Hc x Hx) as [|(p & Hp & ->)]; [by left|].
    right. exists p. set_solver.
  - intros v. rewrite fmap_app, !elem_of_app. intros [[Hv|Hv]|Hv].
    + apply (c_drawn _ _ _ _ _ Hc). set_solver.
    + simpl in Hv. by apply list_elem_of_singleton in Hv as ->.
    + apply (c_drawn _ _ _ _ _ Hc). set_solver.
  - intros v Hv. rewrite fmap_app, elem_of_app. intros [|Hv']; [by eapply c_disjoint|].
    simpl in Hv'. apply list_elem_of_singleton in Hv' as ->. tauto.
  - intros e' He'. apply (step_origins w b s D R 0 (OClaim u 0 n) e' Hc); [done|].
    simpl. unfold spec_claim. by rewrite Ees.
Qed.
End Laws.
