(* ===== verification/IngestOnce.v ===== *)
(** * Exactly once, whatever fails

    Rules for the streamer's computations over [consistent], and the theorem:
    through any number of runs, errors, kills and restarts every accepted sample
    is stored by the server once, or still waiting in the buffer, or dropped by
    the cap, or was rejected by the server; and the server booked it under the
    connector it was enqueued for. *)
From S2P Require Import Prelude Float Proto RustStr Buffer BufferLogic BufferInv BufferSpec BufferRefine BufferProps Ingest IngestProps.
Local Open Scope Z_scope.

Section Once.
Context `{AttrsCodecOk} `{AckCodec} {W : Type} `{IngestEnv W} `{IngestView W}.
Context `{!IngestOk} (cap : Z) (cfg : BufferStreamer).
#[local] Abbreviation consistent := (consistent (datasource_id cfg)).
#[local] Abbreviation sent_of := (sent_of (datasource_id cfg)).
Implicit Types (l : list ClaimedBatch) (F : W → Prop).

(** The state is consistent, the batches [l] are in flight, the environment
    satisfies [F]. *)
Definition Holds l F (sys : Sys W) : Prop := ∃ s D R,
  (consistent (world sys) (buf sys) s D R ∧ holds_log cap (accepted (world sys)) (buf sys) s) ∧ NoDup (cb_batch_id <$> l) ∧
  Forall (λ cb, cb ∈ batch_of <$> sp_flying s) l ∧ F (world sys).
Definition anyw : W → Prop := λ _, True.
Definition Consistent : Sys W → Prop := Holds [] anyw.

Definition ends {A} (P : Sys W → Prop) (m : IM W A) (Q : A → Sys W → Prop) : Prop :=
  ∀ sys, P sys → match m sys with (Ok a, sys') => Q a sys' | (Err _, sys') => Consistent sys' end.

Definition stable F : Prop := ∀ log w w', srv_step [] log w w' → F w → F w'.

Lemma stable_any : stable anyw.
Proof. done. Qed.

Lemma stable_means st u : stable (status_means st u).
Proof.
  intros log w w' (new & E & Hnew & _ & Hout & Hrej & _). unfold status_means, has_stored, refused. rewrite E, fmap_app.
  assert (u ∉ (outstanding w).*1 → u ∉ new.*1 ∧ u ∉ (outstanding w').*1) as Hn.
  { intros Hu. split; intros (x & -> & Hx)%list_elem_of_fmap; apply Hu;
      [apply Hnew in Hx|apply Hout in Hx]; rewrite app_nil_r in Hx; by apply list_elem_of_fmap_2. }
  destruct st; rewrite elem_of_app; naive_solver.
Qed.

Lemma Consistent_intro sys s D R :
  consistent (world sys) (buf sys) s D R → holds_log cap (accepted (world sys)) (buf sys) s → Consistent sys.
Proof. intros Hc Hg. exists s, D, R. split_and!; [done|done|constructor|constructor|done]. Qed.

Lemma Holds_weaken l F sys : Holds l F sys → Consistent sys.
Proof. intros (s & D & R & [Hc Hg] & _). by eapply Consistent_intro. Qed.

Lemma once_ret {A} P (a : A) Q : (∀ sys, P sys → Q a sys) → ends P (mret a) Q.
Proof. intros HQ sys. apply HQ. Qed.
Lemma once_stop {A} l F e (Q : A → Sys W → Prop) : ends (Holds l F) (stop e) Q.
Proof. intros sys. apply Holds_weaken. Qed.
Lemma once_bind {A B} P (m : IM W A) (k : A → IM W B) R Q :
  ends P m R → (∀ a, ends (R a) (k a) Q) → ends P (m ≫= k) Q.
Proof.
  intros Hm Hk sys HP. specialize (Hm sys HP). unfold mbind, IM_bind.
  destruct (m sys) as [[a|e] sys']; [by apply Hk|done].
Qed.
Lemma once_weaken {A} P (m : IM W A) (R Q : A → Sys W → Prop) :
  ends P m R → (∀ a sys, R a sys → Q a sys) → ends P m Q.
Proof. intros Hm HR sys HP. specialize (Hm sys HP). destruct (m sys) as [[a|e] sys']; eauto. Qed.

Lemma once_await l F : stable F → ends (Holds l F) await (λ _, Holds l F).
Proof.
  intros HF [w b p n] (s & D & R & [Hc Hg] & Hnd & Hl & Hw). unfold await. simpl in *.
  destruct (others w b p) as [[[alive b'] p'] w'] eqn:E.
  destruct (others_ok _ _ _ _ _ _ _ E) as (log & Hb & Hs).
  destruct (consistent_enqueues _ _ _ _ _ _ _ _ _ _ Hc Hg Hb) as (s' & Hc' & Hg' & Ef).
  apply (consistent_srv _ [] log w w') in Hc'; [|done|set_solver].
  assert (Holds l F (mkSys w' b' p' n)) as HP.
  { exists s', D, R. rewrite Ef. pose proof Hs as (? & ? & ? & ? & ? & ? & ? & Ea).
    cbn [world]. rewrite Ea. split_and!; [done..|by eapply HF]. }
  destruct alive; [done|by eapply Holds_weaken].
Qed.

Lemma srv_step_same pushed w w' : srv_step pushed [] w w' → accepted w' = accepted w.
Proof. intros (? & ? & ? & ? & ? & ? & ? & ->). by rewrite app_nil_r. Qed.

Lemma once_world {A} l F (f : W → A * W) G :
  (∀ w, srv_step [] [] w (f w).2) → (∀ w, F w → G (f w).1 (f w).2) →
  ends (Holds l F) (with_world f) (λ a, Holds l (G a)).
Proof.
  intros Hf HG [w b p n] (s & D & R & [Hc Hg] & Hnd & Hl & Hw). unfold with_world. simpl in *.
  specialize (Hf w). specialize (HG w Hw). destruct (f w) as [a w']. exists s, D, R. simpl in *.
  split_and!; [|by rewrite (srv_step_same _ _ _ Hf)|done..]. eapply consistent_srv; [done..|set_solver].
Qed.

Lemma once_now l F : ends (Holds l F) now_epoch (λ _, Holds l F).
Proof. intros sys HP. exact HP. Qed.

Lemma once_push l now cb :
  cb ∈ l → ends (Holds l anyw) (with_world (push (proto_batch cfg now cb))) (λ _, Holds l anyw).
Proof.
  intros Hin [w b p n] (s & D & R & [Hc Hg] & Hnd & Hl & Hw). unfold with_world. simpl in *.
  pose proof (push_ok (proto_batch cfg now cb) w) as Hp.
  destruct (push _ w) as [sent w']. exists s, D, R. simpl in *.
  split_and!; [|by rewrite (srv_step_same _ _ _ Hp)|done..].
  eapply consistent_srv; [done..|]. intros x ->%list_elem_of_singleton.
  rewrite Forall_forall in Hl. apply Hl in Hin as (q & -> & Hq)%list_elem_of_fmap.
  by exists q.
Qed.

Lemma srv_step_refl w : srv_step [] [] w w.
Proof. exists []. rewrite !app_nil_r. set_solver. Qed.

(** Waiting for the answer to [u] learns what the server did with [u]. *)
Lemma once_wait_ack l fuel u :
  ends (Holds l anyw) (wait_ack fuel u) (λ st, Holds l (status_means st u)).
Proof.
  induction fuel as [|fuel IH]; cbn [wait_ack]; [apply once_stop|].
  eapply once_bind; [apply once_await, stable_any|]. intros [].
  eapply once_bind.
  { apply (once_world _ _ _ (λ r w, ∀ ack, r = Ok (Some ack) →
      status_means (default AckUnspecified (ack_status_try_from (ack_status ack))) (ack_batch_id ack) w)).
    - apply message_ok.
    - intros w _ ack E. apply (ack_ok_means w). by rewrite <- E, <- surjective_pairing. }
  intros [[ack|]|e]; [|apply once_stop..]. unfold resolve_ack. case_decide as Hu.
  - intros sys HP. apply IH. destruct HP as (s & D & R & HP). exists s, D, R. naive_solver.
  - apply once_ret. intros sys (s & D & R & [Hc Hg] & Hnd & Hl & HF). exists s, D, R.
    subst u. split_and!; [done..|by apply HF].
Qed.

(** ** The calls of the buffer *)

Lemma once_recover :
  ends Consistent (with_buffer recover_in_flight) (λ l, Holds l anyw).
Proof.
  eapply once_bind; [apply once_await, stable_any|]. intros [] [w b p n] (s & D & R & [Hc Hg] & _).
  unfold call_buffer. simpl in *. pose proof (recover_in_flight_spec b p) as Hs.
  pose proof (reachable_inv _ _ (c_reach _ _ _ _ _ _ Hc)) as (_ & Hr & Hwf).
  destruct (recover_in_flight p b) as [[[l|e] b'] p'].
  - destruct Hs as [-> ->]. exists s, D, R. pose proof (recovered_flying _ _ Hr) as Hp.
    split_and!; [done|done| | |done].
    + rewrite (fmap_Permutation cb_batch_id _ _ Hp), <- list_fmap_compose. apply (sw_unique Hwf).
    + apply Forall_forall. intros cb. by rewrite Hp.
  - subst b'. by eapply Consistent_intro.
Qed.

Lemma claim_step u now n p b r b' p' :
  claim_batch u now n p b = (r, b', p') → step b (OClaim u now n) p = (r, b').
Proof. intros E. unfold step. simpl. by rewrite E. Qed.

Lemma once_claim :
  ends Consistent (claim cfg)
    (λ o, Holds (match o with Some cb => [cb] | None => [] end) anyw).
Proof.
  eapply once_bind; [apply once_await, stable_any|]. intros [] [w b p n] (s & D & R & [Hc Hg] & _).
  unfold mbind, IM_bind, with_world, call_buffer, now_epoch. simpl in *.
  pose proof (ulid_ok w) as Hu. destruct (ulid_new w) as [u w']. simpl.
  destruct Hu as (Hfresh & Edr & Est & Eout & Erej & Eacc).
  destruct (claim_batch _ _ _ p b) as [[r b'] p'] eqn:E. apply claim_step in E.
  pose proof (c_reach _ _ _ _ _ _ Hc) as Hreach.
  assert (consistent w' b s D R) as Hc'.
  { split; rewrite ?Est, ?Eout, ?Edr, ?Erej; try apply Hc. intros v Hv. right. by apply (c_drawn _ _ _ _ _ _ Hc). }
  destruct r as [o|e].
  - destruct (step_sim_reach b s (OClaim u _ _) p _ b' Hreach I E) as [Hr Ho].
    assert (reachable b' (spec_claim u (max_batch_size cfg) s)) as Hreach'
      by (by eapply (reach_ok b s (OClaim u _ _))).
    assert (u ∉ (sp_flying s).*1 ++ D.*1 ++ (outstanding w).*1 ++ (stored_batches w).*1) as Hnu.
    { intros Hin. rewrite (assoc_L (++) D.*1), (assoc_L (++)), elem_of_app in Hin. apply Hfresh.
      destruct Hin as [Hin|Hin]; [by apply (c_drawn _ _ _ _ _ _ Hc)|].
      apply (c_drawn _ _ _ _ _ _ Hc). rewrite !elem_of_app.
      apply (stored_known _ _ _ _ _ _ _ Hc) in Hin. tauto. }
    exists (spec_claim u (max_batch_size cfg) s), D, R. split_and!; [| | | |done].
    + apply (consistent_claimed _ w' b); [done|done|rewrite Edr; set_solver|by rewrite Est, Eout].
    + cbn [world buf]. rewrite Eacc. eapply (holds_log_step cap _ b s (OClaim u _ _) p _ b' 0); [done|exact I|exact E|apply Hg|done..].
    + destruct o; [apply NoDup_singleton|constructor].
    + rewrite Ho. cbn [spec_output]. unfold spec_claim. destruct (claimed_entries _ _) as [|e es]; [constructor|].
      constructor; [|constructor]. cbn [sp_flying].
      apply (list_elem_of_fmap_2 batch_of _ (u, e :: es)), elem_of_app. right. by apply list_elem_of_singleton.
  - eapply Consistent_intro; [eapply consistent_same; [done|]|
      cbn [world buf]; rewrite Eacc; by apply (holds_log_failed cap _ b s (OClaim u _ _) p e b' Hreach I E)].
    by apply (reach_err b s (OClaim u (as_i64 (epoch_ms w')) (max_batch_size cfg)) p e).
Qed.

(** The operation and the abstract effect that settle a batch. *)
Definition settle_op (st : AckStatus) (u : string) : Op :=
  match st with AckRetry | AckUnspecified => OAckRetry u | _ => OAckOk u end.
Definition settle_call (st : AckStatus) (u : string) : M () :=
  match st with AckRetry | AckUnspecified => ack_retry u | _ => ack_ok u end.

Lemma settle_step st u p b r b' p' :
  settle_call st u p b = (r, b', p') →
  ∃ r', step b (settle_op st u) p = (r', b') ∧ is_ok r' = is_ok r.
Proof.
  intros E. destruct st; unfold settle_call in E; unfold step; simpl; unfold mbind, M_bind; rewrite E;
    destruct r; simpl; eauto.
Qed.

Lemma consistent_settle_op w b b' s D R st u es :
  consistent w b s D R → (u, es) ∈ sp_flying s → status_means st u w →
  reachable b' (spec_step 0 (settle_op st u) s) →
  ∃ D' R', consistent w b' (spec_step 0 (settle_op st u) s) D' R'.
Proof.
  intros Hc Hin Hm Hreach. pose proof (c_reach _ _ _ _ _ _ Hc) as Hr0.
  destruct (flying_at b s u es Hr0 Hin) as (_ & _ & Efl).
  assert (∀ e, e ∈ all_entries (spec_step 0 (settle_op st u) s) → origins (e_origin e)) as Horig.
  { intros e. apply (step_origins _ w b s D R 0 (settle_op st u) e Hc). by destruct st. }
  destruct st; simpl in *.
  1,2: exists (D ++ [(u, es)]), R.
  3: exists D, (R ++ [(u, es)]).
  4,5: exists D, R.
  all: eapply consistent_settled; [done|done|done|done| | |naive_solver|exact Horig]; simpl.
  all: try (rewrite ?Efl, (c_delivered _ _ _ _ _ _ Hc), ?fmap_app, ?join_app; simpl; solve_perm).
  all: intros v; rewrite ?fmap_app, ?elem_of_app; simpl; rewrite ?list_elem_of_singleton;
    pose proof (c_rejected _ _ _ _ _ _ Hc v); naive_solver.
Qed.

Lemma once_settle l cb st :
  ends (Holds (cb :: l) (status_means st (cb_batch_id cb))) (settle st (cb_batch_id cb)) (λ _, Holds l anyw).
Proof.
  assert (settle st (cb_batch_id cb) = with_buffer (settle_call st (cb_batch_id cb))) as -> by (by destruct st).
  eapply once_bind; [apply once_await, stable_means|].
  intros [] [w b p n] (s & D & R & [Hc Hg] & Hnd & Hl & Hm). unfold call_buffer. simpl in *.
  apply Forall_cons in Hl as [Hcb Hl]. apply NoDup_cons in Hnd as [Hn Hnd].
  apply list_elem_of_fmap in Hcb as ([u es] & -> & Hin). simpl in *.
  destruct (settle_call st u p b) as [[r b'] p'] eqn:E.
  apply settle_step in E as (r' & Hstep & Hr'). pose proof (c_reach _ _ _ _ _ _ Hc) as Hreach.
  destruct r as [[]|e], r' as [out|e']; try done.
  - assert (reachable b' (spec_step 0 (settle_op st u) s)) as Hreach'.
    { assert (spec_step (max_rows b) (settle_op st u) s = spec_step 0 (settle_op st u) s) as <-
        by (by destruct st).
      eapply reach_ok; [done|by destruct st|done]. }
    destruct (consistent_settle_op w b b' s D R st u es) as (D' & R' & Hc'); [done..|].
    exists (spec_step 0 (settle_op st u) s), D', R'.
    split_and!; [done| |done| |done].
    { eapply (holds_log_step cap _ b s (settle_op st u)); [done|by destruct st|done|destruct st; apply Hg|by destruct st|done]. }
    rewrite Forall_forall in Hl |- *. intros cb Hcb. pose proof (Hl cb Hcb) as ([v es'] & -> & Hv)%list_elem_of_fmap.
    apply list_elem_of_fmap_2. assert (v ≠ u) by (intros ->; apply Hn; by apply (list_elem_of_fmap_2 cb_batch_id _ _ Hcb)).
    destruct st; apply list_elem_of_filter; done.
  - eapply Consistent_intro; [eapply consistent_same; [done|]|].
    + eapply reach_err; [done| |done]. by destruct st.
    + eapply holds_log_failed; [done| |done|done]. by destruct st.
Qed.

(** ** The loops *)

Lemma once_send_and_ack fuel cb l :
  ends (Holds (cb :: l) anyw) (send_and_ack fuel cfg cb) (λ _, Holds l anyw).
Proof.
  eapply once_bind; [apply once_now|]. intros now.
  eapply once_bind; [apply once_await, stable_any|]. intros [].
  eapply once_bind; [apply once_push; set_solver|]. intros []; simpl; [|apply once_stop].
  eapply once_bind; [apply once_wait_ack|]. intros st. apply once_settle.
Qed.

Lemma once_resend fuel l : ends (Holds l anyw) (resend fuel cfg l) (λ _, Consistent).
Proof.
  induction l as [|cb l IH]; cbn [resend]; [by apply once_ret|].
  eapply once_bind; [apply once_send_and_ack|]. intros []. apply IH.
Qed.

Lemma once_set_backoff n : ends Consistent (set_backoff n) (λ _, Consistent).
Proof. intros sys HP. exact HP. Qed.

Lemma once_get_backoff : ends Consistent get_backoff (λ _, Consistent).
Proof. intros sys HP. exact HP. Qed.

Lemma once_sleep n : ends Consistent (with_world (λ w, ((), sleep_ms n w))) (λ _, Consistent).
Proof. apply (once_world _ _ _ (λ _ w, True)); [apply sleep_ok|done]. Qed.

Lemma once_send_loop fuel : ends Consistent (send_loop fuel cfg) (λ _, Consistent).
Proof.
  induction fuel as [|fuel IH]; cbn [send_loop]; [apply once_stop|].
  apply (once_bind _ _ _ (λ _, Consistent)); [|intros []; apply IH]. unfold send_round.
  eapply once_bind; [apply once_claim|]. intros [cb|].
  - eapply once_bind; [apply once_send_and_ack|]. intros []. apply once_set_backoff.
  - eapply once_bind; [apply once_await, stable_any|]. intros []. apply once_sleep.
Qed.

Lemma once_open_stream : ends Consistent (open_stream cfg) (λ _, Consistent).
Proof.
  unfold open_stream. destruct (from_shared_ok (endpoint cfg)); simpl; [|apply once_stop].
  eapply once_bind. { apply (once_world _ _ _ (λ _ w, True)); [apply srv_step_refl|done]. }
  intros tls. destruct (_ && _); [apply once_stop|].
  eapply once_bind; [apply once_await, stable_any|]. intros [].
  eapply once_bind. { apply (once_world _ _ _ (λ _ w, True)); [apply connect_ok|done]. }
  intros []; simpl; [|apply once_stop]. destruct (metadata_ok _); simpl; [|apply once_stop].
  eapply once_bind; [apply once_await, stable_any|]. intros [].
  eapply once_bind. { apply (once_world _ _ _ (λ _ w, True)); [apply stream_ok|done]. }
  intros [[]|e]; [by apply once_ret|apply once_stop].
Qed.

Lemma once_attempt fuel : ends Consistent (run_one_attempt fuel cfg) (λ _, Consistent).
Proof.
  eapply once_bind; [apply once_open_stream|]. intros [].
  eapply once_bind; [apply once_recover|]. intros l.
  eapply once_bind; [apply once_resend|]. intros []. apply once_send_loop.
Qed.

Lemma once_run attempts fuel : ends Consistent (run attempts fuel cfg) (λ _, Consistent).
Proof.
  induction attempts as [|attempts IH]; cbn [run]; [apply once_stop|].
  intros sys HP. pose proof (once_attempt fuel sys HP) as Ha.
  destruct (run_one_attempt fuel cfg sys) as [[[]|[e|e| |]] sys']; try done.
  - revert sys' Ha. change (ends Consistent (set_backoff 1;; run attempts fuel cfg) (λ _, Consistent)).
    eapply once_bind; [apply once_set_backoff|]. intros []. apply IH.
  - revert sys' Ha.
    match goal with |- ∀ s, _ → match ?m s with _ => _ end =>
      change (ends Consistent m (λ _, Consistent)) end.
    eapply once_bind; [apply once_get_backoff|]. intros n.
    eapply once_bind; [apply once_await, stable_any|]. intros [].
    eapply once_bind; [apply once_sleep|]. intros [].
    eapply once_bind; [apply once_set_backoff|]. intros []. apply IH.
Qed.

(** The agent's life: the streamer runs, for any while, and the process restarts,
    with a buffer of at least [cap] rows. *)
Inductive life : Sys W → Sys W → Prop :=
| life_run attempts fuel sys r sys' : run attempts fuel cfg sys = (r, sys') → life sys sys'
| life_restart sys max : is_u64 max → cap ≤ max →
    life sys (mkSys (world sys) (BufferDb_open (conn (buf sys)) max) (faults sys) 1).

Lemma life_consistent sys sys' : Consistent sys → life sys sys' → Consistent sys'.
Proof.
  intros HP Hl. destruct Hl as [attempts fuel s r s' E|s max Hmax Hcap].
  - pose proof (once_run attempts fuel s HP) as He. rewrite E in He. by destruct r.
  - destruct HP as (sp & D & R & [Hc Hg] & _). eapply (Consistent_intro _ sp); [eapply consistent_same; [done|]|].
    2: by eapply (holds_log_step cap _ (buf s) sp (ORestart max) [] None _ 0 (c_reach _ _ _ _ _ _ Hc)).
    by apply (reach_ok _ sp (ORestart max) [] None _ (c_reach _ _ _ _ _ _ Hc) Hmax).
Qed.

(** The world before the agent's first start. *)
Definition untouched (w : W) : Prop := stored_batches w = [] ∧ outstanding w = [] ∧ accepted w = [].

Lemma Consistent_start max w p n :
  is_u64 max → cap ≤ max → untouched w → Consistent (mkSys w (BufferDb_open empty_db max) p n).
Proof.
  intros Hmax Hcap (Es & Eo & Ea).
  eapply (Consistent_intro _ spec_init [] []); [|unfold holds_log; simpl; rewrite Ea; split_and!; [done|done|by left]].
  split; simpl; rewrite ?Es, ?Eo; try done.
  all: first [by apply reach_open | set_solver | constructor].
Qed.

Lemma held_booked w b s D R :
  consistent w b s D R → ∀ p e, p ∈ D ++ sp_flying s → e ∈ p.2 →
  e_origin e = origin_of p.2 ∧ origins (e_origin e).
Proof.
  intros Hc p e Hp He. pose proof (c_reach _ _ _ _ _ _ Hc) as Hreach. split.
  - apply elem_of_app in Hp as [Hp|Hp]; [by eapply c_single|]. destruct p as [u es]. by eapply flying_single.
  - eapply c_origins; [exact Hc|]. unfold all_entries, flying_entries.
    rewrite (c_delivered _ _ _ _ _ _ Hc), !elem_of_app, !list_elem_of_join.
    apply elem_of_app in Hp as [Hp|Hp].
    + right. right. left. left. exists p.2. split; [done|]. by apply list_elem_of_fmap_2.
    + right. left. exists p.2. split; [done|]. by apply list_elem_of_fmap_2.
Qed.

(** What the server, the buffer and the rejections hold after any life of the
    agent: every entry of the history, with its origin and its sample, in one of
    them. *)
Definition delivered (origins_of : option string → Prop) (sys : Sys W) : Prop :=
  ∃ (s : Spec) (held rejected : list (string * list Entry)) (waiting : list Entry),
    reachable (buf sys) s ∧
    stored_batches (world sys) ≡ₚ sent_of <$> held ∧
    mjoin held.*2 ++ waiting ++ mjoin rejected.*2 ++ sp_dropped s ≡ₚ log_entries (accepted (world sys)) ∧
    Z.of_nat (length (accepted (world sys))) = sqlite_seq (conn (buf sys)) ∧
    (Z.of_nat (length (accepted (world sys))) ≤ cap → sp_dropped s = []) ∧
    (∀ e, e ∈ waiting → e ∈ entry <$> pending_samples (conn (buf sys))) ∧
    (∀ u, u ∈ rejected.*1 → u ∈ rejections (world sys)) ∧
    (∀ p e, p ∈ held → e ∈ p.2 → e_origin e = origin_of p.2 ∧ origins_of (e_origin e)).

Lemma life_delivered max w p n sys :
  is_u64 max → cap ≤ max → untouched w →
  rtc life (mkSys w (BufferDb_open empty_db max) p n) sys → delivered origins sys.
Proof.
  intros Hmax Hcap Hw Hlife. assert (Consistent sys) as (s & D & R & [Hc Hg] & _).
  { assert (Consistent (mkSys w (BufferDb_open empty_db max) p n)) as Hstart by (by apply Consistent_start).
    clear Hw. induction Hlife; [done|]. eauto using life_consistent. }
  set (stored_p := λ q : string * list Entry, q.1 ∈ (stored_batches (world sys)).*1).
  exists s, (D ++ filter stored_p (sp_flying s)), R,
    (sp_pending s ++ mjoin (filter (λ q, ¬ stored_p q) (sp_flying s)).*2).
  pose proof (c_reach _ _ _ _ _ _ Hc) as Hreach.
  destruct (reachable_inv _ _ Hreach) as (Hwf & Hr & Hs).
  split_and!; [done|apply Hc| | |destruct Hg as (_ & _ & [|]); [done|lia]| |apply Hc|intros p' e Hp He; apply (held_booked _ _ _ _ _ Hc p' e); [|done]].
  - destruct Hg as [<- _]. unfold all_entries, flying_entries. rewrite (c_delivered _ _ _ _ _ _ Hc).
    rewrite <- (filter_app_complement stored_p (sp_flying s)) at 3. rewrite !fmap_app, !join_app. solve_perm.
  - pose proof (holds_log_next _ _ _ _ Hreach Hg) as En. rewrite (rf_next _ _ Hr) in En. lia.
  - intros e He. rewrite (rows_perm _ Hwf), fmap_app, <- (rf_pending _ _ Hr), <- (flying_entries_rows _ _ Hr).
    rewrite elem_of_app in He |- *. destruct He as [|He]; [by left|right].
    unfold flying_entries. rewrite <- (filter_app_complement stored_p (sp_flying s)), fmap_app, join_app. set_solver.
  - rewrite elem_of_app in Hp |- *. destruct Hp as [|[_ Hp]%list_elem_of_filter]; tauto.
Qed.

(** C7. Exactly once: start with an empty buffer and a server that holds
    nothing; run the streamer, fail at any SQLite or network call, kill and
    restart the agent any number of times. Then the server's content is a list
    [held] of batches whose entries, together with the entries still in the
    buffer, those of the batches the server rejected and those the cap dropped,
    are exactly the entries of the history: each sample the other tasks put into
    the buffer, once, with the number and the origin it was put in under; and
    every batch is booked under the origin all its entries have. Nothing is
    dropped as long as no more samples were put in than the least cap the agent
    was started with. *)
Theorem streamer_exactly_once max w p n sys :
  is_u64 max → cap ≤ max → untouched w →
  rtc life (mkSys w (BufferDb_open empty_db max) p n) sys →
  ∃ (s : Spec) (held rejected : list (string * list Entry)) (waiting : list Entry),
    reachable (buf sys) s ∧
    stored_batches (world sys) ≡ₚ sent_of <$> held ∧
    mjoin held.*2 ++ waiting ++ mjoin rejected.*2 ++ sp_dropped s ≡ₚ log_entries (accepted (world sys)) ∧
    Z.of_nat (length (accepted (world sys))) = sqlite_seq (conn (buf sys)) ∧
    (Z.of_nat (length (accepted (world sys))) ≤ cap → sp_dropped s = []) ∧
    (∀ e, e ∈ waiting → e ∈ entry <$> pending_samples (conn (buf sys))) ∧
    (∀ u, u ∈ rejected.*1 → u ∈ rejections (world sys)) ∧
    (∀ p e, p ∈ held → e ∈ p.2 → e_origin e = origin_of p.2 ∧ origins (e_origin e)).
Proof. apply life_delivered. Qed.
End Once.

(** ** A server that loses answers *)
Module OnceRun.
Import BitCodec.

#[local] Instance ack_codec : AckCodec := λ z,
  if decide (z = 1) then Some AckOk else if decide (z = 2) then Some AckDuplicate
  else if decide (z = 3) then Some AckRejected else if decide (z = 4) then Some AckRetry else None.

(** The batches received and not answered, the batches stored, the number of
    identifiers drawn, which answers get lost, what the collector will enqueue. *)
Record Srv := mkSrv {
  received : list Batch;
  store : list Batch;
  ids : nat;
  losses : list bool;
  todo : list (string * list Sample);
  put : list (option string * Sample);
}.

Definition ulid (n : nat) : string := pos_to_string (Pos.of_succ_nat n).
Fixpoint ulids (n : nat) : list string :=
  match n with O => [] | S n => ulid n :: ulids n end.

Lemma ulid_fresh n : ulid n ∉ ulids n.
Proof.
  assert (∀ m, ulid n ∈ ulids m → (n < m)%nat) as Hm; [|intros H%Hm; lia].
  induction m as [|m IH]; simpl; [set_solver|]. intros [E|H]%elem_of_cons; [|specialize (IH H); lia].
  apply (f_equal pos_of_string) in E. unfold ulid in E. rewrite !pos_roundtrip in E. simplify_eq. lia.
Qed.

#[local] Instance view : IngestView Srv := {|
  stored_batches := store; outstanding := received; rejections _ := []; drawn w := ulids (ids w);
  accepted := put |}.

Definition qualities (samples : list Sample) : bool :=
  bool_decide (Forall (λ s, 0 ≤ quality s < 2 ^ 32) samples).

(** The collector enqueues while the streamer waits. *)
Definition collect (w : Srv) (b : BufferDb) (p : Faults) : bool * BufferDb * Faults * Srv :=
  match todo w with
  | [] => (true, b, p, w)
  | (connector, samples) :: todo =>
      let after log := mkSrv (received w) (store w) (ids w) (losses w) todo (put w ++ log) in
      if qualities samples
      then let '(r, b', p') := enqueue_with_origin 0 (Some connector) samples p b in
           (true, b', p', after (accepted_of (Some connector) samples r))
      else (true, b, p, after [])
  end.

(** Answer the oldest batch: store it unless it is known. *)
Definition answer (w : Srv) : result string (option BatchAck) * Srv :=
  match received w with
  | [] => (Ok None, w)
  | (u, l) :: rest =>
      let known := bool_decide (u ∈ (store w).*1) in
      let store' := if known then store w else store w ++ [(u, l)] in
      let w' := mkSrv rest store' (ids w) (tail (losses w)) (todo w) (put w) in
      if default false (head (losses w)) then (Err "connection reset", w')
      else (Ok (Some (mkBatchAck u (if known then 2 else 1) EmptyString)), w')
  end.

#[local] Instance env : IngestEnv Srv := {|
  others := collect;
  from_shared_ok _ := true;
  metadata_ok _ := true;
  tls_config_ok _ := true;
  connect _ w := (true, w);
  stream_samples w := (Ok (), w);
  push sb w := (true, mkSrv (received w ++ [batch_on_wire sb]) (store w) (ids w) (losses w) (todo w) (put w));
  message := answer;
  sleep_ms _ w := w;
  epoch_ms _ := 1000;
  ulid_new w := (ulid (ids w), mkSrv (received w) (store w) (S (ids w)) (losses w) (todo w) (put w));
|}.

Lemma srv_quiet log w w' :
  store w' = store w → received w' = received w → ids w' = ids w → put w' = put w ++ log →
  srv_step [] log w w'.
Proof. intros Es Er Ei Ep. exists []. simpl. rewrite Es, Er, Ei, Ep, !app_nil_r. set_solver. Qed.

Lemma answer_step w : srv_step [] [] w (answer w).2.
Proof.
  unfold answer. destruct (received w) as [|[u l] rest] eqn:Er; [by apply srv_quiet; rewrite ?app_nil_r|].
  exists (if bool_decide (u ∈ (store w).*1) then [] else [(u, l)]).
  case_bool_decide as Hk; destruct (default false _); simpl; rewrite Er, ?app_nil_r, ?fmap_app;
    split_and!; try done; try set_solver; intros Hnd; apply NoDup_app; split_and!; try done; simpl;
    try apply NoDup_singleton; intros x Hx ->%list_elem_of_singleton; done.
Qed.

Lemma collect_ok w b p alive b' p' w' :
  collect w b p = (alive, b', p', w') →
  ∃ log, logged (enqueue_step is_Some) log b b' ∧ srv_step [] log w w'.
Proof.
  unfold collect. destruct (todo w) as [|[connector samples] todo].
  { intros [= <- <- <- <-]. exists []. split; [apply logged_nil|apply srv_quiet; by rewrite ?app_nil_r]. }
  unfold qualities. case_bool_decide as Hq.
  2:{ intros [= <- <- <- <-]. exists []. split; [apply logged_nil|by apply srv_quiet]. }
  destruct (enqueue_with_origin 0 _ samples p b) as [[r b1] p1] eqn:E. intros [= <- <- <- <-].
  exists (accepted_of (Some connector) samples r). split; [|by apply srv_quiet]. apply logged_once.
  exists 0, (Some connector), samples, p, (match r with Ok _ => Ok None | Err e => Err e end).
  split; [by eexists|]. split; [exact Hq|]. split; [|by destruct r].
  unfold step. simpl. unfold mbind, M_bind. rewrite E. by destruct r.
Qed.

Lemma push_step sb w :
  srv_step [batch_on_wire sb] [] w (mkSrv (received w ++ [batch_on_wire sb]) (store w) (ids w) (losses w) (todo w) (put w)).
Proof. exists []. simpl. rewrite !app_nil_r. set_solver. Qed.

Lemma answer_means w ack w' :
  answer w = (Ok (Some ack), w') →
  status_means (default AckUnspecified (ack_status_try_from (ack_status ack))) (ack_batch_id ack) w'.
Proof.
  unfold answer. destruct (received w) as [|[u l] rest]; [done|].
  destruct (default false _); [done|]. intros [= <- <-]. simpl.
  case_bool_decide; unfold ack_status_try_from, ack_codec; simpl; unfold has_stored; simpl; [done|].
  rewrite fmap_app, elem_of_app. right. by apply list_elem_of_singleton.
Qed.

#[local] Instance srv_ok : IngestOk (W := Srv).
Proof.
  refine {| origins := is_Some |}.
  - apply collect_ok.
  - intros tls w. apply srv_quiet; by rewrite ?app_nil_r.
  - intros w. apply srv_quiet; by rewrite ?app_nil_r.
  - intros n w. apply srv_quiet; by rewrite ?app_nil_r.
  - intros sb w. apply push_step.
  - apply answer_step.
  - apply answer_means.
  - intros w. simpl. split_and!; [apply ulid_fresh|done..].
Defined.

Definition sample (v : string) (x : Z) : Sample := mkSample v 1000 (f64_of_Z x) 0 ∅.
Definition srv0 : Srv := mkSrv [] [] 0 [true; false; false] 
  [("plc-a", [sample "a" 1; sample "b" 2]); ("plc-b", []); ("plc-b", []); ("plc-b", []); ("plc-b", []);
   ("plc-b", [sample "c" 3])] [].
Definition cfg : BufferStreamer := BufferStreamer_new "http://ingest" "key" "agent" "ds".
Definition sys0 : Sys Srv := mkSys srv0 (BufferDb_open empty_db 100) [] 1.

(** What the collector put in: two samples of one connector, one of another. *)
Definition collected : list (option string * Sample) :=
  [(Some "plc-a", sample "a" 1); (Some "plc-a", sample "b" 2); (Some "plc-b", sample "c" 3)].

(** The first answer is lost: the batch is sent twice and stored once; each is
    booked under the connector its samples were collected from. *)
Lemma streamer_exactly_once_witness :
  (λ b, b.2.1) <$> store (world (run 3 6 cfg sys0).2) = ["plc-a"; "plc-b"] ∧
  ∃ held waiting rejected,
    mjoin held.*2 ++ waiting ++ rejected ≡ₚ log_entries collected ∧
    store (world (run 3 6 cfg sys0).2) ≡ₚ sent_of "ds" <$> held ∧
    ∀ p e, p ∈ held → e ∈ p.2 → e_origin e = origin_of p.2.
Proof.
  split; [vm_compute; reflexivity|].
  destruct (streamer_exactly_once 100 cfg 100 srv0 [] 1 (run 3 6 cfg sys0).2)
    as (s & held & rejected & waiting & _ & Hst & Hlog & _ & Hd & _ & _ & Hb); [vm_compute; by split|done|by split_and!| |].
  { apply rtc_once. by eapply (life_run 100 cfg 3 6 sys0), surjective_pairing. }
  assert (accepted (world (run 3 6 cfg sys0).2) = collected) as E3 by (vm_compute; reflexivity).
  rewrite E3 in Hlog, Hd. rewrite Hd, app_nil_r in Hlog by done.
  exists held, waiting, (mjoin rejected.*2). split_and!; [exact Hlog|exact Hst|].
  intros p e Hp He. exact (proj1 (Hb p e Hp He)).
Defined.
End OnceRun.
