(* ===== verification/IngestLive.v ===== *)
(** * Which ACK settles a batch, and draining the buffer

    For an environment in which the other tasks are quiet: a batch is settled by
    the first ACK that names it, and a server that answers every batch drains the
    buffer, one batch per round of the main loop. *)
From S2P Require Import Prelude Float Proto RustStr Buffer BufferLogic BufferInv BufferSpec BufferRefine BufferProps Ingest IngestProps IngestOnce.
Local Open Scope Z_scope.

Section Live.
Context `{AttrsCodecOk} `{AckCodec} {W : Type} `{IngestEnv W}.
Context (quiet : ∀ w b p, others w b p = (true, b, p, w)).
Implicit Types (w : W) (u : string).

(** The server sends [n] ACKs, the last one the first that names [u]. *)
Inductive answered u (st : AckStatus) : nat → W → W → Prop :=
| answered_here ack w w' :
    message w = (Ok (Some ack), w') → resolve_ack ack u = Some st → answered u st 1 w w'
| answered_later ack n w w1 w' :
    message w = (Ok (Some ack), w1) → resolve_ack ack u = None →
    answered u st n w1 w' → answered u st (S n) w w'.

Lemma await_quiet (sys : Sys W) : await sys = (Ok (), sys).
Proof. unfold await. rewrite quiet. by destruct sys. Qed.

Lemma await_bind {A} (m : IM W A) (sys : Sys W) : (await;; m) sys = m sys.
Proof. unfold mbind, IM_bind. by rewrite await_quiet. Qed.

Lemma bind_run {A B} (m : IM W A) (k : A → IM W B) (sys : Sys W) :
  (m ≫= k) sys = match m sys with (Ok a, s) => k a s | (Err e, s) => (Err e, s) end.
Proof. done. Qed.

Lemma wait_ack_answered u st n w w' b p k fuel :
  answered u st n w w' → (n ≤ fuel)%nat →
  wait_ack fuel u (mkSys w b p k) = (Ok st, mkSys w' b p k).
Proof.
  intros Ha. revert fuel. induction Ha as [ack w w' Em Er|ack n w w1 w' Em Er _ IH]; intros [|fuel] Hn; try lia;
    cbn [wait_ack]; rewrite await_bind, bind_run; unfold with_world, set_world; simpl; rewrite Em, Er; [done|].
  apply IH. lia.
Qed.

Lemma send_and_ack_answered fuel cfg cb w w1 w2 b p k n st :
  push (proto_batch cfg (as_i64 (epoch_ms w)) cb) w = (true, w1) →
  answered (cb_batch_id cb) st n w1 w2 → (n ≤ fuel)%nat →
  send_and_ack fuel cfg cb (mkSys w b p k) =
    let '(r, b', p') := settle_call st (cb_batch_id cb) p b in
    (match r with Ok a => Ok a | Err e => Err (Failed e) end, mkSys w2 b' p' k).
Proof.
  intros Hp Ha Hn. unfold send_and_ack. rewrite bind_run. simpl. rewrite await_bind, bind_run.
  unfold with_world, set_world at 1. simpl. rewrite Hp. simpl.
  rewrite bind_run, (wait_ack_answered _ _ _ _ _ _ _ _ _ Ha Hn).
  destruct st; simpl; unfold with_buffer; by rewrite await_bind.
Qed.

(** A batch that was sent is settled by the first ACK that names it, with
    the status of that ACK: the ones before it, which name other batches, change
    nothing; stored and rejected batches leave the buffer, the others return to
    the pending samples. *)
Theorem send_and_ack_settles fuel cfg cb w w1 w2 b p k n st :
  push (proto_batch cfg (as_i64 (epoch_ms w)) cb) w = (true, w1) →
  answered (cb_batch_id cb) st n w1 w2 → (n ≤ fuel)%nat →
  send_and_ack fuel cfg cb (mkSys w b p k) =
    let '(r, b', p') := settle_call st (cb_batch_id cb) p b in
    (match r with Ok a => Ok a | Err e => Err (Failed e) end, mkSys w2 b' p' k).
Proof. apply send_and_ack_answered. Qed.

(** ** Draining *)

(** [sure m b Q]: with no more faults [m] returns, in [Q]. *)
Definition sure {A} (m : M A) (b : BufferDb) (Q : A → BufferDb → Prop) : Prop :=
  ∃ a b', m [] b = (Ok a, b', []) ∧ Q a b'.

Lemma sure_ret {A} (a : A) b (Q : A → BufferDb → Prop) : Q a b → sure (mret a) b Q.
Proof. by exists a, b. Qed.
Lemma sure_bind {A B} (m : M A) (k : A → M B) b (Q : B → BufferDb → Prop) :
  sure m b (λ a b', sure (k a) b' Q) → sure (m ≫= k) b Q.
Proof. intros (a & b1 & E & c & b2 & E2 & HQ). exists c, b2. unfold mbind, M_bind. by rewrite E. Qed.
Lemma sure_query {A} (f : Db → A) b (Q : A → BufferDb → Prop) : Q (f (conn b)) b → sure (query f) b Q.
Proof. intros HQ. exists (f (conn b)), b. unfold query, call. simpl. by rewrite set_conn_same. Qed.
Lemma sure_exec_r f db b (Q : () → BufferDb → Prop) :
  f (conn b) = Ok db → Q () (set_conn db b) → sure (exec_r f) b Q.
Proof. intros E HQ. exists (), (set_conn db b). unfold exec_r, call. simpl. by rewrite E. Qed.
Lemma sure_transaction {A} (body : M (A * bool)) b :
  sure body b (λ _ _, True) → sure (transaction body) b (λ _ _, True).
Proof.
  intros ([a []] & b' & E & _); [exists a, b'|exists a, (set_conn (conn b) b')];
    unfold transaction; simpl; by rewrite E.
Qed.

Lemma set_batch_all_sure u (l : list Z) b (Q : () → BufferDb → Prop) :
  (∀ b', in_flight_batches (conn b') = in_flight_batches (conn b) → Q () b') →
  sure (set_batch_all u l) b Q.
Proof.
  revert b. induction l as [|i l IH]; intros b HQ; simpl; [by apply sure_ret, HQ|].
  apply sure_bind. exists (), (set_conn (sql_set_batch u i (conn b)) b). split; [done|].
  apply IH. intros b' E. by apply HQ.
Qed.

(** With nothing in flight the primary key is free. *)
Lemma claim_sure u now n b :
  in_flight_batches (conn b) = [] → sure (claim_batch u now n) b (λ _ _, True).
Proof.
  intros Hin. apply sure_transaction, sure_bind, sure_query, sure_bind, sure_query.
  destruct (sql_first_origin _) as [o|]; [|by apply sure_ret].
  apply sure_bind, sure_query, sure_bind, sure_query. case_decide; [by apply sure_ret|].
  apply sure_bind, sure_query, sure_bind, set_batch_all_sure. intros b' E.
  eapply sure_bind, sure_exec_r.
  { unfold sql_insert_in_flight. rewrite decide_False by (rewrite E, Hin; set_solver). done. }
  apply sure_bind, sure_bind, sure_query, sure_bind, sure_query, sure_ret. by apply sure_ret.
Qed.

Lemma ack_ok_sure u b : ∃ b', ack_ok u [] b = (Ok (), b', []).
Proof. by eexists. Qed.

Context (ready : W → Prop).
Context (prompt : ∀ w sb, ready w → ∃ w1 n w2, push sb w = (true, w1) ∧
  answered (sb_batch_id sb) AckOk n w1 w2 ∧ (n ≤ 2)%nat ∧ ready w2).
Context (ready_ulid : ∀ w, ready w → ready (ulid_new w).2).
Context (ready_sleep : ∀ n w, ready w → ready (sleep_ms n w)).

(** A reachable buffer with nothing in flight and [k] pending samples. *)
Definition pending_is (k : nat) (sys : Sys W) : Prop := ∃ s,
  reachable (buf sys) s ∧ sp_flying s = [] ∧ length (sp_pending s) = k ∧
  faults sys = [] ∧ ready (world sys).

Lemma pending_empty sys : pending_is 0 sys → pending_samples (conn (buf sys)) = [].
Proof.
  intros (s & Hreach & Hf & Hp & _). destruct (reachable_inv _ _ Hreach) as (Hwf & Hr & _).
  apply length_zero_iff_nil in Hp.
  assert (entry <$> pending_samples (conn (buf sys)) ≡ₚ []) as E.
  { rewrite (rows_perm _ Hwf), fmap_app, <- (rf_pending _ _ Hr), <- (flying_entries_rows _ _ Hr).
    unfold flying_entries. by rewrite Hp, Hf. }
  apply Permutation_nil_r in E. by apply fmap_nil_inv in E.
Qed.

Lemma claimed_some n (p : list Entry) : p ≠ [] → 0 < n → claimed_entries n p ≠ [].
Proof.
  intros Hp Hn. destruct p as [|e p]; [done|]. simpl. rewrite filter_cons_True by done.
  unfold limit. destruct (Z.ltb_spec n 0); [done|].
  destruct (Z.to_nat n) eqn:E; [lia|done].
Qed.

Lemma spec_claim_shrinks u n s :
  spec_wf s → sp_pending s ≠ [] → 0 < as_i64 n →
  ∃ e es, claimed_entries (as_i64 n) (sp_pending s) = e :: es ∧
    (length (sp_pending (spec_claim u n s)) < length (sp_pending s))%nat.
Proof.
  intros Hwf Hp Hn. pose proof (claimed_some _ _ Hp Hn) as Hc.
  pose proof (claimed_split (as_i64 n) _ (spec_wf_pending_NoDup s Hwf)) as HP.
  unfold spec_claim. destruct (claimed_entries _ _) as [|e es]; [done|].
  exists e, es. split; [done|]. rewrite HP at 2. rewrite length_app. simpl. lia.
Qed.

Context (cfg : BufferStreamer) (max_pos : 0 < as_i64 (max_batch_size cfg)).

(** A round of the main loop: the buffer stays empty or gets smaller. *)
Lemma send_round_drains fuel k sys :
  k = 0%nat ∨ (2 ≤ fuel)%nat → pending_is k sys →
  ∃ k' sys', send_round fuel cfg sys = (Ok (), sys') ∧ pending_is k' sys' ∧ (k' ≤ pred k)%nat.
Proof.
  intros Hf (s & Hreach & Hfl & Hk & Hfa & Hready). destruct sys as [w b p bk]. simpl in *. subst p.
  unfold send_round, claim. rewrite !bind_run, await_quiet, bind_run. unfold with_world, set_world. simpl.
  pose proof (ready_ulid w Hready) as Hready1. destruct (ulid_new w) as [u w1]. simpl in *.
  unfold now_epoch, call_buffer. rewrite bind_run. simpl.
  destruct (reachable_inv _ _ Hreach) as (Hwf & Hr & Hs).
  assert (in_flight_batches (conn b) = []) as Hnone
    by (pose proof (rf_flying _ _ Hr) as E; rewrite Hfl in E; symmetry in E; by apply fmap_nil_inv in E).
  destruct (claim_sure u (as_i64 (epoch_ms w1)) (max_batch_size cfg) b Hnone) as (o & b1 & Ecl & _).
  rewrite Ecl. apply claim_step in Ecl.
  pose proof (reach_ok b s (OClaim u _ _) [] _ _ Hreach I Ecl) as Hreach1.
  destruct (step_sim_reach b s (OClaim u _ _) [] _ _ Hreach I Ecl) as [_ Ho]. cbn [spec_output] in Ho.
  destruct (decide (sp_pending s = [])) as [Hp|Hp].
  - simpl in Ho. rewrite Hp in Ho. simpl in Ho. subst o. rewrite await_bind. simpl.
    rewrite Hp in Hk. simpl in Hk. subst k.
    eexists 0%nat, _. split; [done|]. split; [|lia]. exists (spec_step (max_rows b) (OClaim u (as_i64 (epoch_ms w1)) (max_batch_size cfg)) s).
    simpl. unfold spec_claim. rewrite Hp. simpl. rewrite Hp. split_and!; auto.
    simpl in Hreach1. unfold spec_claim in Hreach1. rewrite Hp in Hreach1. by simpl in Hreach1.
  - destruct (spec_claim_shrinks u (max_batch_size cfg) s Hs Hp max_pos) as (e & es & Hc & Hlt).
    simpl in Ho. rewrite Hc in Ho. subst o.
    set (cb := batch_of (u, e :: es)) in *.
    destruct (prompt w1 (proto_batch cfg (as_i64 (epoch_ms w1)) cb) Hready1) as (w2 & n & w3 & Hpush & Hans & Hn & Hready3).
    rewrite bind_run, (send_and_ack_answered fuel cfg cb w1 w2 w3 b1 [] bk n AckOk Hpush Hans)
      by (destruct Hf as [->|]; [by apply length_zero_iff_nil in Hk|lia]).
    cbn [settle_call]. change (cb_batch_id cb) with u.
    destruct (ack_ok_sure u b1) as (b2 & Eack). rewrite Eack. simpl.
    assert (step b1 (OAckOk u) [] = (Ok None, b2)) as Hstep
      by (unfold step; cbn [exec_op]; unfold mbind, M_bind; by rewrite Eack).
    eexists _, _. split; [done|]. split.
    + exists (spec_step (max_rows b1) (OAckOk u) (spec_claim u (max_batch_size cfg) s)).
      split_and!; [|simpl|done|done|done].
      * by eapply (reach_ok b1 _ (OAckOk u)).
      * unfold not_flying, spec_claim. rewrite Hc. simpl. rewrite Hfl. simpl.
        by rewrite filter_cons_False by (simpl; tauto).
    + simpl. lia.
Qed.

Lemma send_loop_empties fuel k sys :
  k = 0%nat ∨ (2 + k ≤ fuel)%nat → pending_is k sys →
  ∃ sys', send_loop fuel cfg sys = (Err StillRunning, sys') ∧ pending_is 0 sys'.
Proof.
  revert k sys. induction fuel as [|fuel IH]; intros k sys Hf Hk.
  - assert (k = 0%nat) as -> by lia. by exists sys.
  - cbn [send_loop]. destruct (send_round_drains fuel k sys) as (k' & sys1 & E & Hk' & Hle); [|done|].
    { destruct Hf as [->|]; [by left|]. destruct k; [by left|right; lia]. }
    rewrite bind_run, E. apply (IH k'); [|done]. destruct Hf as [->|]; [left; lia|]. destruct k; lia.
Qed.

(** C16. The buffer drains: against a server that answers every batch with OK,
    if need be after an ACK for another batch, and with no new samples, the main
    loop empties the buffer within as many rounds as there are samples. *)
Theorem send_loop_drains fuel k sys :
  (2 + k ≤ fuel)%nat → pending_is k sys →
  ∃ sys', send_loop fuel cfg sys = (Err StillRunning, sys') ∧ pending_samples (conn (buf sys')) = [].
Proof.
  intros Hf Hk. destruct (send_loop_empties fuel k sys) as (sys' & E & Hz); [by right|done|].
  exists sys'. split; [done|by apply pending_empty].
Qed.
End Live.

(** ** A server that sends an ACK for another batch first *)
Module LiveRun.
Import BitCodec.
#[local] Existing Instance OnceRun.ack_codec.

Record Chat := mkChat { inbox : list BatchAck; drawn_ids : nat }.

#[local] Instance env : IngestEnv Chat := {|
  others w b p := (true, b, p, w);
  from_shared_ok _ := true;
  metadata_ok _ := true;
  tls_config_ok _ := true;
  connect _ w := (true, w);
  stream_samples w := (Ok (), w);
  push sb w := (true, mkChat (inbox w ++ [mkBatchAck (sb_batch_id sb +:+ "x") 4 EmptyString;
                                          mkBatchAck (sb_batch_id sb) 1 EmptyString]) (drawn_ids w));
  message w := match inbox w with
               | [] => (Ok None, w)
               | a :: rest => (Ok (Some a), mkChat rest (drawn_ids w))
               end;
  sleep_ms _ w := w;
  epoch_ms _ := 1000;
  ulid_new w := (OnceRun.ulid (drawn_ids w), mkChat (inbox w) (S (drawn_ids w)));
|}.

Lemma other_id u : u +:+ "x" ≠ u.
Proof. intros E. apply (f_equal slen) in E. rewrite slen_app in E. vm_compute (slen "x") in E. lia. Qed.

Lemma chat_prompt w sb :
  inbox w = [] → ∃ w1 n w2, push sb w = (true, w1) ∧
    answered (sb_batch_id sb) AckOk n w1 w2 ∧ (n ≤ 2)%nat ∧ inbox w2 = [].
Proof.
  intros Hi. eexists _, 2%nat, (mkChat [] (drawn_ids w)). split; [done|]. split_and!; [|lia|done].
  simpl. rewrite Hi. eapply answered_later; [reflexivity| |eapply answered_here; [reflexivity|]].
  - unfold resolve_ack. rewrite decide_True; [done|]. apply other_id.
  - unfold resolve_ack. by rewrite decide_False by (simpl; tauto).
Qed.

Lemma quiet_env (w : Chat) b p : others w b p = (true, b, p, w).
Proof. done. Qed.

Definition sys1 : Sys Chat := mkSys (mkChat [] 0) Run.b1 [] 1.

Definition cb1 : ClaimedBatch := mkClaimedBatch "01J" [] None.

Lemma send_and_ack_settles_witness :
  resolve_ack (mkBatchAck "01Jx" 4 EmptyString) "01J" = None ∧
  ∃ b', send_and_ack 2 OnceRun.cfg cb1 sys1 = (Ok (), mkSys (mkChat [] 0) b' [] 1).
Proof.
  split; [vm_compute; reflexivity|]. eexists.
  etrans; [eapply (send_and_ack_settles quiet_env 2 OnceRun.cfg cb1 (mkChat [] 0) _ (mkChat [] 0) Run.b1 [] 1 2 AckOk);
    [reflexivity| |lia]|].
  - eapply answered_later; [reflexivity|vm_compute; reflexivity|].
    eapply answered_here; [reflexivity|vm_compute; reflexivity].
  - vm_compute. reflexivity.
Defined.

Lemma send_loop_drains_witness :
  ∃ sys', send_loop 4 OnceRun.cfg sys1 = (Err StillRunning, sys') ∧ pending_samples (conn (buf sys')) = [].
Proof.
  apply (send_loop_drains quiet_env (λ w, inbox w = []) chat_prompt (λ w H, H) (λ n w H, H)
    OnceRun.cfg ltac:(vm_compute; reflexivity) 4 2).
  - lia.
  - exists Run.s1. split_and!; [exact Run.reach1|reflexivity..].
Defined.
End LiveRun.
