(* ===== verification/Jobs.v ===== *)
(** * Connectors and ingests ([src/collector.rs], lines 33 to 55)

    The provisioned data the collector, the plugin host and the control channel
    share. *)
From S2P Require Import Prelude Json.

(** An agent-host connector. *)
Record Conn (J : Type) := mkConn {
  ds_type : string;
  config : J;
  secrets : J;
  writable : gset string;
}.
Arguments mkConn {J} _ _ _ _.
Arguments ds_type {J} _.
Arguments config {J} _.
Arguments secrets {J} _.
Arguments writable {J} _.

(** A collect job over a connector. *)
Record Job (J : Type) := mkJob {
  ingest_id : string;
  connector_id : string;
  selection : J;
  interval_s : Z;
  naming : J;
  transform : J;
}.
Arguments mkJob {J} _ _ _ _ _ _.
Arguments ingest_id {J} _.
Arguments connector_id {J} _.
Arguments selection {J} _.
Arguments interval_s {J} _.
Arguments naming {J} _.
Arguments transform {J} _.
