(* ===== verification/Plugins.v ===== *)
(** * The plugin host ([src/plugins.rs])

    A [Plugin] is a launch specification and the process it keeps; the operating
    system (processes and their pipes) is the interface [Procs]. The processes of
    the host are the map from plugin numbers to process identifiers, the content
    of each plugin's [proc] mutex. *)
From Stdlib Require Import Ascii.
From S2P Require Import Prelude Float Proto RustStr Json Jobs.
Set Warnings "-register-all".
Local Open Scope Z_scope.

Definition PROTOCOL : Z := 1.
Definition EXCHANGE_TIMEOUT : Z := 60.

(** ** What plugins answer *)

Record PluginSample := mkPluginSample {
  ps_variable_id : string;
  ps_value : f64;
  ps_ts_ms : option Z;
  ps_quality : option Z;
}.
Record ReadResp := mkReadResp { rr_ok : bool; rr_samples : list PluginSample; rr_error : option string }.
Record QueryResp (J : Type) := mkQueryResp { qr_ok : bool; qr_result : J; qr_error : option string }.
Arguments mkQueryResp {J} _ _ _.
Arguments qr_ok {J} _.
Arguments qr_result {J} _.
Arguments qr_error {J} _.
Record WriteResp := mkWriteResp { wr_ok : bool; wr_readback : option f64; wr_error : option string }.
Record Manifest := mkManifest {
  mf_name : string;
  mf_types : list string;
  mf_exec : string;
  mf_args : list string;
  mf_protocol : Z;
}.

Section Responses.
Context `{Json J}.

Definition de_i64 (j : J) : option Z := as_i64' j.

Definition de_plugin_sample (j : J) : option PluginSample :=
  f ← struct_view ["variable_id"; "value"; "ts_ms"; "quality"] j;
  v ← f "variable_id" ≫= as_str;
  x ← f "value" ≫= as_f64;
  t ← de_default None (de_option de_i64) (f "ts_ms");
  q ← de_default None (de_option de_u32) (f "quality");
  Some (mkPluginSample v x t q).

Definition de_read_resp (j : J) : option ReadResp :=
  f ← struct_view ["ok"; "samples"; "error"] j;
  ok ← de_default false as_bool (f "ok");
  samples ← de_default [] (de_vec de_plugin_sample) (f "samples");
  error ← de_default None (de_option as_str) (f "error");
  Some (mkReadResp ok samples error).

Definition de_query_resp (j : J) : option (QueryResp J) :=
  f ← struct_view ["ok"; "result"; "error"] j;
  ok ← de_default false as_bool (f "ok");
  result ← de_default j_null Some (f "result");
  error ← de_default None (de_option as_str) (f "error");
  Some (mkQueryResp ok result error).

Definition de_write_resp (j : J) : option WriteResp :=
  f ← struct_view ["ok"; "readback"; "error"] j;
  ok ← f "ok" ≫= as_bool;
  readback ← de_default None (de_option as_f64) (f "readback");
  error ← de_default None (de_option as_str) (f "error");
  Some (mkWriteResp ok readback error).

Definition de_manifest (j : J) : option Manifest :=
  f ← struct_view ["name"; "types"; "exec"; "args"; "protocol"] j;
  name ← f "name" ≫= as_str;
  types ← de_default [] (de_vec as_str) (f "types");
  exec ← f "exec" ≫= as_str;
  args ← de_default [] (de_vec as_str) (f "args");
  protocol ← de_default 0 de_u32 (f "protocol");
  Some (mkManifest name types exec args protocol).

Definition parse_with {A} (de : J → option A) (what line : string) : result string A :=
  ok_or what (from_str line ≫= de).

(** [Sample] of a plugin sample; [now] is [now_ms()]. *)
Definition sample_of (now : Z) (s : PluginSample) : Sample :=
  mkSample (ps_variable_id s) (default now (ps_ts_ms s)) (ps_value s) (default 0 (ps_quality s)) ∅.
End Responses.

(** ** Requests *)
Section Requests.
Context `{Json J}.

Definition read_request (conn : Conn J) (ing : Job J) : J :=
  j_object [("v", j_u64 PROTOCOL); ("op", j_str "read");
            ("connector_id", j_str (connector_id ing)); ("type", j_str (ds_type conn));
            ("config", config conn); ("secrets", secrets conn);
            ("selection", selection ing); ("naming", naming ing)].
Definition query_request (op ds_type : string) (config secrets args : J) : J :=
  j_object [("v", j_u64 PROTOCOL); ("op", j_str op);
            ("type", j_str ds_type); ("config", config); ("secrets", secrets); ("args", args)].
Definition write_request (ds_type : string) (config secrets target : J) (value : f64) (readback : bool) : J :=
  j_object [("v", j_u64 PROTOCOL); ("op", j_str "write");
            ("type", j_str ds_type); ("config", config); ("secrets", secrets);
            ("target", target); ("write_value", j_f64 value); ("readback", j_bool readback)].
Definition points_request (ds_type : string) (config secrets points : J) : J :=
  j_object [("v", j_u64 PROTOCOL); ("op", j_str "read");
            ("type", j_str ds_type); ("config", config); ("secrets", secrets); ("points", points)].
Definition subscribe_request (conn : Conn J) (ing : Job J) : J :=
  j_object [("v", j_u64 PROTOCOL); ("op", j_str "subscribe");
            ("connector_id", j_str (connector_id ing)); ("type", j_str (ds_type conn));
            ("config", config conn); ("secrets", secrets conn);
            ("selection", selection ing); ("naming", naming ing)].
End Requests.

(** ** Processes *)

Record Plugin := mkPlugin {
  name : string;
  dir : string;
  exec : string;
  args : list string;
}.

(** [stdout.next_line()]; under the timeout, [None] when it elapsed. *)
Inductive LineRead := Line (l : string) | Eof | ReadFailed (e : string).

Class Procs (W : Type) := {
  os_spawn : Plugin → W → result string Z * W;
  os_write : Z → string → W → result string () * W;
  os_next_line : Z → W → LineRead * W;
  os_next_line_timeout : Z → Z → W → option LineRead * W;
  os_kill : Z → W → W;
  os_now_ms : W → Z;
}.

(** The host's plugins and their resident processes. *)
Record Host (W : Type) := mkHost { procs : gmap nat Z; os : W }.
Arguments mkHost {W} _ _.
Arguments procs {W} _.
Arguments os {W} _.

Definition HM (W A : Type) : Type := Host W → result string A * Host W.
#[export] Instance HM_ret {W} : MRet (HM W) := λ A a h, (Ok a, h).
#[export] Instance HM_bind {W} : MBind (HM W) := λ A B k m h,
  match m h with (Ok a, h') => k a h' | (Err e, h') => (Err e, h') end.
Definition fail {W A} (e : string) : HM W A := λ h, (Err e, h).
Definition lift_result {W A} (r : result string A) : HM W A := λ h, (r, h).

Section Exchange.
Context `{Json J} {W : Type} `{Procs W}.

Definition with_os {A} (f : W → A * W) : HM W A := λ h,
  let '(a, w) := f (os h) in (Ok a, mkHost (procs h) w).
Definition now_ms : HM W Z := λ h, (Ok (os_now_ms (os h)), h).
Definition get_proc (i : nat) : HM W (option Z) := λ h, (Ok (procs h !! i), h).
Definition set_proc (i : nat) (p : option Z) : HM W () := λ h,
  (Ok (), mkHost (partial_alter (λ _, p) i (procs h)) (os h)).

Definition spawn (p : Plugin) : HM W Z :=
  r ← with_os (os_spawn p);
  match r with Ok pid => mret pid | Err _ => fail ("spawning plugin " +:+ name p) end.

(** The plugin's process, spawned when there is none. *)
Definition ensure_proc (i : nat) (p : Plugin) : HM W Z :=
  cur ← get_proc i;
  match cur with
  | Some pid => mret pid
  | None => pid ← spawn p; set_proc i (Some pid);; mret pid
  end.

(** Write one request line. [write_all] and [flush] are awaited outside the
    timeout; this is what they give when they return. While the process does not
    take the line they do not: [takes] in Exchanges.v. *)
Definition ask (pid : Z) (payload : string) : HM W () :=
  r ← with_os (os_write pid payload); lift_result r.

(** Read one response line. *)
Definition receive (pid : Z) : HM W string :=
  l ← with_os (os_next_line_timeout EXCHANGE_TIMEOUT pid);
  match l with
  | Some (Line s) => mret s
  | Some Eof => fail "plugin closed its output"
  | Some (ReadFailed e) => fail e
  | None => fail ("plugin did not respond within " +:+ dec EXCHANGE_TIMEOUT +:+ "s")
  end.

Definition io (pid : Z) (payload : string) : HM W string :=
  ask pid payload;; receive pid.

(** [guard.take()] and [start_kill]. *)
Definition drop_proc (i : nat) (pid : Z) (h : Host W) : Host W :=
  mkHost (delete i (procs h)) (os_kill pid (os h)).

(** A failed exchange drops and kills the process. *)
Definition kill_on_error {A} (i : nat) (pid : Z) (m : HM W A) : HM W A := λ h,
  match m h with
  | (Ok a, h') => (Ok a, h')
  | (Err e, h') => (Err e, drop_proc i pid h')
  end.

Definition exchange (i : nat) (p : Plugin) (req : J) : HM W string :=
  pid ← ensure_proc i p;
  kill_on_error i pid (io pid (to_string req +:+ newline)).

(** An exchange whose future is dropped while it waits for the answer: the task
    was aborted after the request was written. *)
Definition exchange_dropped (i : nat) (p : Plugin) (req : J) : HM W () :=
  pid ← ensure_proc i p;
  ask pid (to_string req +:+ newline).

(** ** The operations of a plugin *)

Definition read (i : nat) (p : Plugin) (conn : Conn J) (ing : Job J) : HM W (list Sample) :=
  line ← exchange i p (read_request conn ing);
  resp ← lift_result (parse_with de_read_resp "plugin response not valid JSON" line);
  if negb (rr_ok resp) then fail (default "plugin error" (rr_error resp)) else
  now ← now_ms;
  mret (sample_of now <$> rr_samples resp).

Definition query (i : nat) (p : Plugin) (op ds_type : string) (config secrets args : J) : HM W J :=
  line ← exchange i p (query_request op ds_type config secrets args);
  resp ← lift_result (parse_with de_query_resp "plugin response not valid JSON" line);
  if negb (qr_ok resp) then fail (default "plugin error" (qr_error resp)) else mret (qr_result resp).

Definition write (i : nat) (p : Plugin) (ds_type : string) (config secrets target : J)
    (value : f64) (readback : bool) : HM W (option f64) :=
  line ← exchange i p (write_request ds_type config secrets target value readback);
  resp ← lift_result (parse_with de_write_resp "plugin write response not valid JSON" line);
  if negb (wr_ok resp) then fail (default "plugin write error" (wr_error resp)) else mret (wr_readback resp).

Definition read_points (i : nat) (p : Plugin) (ds_type : string) (config secrets points : J) : HM W J :=
  line ← exchange i p (points_request ds_type config secrets points);
  resp ← lift_result (parse_with Some "plugin response not valid JSON" line);
  if decide (get_bool resp "ok" ≠ Some true) then fail (str_or "plugin error" resp "error")
  else mret (default (j_array []) (jget resp "samples")).

(** ** Subscriptions: a process of their own *)

Definition open_stream (p : Plugin) (conn : Conn J) (ing : Job J) : HM W Z :=
  r ← with_os (os_spawn p);
  match r with
  | Err _ => fail ("spawning plugin " +:+ name p +:+ " (subscribe)")
  | Ok pid =>
      r ← with_os (os_write pid (to_string (subscribe_request conn ing) +:+ newline));
      match r with
      | Ok () => mret pid
      | Err _ => with_os (λ w, ((), os_kill pid w));; fail "sending subscribe request"
      end
  end.

(** [PluginStream::next]: a batch, the end of the stream, or [Pending] when the
    bound on the blank and empty lines skipped is reached. *)
Inductive Pushed := Batch (samples : list Sample) | Closed | Pending.

Fixpoint stream_next (fuel : nat) (pid : Z) : HM W Pushed :=
  match fuel with
  | O => mret Pending
  | S fuel =>
      l ← with_os (os_next_line pid);
      match l with
      | Eof => mret Closed
      | ReadFailed e => fail e
      | Line l =>
          if decide (trim l = "") then stream_next fuel pid else
          resp ← lift_result (parse_with de_read_resp "plugin stream line not valid JSON" l);
          if negb (rr_ok resp) then fail (default "plugin stream error" (rr_error resp)) else
          match rr_samples resp with
          | [] => stream_next fuel pid
          | samples => now ← now_ms; mret (Batch (sample_of now <$> samples))
          end
      end
  end.
End Exchange.

(** ** Discovery *)

(** A directory entry of the plugin directory: its path, whether it is a
    directory, the content of its [plugin.json] if that can be read. *)
Record Entry := mkEntry { e_path : string; e_is_dir : bool; e_manifest : option string }.

Class Paths := { is_absolute : string → bool; path_join : string → string → string }.

Record PluginHost := mkPluginHost { plugins : list Plugin; by_type : gmap string nat }.

Section Discover.
Context `{Json J} `{Paths}.

Definition exec_path (pdir exec : string) : string :=
  if is_absolute exec || negb (contains "/" exec || contains "\" exec) then exec
  else path_join pdir exec.

(** [for t in m.types]: a type already served keeps its plugin. *)
Definition add_types (n : nat) (types : list string) (m : gmap string nat) : gmap string nat :=
  foldl (λ m t, match m !! t with Some _ => m | None => <[t := n]> m end) m types.

Definition accepts (allow : list string) (m : Manifest) : bool :=
  (bool_decide (allow = []) || bool_decide (mf_name m ∈ allow)) &&
  (bool_decide (mf_protocol m = 0) || bool_decide (mf_protocol m = PROTOCOL)).

Definition register (allow : list string) (h : PluginHost) (e : Entry) : PluginHost :=
  if negb (e_is_dir e) then h else
  match (raw ← e_manifest e; j ← from_str raw; de_manifest j) with
  | None => h
  | Some m =>
      if negb (accepts allow m) then h else
      let p := mkPlugin (mf_name m) (e_path e) (exec_path (e_path e) (mf_exec m)) (mf_args m) in
      mkPluginHost (plugins h ++ [p]) (add_types (length (plugins h)) (mf_types m) (by_type h))
  end.

(** [entries] is the directory listing, [None] when it cannot be read. *)
Definition discover (entries : option (list Entry)) (allow : list string) : PluginHost :=
  foldl (register allow) (mkPluginHost [] ∅) (default [] entries).

Definition for_type (h : PluginHost) (t : string) : option (nat * Plugin) :=
  n ← by_type h !! t; p ← plugins h !! n; Some (n, p).
Definition types (h : PluginHost) : list string := (map_to_list (by_type h)).*1.
End Discover.
