(* ===== verification/PluginsProps.v ===== *)
(** * Properties of the plugin host

    Requests and responses stay paired as long as no exchange is dropped half
    way; a dropped one shifts every later answer by one. A type is served by the first plugin that declares it. *)
From S2P Require Import Prelude Float Proto RustStr Json Sdk Jobs Plugins.
Local Open Scope Z_scope.

(** ** Pairing of requests and responses *)

(** A plugin process answers the texts that are one request ([request_line])
    with one line each, in order: [replies] are the lines it will have written
    and nobody has read. *)
Class Lockstep (W : Type) := {
  request_line : string → Prop;
  replies : Z → W → list string;
  answer_to : Z → string → W → string;
  known : W → list Z;
}.

Section Pairing.
Context `{Json J} {W : Type} `{Procs W} `{Lockstep W}.

Definition same_procs (w w' : W) : Prop :=
  known w' = known w ∧ ∀ pid, replies pid w' = replies pid w.

Class LockstepOk := {
  spawn_ok : ∀ p w, (match os_spawn p w with
    | (Ok pid, w') => pid ∉ known w ∧ known w' = pid :: known w ∧ replies pid w' = [] ∧
                      (∀ q, q ≠ pid → replies q w' = replies q w)
    | (Err _, w') => same_procs w w'
    end);
  write_ok : ∀ pid l w, let '(r, w') := os_write pid l w in
    known w' = known w ∧ (∀ q, q ≠ pid → replies q w' = replies q w) ∧
    (r = Ok () → request_line l → replies pid w' = replies pid w ++ [answer_to pid l w]);
  read_ok : ∀ n pid w, let '(r, w') := os_next_line_timeout n pid w in
    known w' = known w ∧ (∀ q, q ≠ pid → replies q w' = replies q w) ∧
    (∀ l, r = Some (Plugins.Line l) → replies pid w = l :: replies pid w');
  kill_ok : ∀ pid w, known (os_kill pid w) = known w ∧
    ∀ q, q ≠ pid → replies q (os_kill pid w) = replies q w;
}.
Context `{!LockstepOk}.

(** Every resident process has been read to the end, and they are distinct. *)
Record in_sync (h : Host W) : Prop := {
  sync_known : ∀ i pid, procs h !! i = Some pid → pid ∈ known (os h);
  sync_distinct : ∀ i j pid, procs h !! i = Some pid → procs h !! j = Some pid → i = j;
  sync_read : ∀ i pid, procs h !! i = Some pid → replies pid (os h) = [];
}.

(** The host after the process of plugin [i] is [pid]. *)
Lemma ensure_proc_sync i p (h : Host W) :
  in_sync h →
  match ensure_proc i p h with
  | (Ok pid, h') => in_sync h' ∧ procs h' !! i = Some pid
  | (Err _, h') => in_sync h' ∧ procs h' !! i = None
  end.
Proof.
  intros Hs. unfold ensure_proc, mbind, HM_bind, get_proc. destruct (procs h !! i) as [pid|] eqn:Ei; [done|].
  unfold spawn, with_os, mbind, HM_bind. pose proof (spawn_ok p (os h)) as Hsp.
  destruct (os_spawn p (os h)) as [[pid|e] w']; simpl.
  - destruct Hsp as (Hf & Hk & Hr & Ho). unfold set_proc. simpl.
    assert (∀ j q, partial_alter (λ _, Some pid) i (procs h) !! j = Some q →
      j = i ∧ q = pid ∨ j ≠ i ∧ procs h !! j = Some q ∧ q ≠ pid) as Hcase.
    { intros j q. destruct (decide (j = i)) as [->|Hj].
      - rewrite lookup_partial_alter_eq. intros [= <-]. by left.
      - rewrite lookup_partial_alter_ne by done. intros Eq. right. split_and!; [done|done|].
        intros ->. by apply (sync_known _ Hs) in Eq. }
    split; [|apply lookup_partial_alter_eq]. split; simpl.
    + intros j q [[-> ->]|(_ & Eq & _)]%Hcase; rewrite Hk; [set_solver|].
      apply (sync_known _ Hs) in Eq. set_solver.
    + intros j1 j2 q [[-> ->]|(? & E1 & ?)]%Hcase [[-> E]|(? & E2 & ?)]%Hcase; try done.
      by eapply (sync_distinct _ Hs).
    + intros j q [[-> ->]|(_ & Eq & Hne)]%Hcase; [done|]. rewrite Ho by done. by eapply (sync_read _ Hs).
  - destruct Hsp as [Hk Hr]. split; [|done]. split; simpl.
    + intros j q Eq. rewrite Hk. by eapply (sync_known _ Hs).
    + apply Hs.
    + intros j q Eq. rewrite Hr. by eapply (sync_read _ Hs).
Qed.

(** Dropping a plugin's process leaves the others in sync. *)
Lemma in_sync_delete i pid (h : Host W) w' :
  in_sync h → procs h !! i = Some pid → known w' = known (os h) →
  (∀ q, q ≠ pid → replies q w' = replies q (os h)) → in_sync (mkHost (delete i (procs h)) w').
Proof.
  intros Hs Hi Hk Ho. split; simpl.
  - intros j q [_ Eq]%lookup_delete_Some. rewrite Hk. by eapply (sync_known _ Hs).
  - intros j1 j2 q [_ E1]%lookup_delete_Some [_ E2]%lookup_delete_Some. by eapply (sync_distinct _ Hs).
  - intros j q [Hne Eq]%lookup_delete_Some. rewrite Ho; [by eapply (sync_read _ Hs)|].
    intros ->. by apply Hne, (sync_distinct _ Hs i j pid).
Qed.

(** What one exchange with a process does to its unread lines. *)
Lemma io_spec pid payload (h : Host W) :
  request_line payload →
  let '(r, h') := io pid payload h in
  procs h' = procs h ∧ known (os h') = known (os h) ∧
  (∀ q, q ≠ pid → replies q (os h') = replies q (os h)) ∧
  (∀ l, r = Ok l → replies pid (os h) ++ [answer_to pid payload (os h)] = l :: replies pid (os h')).
Proof.
  intros Hline. unfold io, ask, receive, with_os, lift_result, mbind, HM_bind. pose proof (write_ok pid payload (os h)) as Hw.
  destruct (os_write pid payload (os h)) as [[[]|e] w1]; simpl in *.
  2:{ destruct Hw as (? & ? & _). split_and!; done. }
  destruct Hw as (Hk & Ho & Hr). pose proof (read_ok EXCHANGE_TIMEOUT pid w1) as Hl.
  destruct (os_next_line_timeout EXCHANGE_TIMEOUT pid w1) as [r w2]. destruct Hl as (Hk2 & Ho2 & Hr2).
  assert (known w2 = known (os h) ∧ ∀ q, q ≠ pid → replies q w2 = replies q (os h)) as [Hk3 Ho3].
  { split; [congruence|]. intros q Hq. rewrite Ho2 by done. by apply Ho. }
  destruct r as [[l| |e]|]; simpl; split_and!; try done.
  intros l' [= <-]. rewrite <- Hr by done. by apply Hr2.
Qed.

(** An exchange whose request is one line: it answers with the response to its
    own request, or fails and drops the process. *)
Lemma exchange_sync i p (req : J) (h : Host W) :
  in_sync h → request_line (to_string req +:+ newline) →
  let '(r, h') := exchange i p req h in
  in_sync h' ∧
  match r with
  | Ok l => ∃ pid h1, ensure_proc i p h = (Ok pid, h1) ∧ procs h' = procs h1 ∧ procs h1 !! i = Some pid ∧
      io pid (to_string req +:+ newline) h1 = (Ok l, h') ∧ l = answer_to pid (to_string req +:+ newline) (os h1)
  | Err _ => procs h' !! i = None
  end.
Proof.
  intros Hs Hline. unfold exchange, mbind, HM_bind. pose proof (ensure_proc_sync i p h Hs) as He.
  destruct (ensure_proc i p h) as [[pid|e] h1]; [|done]. destruct He as [Hs1 Hi]. unfold kill_on_error, drop_proc.
  pose proof (io_spec pid (to_string req +:+ newline) h1 Hline) as Hio.
  destruct (io pid _ h1) as [[l|e] h2] eqn:Eio; destruct Hio as (Hp & Hk & Ho & Hl).
  - specialize (Hl l eq_refl). rewrite (sync_read _ Hs1 i pid Hi) in Hl. injection Hl as Ea Hnil.
    split; [|exists pid, h1; by rewrite Hp]. split; rewrite Hp.
    + intros j q Eq. rewrite Hk. by eapply (sync_known _ Hs1).
    + apply Hs1.
    + intros j q Eq. destruct (decide (q = pid)) as [->|Hq]; [done|].
      rewrite Ho by done. by eapply (sync_read _ Hs1).
  - split; [|apply lookup_delete_eq]. rewrite Hp. destruct (kill_ok pid (os h2)) as [Hk2 Ho2].
    apply (in_sync_delete i pid h1); [done|done|congruence|].
    intros q Hq. rewrite Ho2 by done. by apply Ho.
Qed.

(** While exchanges run to the end, requests and responses stay paired: an
    exchange answers with its own request's response, or fails, and then the
    process is gone and the next exchange spawns a new one; either way every
    resident process has been read to the end. *)
Theorem exchange_paired i p (req : J) (h : Host W) :
  in_sync h → request_line (to_string req +:+ newline) →
  let '(r, h') := exchange i p req h in
  in_sync h' ∧
  match r with
  | Ok l => ∃ pid w, procs h' !! i = Some pid ∧ l = answer_to pid (to_string req +:+ newline) w
  | Err _ => procs h' !! i = None
  end.
Proof.
  intros Hs Hline. pose proof (exchange_sync i p req h Hs Hline) as He.
  destruct (exchange i p req h) as [[l|e] h']; [|done]. destruct He as (Hs' & pid & h1 & _ & Hp & Hi & _ & El).
  split; [done|]. exists pid, (os h1). by rewrite Hp.
Qed.

(** An exchange dropped after its request was written (its task was
    aborted by a reconfiguration) breaks the pairing: the next exchange of that
    plugin is answered with the response to the dropped request, and its own
    response is left for the one after it. *)
Theorem dropped_exchange_shifts i p (req1 req2 : J) (h h1 h2 : Host W) l :
  in_sync h → request_line (to_string req1 +:+ newline) → request_line (to_string req2 +:+ newline) →
  exchange_dropped i p req1 h = (Ok (), h1) → exchange i p req2 h1 = (Ok l, h2) →
  ∃ pid w1 w2, procs h2 !! i = Some pid ∧ l = answer_to pid (to_string req1 +:+ newline) w1 ∧
    replies pid (os h2) = [answer_to pid (to_string req2 +:+ newline) w2].
Proof.
  intros Hs Hl1 Hl2. unfold exchange_dropped, mbind at 1, HM_bind at 1. pose proof (ensure_proc_sync i p h Hs) as He.
  destruct (ensure_proc i p h) as [[pid|e] h0]; [|done]. destruct He as [Hs0 Hi].
  unfold ask, with_os, lift_result, mbind, HM_bind. pose proof (write_ok pid (to_string req1 +:+ newline) (os h0)) as Hw.
  destruct (os_write _ _ _) as [[[]|e] w1]; [|done]. intros [= <-]. destruct Hw as (_ & _ & Hr).
  specialize (Hr eq_refl Hl1). rewrite (sync_read _ Hs0 i pid Hi) in Hr.
  unfold exchange, ensure_proc, mbind, HM_bind, get_proc. simpl. rewrite Hi. unfold mret, HM_ret, kill_on_error.
  pose proof (io_spec pid (to_string req2 +:+ newline) (mkHost (procs h0) w1) Hl2) as Hio.
  destruct (io pid _ _) as [[l'|e] h3]; [|done]. intros [= -> ->]. destruct Hio as (Hp & _ & _ & Hl).
  specialize (Hl l eq_refl). simpl in *. rewrite Hr in Hl. simpl in Hl. injection Hl as El1 El2.
  exists pid, (os h0), w1. rewrite Hp. by split_and!.
Qed.
End Pairing.

(** ** Discovery *)
Section Discovered.
Context `{Json J} `{Paths}.
Implicit Types (es : list Entry) (h : PluginHost).

(** The manifests that load, in directory order. *)
Definition manifest_of (allow : list string) (e : Entry) : option Manifest :=
  if e_is_dir e then
    raw ← e_manifest e; j ← from_str raw; m ← de_manifest j;
    if accepts allow m then Some m else None
  else None.
Definition plugin_of (e : Entry) (m : Manifest) : Plugin :=
  mkPlugin (mf_name m) (e_path e) (exec_path (e_path e) (mf_exec m)) (mf_args m).
Definition loaded (allow : list string) es : list (Plugin * Manifest) :=
  omap (λ e, m ← manifest_of allow e; Some (plugin_of e m, m)) es.

Lemma add_types_lookup n ts (m : gmap string nat) t :
  add_types n ts m !! t = match m !! t with Some k => Some k | None => if decide (t ∈ ts) then Some n else None end.
Proof.
  unfold add_types. revert m. induction ts as [|u ts IH]; intros m; simpl; [by destruct (m !! t)|].
  rewrite IH. destruct (m !! u) as [k|] eqn:Eu.
  - destruct (m !! t) eqn:Et; [done|].
    repeat case_decide; try done; set_solver.
  - destruct (decide (u = t)) as [->|Hne].
    + rewrite lookup_insert_eq, Eu. by rewrite decide_True by set_solver.
    + rewrite lookup_insert_ne by done. destruct (m !! t); [done|].
      repeat case_decide; try done; set_solver.
Qed.

(** The first loaded plugin that declares a type. *)
Definition first_serving (t : string) (l : list (Plugin * Manifest)) : option Plugin :=
  fst <$> head (filter (λ p, t ∈ mf_types p.2) l).

Lemma for_type_register allow e h t :
  (∀ n, by_type h !! t = Some n → is_Some (plugins h !! n)) →
  snd <$> for_type (register allow h e) t =
    match snd <$> for_type h t with
    | Some p => Some p
    | None => m ← manifest_of allow e; if decide (t ∈ mf_types m) then Some (plugin_of e m) else None
    end ∧
  (∀ n, by_type (register allow h e) !! t = Some n → is_Some (plugins (register allow h e) !! n)).
Proof.
  intros Hh. assert (snd <$> for_type h t = match snd <$> for_type h t with Some p => Some p | None => None end) as Eid
    by (by destruct (for_type h t)).
  unfold register, manifest_of. destruct (e_is_dir e); simpl; [|done].
  destruct (e_manifest e) as [raw|]; simpl; [|done]. destruct (from_str raw) as [j|]; simpl; [|done].
  destruct (de_manifest j) as [m|]; simpl; [|done]. destruct (accepts allow m); simpl; [|done].
  unfold for_type. simpl. rewrite add_types_lookup. destruct (by_type h !! t) as [n|] eqn:En; simpl.
  - destruct (Hh n eq_refl) as [p Ep]. rewrite (lookup_app_l_Some _ _ _ _ Ep), Ep. simpl.
    split; [done|]. intros n' [= <-]. by rewrite (lookup_app_l_Some _ _ _ _ Ep).
  - case_decide; simpl; [|done]. rewrite list_lookup_middle by done. simpl.
    split; [done|]. intros n' [= <-]. by rewrite list_lookup_middle.
Qed.

(** A connector type is served by the first plugin in directory order that
    loads (a readable manifest, an allowed name, a known protocol) and declares
    it, and by no plugin when there is none. *)
Theorem discover_first_serving es allow t :
  snd <$> for_type (discover (Some es) allow) t = first_serving t (loaded allow es).
Proof.
  unfold discover, first_serving. simpl.
  assert (∀ h, (∀ n, by_type h !! t = Some n → is_Some (plugins h !! n)) →
    snd <$> for_type (foldl (register allow) h es) t =
      match snd <$> for_type h t with
      | Some p => Some p
      | None => fst <$> head (filter (λ p, t ∈ mf_types p.2) (loaded allow es))
      end) as Hgen.
  { induction es as [|e es IH]; intros h Hh; simpl; [by destruct (for_type h t)|].
    destruct (for_type_register allow e h t Hh) as [Ef Hh']. rewrite (IH _ Hh'), Ef.
    destruct (for_type h t) as [[n p]|]; simpl; [done|].
    destruct (manifest_of allow e) as [m|]; simpl; [|done]. rewrite filter_cons. simpl.
    by case_decide. }
  by rewrite Hgen.
Qed.
End Discovered.

(** ** A host with echoing plugins *)
Module PluginsRun.
Definition parse (s : string) : option Tree :=
  if decide (s = "m1") then
    Some (TObj [("name", TStr "opc"); ("types", TArr [TStr "opcua"; TStr "s7"]); ("exec", TStr "./opc")])
  else if decide (s = "m2") then
    Some (TObj [("name", TStr "s7"); ("types", TArr [TStr "s7"]); ("exec", TStr "s7"); ("protocol", TInt 1)])
  else None.
#[local] Instance json : Json Tree := tree_json parse.
#[local] Instance laws : JsonLaws Tree := tree_laws parse.
#[local] Instance paths : Paths := {|
  is_absolute := starts_with "/"; path_join a b := a +:+ "/" +:+ b |}.

(** The unread lines of each process, and how many were spawned. *)
Record Os := mkOs { unread : gmap Z (list string); spawned : nat }.
Definition lines_of (pid : Z) (w : Os) : list string := default [] (unread w !! pid).
Definition put (pid : Z) (l : list string) (w : Os) : Os := mkOs (<[pid := l]> (unread w)) (spawned w).
Fixpoint pids (n : nat) : list Z := match n with O => [] | S n => Z.of_nat n :: pids n end.

#[local] Instance os : Procs Os := {|
  os_spawn _ w := (Ok (Z.of_nat (spawned w)), mkOs (<[Z.of_nat (spawned w) := []]> (unread w)) (S (spawned w)));
  os_write pid l w := (Ok (), put pid (lines_of pid w ++ ["re:" +:+ l]) w);
  os_next_line pid w := match lines_of pid w with
    | l :: ls => (Plugins.Line l, put pid ls w) | [] => (Plugins.Eof, w) end;
  os_next_line_timeout _ pid w := match lines_of pid w with
    | l :: ls => (Some (Plugins.Line l), put pid ls w) | [] => (None, w) end;
  os_kill pid w := w;
  os_now_ms _ := 5;
|}.
#[local] Instance lockstep : Lockstep Os := {|
  request_line _ := True; replies := lines_of; answer_to _ l _ := "re:" +:+ l; known w := pids (spawned w) |}.

Lemma lines_put pid l w : lines_of pid (put pid l w) = l.
Proof. unfold lines_of, put. simpl. by rewrite lookup_insert_eq. Qed.
Lemma lines_put_ne pid q l w : q ≠ pid → lines_of q (put pid l w) = lines_of q w.
Proof. intros Hq. unfold lines_of, put. simpl. by rewrite lookup_insert_ne. Qed.

#[local] Instance lockstep_ok : LockstepOk (W := Os).
Proof.
  split.
  - intros p w. simpl. split_and!; [|done| |].
    + assert (∀ m, (m ≤ spawned w)%nat → Z.of_nat (spawned w) ∉ pids m) as Hm; [|by apply Hm].
      induction m as [|m IH]; intros Hle; simpl; [set_solver|]. apply not_elem_of_cons. split; [lia|apply IH; lia].
    + unfold lines_of. simpl. by rewrite lookup_insert_eq.
    + intros q Hq. unfold lines_of. simpl. by rewrite lookup_insert_ne.
  - intros pid l w. simpl. split_and!; [done| |].
    + intros q Hq. by apply lines_put_ne.
    + intros _ _. apply lines_put.
  - intros n pid w. simpl. destruct (lines_of pid w) as [|l ls] eqn:El; split_and!; try done.
    + intros q Hq. by apply lines_put_ne.
    + intros l' [= <-]. by rewrite lines_put.
  - done.
Qed.

Definition h0 : Host Os := mkHost ∅ (mkOs ∅ 0).
Definition p1 : Plugin := mkPlugin "opc" "/p/opc" "/p/opc/./opc" [].

Lemma h0_sync : in_sync h0.
Proof. split; intros *; simpl; by rewrite lookup_empty. Qed.

Lemma exchange_paired_witness :
  (exchange 0 p1 (TStr "hello") h0).1 = Ok ("re:" +:+ debug_str "hello" +:+ newline) ∧
  in_sync (exchange 0 p1 (TStr "hello") h0).2.
Proof.
  split; [vm_compute; reflexivity|].
  pose proof (exchange_paired 0 p1 (TStr "hello") h0 h0_sync I) as H.
  destruct (exchange 0 p1 (TStr "hello") h0) as [r h']. exact (proj1 H).
Defined.

Lemma dropped_exchange_shifts_witness :
  ∃ h1 h2, exchange 0 p1 (TStr "b") h1 = (Ok ("re:" +:+ debug_str "a" +:+ newline), h2) ∧
    ∃ pid, lines_of pid (Plugins.os h2) = ["re:" +:+ debug_str "b" +:+ newline].
Proof.
  set (h1 := (exchange_dropped 0 p1 (TStr "a") h0).2).
  exists h1, (exchange 0 p1 (TStr "b") h1).2. split; [vm_compute; reflexivity|].
  destruct (dropped_exchange_shifts 0 p1 (TStr "a") (TStr "b") h0 h1 (exchange 0 p1 (TStr "b") h1).2
    ("re:" +:+ debug_str "a" +:+ newline) h0_sync I I) as (pid & w1 & w2 & _ & _ & H).
  - vm_compute. reflexivity.
  - vm_compute. reflexivity.
  - exists pid. exact H.
Defined.

Definition entries : list Entry :=
  [mkEntry "/p/readme" false None; mkEntry "/p/opc" true (Some "m1"); mkEntry "/p/s7" true (Some "m2")].

Example discover_s7 : for_type (discover (Some entries) []) "s7" = Some (0%nat, p1).
Proof. vm_compute. reflexivity. Qed.
Example discover_s7_only :
  snd <$> for_type (discover (Some entries) ["s7"]) "s7" = Some (mkPlugin "s7" "/p/s7" "s7" []).
Proof. vm_compute. reflexivity. Qed.
End PluginsRun.
