(* ===== verification/HostSdk.v ===== *)
(** * The plugin host and the SDK together

    The host ([src/plugins.rs]) against processes that run the SDK's loop
    ([crates/collector-sdk/src/lib.rs]) over a connector: [SdkProcs] is what such
    processes add to [Lockstep]. Each operation of the host is then the
    connector's operation, on the request the connector sees, with the answer as
    it arrives; or the process is gone. *)
From Stdlib Require Import Ascii.
From S2P Require Import Prelude Float Proto RustStr Json Wire Sdk Jobs Plugins PluginsProps.
Set Warnings "-register-all".
Local Open Scope Z_scope.

(** ** What arrives *)
Section Requests.
Context `{JsonLaws J} `{!ScalarLaws J} `{!Wire J} `{!WireLaws J}.

(** The connector's view of the host's requests. *)
Definition read_seen (conn : Conn J) (ing : Job J) : ReadRequest J :=
  mkReadRequest PROTOCOL "read" (connector_id ing) (ds_type conn) (wire (config conn)) (wire (secrets conn))
    (wire (selection ing)) j_null (wire (naming ing)) [] j_null None false.
Definition subscribe_seen (conn : Conn J) (ing : Job J) : ReadRequest J :=
  mkReadRequest PROTOCOL "subscribe" (connector_id ing) (ds_type conn) (wire (config conn)) (wire (secrets conn))
    (wire (selection ing)) j_null (wire (naming ing)) [] j_null None false.
Definition query_seen (op ty : string) (config secrets args : J) : ReadRequest J :=
  mkReadRequest PROTOCOL op "" ty (wire config) (wire secrets)
    (if is_null args then j_null else wire args) (wire args) j_null [] j_null None false.
Definition write_seen (ty : string) (config secrets target : J) (value : f64) (readback : bool) : ReadRequest J :=
  mkReadRequest PROTOCOL "write" "" ty (wire config) (wire secrets) j_null j_null j_null []
    (wire target) (if is_finite value then Some (wire_f64 value) else None) readback.

Ltac seen := unfold de_request; rewrite wire_view by distinct; simpl; rewrite !wire_get; simpl;
  autorewrite with wire; simpl; unfold de_u32; rewrite ?wire_u64, ?as_u64_u64 by (by vm_compute); simpl.

Lemma read_request_seen conn ing : mirror <$> de_request (wire (read_request conn ing)) = Some (read_seen conn ing).
Proof.
  unfold read_request. seen. unfold mirror. simpl. by rewrite is_null_null, andb_false_r.
Qed.

Lemma subscribe_request_seen conn ing :
  mirror <$> de_request (wire (subscribe_request conn ing)) = Some (subscribe_seen conn ing).
Proof.
  unfold subscribe_request. seen. unfold mirror. simpl. by rewrite is_null_null, andb_false_r.
Qed.

Lemma query_request_seen op ty config secrets args :
  mirror <$> de_request (wire (query_request op ty config secrets args)) = Some (query_seen op ty config secrets args).
Proof.
  unfold query_request. seen. unfold mirror, query_seen. simpl.
  rewrite is_null_null, wire_is_null. by destruct (is_null args).
Qed.

Lemma write_request_seen ty config secrets target value readback :
  mirror <$> de_request (wire (write_request ty config secrets target value readback)) =
  Some (write_seen ty config secrets target value readback).
Proof.
  unfold write_request. seen. rewrite (wire_number value). unfold de_option, write_seen.
  destruct (is_finite value) eqn:Hx.
  - rewrite not_null_f64, as_f64_f64 by by apply wire_f64_finite. unfold mirror. simpl. by rewrite is_null_null.
  - autorewrite with wire. unfold mirror. simpl. by rewrite is_null_null.
Qed.
End Requests.

(** ** What the host makes of the answers *)
Section Answers.
Context `{JsonLaws J} `{!ScalarLaws J} `{!Wire J} `{!WireLaws J}.

(** The types of [Sample]'s fields. *)
Definition sample_ok (s : Sdk.PluginSample) : Prop :=
  is_u32 (Sdk.ps_quality s) ∧ (∀ t, Sdk.ps_ts_ms s = Some t → i64_min ≤ t ≤ i64_max).
Definition all_finite (samples : list Sdk.PluginSample) : bool :=
  forallb (λ s, is_finite (Sdk.ps_value s)) samples.

(** The host's record of a sample the SDK sends. *)
Definition arrived (s : Sdk.PluginSample) : PluginSample :=
  mkPluginSample (Sdk.ps_variable_id s) (wire_f64 (Sdk.ps_value s)) (Sdk.ps_ts_ms s) (Some (Sdk.ps_quality s)).

Lemma sample_arrives s :
  sample_ok s →
  de_plugin_sample (wire (sample_json s)) = if is_finite (Sdk.ps_value s) then Some (arrived s) else None.
Proof.
  intros [Hq Ht]. unfold de_plugin_sample, sample_json. rewrite wire_view by distinct.
  destruct s as [v x t q]. simpl in *. rewrite !wire_get.
  assert (is_u64 q) as Hq' by (unfold is_u32, is_u64 in *; lia).
  assert (de_u32 (j_u64 q) = Some q) as Hu.
  { unfold de_u32. rewrite as_u64_u64 by done. simpl. by rewrite decide_True. }
  destruct t as [t|]; simpl; autorewrite with wire; simpl; rewrite (wire_number x);
    destruct (is_finite x) eqn:Hx; rewrite ?as_f64_null; try done;
    rewrite as_f64_f64 by (by apply wire_f64_finite); simpl;
    rewrite ?wire_i64, ?(wire_u64 q) by auto; unfold de_option; rewrite ?not_null_i64, ?not_null_u64, Hu; simpl; [|done].
  unfold de_i64. by rewrite as_i64_i64 by auto.
Qed.

Lemma samples_arrive samples :
  Forall sample_ok samples →
  mapM de_plugin_sample (wire <$> (sample_json <$> samples)) =
    if all_finite samples then Some (arrived <$> samples) else None.
Proof.
  induction 1 as [|s l Hs _ IH]; [done|]. rewrite !fmap_cons. cbn [mapM].
  rewrite sample_arrives by done. change (all_finite (s :: l)) with (is_finite (Sdk.ps_value s) && all_finite l).
  destruct (is_finite _); cbn [mbind option_bind andb]; [|done]. rewrite IH. by destruct (all_finite l).
Qed.

Lemma sample_shallow s : (depth (sample_json s) ≤ 1)%nat.
Proof.
  apply (depth_object 0). destruct s as [v x [t|] q]; repeat constructor; simpl;
    rewrite ?depth_str, ?depth_f64, ?depth_i64, ?depth_u64; lia.
Qed.

(** Fields that hold no documents. *)
Ltac flat_fields := repeat apply Forall_cons_2; try apply Forall_nil_2; simpl; apply shallow_of; auto with wire.

(** The texts of the responses, parsed by the host. *)
Lemma samples_fields samples :
  Forall (λ p : string * J, depth p.2 < nesting_limit)%nat
    [("ok", j_bool true); ("samples", j_array (sample_json <$> samples))].
Proof.
  repeat apply Forall_cons_2; [apply shallow_of, depth_bool| |apply Forall_nil_2].
  apply (Nat.le_lt_trans _ 2); [|unfold nesting_limit; lia].
  apply depth_array, Forall_fmap, Forall_true. intros s. apply sample_shallow.
Qed.

Lemma read_arrives what samples :
  Forall sample_ok samples →
  parse_with de_read_resp what (to_string (ok_with [("samples", j_array (sample_json <$> samples))])) =
    if all_finite samples then Ok (mkReadResp true (arrived <$> samples) None) else Err what.
Proof.
  intros Hok. unfold parse_with, ok_with. rewrite parse_object by apply samples_fields.
  simpl. unfold de_read_resp. rewrite wire_view by distinct. simpl. rewrite !wire_get. simpl. autorewrite with wire. simpl.
  unfold de_vec. autorewrite with wire. simpl. rewrite samples_arrive by done. by destruct (all_finite samples).
Qed.

Lemma read_done_arrives what :
  parse_with de_read_resp what (to_string (ok_with [])) = Ok (mkReadResp true [] None).
Proof.
  unfold parse_with, ok_with. rewrite parse_object by flat_fields.
  simpl. unfold de_read_resp. rewrite wire_view by distinct. simpl. rewrite !wire_get. simpl. by autorewrite with wire.
Qed.

(** The error text of a failed operation. *)
Lemma error_arrives e : from_str (to_string (err_with e)) = Some (wire (err_with e)).
Proof. apply parse_object. flat_fields. Qed.

Ltac error_fields := unfold parse_with; rewrite error_arrives; simpl; unfold err_with;
  rewrite wire_view by distinct; simpl; rewrite !wire_get; simpl; autorewrite with wire; simpl;
  unfold de_option; rewrite not_null_str; autorewrite with wire.

Lemma read_error_arrives what e :
  parse_with de_read_resp what (to_string (err_with e)) = Ok (mkReadResp false [] (Some e)).
Proof. unfold de_read_resp. error_fields. done. Qed.
Lemma query_error_arrives what e :
  parse_with de_query_resp what (to_string (err_with e)) = Ok (mkQueryResp false j_null (Some e)).
Proof. unfold de_query_resp. error_fields. done. Qed.
Lemma write_error_arrives what e :
  parse_with de_write_resp what (to_string (err_with e)) = Ok (mkWriteResp false None (Some e)).
Proof. unfold de_write_resp. error_fields. done. Qed.

Lemma query_arrives what v :
  parse_with de_query_resp what (to_string (ok_with [("result", v)])) =
    if decide (depth (ok_with [("result", v)]) ≤ nesting_limit)%nat then Ok (mkQueryResp true (wire v) None) else Err what.
Proof.
  unfold parse_with. rewrite parse_print. case_decide; [|done]. simpl. unfold de_query_resp, ok_with.
  rewrite wire_view by distinct. simpl. rewrite !wire_get. simpl. by autorewrite with wire.
Qed.

(** The answers of the operations that have no result. *)
Ltac no_result := unfold parse_with, ok_with; rewrite parse_object; [|flat_fields];
  simpl; unfold de_query_resp; rewrite wire_view by distinct; simpl; rewrite !wire_get; simpl; by autorewrite with wire.

Lemma query_samples_arrive what samples :
  parse_with de_query_resp what (to_string (ok_with [("samples", j_array (sample_json <$> samples))])) =
    Ok (mkQueryResp true j_null None).
Proof.
  unfold parse_with, ok_with. rewrite parse_object by apply samples_fields.
  simpl. unfold de_query_resp. rewrite wire_view by distinct. simpl. rewrite !wire_get. simpl. by autorewrite with wire.
Qed.
Lemma query_readback_arrives what rb :
  parse_with de_query_resp what (to_string (ok_with [("readback", default j_null (j_f64 <$> rb))])) =
    Ok (mkQueryResp true j_null None).
Proof. destruct rb; no_result. Qed.
Lemma query_done_arrives what :
  parse_with de_query_resp what (to_string (ok_with [])) = Ok (mkQueryResp true j_null None).
Proof. no_result. Qed.

(** A read-back value that is not finite is lost. *)
Definition arrived_f64 (x : f64) : option f64 := if is_finite x then Some (wire_f64 x) else None.

Lemma write_arrives what rb :
  parse_with de_write_resp what (to_string (ok_with [("readback", default j_null (j_f64 <$> rb))])) =
    Ok (mkWriteResp true (rb ≫= arrived_f64) None).
Proof.
  unfold parse_with, ok_with. rewrite parse_object.
  2:{ destruct rb; flat_fields. }
  simpl. unfold de_write_resp. rewrite wire_view by distinct. simpl. rewrite !wire_get. simpl. autorewrite with wire. simpl.
  unfold de_option, arrived_f64. destruct rb as [x|]; simpl; autorewrite with wire; simpl; [|done].
  rewrite (wire_number x). destruct (is_finite x) eqn:Hx.
  - by rewrite not_null_f64, as_f64_f64 by (try apply wire_f64_finite; done).
  - rewrite (as_f64_not_finite x Hx). by autorewrite with wire.
Qed.
End Answers.

(** ** Processes that run the SDK *)

(** A process of plugin [p] starts with the connector [fresh p]; writing one
    request line to it runs one round of the SDK's loop. *)
Class SdkProcs (J W C : Type) `{Json J} `{!Sdk.Collector J C} `{Procs W} `{Lockstep W} := {
  fresh : Plugin → C;
  proc_state : Z → W → C;
  one_request : ∀ line, one_line line → blank line = false → is_subscribe (J := J) line = false →
    request_line (line +:+ newline);
  spawn_fresh : ∀ p w, let '(r, w') := os_spawn p w in
    (∀ pid, r = Ok pid → proc_state pid w' = fresh p) ∧
    (∀ q, r ≠ Ok q → proc_state q w' = proc_state q w);
  write_runs : ∀ pid line w, let '(r, w') := os_write pid (line +:+ newline) w in
    (∀ q, q ≠ pid → proc_state q w' = proc_state q w) ∧
    (r = Ok () → one_line line → blank line = false → is_subscribe (J := J) line = false →
     answer_to pid (line +:+ newline) w = to_string (J := J) (Sdk.answer line (proc_state pid w)).1 ∧
     proc_state pid w' = (Sdk.answer (J := J) line (proc_state pid w)).2);
  read_keeps : ∀ n pid q w, proc_state q (os_next_line_timeout n pid w).2 = proc_state q w;
  kill_keeps : ∀ pid q w, q ≠ pid → proc_state q (os_kill pid w) = proc_state q w;
}.

Section Served.
Context `{JsonLaws J} `{!ScalarLaws J} `{!Wire J} `{!WireLaws J}.
Context {C W : Type} `{!Sdk.Collector J C} `{Procs W} `{Lockstep W} `{!LockstepOk} `{!SdkProcs J W C}.
Implicit Types (h : Host W) (i j : nat).

(** The connector of plugin [i], if its process is there. *)
Definition state_of i h : option C := (λ pid, proc_state pid (os h)) <$> procs h !! i.
(** The connector the next request of plugin [i] meets. *)
Definition state_before i (p : Plugin) h : C := default (fresh p) (state_of i h).
(** The connectors of the other plugins are as they were. *)
Definition others_kept i h h' : Prop := ∀ j, j ≠ i → state_of j h' = state_of j h.

Lemma ensure_proc_state i p h :
  in_sync h →
  let '(r, h') := ensure_proc i p h in
  others_kept i h h' ∧ ∀ pid, r = Ok pid → proc_state pid (os h') = state_before i p h.
Proof.
  intros Hs. unfold ensure_proc, mbind, HM_bind, get_proc, state_before, state_of.
  destruct (procs h !! i) as [pid|] eqn:Ei; [split; [done|by intros ? [= <-]]|].
  unfold spawn, with_os, mbind, HM_bind. pose proof (spawn_ok p (os h)) as Hsp. pose proof (spawn_fresh p (os h)) as Hf.
  destruct (os_spawn p (os h)) as [[pid|e] w']; simpl in *; destruct Hf as [Hf Hk].
  - destruct Hsp as (Hn & _). split; [|intros ? [= <-]; by apply Hf].
    intros j Hj. unfold state_of. simpl. rewrite lookup_partial_alter_ne by done.
    destruct (procs h !! j) as [q|] eqn:Ej; [|done]. simpl. f_equal. apply Hk. intros [= ->].
    by apply (sync_known _ Hs) in Ej.
  - split; [|done]. intros j Hj. unfold state_of. simpl.
    destruct (procs h !! j) as [q|]; [|done]. simpl. f_equal. by apply Hk.
Qed.

(** What touches only the process of plugin [i] keeps the other connectors. *)
Lemma kept_but i pid h h' :
  in_sync h → procs h !! i = Some pid → (∀ j, j ≠ i → procs h' !! j = procs h !! j) →
  (∀ q, q ≠ pid → proc_state q (os h') = proc_state q (os h)) → others_kept i h h'.
Proof.
  intros Hs Hi Hp Hq j Hj. unfold state_of. rewrite Hp by done.
  destruct (procs h !! j) as [q|] eqn:Ej; [|done]. simpl. f_equal. apply Hq.
  intros ->. by apply Hj, (sync_distinct _ Hs j i pid).
Qed.

Lemma io_runs pid line h :
  let '(r, h') := io pid (line +:+ newline) h in
  procs h' = procs h ∧ (∀ q, q ≠ pid → proc_state q (os h') = proc_state q (os h)) ∧
  (∀ l, r = Ok l → one_line line → blank line = false → is_subscribe (J := J) line = false →
   answer_to pid (line +:+ newline) (os h) = to_string (J := J) (Sdk.answer line (proc_state pid (os h))).1 ∧
   proc_state pid (os h') = (Sdk.answer (J := J) line (proc_state pid (os h))).2).
Proof.
  unfold io, ask, receive, with_os, lift_result, mbind, HM_bind. pose proof (write_runs pid line (os h)) as Hw.
  destruct (os_write pid (line +:+ newline) (os h)) as [[[]|e] w1]; destruct Hw as [Ho Hw]; simpl; [|done].
  pose proof (λ q, read_keeps EXCHANGE_TIMEOUT pid q w1) as Hr. simpl in Hr.
  destruct (os_next_line_timeout EXCHANGE_TIMEOUT pid w1) as [l w2]. simpl in Hr.
  assert (∀ q, q ≠ pid → proc_state q w2 = proc_state q (os h)) as Hq by (intros q Hq; rewrite Hr; by apply Ho).
  destruct l as [[l| |e]|]; simpl; split_and!; try done. intros _ _. rewrite Hr. by apply Hw.
Qed.

(** One exchange with plugin [i]: the connector ends as [c'], the result is
    [good]; or it failed and the process is gone. *)
Definition exchanged {A} i h h' (c' : C) (good : result string A → Prop) (r : result string A) : Prop :=
  in_sync h' ∧ others_kept i h h' ∧
  match state_of i h' with Some c => c = c' ∧ good r | None => ∃ e, r = Err e end.

(** A request line the plugin parses. *)
Lemma request_line_ok (req : J) rq :
  mirror <$> de_request (wire req) = Some rq → rq_op rq ≠ "subscribe" → (depth req ≤ nesting_limit)%nat →
  blank (to_string req) = false ∧ is_subscribe (J := J) (to_string req) = false ∧
  ∀ c, Sdk.answer (J := J) (to_string req) c = dispatch rq c.
Proof.
  intros (rq0 & Hde & ->)%fmap_Some Hop Hd.
  assert (parse_request (to_string req) = Ok (mirror rq0)) as Hp.
  { unfold parse_request. rewrite parse_print, decide_True by done. simpl. by rewrite Hde. }
  split_and!; [apply bool_decide_eq_false_2, print_not_blank| |].
  - unfold is_subscribe. rewrite Hp. by apply bool_decide_eq_false_2.
  - intros c. unfold Sdk.answer. by rewrite Hp.
Qed.

(** One exchange of a request that is not a subscription is one dispatch. *)
Lemma exchange_served i p (req : J) rq h :
  in_sync h → mirror <$> de_request (wire req) = Some rq → rq_op rq ≠ "subscribe" → (depth req ≤ nesting_limit)%nat →
  let '(a, c') := dispatch rq (state_before i p h) in
  let '(r, h') := exchange i p req h in
  exchanged i h h' c' (λ r, r = Ok (to_string a)) r.
Proof.
  intros Hs Hde Hop Hd. destruct (request_line_ok req rq Hde Hop Hd) as (Hb & Hsub & Ha).
  pose proof (print_one_line req) as Hone.
  pose proof (exchange_sync i p req h Hs (one_request _ Hone Hb Hsub)) as He.
  pose proof (ensure_proc_state i p h Hs) as Hst. pose proof (ensure_proc_sync i p h Hs) as Hs1.
  destruct (dispatch rq (state_before i p h)) as [a c'] eqn:Ed. unfold exchanged, state_of at 1.
  revert He. unfold exchange, mbind, HM_bind. destruct (ensure_proc i p h) as [[pid|e] h1].
  2:{ intros [Hs' Hi]. split_and!; [done|apply Hst|]. rewrite Hi. simpl. eauto. }
  destruct Hst as [Hk Hst]. specialize (Hst pid eq_refl). destruct Hs1 as [Hs1 Hi1]. unfold kill_on_error, drop_proc.
  pose proof (io_runs pid (to_string req) h1) as Hio.
  destruct (io pid _ h1) as [[l|e] h2] eqn:Eio; destruct Hio as (Hp & Hq & Hl).
  - intros (Hs' & pid' & h1' & [= <- <-] & _ & _ & _ & ->).
    destruct (Hl _ eq_refl Hone Hb Hsub) as [Ew Es]. rewrite Ha, Hst, Ed in Ew, Es. simpl in Ew, Es.
    split_and!; [done| |rewrite Hp, Hi1; simpl; by rewrite Es, Ew].
    intros j Hj. rewrite <- Hk by done. apply (kept_but i pid h1 h2); [done|done|by rewrite Hp|done|done].
  - intros [Hs' Hi]. split_and!; [done| |rewrite Hi; simpl; eauto].
    intros j Hj. rewrite <- Hk by done. apply (kept_but i pid); [done|done| | |done]; simpl.
    + intros k Hk'. by rewrite lookup_delete_ne, Hp.
    + intros q Hne. rewrite kill_keeps by done. by apply Hq.
Qed.
(** An operation that looks at the answer and leaves the host as it is. *)
Lemma exchanged_then {A} i p (req : J) h (c' : C) l (k : string → HM W A) (f : Host W → result string A) :
  (let '(r, h') := exchange i p req h in exchanged i h h' c' (λ r, r = Ok l) r) →
  (∀ h', k l h' = (f h', h')) →
  let '(r, h') := (exchange i p req ≫= k) h in exchanged i h h' c' (λ r, r = f h') r.
Proof.
  intros He Hk. unfold mbind, HM_bind. destruct (exchange i p req h) as [r h'].
  destruct He as (Hs & Ho & He). unfold exchanged. destruct r as [l'|e].
  - destruct (state_of i h') as [c|] eqn:Ei; [|destruct He as [e [=]]]. destruct He as [Hc [= ->]].
    rewrite Hk. by rewrite Ei.
  - destruct (state_of i h') as [c|]; [by destruct He as [_ [=]]|]. eauto.
Qed.

(** What the agent gets for the result of a connector's [read]. *)
Definition read_result (now : Z) (a : result string (list Sdk.PluginSample)) : result string (list Sample) :=
  match a with
  | Ok samples =>
      if all_finite samples then Ok (sample_of now <$> (arrived <$> samples))
      else Err "plugin response not valid JSON"
  | Err e => Err e
  end.
Definition write_result (a : result string (option f64)) : result string (option f64) :=
  match a with Ok rb => Ok (rb ≫= arrived_f64) | Err e => Err e end.
Definition query_result (a : result string J) : result string J :=
  match a with
  | Ok v => if decide (depth (ok_with [("result", v)]) ≤ nesting_limit)%nat then Ok (wire v)
            else Err "plugin response not valid JSON"
  | Err e => Err e
  end.

Lemma read_served i p (conn : Conn J) (ing : Job J) h :
  in_sync h → (depth (read_request conn ing) ≤ nesting_limit)%nat →
  let '(a, c') := c_read (read_seen conn ing) (state_before i p h) in
  (∀ samples, a = Ok samples → Forall sample_ok samples) →
  let '(r, h') := Plugins.read i p conn ing h in
  exchanged i h h' c' (λ r, r = read_result (os_now_ms (os h')) a) r.
Proof.
  intros Hs Hd. pose proof (exchange_served i p (read_request conn ing) (read_seen conn ing) h Hs) as He.
  rewrite read_request_seen in He. specialize (He eq_refl ltac:(done) Hd). unfold dispatch in He. simpl in He.
  destruct (c_read _ _) as [a c']. intros Ha.
  apply (exchanged_then _ _ _ _ _ (to_string (match a with
    | Ok samples => ok_with [("samples", j_array (sample_json <$> samples))] | Err e => err_with e end))); [by destruct a|].
  intros h'. unfold mbind, HM_bind, lift_result. destruct a as [samples|e].
  - rewrite read_arrives by auto. unfold read_result. by destruct (all_finite samples).
  - by rewrite read_error_arrives.
Qed.

(** C9. Reading through a plugin is reading the connector: when the connector's
    samples have their fields' types, [Plugins.read] against a process that runs
    the SDK answers what the connector's [read] answers to the request as it
    arrives, sample by sample or its error text (a value that is not finite costs
    the whole answer), and leaves the connector in the state that [read] left it
    in; otherwise the exchange failed and the process is gone. The other plugins'
    connectors are untouched. *)
Theorem remote_read i p (conn : Conn J) (ing : Job J) h :
  in_sync h → (depth (read_request conn ing) ≤ nesting_limit)%nat →
  let '(a, c') := c_read (read_seen conn ing) (state_before i p h) in
  (∀ samples, a = Ok samples → Forall sample_ok samples) →
  let '(r, h') := Plugins.read i p conn ing h in
  exchanged i h h' c' (λ r, r = read_result (os_now_ms (os h')) a) r.
Proof. apply read_served. Qed.

Lemma write_served i p ty (config secrets target : J) value readback h :
  in_sync h → (depth (write_request ty config secrets target value readback) ≤ nesting_limit)%nat →
  let '(a, c') := c_write (write_seen ty config secrets target value readback) (state_before i p h) in
  let '(r, h') := Plugins.write i p ty config secrets target value readback h in
  exchanged i h h' c' (λ r, r = write_result a) r.
Proof.
  intros Hs Hd. pose proof (exchange_served i p (write_request ty config secrets target value readback)
    (write_seen ty config secrets target value readback) h Hs) as He.
  rewrite write_request_seen in He. specialize (He eq_refl ltac:(done) Hd). unfold dispatch in He. simpl in He.
  destruct (c_write _ _) as [a c'].
  apply (exchanged_then _ _ _ _ _ (to_string (match a with
    | Ok rb => ok_with [("readback", default j_null (j_f64 <$> rb))] | Err e => err_with e end)) _ (λ _, write_result a));
    [by destruct a|].
  intros h'. unfold mbind, HM_bind, lift_result. destruct a as [rb|e].
  - by rewrite write_arrives.
  - by rewrite write_error_arrives.
Qed.

(** C10. Writing through a plugin is writing the connector, once: its [write]
    sees the target and the value as they arrive (a value that is not finite does
    not), and the agent gets its read-back or its error text. *)
Theorem remote_write i p ty (config secrets target : J) value readback h :
  in_sync h → (depth (write_request ty config secrets target value readback) ≤ nesting_limit)%nat →
  let '(a, c') := c_write (write_seen ty config secrets target value readback) (state_before i p h) in
  let '(r, h') := Plugins.write i p ty config secrets target value readback h in
  exchanged i h h' c' (λ r, r = write_result a) r.
Proof. apply write_served. Qed.

(** The connector's answer to an ad-hoc operation; what has no result answers
    null. *)
Definition discovery_json (d : Discovery J) : J :=
  j_object [("kind", j_str "tree"); ("schema_kind", j_str (d_schema_kind d)); ("nodes", j_array (node_json <$> d_nodes d))].
Definition c_adhoc (rq : ReadRequest J) (c : C) : result string J * C :=
  if decide (rq_op rq = "read") then let '(r, c) := c_read rq c in ((λ _, j_null) <$> r, c)
  else if decide (rq_op rq = "discover") then let '(r, c) := c_discover rq c in (discovery_json <$> r, c)
  else if decide (rq_op rq ∈ ["query"; "test"; "history"]) then c_query rq c
  else if decide (rq_op rq = "write") then let '(r, c) := c_write rq c in ((λ _, j_null) <$> r, c)
  else (Ok j_null, c).

Lemma adhoc_arrives what rq c :
  let '(a, c') := c_adhoc rq c in
  ∃ answer, dispatch (J := J) rq c = (answer, c') ∧
    parse_with de_query_resp what (to_string answer) =
      match a with
      | Ok v => if decide (depth (ok_with [("result", v)]) ≤ nesting_limit)%nat
                then Ok (mkQueryResp true (wire v) None) else Err what
      | Err e => Ok (mkQueryResp false j_null (Some e))
      end.
Proof.
  assert (depth (ok_with [("result", j_null)]) ≤ nesting_limit)%nat as Hnull.
  { apply (Nat.le_trans _ 1); [|unfold nesting_limit; lia]. apply (depth_object 0).
    repeat apply Forall_cons_2; try apply Forall_nil_2; simpl; by rewrite ?depth_bool, ?depth_null. }
  unfold c_adhoc, dispatch.
  case_decide; [|case_decide; [|case_decide; [|case_decide]]].
  1: destruct (c_read rq c) as [[x|e] c'].
  3: destruct (c_discover rq c) as [[x|e] c'].
  5: destruct (c_query rq c) as [[x|e] c'].
  7: destruct (c_write rq c) as [[x|e] c'].
  all: simpl.
  all: eexists; split; [reflexivity|]; rewrite ?query_arrives, ?query_samples_arrive, ?query_readback_arrives,
    ?query_done_arrives, ?query_error_arrives; try done.
  all: by rewrite decide_True, wire_null.
Qed.

(** C27. An ad-hoc operation of a plugin, whatever its name (a subscription
    apart), is the connector's operation of that name: the parameters arrive as
    its selection, and the agent gets the result or the error text. A result
    nested too deep for the parser (a large tree) is an error. An operation named
    [write] has no target and no value: a query cannot make a device write. *)
Theorem remote_query i p op ty (config secrets args : J) h :
  in_sync h → op ≠ "subscribe" →
  (depth (query_request op ty config secrets args) ≤ nesting_limit)%nat →
  let rq := query_seen op ty config secrets args in
  rq_target rq = j_null ∧ rq_write_value rq = None ∧
  let '(a, c') := c_adhoc rq (state_before i p h) in
  let '(r, h') := Plugins.query i p op ty config secrets args h in
  exchanged i h h' c' (λ r, r = query_result a) r.
Proof.
  intros Hs Hop Hd rq. split_and!; [done..|].
  pose proof (exchange_served i p (query_request op ty config secrets args) rq h Hs) as He.
  rewrite query_request_seen in He. specialize (He eq_refl Hop Hd).
  pose proof (λ what, adhoc_arrives what rq (state_before i p h)) as Ha.
  destruct (c_adhoc rq _) as [a c'].
  destruct (dispatch rq (state_before i p h)) as [answer c2] eqn:Ed.
  assert (c2 = c') as -> by (destruct (Ha "") as (? & E & _); congruence).
  apply (exchanged_then _ _ _ _ _ (to_string answer) _ (λ _, query_result a)); [done|].
  intros h'. unfold mbind, HM_bind, lift_result.
  destruct (Ha "plugin response not valid JSON") as (? & [= <-] & ->).
  unfold query_result. destruct a as [v|e]; [|done]. by case_decide.
Qed.
End Served.

(** ** Pipes *)

(** Processes that run [Sdk.run] on the lines written to them: each keeps its
    connector, and the lines it wrote that nobody has read. A plan says which
    system calls fail. *)
Module Pipes.
Section World.
Context `{Json J} {C : Type} `{!Sdk.Collector J C} (start : Plugin → C).

Record Pipe := mkPipe { pi_state : C; pi_out : list string }.
Record World := mkWorld { pipes : gmap Z Pipe; next_pid : nat; plan : list bool; clock : Z }.

Definition fails (w : World) : bool * World :=
  (default false (head (plan w)), mkWorld (pipes w) (next_pid w) (tail (plan w)) (clock w)).
Definition put (pid : Z) (x : Pipe) (w : World) : World :=
  mkWorld (<[pid := x]> (pipes w)) (next_pid w) (plan w) (clock w).
Fixpoint pids (n : nat) : list Z := match n with O => [] | S n => Z.of_nat n :: pids n end.
Definition at_pid (pid : Z) (w : World) : Pipe :=
  default (mkPipe (start (mkPlugin "" "" "" [])) []) (pipes w !! pid).

Definition spawn_pipe (p : Plugin) (w : World) : result string Z * World :=
  let '(bad, w) := fails w in
  if bad : bool then (Err "cannot spawn", w)
  else let pid := Z.of_nat (next_pid w) in
       (Ok pid, mkWorld (<[pid := mkPipe (start p) []]> (pipes w)) (S (next_pid w)) (plan w) (clock w)).
Definition write_pipe (pid : Z) (text : string) (w : World) : result string () * World :=
  let '(bad, w) := fails w in
  if bad : bool then (Err "broken pipe", w)
  else let x := at_pid pid w in
       let '(out, c) := Sdk.run_ok (J := J) (lines text) (pi_state x) in
       (Ok (), put pid (mkPipe c (pi_out x ++ (to_string <$> out))) w).
(** The process is waiting when it has written nothing: the time runs out. *)
Definition read_pipe (pid : Z) (w : World) : option LineRead * World :=
  let '(bad, w) := fails w in
  if bad : bool then (Some (ReadFailed "read error"), w)
  else let x := at_pid pid w in
       match pi_out x with
       | [] => (None, w)
       | l :: out => (Some (Line l), put pid (mkPipe (pi_state x) out) w)
       end.

#[export] Instance procs : Procs World := {|
  os_spawn := spawn_pipe;
  os_write := write_pipe;
  os_next_line pid w := let '(l, w) := read_pipe pid w in (default Eof l, w);
  os_next_line_timeout _ := read_pipe;
  os_kill _ w := w;
  os_now_ms := clock;
|}.

Definition is_request (text : string) : Prop :=
  ∃ line, text = line +:+ newline ∧ one_line line ∧ blank line = false ∧ is_subscribe (J := J) line = false.
#[export] Instance lockstep : Lockstep World := {|
  request_line := is_request;
  replies pid w := pi_out (at_pid pid w);
  answer_to pid text w :=
    default "" (head (to_string <$> (Sdk.run_ok (J := J) (lines text) (pi_state (at_pid pid w))).1));
  known w := pids (next_pid w);
|}.

Lemma at_put pid x w : at_pid pid (put pid x w) = x.
Proof. unfold at_pid, put. simpl. by rewrite lookup_insert_eq. Qed.
Lemma at_put_ne pid q x w : q ≠ pid → at_pid q (put pid x w) = at_pid q w.
Proof. intros Hq. unfold at_pid, put. simpl. by rewrite lookup_insert_ne. Qed.

(** One request line: one round of the loop, one answer. *)
Lemma run_line line c :
  one_line line → blank line = false → is_subscribe (J := J) line = false →
  Sdk.run_ok (lines (line +:+ newline)) c = ([(Sdk.answer (J := J) line c).1], (Sdk.answer (J := J) line c).2).
Proof.
  intros Hone Hb Hs. rewrite lines_line by done. rewrite run_ok_cons, Hb by done. done.
Qed.

Lemma fresh_pid n : Z.of_nat n ∉ pids n.
Proof.
  assert (∀ m, (m ≤ n)%nat → Z.of_nat n ∉ pids m) as Hm; [|by apply Hm].
  induction m as [|m IH]; intros Hle; simpl; [set_solver|]. apply not_elem_of_cons. split; [lia|apply IH; lia].
Qed.

#[export] Instance lockstep_ok : LockstepOk (W := World).
Proof.
  split; try done.
  - intros p w. simpl. unfold spawn_pipe, fails. destruct (default false _); simpl; [by split|]. split_and!.
    + apply fresh_pid.
    + done.
    + unfold at_pid. simpl. by rewrite lookup_insert_eq.
    + intros q Hq. unfold at_pid. simpl. by rewrite lookup_insert_ne.
  - intros pid l w. simpl. unfold write_pipe, fails. destruct (default false _); simpl; [done|].
    set (w1 := mkWorld _ _ _ _). change (at_pid pid w) with (at_pid pid w1).
    destruct (Sdk.run_ok _ _) as [out c] eqn:E. split_and!; [done| |].
    + intros q Hq. by rewrite at_put_ne.
    + intros _ (line & -> & Hone & Hb & Hs). rewrite at_put. simpl. rewrite run_line in E by done.
      by injection E as <- <-.
  - intros n pid w. simpl. unfold read_pipe, fails. destruct (default false _); simpl; [done|].
    set (w1 := mkWorld _ _ _ _). change (at_pid pid w) with (at_pid pid w1).
    destruct (pi_out (at_pid pid w1)) as [|l out] eqn:E; split_and!; try done.
    + intros q Hq. by rewrite at_put_ne.
    + intros l' [= <-]. by rewrite at_put.
Qed.

#[export] Instance sdk_procs : SdkProcs J World C.
Proof.
  refine {| fresh := start; proc_state pid w := pi_state (at_pid pid w) |}; try done.
  - intros line Hone Hb Hs. by exists line.
  - intros p w. simpl. unfold spawn_pipe, fails. destruct (default false _); simpl; [done|].
    split; intros q Hq; unfold at_pid; simpl.
    + injection Hq as <-. by rewrite lookup_insert_eq.
    + rewrite lookup_insert_ne; [done|]. intros <-. by apply Hq.
  - intros pid line w. simpl. unfold write_pipe, fails. destruct (default false _); simpl; [done|].
    set (w1 := mkWorld _ _ _ _). change (at_pid pid w) with (at_pid pid w1).
    destruct (Sdk.run_ok _ _) as [out c] eqn:E. split.
    + intros q Hq. by rewrite at_put_ne.
    + intros _ Hone Hb Hs. rewrite at_put. rewrite run_line in E by done. by injection E as <- <-.
  - intros n pid q w. simpl. unfold read_pipe, fails. destruct (default false _); simpl; [done|].
    set (w1 := mkWorld _ _ _ _). change (at_pid pid w) with (at_pid pid w1).
    destruct (pi_out (at_pid pid w1)) as [|l out]; simpl; [done|]. destruct (decide (q = pid)) as [->|Hq].
    + by rewrite at_put.
    + by rewrite at_put_ne.
Defined.
End World.
End Pipes.

(** ** A counter behind a pipe *)
Module HostSdkRun.
Import TreeWire Pipes.

(** Each read counts; a write sets the counter; the name comes from [naming]. *)
Definition count (rq : ReadRequest Tree) (n : Z) : result string (list Sdk.PluginSample) * Z :=
  match rq_variable_id rq with
  | Some v => (Ok [Sdk.PluginSample_new v (f64_of_Z n)], n + 1)
  | None => (Err "no variable", n)
  end.
#[local] Instance counter : Sdk.Collector Tree Z := {|
  c_read := count;
  c_query rq n := (Ok (TArr [rq_selection rq; TInt n]), n);
  c_write rq n := match rq_write_value rq with
    | Some x => (Ok (Some x), f64_trunc x) | None => (Err "write_value required", n) end;
  c_discover := default_discover;
  c_subscribe := default_subscribe;
|}.

Definition start (p : Plugin) : Z := 7.
#[local] Existing Instances procs lockstep lockstep_ok sdk_procs.
Abbreviation W := (World (C := Z)).
#[local] Instance procs_ : Procs W := procs start.
#[local] Instance lockstep_ : Lockstep W := lockstep start.
#[local] Instance lockstep_ok_ : LockstepOk (W := W) := lockstep_ok start.
#[local] Instance sdk_ : SdkProcs Tree W Z := sdk_procs start.

Definition p1 : Plugin := mkPlugin "count" "/p/count" "/p/count/count" [].
Definition conn1 : Conn Tree := mkConn "count" (TObj [("host", TStr "a")]) TNull ∅.
Definition ing1 (naming : Tree) : Job Tree := mkJob "i1" "c1" TNull 1 naming TNull.
Definition host (plan : list bool) : Host W := mkHost ∅ (mkWorld ∅ 0 plan 5).

Lemma host_sync plan : in_sync (host plan).
Proof. split; intros *; simpl; by rewrite lookup_empty. Qed.

Definition named : Tree := TObj [("variable_id", TStr "t")].
Definition after_read (plan : list bool) := Plugins.read 0 p1 conn1 (ing1 named) (host plan).

(** The connector's state after the first read is what [count] left. *)
Lemma remote_read_witness :
  (after_read []).1 = Ok [mkSample "t" 5 (f64_of_Z 7) 0 ∅] ∧
  exchanged 0 (host []) (after_read []).2 8
    (λ r, r = read_result (os_now_ms (os (after_read []).2)) (Ok [Sdk.PluginSample_new "t" (f64_of_Z 7)])) (after_read []).1.
Proof.
  split; [vm_compute; reflexivity|].
  pose proof (remote_read 0 p1 conn1 (ing1 named) (host []) (host_sync []) ltac:(apply Nat.leb_le; vm_compute; reflexivity)) as H.
  change (c_read _ _) with (@Ok string _ [Sdk.PluginSample_new "t" (f64_of_Z 7)], 8) in H.
  specialize (H ltac:(intros samples [= <-]; apply Forall_singleton; split; [vm_compute; by split|by intros ? [=]])).
  unfold after_read. destruct (Plugins.read _ _ _ _ _) as [r h']. exact H.
Defined.

(** The write fails in the pipe: the process is gone, with what it wrote. *)
Definition after_write (plan : list bool) :=
  Plugins.write 0 p1 "count" TNull TNull TNull (f64_of_Z 3) true (host plan).

Lemma remote_write_witness :
  (after_write []).1 = Ok (Some (f64_of_Z 3)) ∧ (after_write [false; false; true]).1 = Err "read error" ∧
  ∀ plan, exchanged 0 (host plan) (after_write plan).2 3 (λ r, r = Ok (Some (f64_of_Z 3))) (after_write plan).1.
Proof.
  split; [vm_compute; reflexivity|]. split; [vm_compute; reflexivity|]. intros plan.
  pose proof (remote_write 0 p1 "count" TNull TNull TNull (f64_of_Z 3) true (host plan) (host_sync plan)
    ltac:(apply Nat.leb_le; vm_compute; reflexivity)) as H.
  change (c_write _ _) with (@Ok string _ (Some (f64_of_Z 3)), 3) in H. cbv beta iota in H.
  change (write_result _) with (@Ok string _ (Some (f64_of_Z 3))) in H.
  unfold after_write. destruct (Plugins.write _ _ _ _ _ _ _ _ _) as [r h']. exact H.
Defined.

Lemma remote_query_witness :
  (Plugins.query 0 p1 "test" "count" TNull TNull (TStr "a") (host [])).1 = Ok (TArr [TStr "a"; TInt 7]) ∧
  in_sync (Plugins.query 0 p1 "test" "count" TNull TNull (TStr "a") (host [])).2.
Proof.
  split; [vm_compute; reflexivity|].
  pose proof (remote_query 0 p1 "test" "count" TNull TNull (TStr "a") (host []) (host_sync []) ltac:(done)
    ltac:(apply Nat.leb_le; vm_compute; reflexivity)) as (_ & _ & H).
  destruct (c_adhoc _ _) as [a c']. destruct (Plugins.query _ _ _ _ _ _ _ _) as [r h']. exact (proj1 H).
Defined.
End HostSdkRun.
