(* ===== verification/Exchanges.v ===== *)
(** * Exchanges under the plugin mutex ([src/plugins.rs])

    The agent's tasks (the readers of the datasources, the handlers of the
    control channel) call [exchange] at the same time. Each call locks its
    plugin's [proc], spawns the process when there is none, writes the request,
    waits for the answer and unlocks; between two awaits the other tasks run. A
    task is aborted between two of its steps: its guard is dropped with it.

    The write is an await too, and one outside the timeout: while the process does
    not take the request ([takes]) the call goes on holding the guard. *)
From S2P Require Import Prelude Float Proto RustStr Json Wire Sdk Jobs Plugins PluginsProps HostSdk.
Set Warnings "-register-all".
Local Open Scope Z_scope.

(** ** The tasks *)

(** Where a call of [exchange] is: at [lock().await], holding the guard with the
    request not yet written, waiting for the answer, or returned. *)
Inductive Phase := Want | Ready (pid : Z) | Asked (pid : Z) | Finished (r : result string string).

(** The process whose guard a call holds. *)
Definition held (ph : Phase) : option Z :=
  match ph with Ready pid | Asked pid => Some pid | Want | Finished _ => None end.
Definition is_asked (ph : Phase) : bool := match ph with Asked _ => true | _ => false end.
Definition is_finished (ph : Phase) : bool := match ph with Finished _ => true | _ => false end.

Record Task (J : Type) := mkTask { t_plugin : nat; t_req : J; t_phase : Phase }.
Arguments mkTask {J} _ _ _.
Arguments t_plugin {J} _.
Arguments t_req {J} _.
Arguments t_phase {J} _.

(** The history: the requests written, and the answers nobody waits for any
    more. *)
Inductive Logged (J : Type) := Sent (pid : Z) (t : nat) (req : J) | Dropped (pid : Z).
Arguments Sent {J} _ _ _.
Arguments Dropped {J} _.

Record Conc (J W : Type) := mkConc {
  c_host : Host W;
  c_locks : gmap nat nat;
  c_tasks : gmap nat (Task J);
  c_next : nat;
  c_log : list (Logged J);
}.
Arguments mkConc {J W} _ _ _ _ _.
Arguments c_host {J W} _.
Arguments c_locks {J W} _.
Arguments c_tasks {J W} _.
Arguments c_next {J W} _.
Arguments c_log {J W} _.

(** A task calls [exchange]; a task runs to its next await; a task is aborted. *)
Inductive Event (J : Type) := Call (i : nat) (req : J) | Run (t : nat) | Drop (t : nat).
Arguments Call {J} _ _.
Arguments Run {J} _.
Arguments Drop {J} _.

(** Whether the awaits of the write return: the pipe of the process has room for
    the request, or is broken. (A request of at most [PIPE_BUF] bytes is written at
    once or not at all.) *)
Class Pipe (W : Type) := takes : Z → W → bool.

Section Exchanges.
Context `{Json J} {W : Type} `{Procs W} `{Pipe W} (launch : nat → Plugin).
Implicit Types (c : Conc J W) (T : Task J) (h : Host W) (i j t : nat).

Definition start_call i (req : J) c : Conc J W :=
  mkConc (c_host c) (c_locks c) (<[c_next c := mkTask i req Want]> (c_tasks c)) (S (c_next c)) (c_log c).

(** The task [t] goes on to [ph]; it holds the guard of its plugin exactly in the
    phases that hold one. *)
Definition move t T (ph : Phase) h (log : list (Logged J)) c : Conc J W :=
  mkConc h (partial_alter (λ _, (λ _, t) <$> held ph) (t_plugin T) (c_locks c))
    (<[t := mkTask (t_plugin T) (t_req T) ph]> (c_tasks c)) (c_next c) (c_log c ++ log).

(** One poll of the task [t], up to its next await; [None] when it cannot go on:
    the mutex is locked, the process does not take the request, or the call has
    returned. The wait for the answer ends with the answer, the end of the
    output, or the timeout. *)
Definition run_task t c : option (Conc J W) :=
  T ← c_tasks c !! t;
  let i := t_plugin T in
  match t_phase T with
  | Want =>
      match c_locks c !! i with
      | Some _ => None
      | None =>
          Some (match ensure_proc i (launch i) (c_host c) with
          | (Ok pid, h) => move t T (Ready pid) h [] c
          | (Err e, h) => move t T (Finished (Err e)) h [] c
          end)
      end
  | Ready pid =>
      if negb (takes pid (os (c_host c))) then None else
      Some (match ask pid (to_string (t_req T) +:+ newline) (c_host c) with
      | (Ok _, h) => move t T (Asked pid) h [Sent pid t (t_req T)] c
      | (Err e, h) => move t T (Finished (Err e)) (drop_proc i pid h) [] c
      end)
  | Asked pid =>
      Some (match receive pid (c_host c) with
      | (Ok l, h) => move t T (Finished (Ok l)) h [] c
      | (Err e, h) => move t T (Finished (Err e)) (drop_proc i pid h) [] c
      end)
  | Finished _ => None
  end.

(** The abort of the task [t]. *)
Definition drop_task t c : Conc J W :=
  match c_tasks c !! t with
  | None => c
  | Some T =>
      mkConc (c_host c)
        (match held (t_phase T) with Some _ => delete (t_plugin T) (c_locks c) | None => c_locks c end)
        (delete t (c_tasks c)) (c_next c)
        (c_log c ++ match t_phase T with Asked pid => [Dropped pid] | _ => [] end)
  end.

Definition apply_event c (e : Event J) : Conc J W :=
  match e with
  | Call i req => start_call i req c
  | Run t => default c (run_task t c)
  | Drop t => drop_task t c
  end.
Definition run_events (evs : list (Event J)) c : Conc J W := foldl apply_event c evs.
Definition idle h : Conc J W := mkConc h ∅ ∅ 0 [].

(** ** The mutex *)

Record coherent c : Prop := {
  co_fresh : ∀ t T, c_tasks c !! t = Some T → (t < c_next c)%nat;
  co_lock : ∀ i t, c_locks c !! i = Some t →
    ∃ T pid, c_tasks c !! t = Some T ∧ t_plugin T = i ∧ held (t_phase T) = Some pid;
  co_held : ∀ t T pid, c_tasks c !! t = Some T → held (t_phase T) = Some pid →
    c_locks c !! t_plugin T = Some t ∧ procs (c_host c) !! t_plugin T = Some pid;
}.

Lemma coherent_idle h : coherent (idle h).
Proof. split; intros *; simpl; by rewrite lookup_empty. Qed.

Lemma coherent_call i req c : coherent c → coherent (start_call i req c).
Proof.
  intros Hc. assert (c_tasks c !! c_next c = None) as Hn.
  { destruct (c_tasks c !! c_next c) as [T|] eqn:E; [|done]. apply (co_fresh _ Hc) in E. lia. }
  split; simpl.
  - intros t T [[<- <-]|[_ Et%(co_fresh _ Hc)]]%lookup_insert_Some; lia.
  - intros k t (T & pid & Et & Ei & Eh)%(co_lock _ Hc). exists T, pid.
    rewrite lookup_insert_ne; [done|]. intros <-. by rewrite Hn in Et.
  - intros t T pid [[<- <-]|[_ Et]]%lookup_insert_Some; [done|]. by apply Hc.
Qed.

(** A task that may use its plugin's process goes on. *)
Lemma coherent_move t T ph h log c :
  coherent c → c_tasks c !! t = Some T → (held (t_phase T) ≠ None ∨ c_locks c !! t_plugin T = None) →
  (∀ j, j ≠ t_plugin T → procs h !! j = procs (c_host c) !! j) →
  (∀ pid, held ph = Some pid → procs h !! t_plugin T = Some pid) →
  coherent (move t T ph h log c).
Proof.
  intros Hc Ht Hl Ho Hp.
  assert (∀ t' T' pid, c_tasks c !! t' = Some T' → held (t_phase T') = Some pid → t' ≠ t → t_plugin T' ≠ t_plugin T) as Hne.
  { intros t' T' pid Et' Eh Hne Ei. destruct (co_held _ Hc _ _ _ Et' Eh) as [El _]. rewrite Ei in El.
    destruct Hl as [Hl|Hl]; [|congruence]. destruct (held (t_phase T)) as [q|] eqn:Eq; [|done].
    destruct (co_held _ Hc _ _ _ Ht Eq) as [El' _]. congruence. }
  split; simpl.
  - intros t' T' [[<- <-]|[_ Et]]%lookup_insert_Some; [by apply (co_fresh _ Hc t T)|by apply (co_fresh _ Hc t' T')].
  - intros k t'. destruct (decide (k = t_plugin T)) as [->|Hk].
    + rewrite lookup_partial_alter_eq. destruct (held ph) as [q|] eqn:Eq; simpl; [|done]. intros [= <-].
      rewrite lookup_insert_eq. by eexists _, q.
    + rewrite lookup_partial_alter_ne by done. intros (T' & pid & Et & <- & Eh)%(co_lock _ Hc). exists T', pid.
      rewrite lookup_insert_ne; [done|]. intros <-. congruence.
  - intros t' T' pid [[<- <-]|[Hn Et]]%lookup_insert_Some Eh; simpl in *.
    + rewrite lookup_partial_alter_eq, Eh. split; [done|by apply Hp].
    + assert (t_plugin T' ≠ t_plugin T) as Hi by by apply (Hne t' T' pid).
      rewrite lookup_partial_alter_ne, Ho by done. by apply (co_held _ Hc t').
Qed.

Lemma coherent_drop t c : coherent c → coherent (drop_task t c).
Proof.
  intros Hc. unfold drop_task. destruct (c_tasks c !! t) as [T|] eqn:Et; [|done]. split; simpl.
  - intros t' T' [_ Et']%lookup_delete_Some. by eapply (co_fresh _ Hc).
  - intros k t' El. assert (c_locks c !! k = Some t' ∧ (k = t_plugin T → held (t_phase T) = None)) as [El' Hk].
    { destruct (held (t_phase T)) as [q|]; [|done]. by apply lookup_delete_Some in El as [Hk El]. }
    destruct (co_lock _ Hc _ _ El') as (T' & pid & Et' & <- & Eh). exists T', pid.
    rewrite lookup_delete_ne; [done|]. intros <-. assert (T' = T) as -> by congruence. specialize (Hk eq_refl). congruence.
  - intros t' T' pid [Hn Et']%lookup_delete_Some Eh. destruct (co_held _ Hc _ _ _ Et' Eh) as [El Ep]. split; [|done].
    destruct (held (t_phase T)) as [q|] eqn:Eq; [|done]. apply lookup_delete_Some. split; [|done].
    intros Ei. destruct (co_held _ Hc _ _ _ Et Eq) as [El' _]. congruence.
Qed.

(** What the steps do to the host. *)
Lemma ensure_proc_procs i p h :
  let '(r, h') := ensure_proc i p h in
  (∀ j, j ≠ i → procs h' !! j = procs h !! j) ∧ (∀ pid, r = Ok pid → procs h' !! i = Some pid).
Proof.
  unfold ensure_proc, spawn, with_os, set_proc, get_proc, mbind, HM_bind.
  destruct (procs h !! i) as [pid|] eqn:Ei; [split; [done|by intros ? [= <-]]|].
  destruct (os_spawn p (os h)) as [[pid|e] w]; simpl; [|done]. split.
  - intros j Hj. by rewrite lookup_partial_alter_ne.
  - intros ? [= <-]. apply lookup_partial_alter_eq.
Qed.

Lemma ask_procs pid l h : procs (ask pid l h).2 = procs h.
Proof. unfold ask, with_os, mbind, HM_bind. by destruct (os_write pid l (os h)) as [[] w]. Qed.

Lemma receive_procs pid h : procs (receive pid h).2 = procs h.
Proof.
  unfold receive, with_os, mbind, HM_bind.
  by destruct (os_next_line_timeout _ pid (os h)) as [[[]|] w].
Qed.

(** The polls a call still needs. *)
Definition polls (ph : Phase) : nat :=
  match ph with Want => 3 | Ready _ => 2 | Asked _ => 1 | Finished _ => 0 end.

(** A poll moves its task to a later phase and touches only its plugin. *)
Lemma run_task_moves t c c' :
  coherent c → run_task t c = Some c' →
  ∃ T ph h log, c_tasks c !! t = Some T ∧ c' = move t T ph h log c ∧
    (held (t_phase T) ≠ None ∨ c_locks c !! t_plugin T = None) ∧
    (∀ j, j ≠ t_plugin T → procs h !! j = procs (c_host c) !! j) ∧
    (∀ pid, held ph = Some pid → procs h !! t_plugin T = Some pid) ∧
    (polls ph < polls (t_phase T))%nat.
Proof.
  intros Hc. unfold run_task. destruct (c_tasks c !! t) as [T|] eqn:Et; simpl; [|done].
  destruct (t_phase T) as [|pid|pid|r] eqn:Ep; [| | |done].
  - destruct (c_locks c !! t_plugin T) eqn:El; [done|]. intros [= <-].
    pose proof (ensure_proc_procs (t_plugin T) (launch (t_plugin T)) (c_host c)) as He.
    destruct (ensure_proc _ _ _) as [[pid|e] h]; destruct He as [Ho Hi]; repeat eexists; eauto;
      simpl; rewrite ?Ep; simpl; try lia; try done. intros ? [= <-]. by apply Hi.
  - destruct (takes pid _); [|done]. simpl.
    intros [= <-]. pose proof (ask_procs pid (to_string (t_req T) +:+ newline) (c_host c)) as Ha.
    assert (procs (c_host c) !! t_plugin T = Some pid) as Hi by (apply (co_held _ Hc t); by rewrite ?Ep).
    destruct (ask _ _ _) as [[[]|e] h]; simpl in Ha; repeat eexists; eauto;
      simpl; rewrite ?Ep, ?Ha; simpl; try lia; try done; try (by left); try congruence.
    intros j Hj. by rewrite lookup_delete_ne.
  - intros [= <-]. pose proof (receive_procs pid (c_host c)) as Ha.
    destruct (receive _ _) as [[l|e] h]; simpl in Ha; repeat eexists; eauto;
      simpl; rewrite ?Ep, ?Ha; simpl; try lia; try done; try (by left).
    intros j Hj. by rewrite lookup_delete_ne.
Qed.

Lemma coherent_event e c : coherent c → coherent (apply_event c e).
Proof.
  intros Hc. destruct e as [i req|t|t]; simpl; [by apply coherent_call| |by apply coherent_drop].
  destruct (run_task t c) as [c'|] eqn:Er; simpl; [|done].
  apply run_task_moves in Er as (T & ph & h & log & Et & -> & Hl & Ho & Hp & _); [|done]. by apply coherent_move.
Qed.

Lemma coherent_events evs c : coherent c → coherent (run_events evs c).
Proof. revert c. induction evs as [|e evs IH]; intros c Hc; [done|]. by apply IH, coherent_event. Qed.

(** ** Progress *)

Definition work c : nat := sum_list_with (λ p, polls (t_phase p.2)) (map_to_list (c_tasks c)).

Lemma work_insert t T T' (m : gmap nat (Task J)) :
  m !! t = Some T → (polls (t_phase T') < polls (t_phase T))%nat →
  (sum_list_with (λ p, polls (t_phase p.2)) (map_to_list (<[t := T']> m)) <
   sum_list_with (λ p, polls (t_phase p.2)) (map_to_list m))%nat.
Proof.
  intros Et Hlt. rewrite <- (insert_id m t T) at 2 by done.
  rewrite <- (insert_delete_eq m t T), <- (insert_delete_eq m t T').
  assert (∀ U, sum_list_with (λ p, polls (t_phase p.2)) (map_to_list (<[t := U]> (delete t m))) =
    polls (t_phase U) + sum_list_with (λ p, polls (t_phase p.2)) (map_to_list (delete t m)))%nat as Hs.
  { intros U. rewrite (map_to_list_insert (delete t m) t U) by apply lookup_delete_eq. done. }
  rewrite !Hs. lia.
Qed.

Lemma run_task_work t c c' : coherent c → run_task t c = Some c' → (work c' < work c)%nat.
Proof.
  intros Hc (T & ph & h & log & Et & -> & _ & _ & _ & Hw)%run_task_moves; [|done].
  by apply (work_insert t T).
Qed.

(** The call of [t] is in its write and the process does not take the request. *)
Definition writing t c : Prop := ∃ T pid,
  c_tasks c !! t = Some T ∧ t_phase T = Ready pid ∧ takes pid (os (c_host c)) = false.
(** The call of [t] is, or waits for the mutex of one that is. *)
Definition behind_write t c : Prop :=
  writing t c ∨ ∃ T t', c_tasks c !! t = Some T ∧ t_phase T = Want ∧
    c_locks c !! t_plugin T = Some t' ∧ writing t' c.

Lemma held_goes_on t T pid c :
  c_tasks c !! t = Some T → held (t_phase T) = Some pid → writing t c ∨ ∃ c', run_task t c = Some c'.
Proof.
  intros Et Eh. unfold run_task. rewrite Et. simpl. destruct (t_phase T) as [|q|q|] eqn:Ep; try done; [|by right; eauto].
  destruct (takes q (os (c_host c))) eqn:Ew; [by right; eauto|left]. by exists T, q.
Qed.

(** Somebody can go on, the holder of a guard or whoever waits for a mutex that
    is free, unless a write is in the way. *)
Lemma not_stuck t T c :
  coherent c → c_tasks c !! t = Some T → is_finished (t_phase T) = false →
  behind_write t c ∨ ∃ t' c', run_task t' c = Some c'.
Proof.
  intros Hc Et Hf. destruct (held (t_phase T)) as [pid|] eqn:Eh.
  { destruct (held_goes_on t T pid c Et Eh); [by left; left|eauto]. }
  destruct (t_phase T) eqn:Ep; try done. destruct (c_locks c !! t_plugin T) as [t'|] eqn:El.
  - pose proof (co_lock _ Hc _ _ El) as (T' & pid & Et' & _ & Eh').
    destruct (held_goes_on t' T' pid c Et' Eh'); [|eauto]. left. right. by exists T, t'.
  - right. exists t. unfold run_task. rewrite Et. simpl. rewrite Ep, El. eauto.
Qed.

(** Polling each task in turn, as long as some task can go on. *)
Fixpoint poll_any (ts : list nat) c : option (Conc J W) :=
  match ts with
  | [] => None
  | t :: ts => match run_task t c with Some c' => Some c' | None => poll_any ts c end
  end.
Fixpoint drain (fuel : nat) c : Conc J W :=
  match fuel with
  | O => c
  | S fuel => match poll_any (map_to_list (c_tasks c)).*1 c with Some c' => drain fuel c' | None => c end
  end.
(** Every call has returned, or is behind a write that is not taken. *)
Definition settled c : Prop := ∀ t T,
  c_tasks c !! t = Some T → is_finished (t_phase T) = true ∨ behind_write t c.

Lemma poll_any_run ts c c' : poll_any ts c = Some c' → ∃ t, t ∈ ts ∧ run_task t c = Some c'.
Proof.
  induction ts as [|t ts IH]; simpl; [done|]. destruct (run_task t c) eqn:Er; [intros [= <-]; set_solver|].
  intros (t' & ? & ?)%IH. set_solver.
Qed.
Lemma poll_any_none ts c : poll_any ts c = None → ∀ t, t ∈ ts → run_task t c = None.
Proof.
  induction ts as [|t ts IH]; simpl; [set_solver|]. destruct (run_task t c) eqn:Er; [done|]. set_solver.
Qed.

Lemma drain_settles n c : coherent c → (work c ≤ n)%nat → settled (drain n c).
Proof.
  revert c. induction n as [|n IH]; intros c Hc Hw; simpl.
  - intros t T Et. destruct (is_finished (t_phase T)) eqn:Ef; [by left|right].
    destruct (not_stuck t T c Hc Et Ef) as [|(t' & c' & Er)]; [done|]. apply run_task_work in Er; [lia|done].
  - destruct (poll_any _ c) as [c'|] eqn:Ep.
    + apply poll_any_run in Ep as (t & _ & Er). pose proof (run_task_work t c c' Hc Er). apply IH; [|lia].
      change c' with (default c (Some c')). rewrite <- Er. by apply (coherent_event (Run t)).
    + intros t T Et. destruct (is_finished (t_phase T)) eqn:Ef; [by left|right].
      destruct (not_stuck t T c Hc Et Ef) as [|(t' & c' & Er)]; [done|].
      rewrite (poll_any_none _ _ Ep) in Er; [done|]. unfold run_task in Er.
      destruct (c_tasks c !! t') as [T'|] eqn:Et'; [|done]. apply list_elem_of_fmap. exists (t', T').
      split; [done|]. by apply elem_of_map_to_list.
Qed.

Definition is_call (e : Event J) : bool := match e with Call _ _ => true | _ => false end.

Lemma work_event e c : coherent c → (work (apply_event c e) ≤ work c + if is_call e then 3 else 0)%nat.
Proof.
  intros Hc. destruct e as [i req|t|t]; simpl.
  - unfold work, start_call. simpl. rewrite map_to_list_insert; simpl; [lia|].
    destruct (c_tasks c !! c_next c) as [T|] eqn:E; [|done]. apply (co_fresh _ Hc) in E. lia.
  - destruct (run_task t c) as [c'|] eqn:Er; simpl; [|lia]. apply run_task_work in Er; [lia|done].
  - unfold drop_task, work. destruct (c_tasks c !! t) as [T|] eqn:Et; simpl; [|lia].
    rewrite <- (map_to_list_delete _ _ _ Et). simpl. lia.
Qed.

Lemma work_events evs c :
  coherent c → (work (run_events evs c) ≤ work c + 3 * length (filter is_call evs))%nat.
Proof.
  revert c. induction evs as [|e evs IH]; intros c Hc; [simpl; lia|].
  change (run_events (e :: evs) c) with (run_events evs (apply_event c e)).
  pose proof (IH _ (coherent_event e c Hc)). pose proof (work_event e c Hc). rewrite filter_cons.
  destruct (is_call e); simpl in *; lia.
Qed.

(** Polls of tasks that can go on. *)
Fixpoint polled (ts : list nat) c : option (Conc J W) :=
  match ts with [] => Some c | t :: ts => c' ← run_task t c; polled ts c' end.

Lemma polled_work ts c c' : coherent c → polled ts c = Some c' → (length ts + work c' ≤ work c)%nat.
Proof.
  revert c. induction ts as [|t ts IH]; intros c Hc; simpl; [intros [= <-]; lia|].
  destruct (run_task t c) as [c1|] eqn:Er; simpl; [|done]. intros Hp.
  pose proof (run_task_work t c c1 Hc Er). assert (coherent c1) as Hc1.
  { change c1 with (default c (Some c1)). rewrite <- Er. by apply (coherent_event (Run t)). }
  specialize (IH c1 Hc1 Hp). lia.
Qed.

(** ** A write that is not taken *)

(** While the process [pid] does not take the request of [t], which holds the
    mutex of [i], [t] stays where it is and no other call of [i] returns. *)
Lemma writing_keeps t i req pid e c :
  coherent c → c_tasks c !! t = Some (mkTask i req (Ready pid)) → takes pid (os (c_host c)) = false →
  e ≠ Drop t →
  let c' := apply_event c e in
  c_tasks c' !! t = Some (mkTask i req (Ready pid)) ∧
  ∀ t' req' r, c_tasks c' !! t' = Some (mkTask i req' (Finished r)) →
    c_tasks c !! t' = Some (mkTask i req' (Finished r)).
Proof.
  intros Hc Et Ew He. destruct (co_held _ Hc t _ pid Et eq_refl) as [El _]. simpl in El.
  destruct e as [j r|u|u]; simpl.
  - rewrite lookup_insert_ne by (intros <-; apply (co_fresh _ Hc) in Et; lia). split; [done|].
    by intros t' req' r' [[_ [=]]|[_ E]]%lookup_insert_Some.
  - destruct (run_task u c) as [c'|] eqn:Er; simpl; [|done].
    pose proof Er as (U & ph & h & log & Eu & -> & Hl & _)%run_task_moves; [|done].
    assert (u ≠ t) as Hut.
    { intros ->. assert (U = mkTask i req (Ready pid)) as -> by congruence.
      unfold run_task in Er. rewrite Et in Er. simpl in Er. by rewrite Ew in Er. }
    assert (t_plugin U ≠ i) as Hi.
    { intros Ei. rewrite Ei in Hl. destruct Hl as [Hl|Hl]; [|congruence].
      destruct (held (t_phase U)) as [q|] eqn:Eq; [|done].
      destruct (co_held _ Hc u U q Eu Eq) as [El' _]. congruence. }
    simpl. rewrite lookup_insert_ne by done. split; [done|].
    by intros t' req' r [[_ [= E _ _]]|[_ E]]%lookup_insert_Some.
  - unfold drop_task. destruct (c_tasks c !! u) as [U|]; [|done]. simpl.
    rewrite lookup_delete_ne by congruence. split; [done|]. by intros t' req' r [_ E]%lookup_delete_Some.
Qed.

Lemma writing_holds t i req pid evs c :
  coherent c → c_tasks c !! t = Some (mkTask i req (Ready pid)) → Drop t ∉ evs →
  (∀ l, l `prefix_of` evs → takes pid (os (c_host (run_events l c))) = false) →
  let c' := run_events evs c in
  c_locks c' !! i = Some t ∧
  ∀ t' req' r, c_tasks c' !! t' = Some (mkTask i req' (Finished r)) →
    c_tasks c !! t' = Some (mkTask i req' (Finished r)).
Proof.
  revert c. induction evs as [|e evs IH]; intros c Hc Et Hd Hw; simpl.
  - split; [|done]. by destruct (co_held _ Hc t _ pid Et eq_refl) as [El _].
  - apply not_elem_of_cons in Hd as [He Hd].
    destruct (writing_keeps t i req pid e c Hc Et) as [Et' Hf]; [apply (Hw []), prefix_nil|done|].
    destruct (IH (apply_event c e)) as [Hl Hf']; [by apply coherent_event|done|done| |by split; eauto].
    intros l Hl. apply (Hw (e :: l)). by apply prefix_cons.
Qed.

(** ** The end of the wait *)

(** What the timeout promises: the read is over after that many seconds, but for
    the timer's slack; killing a process does not wait. *)
Class Timed `{Procs W} := {
  timer_slack : Z;
  read_in_time : ∀ d pid w, 0 ≤ d → os_now_ms (os_next_line_timeout d pid w).2 ≤ os_now_ms w + 1000 * d + timer_slack;
  kill_in_time : ∀ pid w, os_now_ms (os_kill pid w) ≤ os_now_ms w;
}.

Lemma asked_ends `{!Timed} t T pid c :
  c_tasks c !! t = Some T → t_phase T = Asked pid →
  ∃ c', run_task t c = Some c' ∧ c_locks c' !! t_plugin T = None ∧
    os_now_ms (os (c_host c')) ≤ os_now_ms (os (c_host c)) + 1000 * EXCHANGE_TIMEOUT + timer_slack.
Proof.
  intros Et Ep. unfold run_task. rewrite Et. simpl. rewrite Ep. eexists. split; [done|].
  pose proof (read_in_time EXCHANGE_TIMEOUT pid (os (c_host c)) ltac:(done)) as Ht.
  unfold receive, with_os, mbind, HM_bind. destruct (os_next_line_timeout _ pid _) as [l w]. simpl in Ht.
  pose proof (kill_in_time pid w) as Hk.
  destruct l as [[l| |e]|]; simpl; (split; [apply lookup_partial_alter_eq|lia]).
Qed.

(** C15. What an exchange waits for. Whatever calls, polls and aborts came
    before: the calls that are left make at most three polls each, in any
    schedule. A call that has written its request frees the mutex within
    [EXCHANGE_TIMEOUT] (but for the timer's slack). Polling whoever can go on ends
    with every call returned, but for those in a write the process does not take
    and those that wait for the mutex of such a call. The write has no timeout:
    as long as the process does not take the request, and the caller is not
    aborted, that call keeps the mutex and no call of the plugin returns. *)
Theorem exchanges_end `{!Timed} (evs : list (Event J)) h :
  let c := run_events evs (idle h) in
  ((work c ≤ 3 * length (filter is_call evs))%nat ∧
   ∀ ts c', polled ts c = Some c' → (length ts ≤ work c)%nat) ∧
  (∀ t T pid, c_tasks c !! t = Some T → t_phase T = Asked pid →
    ∃ c', run_task t c = Some c' ∧ c_locks c' !! t_plugin T = None ∧
      os_now_ms (os (c_host c')) ≤ os_now_ms (os (c_host c)) + 1000 * EXCHANGE_TIMEOUT + timer_slack) ∧
  settled (drain (work c) c) ∧
  (∀ t i req pid more,
    c_tasks c !! t = Some (mkTask i req (Ready pid)) → Drop t ∉ more →
    (∀ l, l `prefix_of` more → takes pid (os (c_host (run_events l c))) = false) →
    let c' := run_events more c in
    c_locks c' !! i = Some t ∧
    ∀ t' req' r, c_tasks c' !! t' = Some (mkTask i req' (Finished r)) →
      c_tasks c !! t' = Some (mkTask i req' (Finished r))).
Proof.
  pose proof (coherent_events evs _ (coherent_idle h)) as Hc. split_and!.
  - etrans; [apply work_events, coherent_idle|]. unfold work. simpl. rewrite map_to_list_empty. simpl. lia.
  - intros ts c' Hp. apply polled_work in Hp; [lia|done].
  - intros *. apply asked_ends.
  - by apply drain_settles.
  - intros *. by apply writing_holds.
Qed.

(** ** One plugin: the exchanges one after the other *)
Section OnePlugin.
Variable i : nat.

(** What a call did with the host while it held the guard: a whole exchange, or
    what an aborted one left. *)
Inductive Turn :=
| Whole (t : nat) (req : J) (r : result string string)
| Cut (t : nat) (req : J)
| Early (t : nat).
Definition turn_task (u : Turn) : nat := match u with Whole t _ _ | Cut t _ | Early t => t end.
Definition turn_does (u : Turn) h h' : Prop :=
  match u with
  | Whole _ req r => exchange i (launch i) req h = (r, h')
  | Cut _ req => exchange_dropped i (launch i) req h = (Ok (), h')
  | Early _ => ∃ pid, ensure_proc i (launch i) h = (Ok pid, h')
  end.
Fixpoint serial (us : list Turn) h h' : Prop :=
  match us with [] => h' = h | u :: us => ∃ h1, turn_does u h h1 ∧ serial us h1 h' end.

Lemma serial_snoc us u h h1 h2 : serial us h h1 → turn_does u h1 h2 → serial (us ++ [u]) h h2.
Proof.
  revert h. induction us as [|v us IH]; intros h; simpl; [intros ->; eauto|].
  intros (h0 & Hv & Hs) Hu. exists h0. split; [done|]. by apply IH.
Qed.

(** The call that holds the guard is half way through its turn. *)
Definition half_way h1 c : Prop :=
  match c_locks c !! i with
  | None => c_host c = h1
  | Some t => ∃ req, 
      (∃ pid, c_tasks c !! t = Some (mkTask i req (Ready pid)) ∧ ensure_proc i (launch i) h1 = (Ok pid, c_host c)) ∨
      (∃ pid h2, c_tasks c !! t = Some (mkTask i req (Asked pid)) ∧ ensure_proc i (launch i) h1 = (Ok pid, h2) ∧
         ask pid (to_string req +:+ newline) h2 = (Ok (), c_host c))
  end.

Record serialized h c (us : list Turn) : Prop := {
  se_host : ∃ h1, serial us h h1 ∧ half_way h1 c;
  se_once : NoDup (turn_task <$> us);
  se_turns : ∀ u T, u ∈ us → (turn_task u < c_next c)%nat ∧ (c_tasks c !! turn_task u = Some T → is_finished (t_phase T) = true);
  se_plugin : ∀ t T, c_tasks c !! t = Some T → t_plugin T = i;
  se_done : ∀ t req r, c_tasks c !! t = Some (mkTask i req (Finished r)) → Whole t req r ∈ us;
}.

Lemma half_way_unlocked h1 c t req pid :
  coherent c → half_way h1 c → c_tasks c !! t = Some (mkTask i req (Ready pid)) →
  ensure_proc i (launch i) h1 = (Ok pid, c_host c).
Proof.
  intros Hc Hh Et. destruct (co_held _ Hc t _ pid Et eq_refl) as [El _]. unfold half_way in Hh. simpl in El.
  rewrite El in Hh. destruct Hh as (req' & [(pid' & Et' & He)|(pid' & h2 & Et' & _)]); rewrite Et in Et'; by simplify_eq.
Qed.

Lemma half_way_asked h1 c t req pid :
  coherent c → half_way h1 c → c_tasks c !! t = Some (mkTask i req (Asked pid)) →
  ∃ h2, ensure_proc i (launch i) h1 = (Ok pid, h2) ∧ ask pid (to_string req +:+ newline) h2 = (Ok (), c_host c).
Proof.
  intros Hc Hh Et. destruct (co_held _ Hc t _ pid Et eq_refl) as [El _]. unfold half_way in Hh. simpl in El.
  rewrite El in Hh. destruct Hh as (req' & [(pid' & Et' & He)|(pid' & h2 & Et' & He)]); rewrite Et in Et'; simplify_eq; eauto.
Qed.

(** A call ends its turn, with its result or aborted. *)
Lemma serialized_turn h c us u c' :
  serialized h c us → (∀ h1, half_way h1 c → turn_does u h1 (c_host c')) →
  (∃ T, c_tasks c !! turn_task u = Some T ∧ is_finished (t_phase T) = false ∧ (turn_task u < c_next c)%nat) →
  c_locks c' !! i = None → c_next c' = c_next c →
  match u with Whole t req r => c_tasks c' = <[t := mkTask i req (Finished r)]> (c_tasks c)
  | _ => c_tasks c' = delete (turn_task u) (c_tasks c) end →
  serialized h c' (us ++ [u]).
Proof.
  intros Hs Hdo (T & Et & Hf & Hlt) Hl Hn Htasks. destruct (se_host _ _ _ Hs) as (h1 & Hser & Hh).
  assert (turn_task u ∉ turn_task <$> us) as Hnew.
  { intros (v & E & Hv)%list_elem_of_fmap. destruct (se_turns _ _ _ Hs v T Hv) as [_ Hv']. rewrite <- E, Hf in Hv'. by specialize (Hv' Et). }
  assert (∀ t' T', c_tasks c' !! t' = Some T' → t' = turn_task u ∧ (∃ req r, u = Whole t' req r ∧ T' = mkTask i req (Finished r)) ∨
    t' ≠ turn_task u ∧ c_tasks c !! t' = Some T') as Hcase.
  { intros t' T'. destruct u as [t req r|t req|t]; rewrite Htasks; simpl.
    - intros [[<- <-]|[Hne E]]%lookup_insert_Some; [left; eauto|by right].
    - intros [Hne E]%lookup_delete_Some. by right.
    - intros [Hne E]%lookup_delete_Some. by right. }
  split.
  - exists (c_host c'). split; [|unfold half_way; by rewrite Hl]. eapply serial_snoc; [done|by apply Hdo].
  - rewrite fmap_app. apply NoDup_app. split_and!; [by apply Hs| |apply NoDup_singleton]. set_solver.
  - intros v T' [Hv| ->%list_elem_of_singleton]%elem_of_app; rewrite Hn.
    + destruct (se_turns _ _ _ Hs v T' Hv) as [Hv1 Hv2]. split; [done|].
      intros [[Et' _]|[_ Et']]%Hcase; [|auto]. destruct Hnew. rewrite <- Et'. by apply list_elem_of_fmap_2.
    + split; [done|]. intros [[_ (req & r & _ & ->)]|[[] _]]%Hcase; done.
  - intros t' T' [[_ (req & r & Eu & ->)]|[_ Et']]%Hcase; [done|by apply (se_plugin _ _ _ Hs t')].
  - intros t' req r [[_ (req' & r' & Eu & [= <- <-])]|[_ Et']]%Hcase; apply elem_of_app.
    + right. rewrite <- Eu. by apply list_elem_of_singleton.
    + left. by apply Hs.
Qed.

(** A poll that does not end the turn. *)
Lemma serialized_move h c us t T ph h' log :
  serialized h c us → c_tasks c !! t = Some T → is_finished (t_phase T) = false → is_finished ph = false →
  (∀ h1, half_way h1 c → half_way h1 (move t T ph h' log c)) → serialized h (move t T ph h' log c) us.
Proof.
  intros Hs Et Hf Hf' Hhw. destruct (se_host _ _ _ Hs) as (h1 & Hser & Hh). split; simpl.
  - exists h1. split; [done|by apply Hhw].
  - apply Hs.
  - intros u T' Hu. destruct (se_turns _ _ _ Hs u T' Hu) as [Hlt Hu']. split; [done|].
    intros [[Eu <-]|[_ E]]%lookup_insert_Some; [|auto]. simpl.
    destruct (se_turns _ _ _ Hs u T Hu) as [_ Hu2]. rewrite <- Eu, Hf in Hu2. by specialize (Hu2 Et).
  - intros t' T' [[<- <-]|[_ E]]%lookup_insert_Some; simpl; by eapply (se_plugin _ _ _ Hs).
  - intros t' req r [[<- [= <- <- ->]]|[_ E]]%lookup_insert_Some; [done|by apply Hs].
Qed.

Lemma serialized_run h t c us :
  coherent c → serialized h c us → ∃ us', serialized h (default c (run_task t c)) us'.
Proof.
  intros Hc Hs. destruct (run_task t c) as [c'|] eqn:Er; simpl; [|by exists us].
  unfold run_task in Er. destruct (c_tasks c !! t) as [[k req ph]|] eqn:Et; simpl in Er; [|done].
  assert (k = i) as -> by apply (se_plugin _ _ _ Hs t _ Et).
  assert (∀ r h', (∀ h1, half_way h1 c → exchange i (launch i) req h1 = (r, h')) → is_finished ph = false →
    serialized h (move t (mkTask i req ph) (Finished r) h' [] c) (us ++ [Whole t req r])) as Hend.
  { intros r h' Hx Hf. apply (serialized_turn h c); simpl; try done.
    - exists (mkTask i req ph). split_and!; [done..|by apply (co_fresh _ Hc t _ Et)].
    - apply lookup_partial_alter_eq. }
  destruct ph as [|pid|pid|r]; [| | |done].
  - destruct (c_locks c !! i) as [|] eqn:El; [done|]. injection Er as <-.
    assert (∀ h1, half_way h1 c → h1 = c_host c) as Hh by (intros h1; unfold half_way; by rewrite El).
    destruct (ensure_proc i (launch i) (c_host c)) as [[pid|e] h'] eqn:He.
    + exists us. apply serialized_move; try done. intros h1 ->%Hh. unfold half_way. simpl.
      rewrite lookup_partial_alter_eq. simpl. exists req. left. exists pid. by rewrite lookup_insert_eq.
    + eexists. apply Hend; [|done]. intros h1 ->%Hh. unfold exchange, mbind, HM_bind. by rewrite He.
  - destruct (takes pid _); [|done]. injection Er as <-. pose proof (λ h1 Hh, half_way_unlocked h1 c t req pid Hc Hh Et) as Hh.
    destruct (ask pid _ (c_host c)) as [[[]|e] h'] eqn:Ea.
    + exists us. apply serialized_move; try done. intros h1 Hh1. unfold half_way. simpl.
      rewrite lookup_partial_alter_eq. simpl. exists req. right. exists pid, (c_host c). rewrite lookup_insert_eq. auto.
    + eexists. apply Hend; [|done]. intros h1 Hh1. unfold exchange, io, kill_on_error, mbind, HM_bind.
      by rewrite (Hh h1 Hh1), Ea.
  - injection Er as <-. destruct (receive pid (c_host c)) as [r h'] eqn:Ea.
    assert (∀ h1, half_way h1 c → exchange i (launch i) req h1 =
      match r with Ok l => (Ok l, h') | Err e => (Err e, drop_proc i pid h') end) as Hx.
    { intros h1 Hh1. destruct (half_way_asked h1 c t req pid Hc Hh1 Et) as (h2 & He & Ha).
      unfold exchange, io, kill_on_error, mbind, HM_bind. rewrite He, Ha, Ea. by destruct r. }
    destruct r; eexists; by apply Hend.
Qed.

Lemma serialized_drop h t c us :
  coherent c → serialized h c us → ∃ us', serialized h (drop_task t c) us'.
Proof.
  intros Hc Hs. unfold drop_task. destruct (c_tasks c !! t) as [[k req ph]|] eqn:Et; [|by exists us].
  assert (k = i) as -> by apply (se_plugin _ _ _ Hs t _ Et).
  assert (held ph = None → serialized h (mkConc (c_host c) (c_locks c) (delete t (c_tasks c)) (c_next c) (c_log c ++ [])) us) as Hkeep.
  { intros Hn. destruct (se_host _ _ _ Hs) as (h1 & Hser & Hh). split; simpl.
    - exists h1. split; [done|]. unfold half_way in *. simpl. destruct (c_locks c !! i) as [t'|] eqn:El; [|done].
      rewrite lookup_delete_ne; [done|]. intros <-. apply (co_lock _ Hc) in El as (T & pid & Et' & _ & Eh).
      rewrite Et in Et'. by simplify_eq/=.
    - apply Hs.
    - intros u T Hu. destruct (se_turns _ _ _ Hs u T Hu) as [Hlt Hf]. split; [done|]. intros [_ E]%lookup_delete_Some. auto.
    - intros t' T [_ E]%lookup_delete_Some. by apply (se_plugin _ _ _ Hs t').
    - intros t' req' r [_ E]%lookup_delete_Some. by apply Hs. }
  assert (∃ T, c_tasks c !! t = Some T ∧ (is_finished ph = false → is_finished (t_phase T) = false) ∧ (t < c_next c)%nat) as (T & ET & Hf & Hlt).
  { eexists. split_and!; [done|done|by apply (co_fresh _ Hc t _ Et)]. }
  destruct ph as [|pid|pid|r]; simpl.
  - exists us. by apply Hkeep.
  - exists (us ++ [Early t]). apply (serialized_turn h c); simpl; try done; [|by eauto|apply lookup_delete_eq].
    intros h1 Hh. exists pid. by apply (half_way_unlocked h1 c t req).
  - exists (us ++ [Cut t req]). apply (serialized_turn h c); simpl; try done; [|by eauto|apply lookup_delete_eq].
    intros h1 Hh. destruct (half_way_asked h1 c t req pid Hc Hh Et) as (h2 & He & Ha).
    unfold exchange_dropped, mbind, HM_bind. by rewrite He, Ha.
  - exists us. by apply Hkeep.
Qed.

Definition of_plugin (e : Event J) : Prop := match e with Call j _ => j = i | _ => True end.

Lemma serialized_call h req c us :
  coherent c → serialized h c us → serialized h (start_call i req c) us.
Proof.
  intros Hc Hs. destruct (se_host _ _ _ Hs) as (h1 & Hser & Hh). split; simpl.
  - exists h1. split; [done|]. unfold half_way in *. simpl. destruct (c_locks c !! i) as [t'|] eqn:El; [|done].
    rewrite lookup_insert_ne; [done|]. apply (co_lock _ Hc) in El as (T & pid & Et' & _).
    apply (co_fresh _ Hc) in Et'. lia.
  - apply Hs.
  - intros u T Hu. destruct (se_turns _ _ _ Hs u T Hu) as [Hlt Hf]. split; [lia|].
    rewrite lookup_insert_ne by lia. done.
  - intros t' T [[<- <-]|[_ E]]%lookup_insert_Some; [done|]. by apply (se_plugin _ _ _ Hs t').
  - intros t' req' r [[_ [=]]|[_ E]]%lookup_insert_Some. by apply Hs.
Qed.

(** C11. The mutex makes the calls of one plugin's [exchange] atomic: however the
    polls and the aborts of its callers interleave, when the mutex is free the
    host is as if the calls had run one after the other, each as a whole
    [exchange] (or as what the aborted ones left: a process, or a request whose
    answer nobody read), each at most once, and every call that returned returned
    what its turn gives. *)
Theorem exchanges_serialize (evs : list (Event J)) h :
  Forall of_plugin evs →
  let c := run_events evs (idle h) in
  c_locks c !! i = None →
  ∃ us, serial us h (c_host c) ∧ NoDup (turn_task <$> us) ∧
    ∀ t req r, c_tasks c !! t = Some (mkTask i req (Finished r)) → Whole t req r ∈ us.
Proof.
  intros Hevs. assert (∀ c us, coherent c → serialized h c us → ∃ us', serialized h (run_events evs c) us') as Hrun.
  { induction Hevs as [|e evs He _ IH]; intros c us Hc Hs; [by exists us|].
    change (run_events (e :: evs) c) with (run_events evs (apply_event c e)).
    assert (∃ us', serialized h (apply_event c e) us') as [us' Hs'].
    { destruct e as [j req|t|t]; simpl in *; [subst j; exists us; by apply serialized_call| |].
      - by apply (serialized_run h t c us).
      - by apply (serialized_drop h t c us). }
    apply (IH _ us'); [by apply coherent_event|done]. }
  destruct (Hrun (idle h) []) as [us Hs].
  - apply coherent_idle.
  - split; simpl; try (intros *; rewrite lookup_empty; done); [by exists h|apply NoDup_nil_2|set_solver].
  - intros c Hl. destruct (se_host _ _ _ Hs) as (h1 & Hser & Hh). unfold half_way in Hh. fold c in Hh, Hs. rewrite Hl in Hh.
    exists us. subst h1. split_and!; [done|apply Hs|apply Hs].
Qed.
End OnePlugin.
End Exchanges.

(** ** A plugin that stopped reading *)
Module ExchangesRun.
Import TreeWire.

(** The world is the clock. Plugin 1 does not read its input; the other answers
    after five milliseconds. *)
#[local] Instance procs_ : Procs Z := {|
  os_spawn p w := (Ok (if decide (name p = "deaf") then 2 else 1), w);
  os_write _ _ w := (Ok (), w);
  os_next_line _ w := (Eof, w);
  os_next_line_timeout _ _ w := (Some (Line "ok"), w + 5);
  os_kill _ w := w;
  os_now_ms w := w;
|}.
#[local] Instance pipe : Pipe Z := λ pid _, bool_decide (pid ≠ 2).
#[local] Instance timed : Timed (W := Z).
Proof. refine {| timer_slack := 5 |}; intros; simpl; lia. Defined.

Definition launch (i : nat) : Plugin := mkPlugin (if decide (i = 1%nat) then "deaf" else "p") "/p" "/p/p" [].
Definition calls : list (Event Tree) := [Call 1 TNull; Call 1 TNull; Call 0 TNull; Run 0; Run 2; Run 2].
Definition waiting : Conc Tree Z := run_events launch calls (idle (mkHost ∅ 0)).
(** The other calls go on, one of the two is aborted, and a third one comes. *)
Definition later : list (Event Tree) := [Run 0; Run 2; Run 1; Drop 1; Call 1 TNull; Run 3; Run 0].

Lemma exchanges_end_witness :
  t_phase <$> c_tasks (drain launch (work waiting) waiting) !! 2%nat = Some (Finished (Ok "ok")) ∧
  settled (drain launch (work waiting) waiting) ∧
  c_locks (run_events launch later waiting) !! 1%nat = Some 0%nat ∧
  ∃ c', run_task launch 2 waiting = Some c' ∧ c_locks c' !! 0%nat = None ∧ os (c_host c') ≤ 60005.
Proof.
  destruct (exchanges_end launch calls (mkHost ∅ 0)) as (_ & Ht & Hs & Hw).
  split; [vm_compute; reflexivity|]. split; [exact Hs|]. split.
  - apply (Hw 0%nat 1%nat TNull 2 later); [vm_compute; reflexivity| |done].
    unfold later. rewrite !not_elem_of_cons. split_and!; [done..|apply not_elem_of_nil].
  - apply (Ht 2%nat (mkTask 0 TNull (Asked 1)) 1); vm_compute; reflexivity.
Defined.
End ExchangesRun.
