(* ===== verification/Linearize.v ===== *)
(** * Concurrent exchanges and the connector ([src/plugins.rs], [crates/collector-sdk/src/lib.rs])

    The interleaved exchanges of [Exchanges] against processes that run the
    SDK's loop: the requests of a process are served one after the other in the
    order they were written, and the answer a call returns is the one at its
    place, less one for every call of that process aborted while it waited. *)
From S2P Require Import Prelude Float Proto RustStr Json Wire Sdk Jobs Plugins PluginsProps HostSdk Exchanges.
Set Warnings "-register-all".
Local Open Scope Z_scope.

(** ** The history of a process *)
Section History.
Context {J : Type}.
Implicit Types (log : list (Logged J)) (pid : Z).

Definition sent_to pid (e : Logged J) : option J :=
  match e with Sent q _ req => if decide (q = pid) then Some req else None | Dropped _ => None end.
Definition sender (e : Logged J) : option nat := match e with Sent _ t _ => Some t | Dropped _ => None end.
Definition entry_pid (e : Logged J) : Z := match e with Sent q _ _ | Dropped q => q end.
Definition is_dropped pid (e : Logged J) : bool :=
  match e with Dropped q => bool_decide (q = pid) | Sent _ _ _ => false end.

(** The requests written to [pid], in order; the waits for it that were
    aborted; the tasks that wrote. *)
Definition requests pid log : list J := omap (sent_to pid) log.
Definition aborted pid log : nat := length (filter (is_dropped pid) log).
Definition senders log : list nat := omap sender log.

Lemma requests_app pid l1 l2 : requests pid (l1 ++ l2) = requests pid l1 ++ requests pid l2.
Proof. apply omap_app. Qed.
Lemma aborted_app pid l1 l2 : aborted pid (l1 ++ l2) = (aborted pid l1 + aborted pid l2)%nat.
Proof. unfold aborted. by rewrite filter_app, length_app. Qed.
Lemma senders_app l1 l2 : senders (l1 ++ l2) = senders l1 ++ senders l2.
Proof. apply omap_app. Qed.

(** What concerns other processes does not count. *)
Lemma others_log pid log : Forall (λ e, entry_pid e ≠ pid) log → requests pid log = [] ∧ aborted pid log = 0%nat.
Proof.
  unfold requests, aborted. induction 1 as [|[q t req|q] log Hq _ [IH1 IH2]]; [done|..]; simpl in *.
  - rewrite decide_False by done. by rewrite filter_cons.
  - rewrite filter_cons. simpl. rewrite bool_decide_eq_false_2 by done. done.
Qed.

(** The last request of a process. *)
Lemma last_request pid t req l1 l2 :
  Forall (λ e, entry_pid e ≠ pid) l2 →
  requests pid (l1 ++ Sent pid t req :: l2) = requests pid l1 ++ [req] ∧
  aborted pid (l1 ++ Sent pid t req :: l2) = aborted pid l1.
Proof.
  intros [Er Ea]%others_log. rewrite requests_app, aborted_app.
  change (Sent pid t req :: l2) with ([Sent pid t req] ++ l2). rewrite requests_app, aborted_app, Er, Ea.
  simpl. rewrite decide_True by done. split; [done|]. unfold aborted. simpl. lia.
Qed.
End History.

Section Served.
Context `{JsonLaws J} `{!ScalarLaws J} `{!Wire J} `{!WireLaws J}.
Context {C W : Type} `{!Sdk.Collector J C} `{Procs W} `{Pipe W} `{Lockstep W} `{!LockstepOk} `{!SdkProcs J W C}.
Context (launch : nat → Plugin).
Implicit Types (c : Conc J W) (T : Task J) (h : Host W) (w : W) (i j t : nat) (log : list (Logged J)).

(** The SDK's loop of the process [pid] of plugin [i] on what was written to it. *)
Definition served i pid log : list J * C := Sdk.run_ok (J := J) (to_string <$> requests pid log) (fresh (launch i)).

(** Requests the SDK answers with one line: all but subscriptions. *)
Definition servable (req : J) : Prop := is_subscribe (J := J) (to_string req) = false.

Lemma run_ok_snoc lines line (x : C) :
  Forall (λ l, is_subscribe (J := J) l = false ∧ blank l = false) (lines ++ [line]) →
  Sdk.run_ok (J := J) (lines ++ [line]) x =
    ((Sdk.run_ok lines x).1 ++ [(Sdk.answer line (Sdk.run_ok (J := J) lines x).2).1],
     (Sdk.answer line (Sdk.run_ok (J := J) lines x).2).2) ∧
  length (Sdk.run_ok (J := J) lines x).1 = length lines.
Proof.
  revert x. induction lines as [|l lines IH]; intros x Hl; inversion_clear Hl as [|? ? [Hs Hb] Hl'].
  - simpl app. by rewrite run_ok_cons, Hb.
  - simpl app. rewrite !run_ok_cons, Hb by done. destruct (IH (Sdk.answer l x).2 Hl') as [-> IH2].
    simpl. by rewrite IH2.
Qed.

Lemma text_good (req : J) : servable req → is_subscribe (J := J) (to_string req) = false ∧ blank (to_string req) = false.
Proof. intros Hs. split; [done|]. apply bool_decide_eq_false_2, print_not_blank. Qed.

(** One more request, one more answer. *)
Lemma served_sent i pid t req log :
  Forall servable (requests pid log) → servable req →
  let line := to_string req in
  served i pid (log ++ [Sent pid t req]) =
    ((served i pid log).1 ++ [(Sdk.answer line (served i pid log).2).1], (Sdk.answer (J := J) line (served i pid log).2).2) ∧
  length (served i pid log).1 = length (requests pid log).
Proof.
  intros Hlog Hreq line. unfold served. rewrite requests_app, fmap_app. simpl. rewrite decide_True by done. simpl. subst line.
  destruct (run_ok_snoc (to_string <$> requests pid log) (to_string req) (fresh (launch i))) as [-> Hlen].
  - apply Forall_app. split; [|apply Forall_singleton; by apply text_good].
    apply Forall_fmap. eapply Forall_impl; [exact Hlog|]. intros r. apply text_good.
  - by rewrite Hlen, length_fmap.
Qed.

Lemma served_others i pid log l : Forall (λ e, entry_pid e ≠ pid) l → served i pid (log ++ l) = served i pid log.
Proof. intros [E _]%others_log. unfold served. by rewrite requests_app, E, app_nil_r. Qed.

(** ** One process *)

(** The process [pid] of plugin [i] has served what was written to it; [reads]
    answers have been read, [waiting] says whether one is waited for. *)
Definition channel i pid (waiting : bool) w log : Prop :=
  pid ∈ known w ∧ proc_state pid w = (served i pid log).2 ∧
  ∃ reads, length (requests pid log) = (reads + aborted pid log + (if waiting then 1 else 0))%nat ∧
    replies pid w = drop reads (to_string <$> (served i pid log).1).

Lemma channel_others i pid b w w' log l :
  channel i pid b w log → (∀ q, q ∈ known w → q ∈ known w') → proc_state pid w' = proc_state pid w →
  replies pid w' = replies pid w → Forall (λ e, entry_pid e ≠ pid) l → channel i pid b w' (log ++ l).
Proof.
  intros (Hk & Hs & n & Hn & Hr) Hk' Hs' Hr' Hl. destruct (others_log _ _ Hl) as [El Ea].
  split_and!; [auto|by rewrite served_others, Hs'|]. exists n.
  by rewrite served_others, Hr', requests_app, aborted_app, El, Ea, app_nil_r, Nat.add_0_r.
Qed.

Lemma channel_fresh i pid w log :
  pid ∈ known w → proc_state pid w = fresh (launch i) → replies pid w = [] →
  Forall (λ e, entry_pid e ≠ pid) log → channel i pid false w log.
Proof.
  intros Hk Hs Hr [El Ea]%others_log. split_and!; [done|unfold served; by rewrite El|]. exists 0%nat.
  unfold served. rewrite Hr, El, Ea. done.
Qed.

Lemma channel_sent i pid t req w w' log :
  channel i pid false w log → Forall servable (requests pid log) → servable req →
  os_write pid (to_string req +:+ newline) w = (Ok (), w') → channel i pid true w' (log ++ [Sent pid t req]).
Proof.
  intros (Hk & Hs & n & Hn & Hr) Hlog Hreq Ew. destruct (text_good req Hreq) as [Hsub Hb].
  pose proof (print_one_line req) as Hone.
  pose proof (write_ok pid (to_string req +:+ newline) w) as Hw. rewrite Ew in Hw. destruct Hw as (Hk' & _ & Hw).
  specialize (Hw eq_refl (one_request _ Hone Hb Hsub)).
  pose proof (write_runs pid (to_string req) w) as Hx. rewrite Ew in Hx. destruct Hx as [_ Hx].
  destruct (Hx eq_refl Hone Hb Hsub) as [Ha Hs']. rewrite Hs in Ha, Hs'.
  destruct (served_sent i pid t req log Hlog Hreq) as [Es Hlen]. split_and!; [by rewrite Hk'|by rewrite Es|].
  exists n. rewrite Es, requests_app, aborted_app, length_app, Hw, Hr, Ha. simpl. rewrite decide_True by done.
  unfold aborted at 2. simpl. split; [lia|]. rewrite fmap_app, drop_app_le; [done|]. rewrite length_fmap, Hlen. lia.
Qed.

(** The answer read is the one after those read before. *)
Lemma channel_read i pid n l w w' log :
  channel i pid true w log → os_next_line_timeout n pid w = (Some (Plugins.Line l), w') →
  channel i pid false w' log ∧
  ∃ a, (served i pid log).1 !! (length (requests pid log) - 1 - aborted pid log)%nat = Some a ∧ l = to_string a ∧
    (aborted pid log ≤ length (requests pid log) - 1)%nat.
Proof.
  intros (Hk & Hs & k & Hn & Hr) Er. pose proof (read_ok n pid w) as Hx. rewrite Er in Hx. destruct Hx as (Hk' & _ & Hx).
  specialize (Hx l eq_refl). rewrite Hr in Hx. pose proof (read_keeps n pid pid w) as Hp. rewrite Er in Hp. simpl in Hp.
  assert ((to_string <$> (served i pid log).1) !! k = Some l) as Hl.
  { rewrite <- (Nat.add_0_r k), <- lookup_drop, Hx. done. }
  split.
  - split_and!; [by rewrite Hk'|by rewrite Hp|]. exists (S k). split; [lia|].
    replace (S k) with (k + 1)%nat by lia. rewrite <- drop_drop, Hx. done.
  - replace (length _ - 1 - aborted pid log)%nat with k by lia. rewrite list_lookup_fmap in Hl.
    apply fmap_Some in Hl as (a & Ea & ->). exists a. split_and!; [done|done|lia].
Qed.

Lemma channel_aborted i pid w log :
  channel i pid true w log → channel i pid false w (log ++ [Dropped pid]).
Proof.
  intros (Hk & Hs & n & Hn & Hr).
  assert (served i pid (log ++ [Dropped pid]) = served i pid log) as Es.
  { unfold served. by rewrite requests_app, app_nil_r. }
  split_and!; [done|by rewrite Es|]. exists n. rewrite Es, requests_app, aborted_app, app_nil_r.
  unfold aborted at 2. rewrite filter_cons. simpl. rewrite bool_decide_eq_true_2 by done. simpl. split; [lia|done].
Qed.

(** ** All of them *)

(** Somebody waits for the process of plugin [i]. *)
Definition waiting c i : bool :=
  match c_locks c !! i with
  | Some t => match c_tasks c !! t with Some T => is_asked (t_phase T) | None => false end
  | None => false
  end.
Definition was_sent (ph : Phase) : Prop := match ph with Want | Ready _ => False | Asked _ | Finished _ => True end.
Definition sent_last pid t (req : J) log : Prop :=
  ∃ l1 l2, log = l1 ++ Sent pid t req :: l2 ∧ Forall (λ e, entry_pid e ≠ pid) l2.

(** [s] is the answer of a process of plugin [i] at the place of the request of
    [t], less the aborted waits before it. *)
Definition answered i t (req : J) (s : string) log : Prop :=
  ∃ pid l1 l2 a, log = l1 ++ Sent pid t req :: l2 ∧ (aborted pid l1 ≤ length (requests pid l1))%nat ∧
    (served i pid log).1 !! (length (requests pid l1) - aborted pid l1)%nat = Some a ∧ s = to_string a.

Record serving c : Prop := {
  sv_coherent : coherent c;
  sv_distinct : ∀ i j pid, procs (c_host c) !! i = Some pid → procs (c_host c) !! j = Some pid → i = j;
  sv_channel : ∀ i pid, procs (c_host c) !! i = Some pid → channel i pid (waiting c i) (os (c_host c)) (c_log c);
  sv_known : Forall (λ e, entry_pid e ∈ known (os (c_host c))) (c_log c);
  sv_requests : ∀ pid, Forall servable (requests pid (c_log c));
  sv_servable : ∀ t T, c_tasks c !! t = Some T → servable (t_req T);
  sv_once : NoDup (senders (c_log c));
  sv_senders : ∀ t, t ∈ senders (c_log c) → (t < c_next c)%nat ∧ ∀ T, c_tasks c !! t = Some T → was_sent (t_phase T);
  sv_asked : ∀ t T pid, c_tasks c !! t = Some T → t_phase T = Asked pid → sent_last pid t (t_req T) (c_log c);
  sv_done : ∀ t T s, c_tasks c !! t = Some T → t_phase T = Finished (Ok s) → answered (t_plugin T) t (t_req T) s (c_log c);
}.

Lemma run_ok_prefix lines1 lines2 (x : C) :
  Forall (λ l, is_subscribe (J := J) l = false) lines1 →
  (Sdk.run_ok (J := J) lines1 x).1 `prefix_of` (Sdk.run_ok (lines1 ++ lines2) x).1.
Proof.
  intros Hl. revert x. induction Hl as [|l lines Hs _ IH]; intros x; [apply prefix_nil|].
  simpl app. rewrite !run_ok_cons by done. destruct (blank l); [done|]. simpl. apply prefix_cons, IH.
Qed.

Lemma answered_later i t req s log l :
  (∀ pid, Forall servable (requests pid log)) → answered i t req s log → answered i t req s (log ++ l).
Proof.
  intros Hg (pid & l1 & l2 & a & El & Hle & Ha & Es). exists pid, l1, (l2 ++ l), a. split_and!; [by rewrite El, <- app_assoc|done| |done].
  eapply prefix_lookup_Some; [exact Ha|]. unfold served. rewrite requests_app, fmap_app. apply run_ok_prefix.
  apply Forall_fmap. apply Hg.
Qed.

Lemma sent_last_later pid t req log l :
  sent_last pid t req log → Forall (λ e, entry_pid e ≠ pid) l → sent_last pid t req (log ++ l).
Proof.
  intros (l1 & l2 & -> & Hl) Hl'. exists l1, (l2 ++ l). split; [by rewrite <- app_assoc|]. by apply Forall_app.
Qed.

(** A step of the task [t]: the other plugins' processes are left alone, and it
    accounts for its own. *)
Record steps c c' t T (l : list (Logged J)) : Prop := {
  sp_coherent : coherent c';
  sp_task : c_tasks c !! t = Some T;
  sp_log : c_log c' = c_log c ++ l;
  sp_next : c_next c' = c_next c;
  sp_tasks : ∀ t', t' ≠ t → c_tasks c' !! t' = c_tasks c !! t';
  sp_locks : ∀ j, j ≠ t_plugin T → c_locks c' !! j = c_locks c !! j;
  sp_procs : ∀ j, j ≠ t_plugin T → procs (c_host c') !! j = procs (c_host c) !! j;
  sp_known : ∀ q, q ∈ known (os (c_host c)) → q ∈ known (os (c_host c'));
  sp_others : ∀ j q, j ≠ t_plugin T → procs (c_host c) !! j = Some q →
    procs (c_host c') !! t_plugin T ≠ Some q ∧ proc_state q (os (c_host c')) = proc_state q (os (c_host c)) ∧
    replies q (os (c_host c')) = replies q (os (c_host c)) ∧ Forall (λ e, entry_pid e ≠ q) l;
  sp_own : ∀ pid, procs (c_host c') !! t_plugin T = Some pid →
    channel (t_plugin T) pid (waiting c' (t_plugin T)) (os (c_host c')) (c_log c');
  sp_entries : Forall (λ e, entry_pid e ∈ known (os (c_host c')) ∧
    match e with Sent _ u req => u = t ∧ req = t_req T | Dropped _ => True end) l;
  sp_holder : l ≠ [] → held (t_phase T) ≠ None;
  sp_once : NoDup (senders (c_log c'));
  sp_new : ∀ T', c_tasks c' !! t = Some T' → t_plugin T' = t_plugin T ∧ t_req T' = t_req T ∧
    (t ∈ senders (c_log c') → was_sent (t_phase T')) ∧
    (∀ pid, t_phase T' = Asked pid → sent_last pid t (t_req T) (c_log c')) ∧
    (∀ s, t_phase T' = Finished (Ok s) → answered (t_plugin T) t (t_req T) s (c_log c'));
}.

Section Step.
Variables (c c' : Conc J W) (t : nat) (T : Task J) (l : list (Logged J)).
Hypotheses (Hv : serving c) (Hs : steps c c' t T l).

Lemma step_back j q : j ≠ t_plugin T → procs (c_host c') !! j = Some q → procs (c_host c) !! j = Some q.
Proof using Hs. intros Hj. by rewrite (sp_procs _ _ _ _ _ Hs). Qed.

Lemma step_distinct i j pid : procs (c_host c') !! i = Some pid → procs (c_host c') !! j = Some pid → i = j.
Proof using Hv Hs.
  intros Ei Ej. destruct (decide (i = t_plugin T)) as [->|Hi], (decide (j = t_plugin T)) as [->|Hj]; [done| | |].
  - apply step_back in Ej; [|done]. by destruct (sp_others _ _ _ _ _ Hs j pid Hj Ej).
  - apply step_back in Ei; [|done]. by destruct (sp_others _ _ _ _ _ Hs i pid Hi Ei).
  - apply (sv_distinct _ Hv i j pid); by apply step_back.
Qed.

Lemma step_waiting j : j ≠ t_plugin T → waiting c' j = waiting c j.
Proof using Hv Hs.
  intros Hj. unfold waiting. rewrite (sp_locks _ _ _ _ _ Hs) by done. destruct (c_locks c !! j) as [t'|] eqn:El; [|done].
  rewrite (sp_tasks _ _ _ _ _ Hs); [done|]. intros ->.
  apply (co_lock _ (sv_coherent _ Hv)) in El as (T' & pid & Et' & Ei & _).
  apply Hj. rewrite (sp_task _ _ _ _ _ Hs) in Et'. by injection Et' as ->.
Qed.

Lemma step_channel i pid :
  procs (c_host c') !! i = Some pid → channel i pid (waiting c' i) (os (c_host c')) (c_log c').
Proof using Hv Hs.
  destruct (decide (i = t_plugin T)) as [->|Hi]; [by apply Hs|]. intros Ei%step_back; [|done].
  destruct (sp_others _ _ _ _ _ Hs i pid Hi Ei) as (_ & Hp & Hr & Hq). rewrite (sp_log _ _ _ _ _ Hs), step_waiting by done.
  apply (channel_others _ _ _ (os (c_host c))); [by apply Hv|apply Hs|done..].
Qed.

Lemma step_requests pid : Forall servable (requests pid (c_log c')).
Proof using Hv Hs.
  rewrite (sp_log _ _ _ _ _ Hs), requests_app. apply Forall_app. split; [apply Hv|].
  pose proof (sv_servable _ Hv t T (sp_task _ _ _ _ _ Hs)) as HT.
  pose proof (sp_entries _ _ _ _ _ Hs) as Hl. clear Hs. unfold requests.
  induction Hl as [|[q u req|q] l' [_ He] _ IH]; simpl; [apply Forall_nil_2| |done].
  destruct He as [-> ->]. case_decide; [|done]. by apply Forall_cons_2.
Qed.

Lemma step_senders u : u ∈ senders (c_log c') → u ∈ senders (c_log c) ∨ u = t.
Proof using Hs.
  rewrite (sp_log _ _ _ _ _ Hs), senders_app. intros [Hin|Hin]%elem_of_app; [by left|right].
  apply list_elem_of_omap in Hin as ([q v req|q] & Hin & [= ->]).
  pose proof (sp_entries _ _ _ _ _ Hs) as Hl. rewrite Forall_forall in Hl. by destruct (Hl _ Hin) as [_ [-> _]].
Qed.

(** Whoever else waits still waits for the last request of its process. *)
Lemma step_asked u T' pid :
  c_tasks c' !! u = Some T' → t_phase T' = Asked pid → sent_last pid u (t_req T') (c_log c').
Proof using Hv Hs.
  intros E Ep. destruct (decide (u = t)) as [->|Hne].
  { destruct (sp_new _ _ _ _ _ Hs T' E) as (_ & -> & _ & Ha & _). by apply Ha. }
  rewrite (sp_tasks _ _ _ _ _ Hs) in E by done. rewrite (sp_log _ _ _ _ _ Hs).
  apply sent_last_later; [by apply (sv_asked _ Hv u)|].
  destruct (co_held _ (sv_coherent _ Hv) u T' pid E) as [El Epr]; [by rewrite Ep|].
  destruct (decide (t_plugin T' = t_plugin T)) as [Ei|Hi]; [|by apply (sp_others _ _ _ _ _ Hs (t_plugin T') pid)].
  destruct (decide (l = [])) as [->|Hl]; [constructor|]. exfalso.
  apply (sp_holder _ _ _ _ _ Hs) in Hl. destruct (held (t_phase T)) as [q|] eqn:Eh; [|done].
  destruct (co_held _ (sv_coherent _ Hv) t T q (sp_task _ _ _ _ _ Hs) Eh) as [El' _]. congruence.
Qed.

Lemma serving_step : serving c'.
Proof using Hv Hs.
  split; [apply Hs|apply step_distinct|apply step_channel| |apply step_requests| |apply Hs| |apply step_asked|].
  - rewrite (sp_log _ _ _ _ _ Hs). apply Forall_app. split.
    + eapply Forall_impl; [apply (sv_known _ Hv)|]. intros e. apply Hs.
    + eapply Forall_impl; [apply (sp_entries _ _ _ _ _ Hs)|]. by intros e [? _].
  - intros u T' E. destruct (decide (u = t)) as [->|Hne].
    + destruct (sp_new _ _ _ _ _ Hs T' E) as (_ & -> & _). apply (sv_servable _ Hv t), Hs.
    + rewrite (sp_tasks _ _ _ _ _ Hs) in E by done. by apply (sv_servable _ Hv u).
  - intros u Hin. rewrite (sp_next _ _ _ _ _ Hs). destruct (decide (u = t)) as [->|Hne].
    + split; [by apply (co_fresh _ (sv_coherent _ Hv) t T), Hs|]. intros T' E. by apply (sp_new _ _ _ _ _ Hs T' E).
    + rewrite (sp_tasks _ _ _ _ _ Hs) by done. apply (sv_senders _ Hv). by destruct (step_senders u Hin).
  - intros u T' s E Ep. destruct (decide (u = t)) as [->|Hne].
    + destruct (sp_new _ _ _ _ _ Hs T' E) as (Ei & -> & _ & _ & Ha). rewrite Ei. by apply Ha.
    + rewrite (sp_tasks _ _ _ _ _ Hs) in E by done. rewrite (sp_log _ _ _ _ _ Hs).
      apply answered_later; [apply Hv|by apply (sv_done _ Hv)].
Qed.
End Step.

Lemma waiting_move t T ph h l c : waiting (move t T ph h l c) (t_plugin T) = is_asked ph.
Proof.
  unfold waiting, move. simpl. rewrite lookup_partial_alter_eq.
  destruct (held ph) as [pid|] eqn:Eh; simpl; [by rewrite lookup_insert_eq|]. by destruct ph.
Qed.

(** A task that has not written is not among the senders. *)
Lemma unsent t T c : serving c → c_tasks c !! t = Some T → ¬ was_sent (t_phase T) → t ∉ senders (c_log c).
Proof. intros Hv Et Hn Hin. apply (sv_senders _ Hv) in Hin as [_ Hin]. by apply Hn, Hin. Qed.

(** The holder of a process does something with that process alone. *)
Lemma serving_held t T pid ph h l c :
  serving c → c_tasks c !! t = Some T → held (t_phase T) = Some pid →
  (∀ j, j ≠ t_plugin T → procs h !! j = procs (c_host c) !! j) →
  (∀ q, procs h !! t_plugin T = Some q → q = pid) →
  (∀ q, held ph = Some q → q = pid ∧ procs h !! t_plugin T = Some pid) →
  known (os h) = known (os (c_host c)) →
  (∀ q, q ≠ pid → proc_state q (os h) = proc_state q (os (c_host c)) ∧ replies q (os h) = replies q (os (c_host c))) →
  (procs h !! t_plugin T = Some pid → channel (t_plugin T) pid (is_asked ph) (os h) (c_log c ++ l)) →
  l = [] ∧ (was_sent (t_phase T) → was_sent ph) ∨
    l = [Sent pid t (t_req T)] ∧ ¬ was_sent (t_phase T) ∧ was_sent ph →
  (ph = Asked pid → sent_last pid t (t_req T) (c_log c ++ l)) →
  (∀ s, ph = Finished (Ok s) → answered (t_plugin T) t (t_req T) s (c_log c ++ l)) →
  serving (move t T ph h l c).
Proof.
  intros Hv Et Eh Ho Hq Hph Hk Hsame Hch Hl Ha Hd.
  destruct (co_held _ (sv_coherent _ Hv) t T pid Et Eh) as [El Ep].
  pose proof (sv_channel _ Hv _ _ Ep) as (Hkn & _).
  apply (serving_step c _ t T l); [done|]. split; simpl; try done.
  - apply coherent_move; [by apply Hv|done|left; by rewrite Eh|done|]. by intros q [-> ?]%Hph.
  - intros t' Hne. by rewrite lookup_insert_ne.
  - intros j Hj. by rewrite lookup_partial_alter_ne.
  - intros q. by rewrite Hk.
  - intros j q Hj Ej. assert (q ≠ pid) as Hne by (intros ->; by apply Hj, (sv_distinct _ Hv j (t_plugin T) pid)).
    split_and!; [intros Eq; by apply Hne, Hq|by apply Hsame..|].
    destruct Hl as [[-> _]|(-> & _)]; [apply Forall_nil_2|apply Forall_singleton; done].
  - intros q Eq. rewrite waiting_move. assert (q = pid) as -> by by apply Hq. by apply Hch.
  - rewrite Hk. destruct Hl as [[-> _]|(-> & _)]; [apply Forall_nil_2|by apply Forall_singleton].
  - intros _. by rewrite Eh.
  - rewrite senders_app. destruct Hl as [[-> _]|(-> & Hn & _)]; simpl; [rewrite app_nil_r; by apply Hv|].
    apply NoDup_app. split_and!; [apply Hv| |apply NoDup_singleton]. intros u Hu ->%list_elem_of_singleton.
    by apply (unsent t T c) in Hu.
  - intros T' [[_ <-]|[Hne _]]%lookup_insert_Some; [|done]. simpl. split_and!; try done.
    + rewrite senders_app. destruct Hl as [[-> Hw]|(_ & _ & Hw)]; [|done]. simpl. rewrite app_nil_r.
      intros Hin. apply Hw. apply (sv_senders _ Hv) in Hin as [_ Hin]. by apply Hin.
    + intros q ->. destruct (Hph q eq_refl) as [-> _]. by apply Ha.
Qed.

(** A failed step of the holder: its process is dropped. *)
Lemma serving_failed t T pid e h c :
  serving c → c_tasks c !! t = Some T → held (t_phase T) = Some pid → procs h = procs (c_host c) →
  known (os h) = known (os (c_host c)) →
  (∀ q, q ≠ pid → proc_state q (os h) = proc_state q (os (c_host c)) ∧ replies q (os h) = replies q (os (c_host c))) →
  serving (move t T (Finished (Err e)) (drop_proc (t_plugin T) pid h) [] c).
Proof.
  intros Hv Et Eh Hp Hk Hsame. pose proof (kill_ok pid (os h)) as [Hkk Hkr].
  apply (serving_held t T pid); simpl; rewrite ?Hp; try done.
  - intros j Hj. by rewrite lookup_delete_ne.
  - by rewrite lookup_delete_eq.
  - by rewrite Hkk.
  - intros q Hq. rewrite kill_keeps, Hkr by done. by apply Hsame.
  - by rewrite lookup_delete_eq.
  - by left.
Qed.

(** ** The steps *)

(** The guard is taken. *)
Lemma serving_acquired t T pid h c :
  serving c → c_tasks c !! t = Some T → t_phase T = Want → c_locks c !! t_plugin T = None →
  ensure_proc (t_plugin T) (launch (t_plugin T)) (c_host c) = (Ok pid, h) →
  serving (move t T (Ready pid) h [] c).
Proof.
  intros Hv Et Ep El He. pose proof (ensure_proc_procs (t_plugin T) (launch (t_plugin T)) (c_host c)) as Hp.
  rewrite He in Hp. destruct Hp as [Ho Hi]. specialize (Hi pid eq_refl).
  assert (waiting c (t_plugin T) = false) as Ew by (unfold waiting; by rewrite El).
  assert (Forall (λ e, entry_pid e ∈ known (os h)) (c_log c) ∧ (∀ q, q ∈ known (os (c_host c)) → q ∈ known (os h)) ∧
    (∀ j q, j ≠ t_plugin T → procs (c_host c) !! j = Some q → q ≠ pid ∧
      proc_state q (os h) = proc_state q (os (c_host c)) ∧ replies q (os h) = replies q (os (c_host c))) ∧
    channel (t_plugin T) pid false (os h) (c_log c)) as (Hkl & Hk & Hoth & Hch).
  { revert He. unfold ensure_proc, spawn, with_os, get_proc, set_proc, mbind, HM_bind.
    destruct (procs (c_host c) !! t_plugin T) as [pid'|] eqn:Eo.
    - intros [= -> <-]. split_and!; [apply Hv|done| |rewrite <- Ew; by apply Hv]. intros j q Hj Ej. split_and!; [|done..].
      intros ->. by apply Hj, (sv_distinct _ Hv j (t_plugin T) pid).
    - pose proof (spawn_ok (launch (t_plugin T)) (os (c_host c))) as Hs.
      pose proof (spawn_fresh (launch (t_plugin T)) (os (c_host c))) as Hf.
      destruct (os_spawn _ _) as [[q|e] w]; [|done]. simpl. intros [= -> <-]. simpl.
      destruct Hs as (Hn & Hk & Hr & Hro), Hf as [Hf Hfo]. rewrite Hk. split_and!.
      + eapply Forall_impl; [apply (sv_known _ Hv)|]. intros e He. by apply elem_of_cons; right.
      + intros q Hq. by apply elem_of_cons; right.
      + intros j q Hj Ej. pose proof (sv_channel _ Hv j q Ej) as (Hkn & _).
        assert (q ≠ pid) as Hne by (intros ->; by apply Hn). split_and!; [done| |by apply Hro].
        apply Hfo. by intros [= ->].
      + apply channel_fresh; [rewrite Hk; by apply elem_of_cons; left|by apply Hf|done|].
        eapply Forall_impl; [apply (sv_known _ Hv)|]. intros e He E. apply Hn. by rewrite <- E. }
  apply (serving_step c _ t T []); [done|]. split; simpl; rewrite ?app_nil_r; try done.
  - apply coherent_move; [by apply Hv|done|by right|done|]. by intros q [= <-].
  - intros t' Hne. by rewrite lookup_insert_ne.
  - intros j Hj. by rewrite lookup_partial_alter_ne.
  - intros j q Hj Ej. destruct (Hoth j q Hj Ej) as (Hne & Hs & Hr). rewrite Hi. split_and!; [congruence|done|done|apply Forall_nil_2].
  - intros q Eq. rewrite waiting_move. simpl. rewrite Hi in Eq. by injection Eq as <-.
  - apply Hv.
  - intros T' [[_ <-]|[Hne _]]%lookup_insert_Some; [|done]. simpl. split_and!; try done.
    apply (unsent t T c Hv Et). rewrite Ep. by intros [].
Qed.

(** The process could not be spawned. *)
Lemma serving_not_spawned t T e h c :
  serving c → c_tasks c !! t = Some T → t_phase T = Want → c_locks c !! t_plugin T = None →
  ensure_proc (t_plugin T) (launch (t_plugin T)) (c_host c) = (Err e, h) →
  serving (move t T (Finished (Err e)) h [] c).
Proof.
  intros Hv Et Ep El. unfold ensure_proc, spawn, with_os, get_proc, set_proc, mbind, HM_bind.
  destruct (procs (c_host c) !! t_plugin T) as [pid'|] eqn:Eo; [done|].
  pose proof (spawn_ok (launch (t_plugin T)) (os (c_host c))) as Hs.
  pose proof (spawn_fresh (launch (t_plugin T)) (os (c_host c))) as Hf.
  destruct (os_spawn _ _) as [[q|e'] w]; [done|]. simpl. intros [= <- <-].
  destruct Hs as [Hk Hr], Hf as [_ Hf].
  apply (serving_step c _ t T []); [done|]. split; simpl; rewrite ?app_nil_r; try done.
  - apply coherent_move; [by apply Hv|done|by right|done|done].
  - intros t' Hne. by rewrite lookup_insert_ne.
  - intros j Hj. by rewrite lookup_partial_alter_ne.
  - intros q. by rewrite Hk.
  - intros j q Hj Ej. rewrite Eo. split_and!; [done|by apply Hf|done|apply Forall_nil_2].
  - intros q. by rewrite Eo.
  - apply Hv.
  - intros T' [[_ <-]|[Hne _]]%lookup_insert_Some; [|done]. simpl. by split_and!.
Qed.

(** The request is written, or not. *)
Lemma serving_asked t T pid c :
  serving c → c_tasks c !! t = Some T → t_phase T = Ready pid →
  serving (match ask pid (to_string (t_req T) +:+ newline) (c_host c) with
    | (Ok _, h) => move t T (Asked pid) h [Sent pid t (t_req T)] c
    | (Err e, h) => move t T (Finished (Err e)) (drop_proc (t_plugin T) pid h) [] c
    end).
Proof.
  intros Hv Et Ep. assert (held (t_phase T) = Some pid) as Eh by by rewrite Ep.
  destruct (co_held _ (sv_coherent _ Hv) t T pid Et Eh) as [El Epr].
  assert (waiting c (t_plugin T) = false) as Ew by (unfold waiting; by rewrite El, Et, Ep).
  pose proof (sv_channel _ Hv _ _ Epr) as Hch. rewrite Ew in Hch.
  unfold ask, with_os, lift_result, mbind, HM_bind.
  pose proof (write_ok pid (to_string (t_req T) +:+ newline) (os (c_host c))) as Hw.
  pose proof (write_runs pid (to_string (t_req T)) (os (c_host c))) as Hr.
  destruct (os_write _ _ _) as [[[]|e] w] eqn:Eo; destruct Hw as (Hk & Hw & _), Hr as [Hr _]; simpl.
  - apply (serving_held t T pid); simpl; try done.
    + intros q Eq. congruence.
    + by intros q [= <-].
    + intros q Hq. split; [by apply Hr|by apply Hw].
    + intros _. eapply channel_sent; [done|by apply Hv|by apply (sv_servable _ Hv t)|done].
    + right. rewrite Ep. split_and!; [done|by intros []|done].
    + intros _. exists (c_log c), []. split; [done|apply Forall_nil_2].
  - apply serving_failed; try done. intros q Hq. split; [by apply Hr|by apply Hw].
Qed.

(** The answer is read, or not. *)
Lemma serving_received t T pid c :
  serving c → c_tasks c !! t = Some T → t_phase T = Asked pid →
  serving (match receive pid (c_host c) with
    | (Ok l, h) => move t T (Finished (Ok l)) h [] c
    | (Err e, h) => move t T (Finished (Err e)) (drop_proc (t_plugin T) pid h) [] c
    end).
Proof.
  intros Hv Et Ep. assert (held (t_phase T) = Some pid) as Eh by by rewrite Ep.
  destruct (co_held _ (sv_coherent _ Hv) t T pid Et Eh) as [El Epr].
  assert (waiting c (t_plugin T) = true) as Ew by (unfold waiting; by rewrite El, Et, Ep).
  pose proof (sv_channel _ Hv _ _ Epr) as Hch. rewrite Ew in Hch.
  destruct (sv_asked _ Hv t T pid Et Ep) as (l1 & l2 & Elog & Hl2).
  unfold receive, with_os, mbind, HM_bind.
  pose proof (read_ok EXCHANGE_TIMEOUT pid (os (c_host c))) as Hr.
  pose proof (λ q, read_keeps EXCHANGE_TIMEOUT pid q (os (c_host c))) as Hs. simpl in Hs.
  destruct (os_next_line_timeout _ _ _) as [r w] eqn:Eo. simpl in Hs. destruct Hr as (Hk & Hr & _).
  assert (∀ e, serving (move t T (Finished (Err e)) (drop_proc (t_plugin T) pid (mkHost (procs (c_host c)) w)) [] c)) as Hfail.
  { intros e. apply serving_failed; try done. intros q Hq. split; [by apply Hs|by apply Hr]. }
  destruct r as [[l| |e]|]; simpl; [|apply Hfail..].
  destruct (channel_read _ _ _ _ _ _ _ Hch Eo) as [Hch' (a & Ea & -> & Hle)].
  destruct (last_request pid t (t_req T) l1 l2 Hl2) as [Er Eab]. rewrite <- Elog in Er, Eab.
  rewrite Er, Eab, length_app in Ea, Hle. simpl in Ea, Hle. rewrite Nat.add_sub in Ea, Hle.
  apply (serving_held t T pid); simpl; rewrite ?app_nil_r; try done.
  - intros q Eq. congruence.
  - intros q Hq. split; [by apply Hs|by apply Hr].
  - by left.
  - intros s [= <-]. by exists pid, l1, l2, a.
Qed.

(** An abort. *)
Lemma serving_drop t c : serving c → serving (drop_task t c).
Proof.
  intros Hv. pose proof (coherent_drop t c (sv_coherent _ Hv)) as Hc. unfold drop_task in *.
  destruct (c_tasks c !! t) as [T|] eqn:Et; [|done]. set (c' := mkConc _ _ _ _ _) in *.
  assert (∀ T' (P : Prop), c_tasks c' !! t = Some T' → P) as Hgone by (intros T' P; simpl; by rewrite lookup_delete_eq).
  assert (∀ pid, procs (c_host c) !! t_plugin T = Some pid →
    channel (t_plugin T) pid (waiting c' (t_plugin T)) (os (c_host c)) (c_log c')) as Hch.
  { intros pid Epr. pose proof (sv_channel _ Hv _ _ Epr) as Hch. subst c'. unfold waiting in *. simpl.
    destruct (held (t_phase T)) as [q|] eqn:Eh.
    - destruct (co_held _ (sv_coherent _ Hv) t T q Et Eh) as [El Eq]. rewrite El, Et in Hch. rewrite lookup_delete_eq.
      assert (q = pid) as -> by congruence.
      destruct (t_phase T) as [|q|q|r]; simplify_eq/=; [by rewrite app_nil_r|by apply channel_aborted].
    - assert (match t_phase T with Asked pid => [Dropped pid] | _ => [] end = @nil (Logged J)) as -> by by destruct (t_phase T).
      rewrite app_nil_r. destruct (c_locks c !! t_plugin T) as [u|] eqn:El; [|done].
      rewrite lookup_delete_ne; [done|]. intros <-. apply (co_lock _ (sv_coherent _ Hv)) in El as (T' & p & Et' & _ & Eh').
      rewrite Et in Et'. injection Et' as <-. by rewrite Eh in Eh'. }
  assert (Forall (λ e : Logged J, ∃ pid, e = Dropped pid ∧ held (t_phase T) = Some pid ∧ procs (c_host c) !! t_plugin T = Some pid)
    match t_phase T with Asked pid => [Dropped pid] | _ => [] end) as Hl.
  { pose proof (co_held _ (sv_coherent _ Hv) t T) as Hh. destruct (t_phase T) as [|q|q|r]; try apply Forall_nil_2.
    apply Forall_singleton. exists q. split_and!; [done..|by apply Hh]. }
  apply (serving_step c c' t T (match t_phase T with Asked pid => [Dropped pid] | _ => [] end)); [done|].
  split; try done.
  - intros u Hu. simpl. by rewrite lookup_delete_ne.
  - intros j Hj. simpl. destruct (held (t_phase T)); [by rewrite lookup_delete_ne|done].
  - intros j q Hj Ej. split_and!; [intros Ei; by apply Hj, (sv_distinct _ Hv j (t_plugin T) q)|done..|].
    eapply Forall_impl; [exact Hl|]. intros e (pid & -> & _ & Ei) Eq. simpl in Eq. subst q.
    by apply Hj, (sv_distinct _ Hv j (t_plugin T) pid).
  - eapply Forall_impl; [exact Hl|]. intros e (pid & -> & _ & Ei). split; [|done]. by apply (sv_channel _ Hv _ _ Ei).
  - by destruct (t_phase T).
  - subst c'. simpl. rewrite senders_app.
    assert (senders match t_phase T with Asked pid => [Dropped pid] | _ => [] end = @nil nat) as -> by by destruct (t_phase T).
    rewrite app_nil_r. apply Hv.
  - intros T' E. by apply (Hgone T').
Qed.

(** A call. *)
Lemma serving_call i req c : serving c → servable req → serving (start_call i req c).
Proof.
  intros Hv Hreq. pose proof (coherent_call i req c (sv_coherent _ Hv)) as Hc.
  assert (∀ t T, c_tasks c !! t = Some T → c_next c ≠ t) as Hne.
  { intros t T Et <-. apply (co_fresh _ (sv_coherent _ Hv)) in Et. lia. }
  split; try (apply Hv || done); simpl.
  - intros k pid Ek. pose proof (sv_channel _ Hv k pid Ek) as Hch. unfold waiting in *. simpl.
    destruct (c_locks c !! k) as [t|] eqn:El; [|done].
    apply (co_lock _ (sv_coherent _ Hv)) in El as (T & p & Et & _). rewrite lookup_insert_ne by by apply (Hne t T). done.
  - intros t T [[_ <-]|[_ Et]]%lookup_insert_Some; [done|by apply (sv_servable _ Hv t)].
  - intros t Hin. destruct (sv_senders _ Hv t Hin) as [Hlt Hw]. split; [lia|].
    intros T. rewrite lookup_insert_ne by lia. apply Hw.
  - intros t T pid [[_ <-]|[_ Et]]%lookup_insert_Some; [done|by apply (sv_asked _ Hv)].
  - intros t T s [[_ <-]|[_ Et]]%lookup_insert_Some; [done|by apply (sv_done _ Hv)].
Qed.

Definition good_event (e : Event J) : Prop := match e with Call _ req => servable req | _ => True end.

Lemma serving_event e c : serving c → good_event e → serving (apply_event launch c e).
Proof.
  intros Hv He. destruct e as [i req|t|t]; simpl; [by apply serving_call| |by apply serving_drop].
  unfold run_task. destruct (c_tasks c !! t) as [T|] eqn:Et; simpl; [|done].
  destruct (t_phase T) as [|pid|pid|r] eqn:Ep; [| |by apply serving_received|done].
  - destruct (c_locks c !! t_plugin T) eqn:El; simpl; [done|].
    destruct (ensure_proc _ _ _) as [[pid|e] h] eqn:He'; [by apply serving_acquired|by apply serving_not_spawned].
  - destruct (takes pid _); simpl; [by apply serving_asked|done].
Qed.

Lemma serving_idle w : serving (idle (mkHost ∅ w)).
Proof.
  split; try (intros *; simpl; rewrite lookup_empty; done); simpl.
  - apply coherent_idle.
  - apply Forall_nil_2.
  - intros pid. apply Forall_nil_2.
  - apply NoDup_nil_2.
  - intros t Ht. by apply elem_of_nil in Ht.
Qed.

Lemma serving_events evs c : Forall good_event evs → serving c → serving (run_events launch evs c).
Proof. intros Hevs. revert c. induction Hevs as [|e evs He _ IH]; intros c Hv; [done|]. by apply IH, serving_event. Qed.

(** C4. However the calls of [exchange], their polls and their aborts
    interleave, over all the plugins, every answer a call returns is the
    connector's answer at its place: the process it wrote to has served the
    requests written to it one after the other, in the order they were written,
    each call's request at most once, and the call of the [n]-th request returned
    the answer to request [n - d], [d] the number of calls of that process that
    were aborted before it while they waited. With no such abort it is the answer
    to its own request; each abort shifts the answers of all later calls by one. *)
Theorem exchanges_linearize (evs : list (Event J)) w t i req s :
  Forall good_event evs →
  let c := run_events launch evs (idle (mkHost ∅ w)) in
  c_tasks c !! t = Some (mkTask i req (Finished (Ok s))) →
  ∃ pid before after a, c_log c = before ++ Sent pid t req :: after ∧
    t ∉ senders (before ++ after) ∧ (aborted pid before ≤ length (requests pid before))%nat ∧
    (served i pid (c_log c)).1 !! (length (requests pid before) - aborted pid before)%nat = Some a ∧ s = to_string a.
Proof.
  intros Hevs c Et. pose proof (serving_events evs _ Hevs (serving_idle w)) as Hv. fold c in Hv.
  destruct (sv_done _ Hv t _ s Et eq_refl) as (pid & l1 & l2 & a & Elog & Hle & Ha & ->).
  exists pid, l1, l2, a. split_and!; [done| |done..].
  pose proof (sv_once _ Hv) as Hnd. rewrite Elog, senders_app in Hnd. rewrite senders_app. simpl in Hnd.
  change (senders (Sent pid t req :: l2)) with (t :: senders l2) in Hnd.
  apply NoDup_app in Hnd as (_ & Hd & Hn%NoDup_cons_1_1). intros [Hin|Hin]%elem_of_app; [|done].
  apply (Hd t Hin). by apply elem_of_cons; left.
Qed.
End Served.

(** ** Three calls, two plugins, one abort *)
Module LinearizeRun.
Import TreeWire HostSdkRun.
#[local] Existing Instances counter procs_ lockstep_ lockstep_ok_ sdk_.
#[local] Instance pipe : Pipe W := λ _ _, true.

Definition launch (i : nat) : Plugin := p1.
Definition read1 : Tree := read_request conn1 (ing1 named).
Definition write1 (n : Z) : Tree := write_request "count" TNull TNull TNull (f64_of_Z n) true.

(** Task 1 waits for the mutex task 0 holds, task 2 has a plugin of its own;
    task 0 is aborted while it waits for its answer, so task 1 gets it, and task
    3 the answer to task 1. *)
Definition calls : list (Event Tree) :=
  [Call 0 read1; Call 0 (write1 3); Call 1 read1; Run 0; Run 2; Run 1; Run 0; Run 2;
   Drop 0; Run 1; Run 2; Run 1; Run 1; Call 0 (write1 5); Run 3; Run 3; Run 3].
Definition after (evs : list (Event Tree)) : Conc Tree W := run_events launch evs (idle (HostSdkRun.host [])).
Definition returned (c : Conc Tree W) (t : nat) : option (result string string) :=
  T ← c_tasks c !! t; match t_phase T with Finished r => Some r | _ => None end.

Definition count_line (n : Z) : string := to_string (ok_with [("samples", j_array [sample_json (Sdk.PluginSample_new "t" (f64_of_Z n))])]).
Definition set_line (n : Z) : string := to_string (ok_with [("readback", j_f64 (f64_of_Z n))]).

Lemma exchanges_linearize_witness :
  let c := after calls in
  returned c 1 = Some (Ok (count_line 7)) ∧ returned c 2 = Some (Ok (count_line 7)) ∧
  returned c 3 = Some (Ok (set_line 3)) ∧
  ∃ pid before after a, c_log c = before ++ Sent pid 3 (write1 5) :: after ∧
    3%nat ∉ senders (before ++ after) ∧ (aborted pid before ≤ length (requests pid before))%nat ∧
    (served launch 0 pid (c_log c)).1 !! (length (requests pid before) - aborted pid before)%nat = Some a ∧
    set_line 3 = to_string a.
Proof.
  split; [vm_compute; reflexivity|]. split; [vm_compute; reflexivity|]. split; [vm_compute; reflexivity|].
  apply (exchanges_linearize launch calls (os (HostSdkRun.host [])) 3 0 (write1 5) (set_line 3)).
  - repeat (apply Forall_cons_2; [first [exact I | vm_compute; reflexivity]|]). apply Forall_nil_2.
  - vm_compute. reflexivity.
Defined.

Lemma exchanges_serialize_witness :
  let calls := [Call 0 read1; Call 0 (write1 3); Run 0; Run 1; Run 0; Run 1; Drop 0; Run 1; Run 1; Run 1] in
  let c := after calls in
  ∃ us, serial launch 0 us (HostSdkRun.host []) (c_host c) ∧ NoDup (turn_task <$> us) ∧
    ∀ t req r, c_tasks c !! t = Some (mkTask 0 req (Finished r)) → Whole t req r ∈ us.
Proof.
  intros calls c. apply (exchanges_serialize launch 0 calls (HostSdkRun.host [])).
  - repeat (apply Forall_cons_2; [first [exact I | reflexivity]|]). apply Forall_nil_2.
  - vm_compute. reflexivity.
Defined.
End LinearizeRun.
