(* ===== verification/Writer.v ===== *)
(** * The writer of the control channel ([serve] of [src/control.rs])

    Every frame the agent sends goes through one bounded queue to one task that
    owns the socket. A producer (the read loop, the heartbeat, a handler, a
    stream) parks in [send] until the queue has room and sends its next frame
    when the call returns. *)
From S2P Require Import Prelude.
Set Warnings "-register-all".

Definition WRITER_QUEUE : nat := 32.

Section Writer.
Context {M : Type}.
Implicit Types (p : nat) (m : M).

(** The sends in progress, the queue, the frame the task is writing, what went
    through the socket; whether the receiver is there; the producers that were
    aborted, and what was ever offered. *)
Record Writer := mkWriter {
  w_parked : gmap nat M;
  w_queue : list (nat * M);
  w_hand : option (nat * M);
  w_wire : list (nat * M);
  w_open : bool;
  w_gone : gset nat;
  w_offered : list (nat * M);
}.
Implicit Types w : Writer.

(** [channel(WRITER_QUEUE)]. *)
Definition fresh_writer : Writer := mkWriter ∅ [] None [] true ∅ [].

Inductive Event :=
| Offer p m   (* [tx.send(m)] is called *)
| Accept p    (* ... finds room *)
| Take        (* [rx.recv()] *)
| Written     (* [write.send(m)] returns *)
| Broken      (* ... with an error: the task ends, and the receiver with it *)
| Cancel p.   (* the producer is aborted *)

(** The events that can happen. *)
Definition apply (e : Event) w : option Writer :=
  match e with
  | Offer p m =>
      if decide (p ∈ w_gone w) then None else
      match w_parked w !! p with
      | Some _ => None
      | None =>
          if w_open w then
            Some (mkWriter (<[p := m]> (w_parked w)) (w_queue w) (w_hand w) (w_wire w) true (w_gone w) (w_offered w ++ [(p, m)]))
          else
            (* an error at once *)
            Some (mkWriter (w_parked w) (w_queue w) (w_hand w) (w_wire w) false (w_gone w) (w_offered w ++ [(p, m)]))
      end
  | Accept p =>
      m ← w_parked w !! p;
      if decide (length (w_queue w) < WRITER_QUEUE)%nat then
        Some (mkWriter (delete p (w_parked w)) (w_queue w ++ [(p, m)]) (w_hand w) (w_wire w) (w_open w) (w_gone w) (w_offered w))
      else None
  | Take =>
      match w_hand w, w_queue w with
      | None, x :: q => Some (mkWriter (w_parked w) q (Some x) (w_wire w) (w_open w) (w_gone w) (w_offered w))
      | _, _ => None
      end
  | Written =>
      x ← w_hand w;
      Some (mkWriter (w_parked w) (w_queue w) None (w_wire w ++ [x]) (w_open w) (w_gone w) (w_offered w))
  | Broken =>
      _ ← w_hand w;
      Some (mkWriter ∅ [] None (w_wire w) false (w_gone w) (w_offered w))
  | Cancel p =>
      Some (mkWriter (delete p (w_parked w)) (w_queue w) (w_hand w) (w_wire w) (w_open w) ({[p]} ∪ w_gone w) (w_offered w))
  end.

Definition step w (e : Event) : Writer := default w (apply e w).
Definition run (es : list Event) w : Writer := foldl step w es.

(** ** Order and bound *)

Definition of_producer p (l : list (nat * M)) : list M := snd <$> filter (λ x, x.1 = p) l.
(** The frames accepted and not lost, in the order of the queue. *)
Definition accepted w : list (nat * M) := w_wire w ++ option_list (w_hand w) ++ w_queue w.

Lemma of_producer_app p l1 l2 : of_producer p (l1 ++ l2) = of_producer p l1 ++ of_producer p l2.
Proof. unfold of_producer. by rewrite filter_app, fmap_app. Qed.
Lemma of_producer_one p q m : of_producer p [(q, m)] = if decide (q = p) then [m] else [].
Proof. unfold of_producer. rewrite filter_cons. simpl. by case_decide. Qed.

Record ordered w : Prop := {
  or_bound : (length (w_queue w) ≤ WRITER_QUEUE)%nat;
  or_live : ∀ p, w_open w = true → p ∉ w_gone w →
    of_producer p (accepted w) ++ option_list (w_parked w !! p) = of_producer p (w_offered w);
  or_prefix : ∀ p, of_producer p (accepted w) `prefix_of` of_producer p (w_offered w);
  or_gone : ∀ p, p ∈ w_gone w → w_parked w !! p = None;
  or_closed : w_open w = false → w_parked w = ∅;
}.

Lemma ordered_fresh : ordered fresh_writer.
Proof. split; simpl; try done; unfold WRITER_QUEUE; lia. Qed.

(** What changes neither the accepted frames nor the offered ones. *)
Lemma ordered_same w w' :
  ordered w → accepted w' = accepted w → w_offered w' = w_offered w → w_parked w' = w_parked w →
  w_open w' = w_open w → w_gone w' = w_gone w → (length (w_queue w') ≤ WRITER_QUEUE)%nat → ordered w'.
Proof. intros [? ? ? ? ?] Ea Eo Ep Ew Eg Hb. split; rewrite ?Ea, ?Eo, ?Ep, ?Ew, ?Eg; done. Qed.

Lemma ordered_offer p m w w' : ordered w → apply (Offer p m) w = Some w' → ordered w'.
Proof.
  intros Hw. simpl.
  case_decide as Hg; [done|]. destruct (w_parked w !! p) as [|] eqn:Ep; [done|].
  destruct (w_open w) eqn:Eo; intros [= <-]; (split; simpl; try apply Hw; try done).
  - intros q _ Hq. rewrite of_producer_app, of_producer_one, <- (or_live _ Hw q Eo Hq). case_decide as Hpq.
    + subst q. by rewrite lookup_insert_eq, Ep, app_nil_r.
    + by rewrite lookup_insert_ne, app_nil_r.
  - intros q. rewrite of_producer_app. by apply prefix_app_r, (or_prefix _ Hw).
  - intros q Hq. rewrite lookup_insert_ne; [by apply Hw|]. by intros ->.
  - intros q. rewrite of_producer_app. by apply prefix_app_r, (or_prefix _ Hw).
  - intros _. by apply Hw.
Qed.

Lemma ordered_accept p w w' : ordered w → apply (Accept p) w = Some w' → ordered w'.
Proof.
  intros Hw. simpl.
  destruct (w_parked w !! p) as [m|] eqn:Ep; simpl; [|done]. case_decide as Hlt; [|done]. intros [= <-].
  assert (w_open w = true) as Eo.
  { destruct (w_open w) eqn:Eo; [done|]. by rewrite (or_closed _ Hw Eo), lookup_empty in Ep. }
  assert (p ∉ w_gone w) as Hg by (intros Hg%(or_gone _ Hw); congruence).
  set (w' := mkWriter _ _ _ _ _ _ _). assert (accepted w' = accepted w ++ [(p, m)]) as Ea.
  { unfold accepted. simpl. by rewrite <- !(assoc_L (++)). }
  assert (∀ q, w_open w' = true → q ∉ w_gone w' →
    of_producer q (accepted w') ++ option_list (w_parked w' !! q) = of_producer q (w_offered w')) as Hlive.
  { intros q _ Hq. rewrite Ea, of_producer_app, of_producer_one. simpl. rewrite <- (or_live _ Hw q Eo Hq). case_decide as Hpq.
    - subst q. by rewrite lookup_delete_eq, Ep, app_nil_r.
    - by rewrite lookup_delete_ne, app_nil_r. }
  split; try done; try apply Hw.
  - simpl. rewrite length_app. simpl. lia.
  - intros q. destruct (decide (q ∈ w_gone w)) as [Hq|Hq].
    + rewrite Ea, of_producer_app, of_producer_one, decide_False by (by intros ->). rewrite app_nil_r. apply Hw.
    + rewrite <- (Hlive q) by done. by apply prefix_app_r.
  - intros q Hq. simpl. rewrite lookup_delete_None. right. by apply Hw.
  - simpl. congruence.
Qed.

Lemma ordered_apply e w w' : ordered w → apply e w = Some w' → ordered w'.
Proof.
  intros Hw. destruct e as [p m|p| | | |p]; [by apply ordered_offer|by apply ordered_accept|..]; simpl.
  - destruct (w_hand w) eqn:Eh; [done|]. destruct (w_queue w) as [|x q] eqn:Eq; [done|]. intros [= <-].
    apply (ordered_same w); try done; unfold accepted; simpl; [by rewrite Eh, Eq|].
    pose proof (or_bound _ Hw) as Hb. rewrite Eq in Hb. simpl in Hb. lia.
  - destruct (w_hand w) as [x|] eqn:Eh; simpl; [|done]. intros [= <-].
    apply (ordered_same w); try done; [|by apply Hw]. unfold accepted. simpl. rewrite Eh. by rewrite <- (assoc_L (++)).
  - destruct (w_hand w) as [x|] eqn:Eh; simpl; [|done]. intros [= <-]. split; simpl; try done.
    + lia.
    + intros p. etrans; [|apply (or_prefix _ Hw p)]. unfold accepted. simpl. rewrite app_nil_r, of_producer_app.
      by apply prefix_app_r.
  - intros [= <-]. split; simpl; try apply Hw.
    + intros q Eo Hq. rewrite lookup_delete_ne by set_solver. apply Hw; [done|set_solver].
    + intros q Hq. rewrite lookup_delete_None. destruct (decide (p = q)); [by left|right]. apply Hw. set_solver.
    + intros Eo. by rewrite (or_closed _ Hw Eo), delete_empty.
Qed.

Lemma ordered_run es w : ordered w → ordered (run es w).
Proof.
  revert w. induction es as [|e es IH]; intros w Hw; [done|]. apply IH. unfold step.
  destruct (apply e w) as [w'|] eqn:Ea; simpl; [|done]. by eapply ordered_apply.
Qed.

(** C17. The queue never holds more than [WRITER_QUEUE] frames, and the single
    writer keeps every producer's order: whatever the interleaving of the
    producers, the writer, aborts and a broken socket, the frames of a producer
    on the wire, with the writer and in the queue are the first ones it offered,
    in order, none twice; and while the socket works, a producer that was not
    aborted has lost none: what is not there yet is the one it is parked with. *)
Theorem writer_keeps_order (es : list Event) :
  let w := run es fresh_writer in
  (length (w_queue w) ≤ WRITER_QUEUE)%nat ∧
  ∀ p, of_producer p (accepted w) `prefix_of` of_producer p (w_offered w) ∧
    (w_open w = true → p ∉ w_gone w →
     of_producer p (accepted w) ++ option_list (w_parked w !! p) = of_producer p (w_offered w)).
Proof.
  pose proof (ordered_run es _ ordered_fresh) as Hw. split; [apply Hw|]. intros p. split; apply Hw.
Qed.

(** ** Progress *)

(** The steps the frames on their way still need. *)
Definition pending w : nat :=
  (3 * size (w_parked w) + 2 * length (w_queue w) + length (option_list (w_hand w)))%nat.

(** The next thing a working socket lets happen. *)
Definition next_event w : option Event :=
  match w_hand w, w_queue w with
  | Some _, _ => Some Written
  | None, _ :: _ => Some Take
  | None, [] => (λ x, Accept x.1) <$> head (map_to_list (w_parked w))
  end.
Fixpoint flush (n : nat) w : Writer :=
  match n with
  | O => w
  | S n => match next_event w with Some e => flush n (step w e) | None => w end
  end.

Lemma next_event_pending w e : next_event w = Some e →
  ∃ w', apply e w = Some w' ∧ (pending w' < pending w)%nat ∧
    w_offered w' = w_offered w ∧ w_gone w' = w_gone w ∧ w_open w' = w_open w.
Proof.
  unfold next_event, pending. destruct (w_hand w) as [x|] eqn:Eh.
  { intros [= <-]. simpl. rewrite Eh. simpl. eexists. split; [done|]. simpl. split; [lia|done]. }
  destruct (w_queue w) as [|x q] eqn:Eq.
  - destruct (map_to_list (w_parked w)) as [|[p m] l] eqn:El; simpl; [done|]. intros [= <-].
    assert (w_parked w !! p = Some m) as Ep by (apply elem_of_map_to_list; rewrite El; set_solver).
    simpl. rewrite Ep. simpl. rewrite Eq. simpl.
    eexists. split; [done|]. simpl. rewrite map_size_delete_Some by done.
    assert (size (w_parked w) ≠ 0%nat) by (rewrite map_size_ne_0_lookup; eauto).
    split; [rewrite Eh; simpl; lia|done].
  - intros [= <-]. simpl. rewrite Eh, Eq. eexists. split; [done|]. simpl. split; [lia|done].
Qed.

Lemma next_event_none w : next_event w = None → w_hand w = None ∧ w_queue w = [] ∧ w_parked w = ∅.
Proof.
  unfold next_event. destruct (w_hand w); [done|]. destruct (w_queue w); [|done].
  destruct (map_to_list (w_parked w)) eqn:El; simpl; [|done]. intros _. split_and!; [done..|]. by apply map_to_list_empty_iff.
Qed.

Lemma flush_done n w : ordered w → (pending w ≤ n)%nat →
  let w' := flush n w in
  ordered w' ∧ next_event w' = None ∧ w_offered w' = w_offered w ∧ w_gone w' = w_gone w ∧ w_open w' = w_open w.
Proof.
  revert w. induction n as [|n IH]; intros w Hw Hn; simpl; destruct (next_event w) as [e|] eqn:Ee; try done.
  - apply next_event_pending in Ee as (w' & _ & Hlt & _). lia.
  - destruct (next_event_pending w e Ee) as (w' & Ea & Hlt & <- & <- & <-). unfold step. rewrite Ea. simpl.
    apply IH; [by eapply ordered_apply|lia].
Qed.

(** C18. Backpressure parks but never loses: from every state of an open channel,
    when the socket goes on working, finitely many steps put every frame offered
    by a producer that was not aborted on the wire, in the order offered. *)
Theorem writer_drains (es : list Event) :
  let w := run es fresh_writer in
  let w' := flush (pending w) w in
  w_parked w' = ∅ ∧ w_queue w' = [] ∧ w_hand w' = None ∧
  ∀ p, w_open w = true → p ∉ w_gone w → of_producer p (w_wire w') = of_producer p (w_offered w).
Proof.
  intros w w'. pose proof (ordered_run es _ ordered_fresh) as Hw.
  destruct (flush_done (pending w) w Hw ltac:(done)) as (Hw' & Hn & Eo & Eg & Ew).
  apply next_event_none in Hn as (Eh & Eq & Ep). fold w' in Eo, Eg, Ew, Eh, Eq, Ep, Hw'. split_and!; [done..|].
  intros p Hopen Hg. rewrite <- Eo, <- (or_live _ Hw' p) by congruence.
  unfold accepted. rewrite Eh, Eq, Ep, lookup_empty. simpl. by rewrite !app_nil_r.
Qed.
End Writer.
Arguments Writer M : clear implicits.
Arguments Event M : clear implicits.

(** A stalled socket: 33 frames fit (one with the writer), the next producers
    park. *)
Module WriterRun.
Definition burst : list (Event nat) :=
  (i ← seq 0 40; [Offer i i; Accept i; Take]).
Example queue_fills :
  let w := run burst fresh_writer in
  length (w_queue w) = 32%nat ∧ is_Some (w_hand w) ∧ size (w_parked w) = 7%nat ∧ pending w = 86%nat.
Proof. vm_compute. split_and!; eauto. Qed.
End WriterRun.
