(* ===== verification/Echo.v ===== *)
(** * The reference plugin ([examples/echo_plugin.rs])

    A plugin without the SDK: one constant line per request line. *)
From Stdlib Require Import Ascii.
From S2P Require Import Prelude Float Proto RustStr Json Jobs Plugins.
Set Warnings "-register-all".
Local Open Scope Z_scope.

(** A quoted text in the JSON line. *)
Definition quoted (s : string) : string := String quote (s +:+ String quote EmptyString).

(** The constant response. *)
Definition echo_resp : string :=
  "{" +:+ quoted "ok" +:+ ":true," +:+ quoted "samples" +:+ ":[{" +:+ quoted "variable_id" +:+ ":" +:+
  quoted "example.value" +:+ "," +:+ quoted "value" +:+ ":42.0," +:+ quoted "quality" +:+ ":0}]}".

(** The lines read from stdin, an [Err] ending the loop; whether each [writeln!]
    works; the lines written. *)
Fixpoint echo_main (lines : list (result string string)) (ok : list bool) : list string :=
  match lines with
  | [] | Err _ :: _ => []
  | Ok req :: lines =>
      if decide (trim req = "") then echo_main lines ok
      else match ok with
           | false :: _ => []
           | true :: ok | ok => echo_resp :: echo_main lines ok
           end
  end.

(** One answer per request, as the host's pairing of requests and responses
    needs it. *)
Lemma echo_lockstep lines :
  echo_main (Ok <$> lines) [] = (λ _, echo_resp) <$> filter (λ l, trim l ≠ "") lines.
Proof.
  induction lines as [|l lines IH]; [done|]. rewrite fmap_cons. cbn [echo_main]. rewrite filter_cons, IH.
  destruct (decide (trim l = "")); [by rewrite decide_False by (intros H; by apply H)|by rewrite decide_True].
Qed.

Section Echo.
Context `{JsonLaws J} `{!ScalarLaws J}.

(** What the parser makes of the response. *)
Definition echo_document : J :=
  j_object [("ok", j_bool true);
            ("samples", j_array [j_object [("variable_id", j_str "example.value"); ("value", j_f64 (f64_of_Z 42));
                                            ("quality", j_u64 0)]])].

(** The host reads the constant sample from it. *)
Lemma echo_read what :
  from_str echo_resp = Some echo_document →
  parse_with de_read_resp what echo_resp =
  Ok (mkReadResp true [mkPluginSample "example.value" (f64_of_Z 42) None (Some 0)] None).
Proof.
  intros E. unfold parse_with. rewrite E. unfold echo_document.
  generalize (f64_of_Z_finite 42 ltac:(done)). generalize (f64_of_Z 42) as x. intros x Hx. clear E.
  assert (∀ names (l : list (string * J)), NoDup l.*1 → struct_view names (j_object l) = Some (jget (j_object l))) as Hv.
  { intros names l Hl. destruct (entries_object l) as (es & E & Hes). exact (struct_view_distinct _ _ es E (Hes Hl)). }
  simpl. unfold de_read_resp. rewrite Hv by distinct. simpl. rewrite !get_object. simpl. rewrite as_bool_bool. simpl.
  unfold de_vec. rewrite as_array_array. simpl. unfold de_plugin_sample. rewrite Hv by distinct. simpl. rewrite !get_object. simpl.
  rewrite as_str_str, as_f64_f64 by done. simpl. unfold de_option, de_u32.
  rewrite not_null_u64, as_u64_u64 by (by vm_compute). done.
Qed.
End Echo.
