(* ===== verification/Modbus.v ===== *)
(** * The Modbus client ([src/modbus.rs])

    The network (name resolution, [tokio-modbus]) is the interface [ModbusNet].
    Name resolution and connecting run under [timeout]; the register operations
    do not, so the answer of one may never come: [None], and then the call of the
    client never returns either. *)
From S2P Require Import Prelude Float Words RustStr.
Local Open Scope Z_scope.

(** [Result<Result<A, Exception>, Error>] of [tokio-modbus]; the texts are the
    Debug form of the exception and the Display form of the error. *)
Definition Reply (A : Type) : Type := result string (result string A).

Class ModbusNet (W : Type) := {
  (* [None]: timed out *)
  net_lookup : string → Z → W → option (result string (list string)) * W;
  net_connect : string → Z → W → option (result string ()) * W;
  (* [None]: no answer, ever *)
  net_read : bool → Z → Z → W → option (Reply (list Z)) * W;
  net_write_single : Z → Z → W → option (Reply ()) * W;
  net_write_multiple : Z → list Z → W → option (Reply ()) * W;
  net_write_coil : Z → bool → W → option (Reply ()) * W;
}.

(** The Debug form of a duration of at least a second, in milliseconds. *)
Definition debug_duration (ms : Z) : string :=
  let f := ms mod 1000 in
  let frac := if f =? 0 then ""
              else if f mod 100 =? 0 then "." +:+ dec (f / 100)
              else if f mod 10 =? 0 then "." +:+ (if f <? 100 then "0" else "") +:+ dec (f / 10)
              else "." +:+ (if f <? 10 then "00" else if f <? 100 then "0" else "") +:+ dec f in
  dec (ms / 1000) +:+ frac +:+ "s".

Record ModbusClient := mkModbusClient {
  host : string;
  port : Z;
  io_timeout_ms : Z;
  ctx : bool;
}.

(** [ModbusClient::new]; [None]: [poll_interval * 3] overflows the [Duration]
    and panics. *)
Definition ModbusClient_new (host : string) (port poll_interval_ms : Z) : option ModbusClient :=
  if 1000 * 2 ^ 64 <=? poll_interval_ms * 3 then None
  else Some (mkModbusClient host port (clamp 5000 30000 (poll_interval_ms * 3)) false).

Definition set_ctx (b : bool) (c : ModbusClient) : ModbusClient :=
  mkModbusClient (host c) (port c) (io_timeout_ms c) b.

Definition MB (W : Type) : Type → Type := HangE (ModbusClient * W).

Section Client.
Context {W : Type} `{ModbusNet W}.

Definition mb_fail {A} (e : string) : MB W A := hang_raise e.
Definition get_client : MB W ModbusClient := λ s, (Some (Ok s.1), s).
Definition put_ctx (b : bool) : MB W () := λ s, (Some (Ok ()), (set_ctx b s.1, s.2)).
Definition net {A} (f : W → option A * W) : MB W (option A) := λ s,
  let '(r, w) := f s.2 in (Some (Ok r), (s.1, w)).

Definition mb_connect : MB W () :=
  c ← get_client;
  let addr_str := host c +:+ ":" +:+ dec (port c) in
  found ← net (net_lookup addr_str (io_timeout_ms c));
  match found with
  | None => mb_fail ("DNS lookup timed out for " +:+ addr_str)
  | Some (Err _) => mb_fail ("DNS lookup failed for " +:+ addr_str)
  | Some (Ok []) => mb_fail ("no addresses resolved for " +:+ addr_str)
  | Some (Ok (addr :: _)) =>
      done ← net (net_connect addr (io_timeout_ms c));
      match done with
      | None => mb_fail ("Modbus connect to " +:+ addr +:+ " timed out after " +:+ debug_duration (io_timeout_ms c))
      | Some (Err _) => mb_fail ("failed to connect to Modbus at " +:+ addr)
      | Some (Ok ()) => put_ctx true
      end
  end.

Definition ensure_connected : MB W () :=
  c ← get_client;
  if ctx c then mret () else mb_connect.

(** The outcome of a register operation: an exception or an error drops the
    connection. *)
Definition answer {A} (r : option (Reply A)) : MB W A :=
  match r with
  | None => hang
  | Some (Ok (Ok a)) => mret a
  | Some (Ok (Err exc)) => put_ctx false;; mb_fail ("Modbus exception: " +:+ exc)
  | Some (Err e) => put_ctx false;; mb_fail e
  end.

Definition mb_read (start count : Z) (input : bool) : MB W (list Z) :=
  ensure_connected;;
  r ← net (net_read input start count);
  answer r.

Definition write_holding (addr : Z) (values : list Z) : MB W () :=
  ensure_connected;;
  r ← net (match values with
           | [v] => net_write_single addr v
           | _ => net_write_multiple addr values
           end);
  answer r.

Definition write_coil (addr : Z) (on : bool) : MB W () :=
  ensure_connected;;
  r ← net (net_write_coil addr on);
  answer r.
End Client.

(** ** The device *)

(** What a device that follows the protocol keeps: its holding registers and its
    coils. An operation that fails may or may not have been carried out. *)
Class Device (W : Type) := {
  holding : W → Z → Z;
  coils : W → Z → bool;
}.

Section DeviceLaws.
Context {W : Type} `{ModbusNet W} `{Device W}.

Definition same_device (w w' : W) : Prop := holding w' = holding w ∧ coils w' = coils w.
Definition wrote (a : Z) (values : list Z) (w w' : W) : Prop :=
  coils w' = coils w ∧
  ∀ r, holding w' r = if decide (a ≤ r < a + Z.of_nat (length values))
                      then values !!! Z.to_nat (r - a) else holding w r.

Class DeviceOk := {
  dev_lookup : ∀ a t w, same_device w (net_lookup a t w).2;
  dev_connect : ∀ a t w, same_device w (net_connect a t w).2;
  dev_read : ∀ i a n w, same_device w (net_read i a n w).2 ∧
    (∀ regs, i = false → (net_read i a n w).1 = Some (Ok (Ok regs)) → regs = holding w <$> seqZ a n);
  dev_single : ∀ a v w, (net_write_single a v w).1 = Some (Ok (Ok ())) → wrote a [v] w (net_write_single a v w).2;
  dev_multiple : ∀ a l w, (net_write_multiple a l w).1 = Some (Ok (Ok ())) → wrote a l w (net_write_multiple a l w).2;
  dev_coil : ∀ a b w, (net_write_coil a b w).1 = Some (Ok (Ok ())) →
    holding (net_write_coil a b w).2 = holding w ∧
    ∀ r, coils (net_write_coil a b w).2 r = if decide (r = a) then b else coils w r;
}.
Context `{!DeviceOk}.

(** [returns m s P]: if [m] returns a value from [s], [P] holds of it. *)
Definition returns {A} (m : MB W A) (s : ModbusClient * W) (P : A → ModbusClient * W → Prop) : Prop :=
  match m s with (Some (Ok a), s') => P a s' | _ => True end.

Lemma returns_bind {A B} (m : MB W A) (k : A → MB W B) s P :
  returns m s (λ a s', returns (k a) s' P) → returns (m ≫= k) s P.
Proof. unfold returns, mbind, HangE_bind. by destruct (m s) as [[[a|e]|] s']. Qed.

Lemma connect_keeps s : returns ensure_connected s (λ _ s', same_device s.2 s'.2).
Proof.
  destruct s as [c w]. apply returns_bind. unfold returns at 1. simpl. destruct (ctx c); [done|].
  apply returns_bind. unfold returns at 1. simpl. apply returns_bind. unfold returns at 1, net. simpl.
  pose proof (dev_lookup (host c +:+ ":" +:+ dec (port c)) (io_timeout_ms c) w) as [Hh Hc].
  destruct (net_lookup _ _ w) as [[[[|addr ?]|]|] w1]; try done. apply returns_bind. unfold returns at 1, net. simpl in *.
  pose proof (dev_connect addr (io_timeout_ms c) w1) as [Hh1 Hc1].
  destruct (net_connect _ _ w1) as [[[[]|]|] w2]; try done. simpl in *. split; simpl; congruence.
Qed.

Lemma answer_returns {A} (r : option (Reply A)) s (P : A → ModbusClient * W → Prop) :
  (∀ a, r = Some (Ok (Ok a)) → P a s) → returns (answer r) s P.
Proof. intros HP. unfold returns, answer. destruct r as [[[a|]|]|]; simpl; auto. Qed.

Lemma net_returns {A} (f : W → option A * W) s P :
  P (f s.2).1 (s.1, (f s.2).2) → returns (net f) s P.
Proof. intros HP. unfold returns, net. by destruct (f s.2). Qed.

Lemma write_holding_ok addr values s :
  returns (write_holding addr values) s (λ _ s', wrote addr values s.2 s'.2).
Proof.
  apply returns_bind. pose proof (connect_keeps s) as Hc. unfold returns in Hc |- * at 1.
  destruct (ensure_connected s) as [[[[]|]|] s1]; try done. destruct Hc as [Hh Hco].
  apply returns_bind, net_returns, answer_returns. intros [] Hr. cbn [snd].
  assert (wrote addr values s1.2 (match values with [v] => net_write_single addr v
    | _ => net_write_multiple addr values end s1.2).2) as [Hcw Hw].
  { destruct values as [|v [|]]; [by apply dev_multiple|by apply dev_single|by apply dev_multiple]. }
  split; [congruence|]. intros r. by rewrite Hw, Hh.
Qed.

Lemma read_holding_ok addr n s :
  returns (mb_read addr n false) s (λ regs s', same_device s.2 s'.2 ∧ regs = holding s.2 <$> seqZ addr n).
Proof.
  apply returns_bind. pose proof (connect_keeps s) as Hc. unfold returns in Hc |- * at 1.
  destruct (ensure_connected s) as [[[[]|]|] s1]; try done. destruct Hc as [Hh Hco].
  apply returns_bind, net_returns, answer_returns. intros regs Hr. simpl.
  destruct (dev_read false addr n s1.2) as [[Hh2 Hc2] Hregs]. split.
  - split; congruence.
  - rewrite <- Hh. by apply Hregs.
Qed.

Lemma write_coil_ok addr b s :
  returns (write_coil addr b) s (λ _ s', holding s'.2 = holding s.2 ∧
    ∀ r, coils s'.2 r = if decide (r = addr) then b else coils s.2 r).
Proof.
  apply returns_bind. pose proof (connect_keeps s) as Hc. unfold returns in Hc |- * at 1.
  destruct (ensure_connected s) as [[[[]|]|] s1]; try done. destruct Hc as [Hh Hco].
  apply returns_bind, net_returns, answer_returns. intros [] Hr. simpl.
  destruct (dev_coil addr b s1.2 Hr) as [Hh2 Hc2]. split; [congruence|].
  intros r. by rewrite Hc2, Hco.
Qed.
End DeviceLaws.
