(* ===== verification/Write.v ===== *)
(** * Control writes ([src/control.rs], lines 734 to 988)

    A [write_request] of the cloud: the signature check, the allow-list, the
    device write and the acknowledgement. Base64 and Ed25519 are the interface
    [Crypto]; the network and the plugin processes are the world of the host. *)
From Stdlib Require Import Ascii.
From S2P Require Import Prelude Float Words RustStr Json Jobs Plugins Modbus.
Set Warnings "-register-all".
Local Open Scope Z_scope.

Class Crypto := {
  base64_decode : string → option string;
  (* the public key, the message, the signature *)
  ed25519_verify : string → string → string → bool;
}.

Section Write.
Context `{Json J} `{Crypto} {W : Type} `{ModbusNet W} `{Procs W}.

(** [format!("{f}:{a}")], [format!("node:{n}")] or the JSON text. *)
Definition target_key (target : J) : string :=
  match get_str target "fn", get_u64 target "address" with
  | Some f, Some a => f +:+ ":" +:+ dec a
  | _, _ =>
      match get_str target "node_id" with
      | Some n => "node:" +:+ n
      | None => to_string target
      end
  end.

Definition epsilon : f64 := f64_of_decimal false 1 (-9).

(** The comparison of the signed value with the requested one. *)
Definition value_differs (signed_value value : f64) : bool :=
  f64_gtb (f64_abs (f64_sub signed_value value)) epsilon.

(** The text tests of [verify_signature], in its order. *)
Definition mismatch (parts : list string) (command_id connector_id key : string) : bool :=
  bool_decide (length parts ≠ 4%nat)
  || bool_decide (parts !! 0%nat ≠ Some command_id)
  || bool_decide (parts !! 1%nat ≠ Some connector_id)
  || bool_decide (parts !! 2%nat ≠ Some key).

Definition verify_signature (req : J) (pubkey : option string) (command_id connector_id : string)
    (value : f64) (target : J) : result string () :=
  match pubkey with
  | None => Ok ()
  | Some pk =>
      sig_b64 ← ok_or "command signing required but signature missing" (get_str req "signature");
      payload ← ok_or "command signing required but sig_payload missing" (get_str req "sig_payload");
      sig ← ok_or "signature not base64" (base64_decode sig_b64);
      if negb (ed25519_verify pk payload sig) then Err "invalid command signature" else
      let parts := split_on "|"%char payload in
      let signed_value := default f64_nan (parts !! 3%nat ≫= parse_f64) in
      if mismatch parts command_id connector_id (target_key target) || value_differs signed_value value
      then Err "signed payload does not match the command"
      else Ok ()
  end.

(** [None] where the call never returns. *)
Definition write_modbus (config target : J) (value : f64) (want_readback : bool) (timeout_ms : Z) (w : W) :
    option (result string (option f64)) * W :=
  match get_str config "host" with
  | None => (Some (Err "modbus connector config.host missing"), w)
  | Some host =>
      let port := as_u16 (default 502 (get_u64 config "port")) in
      let fnclass := str_or "holding" target "fn" in
      match get_u64 target "address" with
      | None => (Some (Err "target.address missing"), w)
      | Some a =>
          let address := as_u16 a in
          let datatype := str_or "uint16" target "datatype" in
          let word_order := str_or "big" target "word_order" in
          let scale := default f64_one (get_f64 target "scale") in
          let offset := default f64_zero (get_f64 target "offset") in
          let raw := f64_div (f64_sub value offset) (if f64_eqb scale f64_zero then f64_one else scale) in
          match ModbusClient_new host port (Z.max timeout_ms 1000) with
          | None => (None, w)
          | Some client =>
              let body : MB W (option f64) :=
                if decide (fnclass = "coil") then
                  write_coil address (negb (f64_eqb value f64_zero));; mret None
                else
                  words ← hang_res (encode_words datatype raw word_order);
                  write_holding address words;;
                  if want_readback : bool then
                    regs ← mb_read address (as_u16 (Z.of_nat (length words))) false;
                    mret (Some (decode_words datatype regs word_order scale offset))
                  else mret None in
              let '(r, s) := body (client, w) in (r, s.2)
          end
      end
  end.

(** ** The state the control channel shares with the collector *)
Record Agent := mkAgent {
  connectors : gmap string (Conn J);
  control_pubkey : option string;
  plugin_host : PluginHost;
  host_os : Host W;
}.

Definition set_host (h : Host W) (a : Agent) : Agent :=
  mkAgent (connectors a) (control_pubkey a) (plugin_host a) h.

Definition do_write (connector_id : string) (value : f64) (target : J) (want_readback : bool)
    (timeout_ms : Z) (a : Agent) : option (result string (option f64)) * Agent :=
  match connectors a !! connector_id with
  | None => (Some (Err ("agent has no connector " +:+ connector_id)), a)
  | Some c =>
      if negb (is_finite value) then (Some (Err "non-finite value"), a) else
      let key := target_key target in
      if decide (key ∉ writable c) then
        (Some (Err ("target " +:+ key +:+ " not provisioned writable on " +:+ connector_id)), a)
      else if decide (ds_type c = "modbus") then
        let '(r, w) := write_modbus (config c) target value want_readback timeout_ms (os (host_os a)) in
        (r, set_host (mkHost (procs (host_os a)) w) a)
      else
        match for_type (plugin_host a) (ds_type c) with
        | Some (i, p) =>
            let '(r, h) := Plugins.write i p (ds_type c) (config c) (secrets c) target value want_readback (host_os a) in
            (Some r, set_host h a)
        | None =>
            (Some (Err ("connector " +:+ connector_id +:+ " type " +:+ ds_type c +:+ " has no write handler")), a)
        end
  end.

Definition write_ack_ok (command_id : string) (rb : option f64) : J :=
  let j := j_object [("kind", j_str "write_ack"); ("command_id", j_str command_id); ("status", j_str "acked")] in
  match rb with Some v => set_key j "readback" (j_f64 v) | None => j end.
Definition write_ack_failed (command_id detail : string) : J :=
  j_object [("kind", j_str "write_ack"); ("command_id", j_str command_id); ("status", j_str "failed");
            ("detail", j_str detail)].

(** The frames sent, and the agent. *)
Definition handle_write (req : J) (a : Agent) : list J * Agent :=
  let command_id := str_or "" req "command_id" in
  let connector_id := str_or "" req "connector_id" in
  let value := default f64_nan (get_f64 req "value") in
  let target := get_or_null req "target" in
  let want_readback := default false (get_bool req "readback") in
  let timeout_ms := default 5000 (get_u64 req "timeout_ms") in
  let '(outcome, a') :=
    match verify_signature req (control_pubkey a) command_id connector_id value target with
    | Err e => (Some (Err e), a)
    | Ok () => do_write connector_id value target want_readback timeout_ms a
    end in
  match outcome with
  | None => ([], a')
  | Some (Ok rb) => ([write_ack_ok command_id rb], a')
  | Some (Err e) => ([write_ack_failed command_id e], a')
  end.
End Write.
Arguments Agent J W : clear implicits.
