(* ===== verification/WriteProps.v ===== *)
(** * What a control write may do

    The signature check is what it says, with the hole of an unparsable signed
    value; a device is only touched by a permitted command; the registers a
    Modbus write leaves behind are the encoded value and nothing else. *)
From Stdlib Require Import Ascii.
From S2P Require Import Prelude Float Words RustStr Decimal Json Jobs Plugins Modbus Write.
Local Open Scope Z_scope.

(** ** Decimal numbers have no separator *)

Lemma dec_no_colon z : 0 ≤ z → sforall (λ x, bool_decide (x ≠ ":"%char)) (dec z) = true.
Proof.
  intros Hz%dec_digits. induction (dec z) as [|c s IH]; [done|]. simpl in *.
  apply andb_prop in Hz as [Hc Hs]. rewrite IH, andb_true_r by done. apply bool_decide_eq_true.
  intros ->. done.
Qed.

Lemma value_differs_nan v : value_differs f64_nan v = false.
Proof. by destruct v. Qed.

(** The comparison need not be evaluated from here on. *)
#[local] Opaque value_differs.

Section Gate.
Context `{JsonLaws J} `{Crypto} {W : Type} `{ModbusNet W} `{Procs W}.

(** Two register targets have the same allow-list key exactly when they
    name the same function and address. *)
Theorem target_key_register (t1 t2 : J) f1 f2 a1 a2 :
  get_str t1 "fn" = Some f1 → get_u64 t1 "address" = Some a1 →
  get_str t2 "fn" = Some f2 → get_u64 t2 "address" = Some a2 →
  target_key t1 = target_key t2 ↔ f1 = f2 ∧ a1 = a2.
Proof.
  intros Ef1 Ea1 Ef2 Ea2. unfold target_key. rewrite Ef1, Ea1, Ef2, Ea2. split; [|by intros [-> ->]].
  assert (∀ (t : J) a, get_u64 t "address" = Some a → 0 ≤ a) as Hpos.
  { intros t a Ea. unfold get_u64 in Ea. destruct (jget t "address") as [j|]; [|done].
    apply (as_u64_range j) in Ea. unfold is_u64 in Ea. lia. }
  intros E. apply app_sep_inj_r in E as [-> E]; eauto using dec_no_colon.
  split; [done|]. by apply (inj pretty) in E.
Qed.

(** ** The signature *)

(** [payload] is signed by [pk] and describes the command; its last part is the
    signed value. *)
Definition signed (pk : string) (req : J) (command_id connector_id : string) (target : J) (sv : string) : Prop :=
  ∃ sig_b64 payload sig,
    get_str req "signature" = Some sig_b64 ∧ get_str req "sig_payload" = Some payload ∧
    base64_decode sig_b64 = Some sig ∧ ed25519_verify pk payload sig = true ∧
    split_on "|"%char payload = [command_id; connector_id; target_key target; sv].

Lemma mismatch_false parts cmd cid key :
  mismatch parts cmd cid key = false ↔ ∃ sv, parts = [cmd; cid; key; sv].
Proof.
  unfold mismatch. rewrite !orb_false_iff, !bool_decide_eq_false. split.
  - intros [[[Hl E0] E1] E2]. apply dec_stable in Hl, E0, E1, E2.
    destruct parts as [|p0 [|p1 [|p2 [|p3 [|]]]]]; try discriminate Hl. exists p3.
    injection E0 as ->. injection E1 as ->. by injection E2 as ->.
  - intros [sv ->]. tauto.
Qed.

Lemma verify_spec req pk command_id connector_id value (target : J) :
  verify_signature req (Some pk) command_id connector_id value target = Ok () ↔
  ∃ sv, signed pk req command_id connector_id target sv ∧
    value_differs (default f64_nan (parse_f64 sv)) value = false.
Proof.
  unfold verify_signature, signed. split.
  - destruct (get_str req "signature") as [sb|]; [|done]. unfold mbind, result_bind, ok_or.
    destruct (get_str req "sig_payload") as [payload|]; [|done].
    destruct (base64_decode sb) as [sig|] eqn:Eb; [|done].
    destruct (ed25519_verify pk payload sig) eqn:Ev; [|done]. unfold negb.
    destruct (mismatch _ _ _ _) eqn:Em; [done|]. apply mismatch_false in Em as [sv Es]. rewrite Es.
    destruct (value_differs _ _) eqn:Ed; [done|]. intros _. exists sv. split; [|exact Ed].
    exists sb, payload, sig. split; [reflexivity|]. split; [reflexivity|]. split; [exact Eb|].
    split; [exact Ev|exact Es].
  - intros (sv & (sb & payload & sig & -> & Epl & Hd & Hv & Hs) & Hval).
    unfold mbind, result_bind, ok_or. rewrite Epl, Hd, Hv. unfold negb.
    assert (mismatch (split_on "|"%char payload) command_id connector_id (target_key target) = false) as ->
      by (apply mismatch_false; eauto).
    rewrite Hs. unfold orb, option_bind. cbn [lookup list_lookup]. by rewrite Hval.
Qed.

(** C29. With a key, exactly the commands pass that the key holder signed: the
    four parts of the signed text are the command, the connector, the target and
    a value within 1e-9 of the requested one, or a value that does not compare. *)
Theorem verify_signature_spec req pk command_id connector_id value (target : J) :
  verify_signature req (Some pk) command_id connector_id value target = Ok () ↔
  ∃ sv, signed pk req command_id connector_id target sv ∧
    value_differs (default f64_nan (parse_f64 sv)) value = false.
Proof. apply verify_spec. Qed.

(** A signed text whose value part is not a number authorises any value:
    the comparison with NaN is false. *)
Theorem unparsable_signed_value req pk command_id connector_id value (target : J) sv :
  signed pk req command_id connector_id target sv → parse_f64 sv = None →
  verify_signature req (Some pk) command_id connector_id value target = Ok ().
Proof.
  intros Hs Hn. apply verify_spec. exists sv. split; [done|]. rewrite Hn. apply value_differs_nan.
Qed.

(** ** The gate *)

(** What a command must satisfy for a device to be touched. *)
Record permitted (req : J) (a : Agent J W) (c : Conn J) : Prop := {
  pm_connector : connectors a !! str_or "" req "connector_id" = Some c;
  pm_finite : is_finite (default f64_nan (get_f64 req "value")) = true;
  pm_writable : target_key (get_or_null req "target") ∈ writable c;
  pm_signed : ∀ pk, control_pubkey a = Some pk → ∃ sv,
    signed pk req (str_or "" req "command_id") (str_or "" req "connector_id") (get_or_null req "target") sv;
}.

Lemma do_write_gate cid value (target : J) rb t (a : Agent J W) :
  let '(r, a') := do_write cid value target rb t a in
  (a' = a ∧ ∃ e, r = Some (Err e)) ∨
  (connectors a' = connectors a ∧ control_pubkey a' = control_pubkey a ∧
   ∃ c, connectors a !! cid = Some c ∧ is_finite value = true ∧ target_key target ∈ writable c).
Proof.
  unfold do_write. destruct (connectors a !! cid) as [c|] eqn:Ec; [|left; eauto].
  destruct (is_finite value); simpl; [|left; eauto]. destruct (decide (target_key target ∉ writable c)) as [Hk|Hk%dec_stable]; [left; eauto|].
  case_decide.
  - destruct (write_modbus _ _ _ _ _ _) as [r w]. right. split_and!; [done|done|by exists c].
  - destruct (for_type _ _) as [[i p]|]; [|left; eauto].
    destruct (Plugins.write _ _ _ _ _ _ _ _ _) as [r h]. right. split_and!; [done|done|by exists c].
Qed.

Definition has_status (st : string) (f : J) : Prop := get_str f "status" = Some st.

(** Every write command gets at most one frame, a [write_ack] with its own
    identifier that says done or failed; and a device is touched, or the command
    acknowledged as done, or left without an answer, only if the connector is
    known, the value finite, the target on the connector's allow-list, and, when
    a control key is set, the command signed with it. The connectors and the key
    stay as they were. *)
Theorem write_gate (req : J) (a : Agent J W) :
  let '(frames, a') := handle_write req a in
  (length frames ≤ 1)%nat ∧
  Forall (λ f, get_str f "kind" = Some "write_ack" ∧ get_str f "command_id" = Some (str_or "" req "command_id") ∧
               (has_status "acked" f ∨ has_status "failed" f)) frames ∧
  (a' ≠ a ∨ Exists (has_status "acked") frames ∨ frames = [] → ∃ c, permitted req a c) ∧
  connectors a' = connectors a ∧ control_pubkey a' = control_pubkey a.
Proof.
  assert (∀ cmd e, let f := write_ack_failed (J := J) cmd e in
    get_str f "kind" = Some "write_ack" ∧ get_str f "command_id" = Some cmd ∧ has_status "failed" f) as Hfail.
  { intros cmd e. unfold write_ack_failed, has_status, get_str. rewrite !get_object. simpl. by rewrite !as_str_str. }
  assert (∀ cmd rb, let f := write_ack_ok (J := J) cmd rb in
    get_str f "kind" = Some "write_ack" ∧ get_str f "command_id" = Some cmd ∧ has_status "acked" f) as Hok.
  { intros cmd [v|]; unfold write_ack_ok, has_status, get_str; rewrite ?get_set; simpl; rewrite !get_object; simpl;
      by rewrite !as_str_str. }
  unfold handle_write. set (cmd := str_or "" req "command_id"). set (cid := str_or "" req "connector_id").
  set (value := default f64_nan (get_f64 req "value")). set (target := get_or_null req "target").
  destruct (verify_signature req (control_pubkey a) cmd cid value target) as [[]|e] eqn:Ev.
  2:{ split_and!; [simpl; lia| |intros [|[Hx|]]; try done|done|done].
      - apply Forall_singleton. destruct (Hfail cmd e) as (? & ? & ?). auto.
      - apply Exists_cons in Hx as [Hx|Hx%Exists_nil]; [|done]. destruct (Hfail cmd e) as (_ & _ & Hf).
        unfold has_status in *. congruence. }
  assert (∀ c, connectors a !! cid = Some c → is_finite value = true → target_key target ∈ writable c →
    permitted req a c) as Hperm.
  { intros c Hc Hf Hw. split; [done..|]. intros pk Epk. rewrite Epk in Ev.
    apply verify_spec in Ev as (sv & Hs & _). by exists sv. }
  pose proof (do_write_gate cid value target (default false (get_bool req "readback"))
    (default 5000 (get_u64 req "timeout_ms")) a) as Hg.
  destruct (do_write _ _ _ _ _ a) as [r a'].
  destruct Hg as [[-> [e ->]]|(Hc & Hk & c & Hc1 & Hc2 & Hc3)].
  - split_and!; [simpl; lia| |intros [|[Hx|]]; try done|done|done].
    + apply Forall_singleton. destruct (Hfail cmd e) as (? & ? & ?). auto.
    + apply Exists_cons in Hx as [Hx|Hx%Exists_nil]; [|done]. destruct (Hfail cmd e) as (_ & _ & Hf).
      unfold has_status in *. congruence.
  - destruct r as [[rb|e]|]; (split_and!; [simpl; lia| |by eauto|done|done]).
    + apply Forall_singleton. destruct (Hok cmd rb) as (? & ? & ?). auto.
    + apply Forall_singleton. destruct (Hfail cmd e) as (? & ? & ?). auto.
    + constructor.
Qed.
End Gate.

(** ** The registers a Modbus write leaves behind *)
Section Registers.
Context `{Json J} {W : Type} `{DeviceOk W}.

Definition target_raw (value : f64) (target : J) : f64 :=
  let scale := default f64_one (get_f64 target "scale") in
  f64_div (f64_sub value (default f64_zero (get_f64 target "offset")))
    (if f64_eqb scale f64_zero then f64_one else scale).

Lemma wrote_read a ws (w w' : W) : wrote a ws w w' → holding w' <$> seqZ a (Z.of_nat (length ws)) = ws.
Proof.
  intros [_ Hw]. apply list_eq_same_length with (n := length ws); [done|rewrite length_fmap, length_seqZ; lia|].
  intros i x y Hi Hx Hy. rewrite list_lookup_fmap, lookup_seqZ_lt in Hx by lia. simpl in Hx.
  injection Hx as <-. rewrite Hw, decide_True by lia.
  replace (Z.to_nat (a + Z.of_nat i - a)) with i by lia. by rewrite (list_lookup_total_correct _ _ _ Hy).
Qed.

(** C30. When a register write of a well-behaved device succeeds, the registers
    from the target's address on hold the encoded raw value, every other
    register and every coil is unchanged, and the read-back is that raw value,
    rounded and saturated to the datatype, scaled and offset again. *)
Theorem write_modbus_registers config (target : J) value rb timeout (w w' : W) r a :
  get_u64 target "address" = Some a → str_or "holding" target "fn" ≠ "coil" →
  write_modbus config target value rb timeout w = (Some (Ok r), w') →
  let dt := str_or "uint16" target "datatype" in
  let wo := str_or "big" target "word_order" in
  ∃ ws, encode_words dt (target_raw value target) wo = Ok ws ∧ wrote (as_u16 a) ws w w' ∧
    (rb = false → r = None) ∧
    (rb = true → is_single dt (target_raw value target) →
      r = Some (f64_add (f64_mul (representable dt (target_raw value target))
                  (default f64_one (get_f64 target "scale"))) (default f64_zero (get_f64 target "offset")))).
Proof.
  intros Ea Hfn. cbv zeta. unfold write_modbus. destruct (get_str config "host") as [hst|]; [|done].
  rewrite Ea. destruct (ModbusClient_new _ _ _) as [c|]; [|done]. rewrite decide_False by done.
  fold (target_raw value target). unfold mbind at 1, HangE_bind at 1.
  destruct (encode_words _ (target_raw value target) _) as [ws|e] eqn:Ews; [|done].
  pose proof (encode_words_words _ _ _ _ Ews) as [_ Hlen].
  pose proof (write_holding_ok (as_u16 a) ws (c, w)) as Hw. unfold returns in Hw.
  unfold hang_res, mbind at 1, HangE_bind at 1. cbv beta iota. destruct (write_holding _ _ _) as [[[[]|]|] [c1 w1]]; try done. simpl in Hw.
  destruct rb.
  - pose proof (read_holding_ok (as_u16 a) (as_u16 (Z.of_nat (length ws))) (c1, w1)) as Hr. unfold returns in Hr.
    unfold mbind, HangE_bind. destruct (mb_read _ _ _ _) as [[[regs|]|] [c2 w2]]; try done.
    destruct Hr as [[Hh Hc] Hregs]. simpl in *. intros [= <- <-]. exists ws.
    assert (wrote (as_u16 a) ws w w2) as Hw2 by (destruct Hw as [? Hr]; split; [congruence|intros q; by rewrite Hh, Hr]).
    split_and!; [done|done|done|]. intros _ Hs. rewrite (as_u16_small (Z.of_nat (length ws))) in Hregs by (unfold is_u16; lia).
    rewrite (wrote_read _ _ _ _ Hw) in Hregs. subst regs. unfold decode_words.
    by rewrite (decode_encode_raw _ _ _ _ Hs Ews).
  - intros [= <- <-]. by exists ws.
Qed.
End Registers.

(** ** A device with 16-bit registers *)
Module WriteRun.
#[local] Instance json : Json Tree := tree_json (λ _, None).
#[local] Instance laws : JsonLaws Tree := tree_laws (λ _, None).

(** A signature is the key followed by the message. *)
#[local] Instance crypto : Crypto := {|
  base64_decode s := strip_prefix "b64:" s;
  ed25519_verify pk msg sig := bool_decide (sig = pk +:+ msg);
|}.

Record Plc := mkPlc { registers : gmap Z Z; bits : gmap Z bool }.
Definition put (a : Z) (values : list Z) (w : Plc) : Plc :=
  mkPlc (list_to_map (zip (seqZ a (Z.of_nat (length values))) values) ∪ registers w) (bits w).

#[local] Instance net : ModbusNet Plc := {|
  net_lookup a _ w := (Some (Ok [a]), w);
  net_connect _ _ w := (Some (Ok ()), w);
  net_read i a n w := (Some (Ok (Ok ((λ r, default 0 (registers w !! r)) <$> seqZ a n))), w);
  net_write_single a v w := (Some (Ok (Ok ())), put a [v] w);
  net_write_multiple a l w := (Some (Ok (Ok ())), put a l w);
  net_write_coil a b w := (Some (Ok (Ok ())), mkPlc (registers w) (<[a := b]> (bits w)));
|}.
#[local] Instance no_procs : Procs Plc := {|
  os_spawn _ w := (Err "no plugins", w);
  os_write _ _ w := (Err "no plugins", w);
  os_next_line _ w := (Plugins.Eof, w);
  os_next_line_timeout _ _ w := (None, w);
  os_kill _ w := w;
  os_now_ms _ := 0;
|}.
#[local] Instance device : Device Plc := {|
  holding w r := default 0 (registers w !! r); coils w r := default false (bits w !! r) |}.

Lemma put_wrote a l w : wrote a l w (put a l w).
Proof.
  split; [done|]. intros r. unfold holding, put. simpl. rewrite lookup_union.
  destruct (decide (a ≤ r < a + Z.of_nat (length l))) as [Hr|Hr].
  - destruct (lookup_lt_is_Some_2 l (Z.to_nat (r - a))) as [v Hv]; [lia|].
    rewrite (list_lookup_total_correct _ _ _ Hv).
    assert (list_to_map (M := gmap Z Z) (zip (seqZ a (Z.of_nat (length l))) l) !! r = Some v) as ->.
    { apply elem_of_list_to_map.
      - rewrite fst_zip by (rewrite length_seqZ; lia). apply NoDup_seqZ.
      - apply elem_of_lookup_zip_with. exists (Z.to_nat (r - a)), r, v. split_and!; [done| |done].
        rewrite lookup_seqZ_lt by lia. f_equal. lia. }
    by destruct (registers w !! r).
  - assert (list_to_map (M := gmap Z Z) (zip (seqZ a (Z.of_nat (length l))) l) !! r = None) as ->.
    { apply not_elem_of_list_to_map. intros Hin. rewrite fst_zip in Hin by (rewrite length_seqZ; lia). apply elem_of_seqZ in Hin. lia. }
    by destruct (registers w !! r).
Qed.

#[local] Instance device_ok : DeviceOk (W := Plc).
Proof.
  split; try done.
  - intros i a n w. split; [done|]. intros regs _ [= <-]. done.
  - intros a v w _. apply put_wrote.
  - intros a l w _. apply put_wrote.
  - intros a b w _. split; [done|]. intros r. unfold coils. simpl.
    destruct (decide (r = a)) as [->|]; [by rewrite lookup_insert_eq|by rewrite lookup_insert_ne].
Qed.

Definition target : Tree := TObj [("fn", TStr "holding"); ("address", TInt 7); ("datatype", TStr "int32");
  ("word_order", TStr "little"); ("scale", TFloat (f64_of_decimal false 5 (-1)))].
Definition modbus : Conn Tree :=
  mkConn "modbus" (TObj [("host", TStr "plc")]) TNull {[ "holding:7" ]}.
Definition agent : Agent Tree Plc := mkAgent {[ "c1" := modbus ]} (Some "pk:") (mkPluginHost [] ∅) (mkHost ∅ (mkPlc ∅ ∅)).
Definition command (payload : string) (v : Z) : Tree := TObj [("command_id", TStr "cmd-1"); ("connector_id", TStr "c1"); ("value", TInt v);
  ("target", target); ("readback", TBool true); ("sig_payload", TStr payload); ("signature", TStr ("b64:pk:" +:+ payload))].
Definition signed_payload : string := "cmd-1|c1|holding:7|-35000".

Lemma target_key_register_witness : target_key target = target_key (TObj [("address", TInt 7); ("fn", TStr "holding")]).
Proof. apply (target_key_register _ _ "holding" "holding" 7 7); try (vm_compute; reflexivity). by split. Defined.

Lemma verify_signature_spec_witness :
  verify_signature (command signed_payload 0) (Some "pk:") "cmd-1" "c1" (f64_of_Z (-35000)) target = Ok ().
Proof.
  apply verify_signature_spec. exists "-35000". split; [|vm_compute; reflexivity].
  exists ("b64:pk:" +:+ signed_payload), signed_payload, ("pk:" +:+ signed_payload).
  split_and!; vm_compute; reflexivity.
Defined.

Lemma unparsable_signed_value_witness :
  verify_signature (command "cmd-1|c1|holding:7|n/a" 0) (Some "pk:") "cmd-1" "c1" (f64_of_Z 99999) target = Ok ().
Proof.
  apply (unparsable_signed_value _ _ _ _ _ _ "n/a"); [|vm_compute; reflexivity].
  exists "b64:pk:cmd-1|c1|holding:7|n/a", "cmd-1|c1|holding:7|n/a", "pk:cmd-1|c1|holding:7|n/a".
  split_and!; vm_compute; reflexivity.
Defined.

Lemma write_gate_witness :
  (handle_write (command signed_payload (-35000)) agent).1 = [write_ack_ok "cmd-1" (Some (f64_of_Z (-35000)))] ∧
  ∃ c, permitted (command signed_payload (-35000)) agent c.
Proof.
  split; [vm_compute; reflexivity|].
  pose proof (write_gate (command signed_payload (-35000)) agent) as H.
  assert ((handle_write (command signed_payload (-35000)) agent).1 = [write_ack_ok "cmd-1" (Some (f64_of_Z (-35000)))]) as E
    by (vm_compute; reflexivity).
  destruct (handle_write _ _) as [frames a']. simpl in E. subst frames. destruct H as (_ & _ & H & _).
  apply H. right. left. constructor. vm_compute. reflexivity.
Defined.

Lemma write_modbus_registers_witness :
  ∃ ws w', write_modbus (config modbus) target (f64_of_Z (-35000)) true 0 (mkPlc ∅ ∅) =
      (Some (Ok (Some (f64_of_Z (-35000)))), w') ∧
    wrote 7 ws (mkPlc ∅ ∅) w' ∧ (λ r, default 0 (registers w' !! r)) <$> [6; 7; 8; 9] = [0; 61072; 65534; 0].
Proof.
  destruct (write_modbus_registers (config modbus) target (f64_of_Z (-35000)) true 0 (mkPlc ∅ ∅)
    (write_modbus (config modbus) target (f64_of_Z (-35000)) true 0 (mkPlc ∅ ∅)).2 (Some (f64_of_Z (-35000))) 7)
    as (ws & _ & Hw & _).
  - vm_compute. reflexivity.
  - vm_compute. discriminate.
  - vm_compute. reflexivity.
  - eexists ws, _. split; [vm_compute; reflexivity|]. split; [exact Hw|vm_compute; reflexivity].
Defined.
End WriteRun.
