(* ===== verification/Pss.v ===== *)
(** * The Power Studio adapter ([src/pss.rs])

    HTTP, the XML documents and the calendar are third-party: the interfaces
    [Http], [PssXml] and [Chrono]. Everything else, from the URLs to the result
    values, is defined here. *)
From Stdlib Require Import Ascii.
From S2P Require Import Prelude Float RustStr Json.
Local Open Scope Z_scope.

(** ** The documents *)
Record VarRow := mkVarRow { vr_id : string; vr_value : option string; vr_text_value : option string }.
Record PssRecord := mkPssRecord { date_time : option string; field : list VarRow }.
Record Device := mkDevice { description : option string; var : list string }.

Class PssXml := {
  parse_values : string → option (list VarRow);
  parse_records : string → option (list PssRecord);
  parse_devices_ids : string → option (list string);
  parse_device_info : string → option (list Device);
}.

Inductive Auth := NoAuth | Basic (user pass : string) | Bearer (token : string).

(** The client with its timeout; a GET request: an error, or the status and the
    outcome of reading the body. *)
Class Http (W : Type) := {
  http_client : Z → W → result string () * W;
  http_get : Z → string → Auth → W → result string (Z * result string string) * W;
  status_text : Z → string;
}.

(** UTC instants of [chrono]. *)
Class Chrono (DT : Type) := {
  parse_from_rfc3339 : string → option DT;
  to_rfc3339 : DT → string;
  year : DT → Z;
  month : DT → Z;
  day : DT → Z;
  hour : DT → Z;
  minute : DT → Z;
  second : DT → Z;
  with_ymd_and_hms : Z → Z → Z → Z → Z → Z → option DT;
}.

(** ** Text *)

Definition is_unreserved (c : ascii) : bool :=
  is_alnum c || bool_decide (c ∈ ["-"; "_"; "."; "~"]%char).
Definition upper_hex_digit (z : Z) : ascii := upper (hex_digit z).
Fixpoint urlencode (s : string) : string :=
  match s with
  | EmptyString => EmptyString
  | String c s =>
      if is_unreserved c then String c (urlencode s)
      else String "%"%char (String (upper_hex_digit (code c / 16))
             (String (upper_hex_digit (code c mod 16)) (urlencode s)))
  end.

(** [str::join] *)
Fixpoint join_str (sep : string) (ps : list string) : string :=
  match ps with
  | [] => ""
  | [p] => p
  | p :: ps => p +:+ sep +:+ join_str sep ps
  end.

(** ["{:0n}"]: the sign counts and stands first. *)
Fixpoint zeros (n : nat) : string := match n with O => "" | S n => String "0"%char (zeros n) end.
Definition padded (n : nat) (z : Z) : string :=
  let sign := if z <? 0 then "-" else "" in
  let d := dec (Z.abs z) in sign +:+ zeros (n - String.length sign - String.length d) +:+ d.

(** [str::parse::<i64>] of at most four characters: no overflow. *)
Definition parse_int (s : string) : option Z :=
  match strip_prefix "-" s with
  | Some d => if decide (d = "") then None else Z.opp <$> digits_val 0 d
  | None => parse_uint i64_max s
  end.

Definition substr (a b : nat) (s : string) : string := String.substring a (b - a) s.

(** ** Dates *)
Section Dates.
Context {DT : Type} `{Chrono DT}.

Definition format_pss_date (dt : DT) : string :=
  padded 2 (day dt) +:+ padded 2 (month dt) +:+ padded 4 (year dt) +:+
  padded 2 (hour dt) +:+ padded 2 (minute dt) +:+ padded 2 (second dt).

Definition parse_iso (s : string) : result string DT :=
  ok_or ("invalid ISO timestamp: " +:+ s) (parse_from_rfc3339 s).

Definition parse_pss_date (input : string) : option DT :=
  let s := substr 0 14 input in
  if (String.length s <? 14)%nat then None else
  dd ← parse_int (substr 0 2 s);
  mm ← parse_int (substr 2 4 s);
  yy ← parse_int (substr 4 8 s);
  hh ← parse_int (substr 8 10 s);
  mi ← parse_int (substr 10 12 s);
  ss ← parse_int (substr 12 14 s);
  with_ymd_and_hms (as_i32 yy) (as_u32 mm) (as_u32 dd) (as_u32 hh) (as_u32 mi) (as_u32 ss).
End Dates.

(** ** The adapter *)
Section Adapter.
Context `{Json J} `{PssXml} {DT : Type} `{Chrono DT} {W : Type} `{Http W}.

Definition require_vars (args : J) : result string (list string) :=
  let missing := Err ("pss query requires `variable` (e.g. " +:+ debug_str "DEV1/Power" +:+ ") or a `variables` array") in
  let from_array :=
    match get_array args "variables" with
    | Some arr => match omap as_str arr with [] => missing | vars => Ok vars end
    | None => missing
    end in
  match get_str args "variable" with
  | Some v => if decide (v = "") then from_array else Ok [v]
  | None => from_array
  end.

(** [s.parse::<f64>().ok().filter(is_finite)] *)
Definition parse_finite (s : string) : option f64 :=
  x ← parse_f64 s; if is_finite x then Some x else None.

Definition normalize_value (row : VarRow) : J :=
  match vr_text_value row with
  | Some t => j_str t
  | None =>
      match vr_value row with
      | None => j_null
      | Some v => match parse_finite v with Some n => j_f64 n | None => j_str v end
      end
  end.

Definition auth_of (config secrets : J) : Auth :=
  let auth := jget config "auth" in
  match auth ≫= (λ a, get_str a "type") with
  | Some t =>
      if decide (t = "basic") then
        Basic (default "" (auth ≫= λ a, get_str a "username")) (str_or "" secrets "password")
      else if decide (t = "bearer") then Bearer (str_or "" secrets "token")
      else NoAuth
  | None => NoAuth
  end.

Definition get (timeout_ms : Z) (base_url path : string) (config secrets : J) : StE W string :=
  r ← context "PSS request failed" (http_get timeout_ms (base_url +:+ path) (auth_of config secrets));
  let '(status, body) := r in
  if negb ((200 <=? status) && (status <? 300)) then raise ("HTTP " +:+ status_text status +:+ " from PSS")
  else context "reading PSS response body" (of_res body).

Definition values_path (vars : list string) : string :=
  "/services/user/values.xml?var=" +:+ join_str "?var=" (urlencode <$> vars).

Definition find_row (v : string) (rows : list VarRow) : option VarRow :=
  snd <$> list_find (λ r, vr_id r = v) rows.

Definition vector_value (rows : list VarRow) (v : string) : J :=
  match (r ← find_row v rows; s ← vr_value r; parse_finite s) with
  | Some n => j_f64 n
  | None => j_null
  end.

Definition query (timeout_ms : Z) (base_url : string) (config secrets args : J) : StE W J :=
  vars ← of_res (require_vars args);
  xml ← get timeout_ms base_url (values_path vars) config secrets;
  rows ← of_res (ok_or "parsing PSS values.xml" (parse_values xml));
  match vars with
  | [v] =>
      mret (j_object [("kind", j_str "scalar");
                      ("value", default j_null (normalize_value <$> find_row v rows))])
  | _ => mret (j_object [("kind", j_str "vector"); ("values", j_array (vector_value rows <$> vars))])
  end.

(** The value of a record: a number, or a text that is one. *)
Definition record_value (variable : string) (r : PssRecord) : option f64 :=
  f ← find_row variable (field r);
  let n := normalize_value f in
  x ← match as_f64 n with Some x => Some x | None => as_str n ≫= parse_f64 end;
  if is_finite x then Some x else None.

Fixpoint history_points (variable : string) (max_rows : nat) (rs : list PssRecord) : list (DT * f64) :=
  match rs with
  | [] => []
  | r :: rs =>
      match (ts ← date_time r ≫= parse_pss_date; v ← record_value variable r; Some (ts, v)) with
      | None => history_points variable max_rows rs
      | Some p => p :: (if (max_rows <=? 1)%nat then [] else history_points variable (max_rows - 1) rs)
      end
  end.

Definition point_json (p : DT * f64) : J :=
  j_object [("ts", j_str (to_rfc3339 p.1)); ("value", j_f64 p.2)].

Definition history (timeout_ms : Z) (base_url : string) (config secrets args : J) (max_rows : nat) : StE W J :=
  vars ← of_res (require_vars args);
  let variable := default "" (head vars) in
  let period := str_or "ALL" args "period" in
  from ← of_res (ok_or "history requires `from`" (get_str args "from"));
  to ← of_res (ok_or "history requires `to`" (get_str args "to"));
  b ← of_res (parse_iso from);
  e ← of_res (parse_iso to);
  let path := "/services/user/records.xml?begin=" +:+ format_pss_date b +:+ "?end=" +:+ format_pss_date e
    +:+ "?var=" +:+ urlencode variable +:+ "?period=" +:+ period in
  xml ← get timeout_ms base_url path config secrets;
  rs ← of_res (ok_or "parsing PSS records.xml" (parse_records xml));
  mret (j_object [("kind", j_str "timeseries");
                  ("points", j_array (point_json <$> history_points variable max_rows rs))]).

Definition device_node (id label : string) (vars : list string) : J :=
  j_object [("id", j_str id); ("label", j_str label); ("node_type", j_str "device");
            ("children", j_array ((λ v, j_object [("id", j_str v); ("label", j_str v);
               ("node_type", j_str "variable"); ("meta", j_object [("device", j_str id)])]) <$> vars))].

(** One device of [discover]: its details are optional. *)
Definition discover_device (timeout_ms : Z) (base_url : string) (config secrets : J) (id : string) : StE W J :=
  r ← attempt (get timeout_ms base_url ("/services/user/deviceInfo.xml?id=" +:+ urlencode id) config secrets);
  match (xml ← res_ok r; ds ← parse_device_info xml; head ds) with
  | Some d => mret (device_node id (default id (description d)) (var d))
  | None => mret (device_node id id [])
  end.

Fixpoint discover_devices (timeout_ms : Z) (base_url : string) (config secrets : J) (ids : list string) : StE W (list J) :=
  match ids with
  | [] => mret []
  | id :: ids =>
      n ← discover_device timeout_ms base_url config secrets id;
      ns ← discover_devices timeout_ms base_url config secrets ids;
      mret (n :: ns)
  end.

Definition discover (timeout_ms : Z) (base_url : string) (config secrets : J) : StE W J :=
  xml ← get timeout_ms base_url "/services/user/devices.xml?info=ALL" config secrets;
  ids ← of_res (ok_or "parsing PSS devices.xml" (parse_devices_ids xml));
  nodes ← discover_devices timeout_ms base_url config secrets ids;
  mret (j_object [("kind", j_str "tree"); ("schema_kind", j_str "pss_devices"); ("nodes", j_array nodes)]).

Definition run (op : string) (args config secrets : J) (timeout_ms : Z) (max_rows : nat) : StE W J :=
  base ← of_res (ok_or "pss requires a base_url" (get_str config "base_url"));
  let base_url := trim_end_slashes base in
  let t := Z.max timeout_ms 1 in
  context "building http client" (http_client t);;
  if decide (op = "query") then query t base_url config secrets args
  else if decide (op = "history") then history t base_url config secrets args max_rows
  else if decide (op = "discover") then discover t base_url config secrets
  else raise ("pss does not support op '" +:+ op +:+ "'").
End Adapter.
