(* ===== verification/PssProps.v ===== *)
(** * Properties of the Power Studio adapter

    The texts the adapter builds: the variable names in a query's path can be read
    back from it, and so can the instants it formats. *)
From Stdlib Require Import Ascii.
From S2P Require Import Prelude Float RustStr Decimal Json Pss.
Local Open Scope Z_scope.

(** ** Percent encoding *)

(** The reference decoder. *)
Definition unhex (c : ascii) : option Z :=
  if is_digit c then Some (code c - 48)
  else if (65 <=? code c) && (code c <=? 70) then Some (code c - 55) else None.
Fixpoint urldecode (s : string) : option string :=
  match s with
  | EmptyString => Some EmptyString
  | String c s =>
      if decide (c = "%"%char) then
        match s with
        | String a (String b s) =>
            x ← unhex a; y ← unhex b; r ← urldecode s; Some (String (chr (16 * x + y)) r)
        | _ => None
        end
      else r ← urldecode s; Some (String c r)
  end.

Definition not_question (c : ascii) : bool := bool_decide (c ≠ "?"%char).

Lemma encoded_char c :
  if is_unreserved c then c ≠ "%"%char ∧ not_question c = true
  else unhex (upper_hex_digit (code c / 16)) = Some (code c / 16) ∧
       unhex (upper_hex_digit (code c mod 16)) = Some (code c mod 16) ∧
       chr (16 * (code c / 16) + code c mod 16) = c ∧
       not_question (upper_hex_digit (code c / 16)) = true ∧ not_question (upper_hex_digit (code c mod 16)) = true.
Proof. by destruct c as [[] [] [] [] [] [] [] []]; vm_compute. Qed.

Lemma urldecode_encode s : urldecode (urlencode s) = Some s.
Proof.
  induction s as [|c s IH]; [done|]. simpl. pose proof (encoded_char c) as Hc.
  destruct (is_unreserved c); simpl.
  - rewrite decide_False by tauto. by rewrite IH.
  - destruct Hc as (-> & -> & Hchr & _). simpl. by rewrite IH, Hchr.
Qed.

Lemma urlencode_no_question s : sforall not_question (urlencode s) = true.
Proof.
  induction s as [|c s IH]; [done|]. simpl. pose proof (encoded_char c) as Hc.
  destruct (is_unreserved c); simpl; rewrite IH; [|destruct Hc as (_ & _ & _ & -> & ->)]; [|done].
  by destruct Hc as [_ ->].
Qed.

Lemma split_free a s : sforall not_question a = true →
  split_on "?"%char (a +:+ String "?"%char s) = a :: split_on "?"%char s ∧ split_on "?"%char a = [a].
Proof.
  induction a as [|c a IH]; [done|]. cbn [sforall]. intros [Hc%bool_decide_eq_true Ha]%andb_true_iff.
  destruct (IH Ha) as [E1 E2]. split; simpl.
  - rewrite decide_False by done. change (String.append a (String "?"%char s)) with (a +:+ String "?"%char s). by rewrite E1.
  - rewrite decide_False by done. by rewrite E2.
Qed.

Lemma split_join p e es :
  sforall not_question p = true → Forall (λ e, sforall not_question e = true) (e :: es) →
  split_on "?"%char (p +:+ "?var=" +:+ join_str "?var=" (e :: es)) = p :: ((λ e, "var=" +:+ e) <$> e :: es).
Proof.
  intros Hp. revert p e Hp. induction es as [|e' es IH]; intros p e Hp [He Hes]%Forall_cons.
  - change (p +:+ "?var=" +:+ join_str "?var=" [e]) with (p +:+ String "?"%char ("var=" +:+ e)).
    rewrite (proj1 (split_free _ _ Hp)), (proj2 (split_free ("var=" +:+ e) "" ltac:(by rewrite sforall_app, He))). done.
  - change (p +:+ "?var=" +:+ join_str "?var=" (e :: e' :: es))
      with (p +:+ String "?"%char ("var=" +:+ (e +:+ "?var=" +:+ join_str "?var=" (e' :: es)))).
    rewrite (proj1 (split_free _ _ Hp)), <- str_app_assoc, IH by (done || by rewrite sforall_app, He). done.
Qed.

(** How the server reads the path of a query. *)
Definition path_vars (path : string) : option (list string) :=
  match split_on "?"%char path with
  | base :: ps =>
      if decide (base = "/services/user/values.xml")
      then mapM (λ p, e ← strip_prefix "var=" p; urldecode e) ps else None
  | [] => None
  end.

(** The path of a query determines its variables: cutting it at the literal
    question marks and decoding each [var=] part gives the names back, whatever
    bytes they contain, so two queries never share a path. *)
Theorem values_path_roundtrip vars : vars ≠ [] → path_vars (values_path vars) = Some vars.
Proof.
  intros Hne. destruct vars as [|v vars]; [done|].
  unfold path_vars. change (values_path (v :: vars)) with
    ("/services/user/values.xml" +:+ "?var=" +:+ join_str "?var=" (urlencode <$> v :: vars)).
  rewrite fmap_cons, split_join; [|done|].
  - rewrite decide_True by done. rewrite <- fmap_cons. clear Hne.
    apply mapM_Some, Forall2_fmap_l, Forall2_fmap_l, Forall_Forall2_diag, Forall_true. intros x.
    exact (urldecode_encode x).
  - rewrite <- fmap_cons. apply Forall_fmap, Forall_true. intros x. apply urlencode_no_question.
Qed.

Lemma values_path_roundtrip_witness :
  values_path ["R$CAL.KW"; "a?b"] = "/services/user/values.xml?var=R%24CAL.KW?var=a%3Fb" ∧
  path_vars (values_path ["R$CAL.KW"; "a?b"]) = Some ["R$CAL.KW"; "a?b"].
Proof. split; [by vm_compute|]. by apply values_path_roundtrip. Defined.

(** ** Dates *)

Lemma zeros_digits n s : String.length (zeros n +:+ s) = (n + String.length s)%nat ∧
  digits_val 0 (zeros n +:+ s) = digits_val 0 s ∧ (sforall is_digit s = true → sforall is_digit (zeros n +:+ s) = true).
Proof.
  induction n as [|n (IHl & IHd & IHs)]; [done|]. split_and!.
  - exact (f_equal S IHl).
  - exact IHd.
  - exact IHs.
Qed.

(** A number that starts with a digit has no sign. *)
Lemma parse_int_digits s z : sforall is_digit s = true → s ≠ "" → digits_val 0 s = Some z → z ≤ i64_max →
  parse_int s = Some z.
Proof.
  intros Hs Hne Hv Hz. destruct s as [|c s]; [done|]. simpl in Hs. apply andb_true_iff in Hs as [Hc _].
  assert (c ≠ "-"%char ∧ c ≠ "+"%char) as [Hm Hp] by (split; intros ->; done).
  unfold parse_int, parse_uint. cbn [strip_prefix]. rewrite (decide_False (P := "-"%char = c)) by congruence.
  rewrite (decide_False (P := "+"%char = c)) by congruence. cbn [from_option]. unfold id.
  rewrite decide_False, Hv by done. cbn. destruct (Z.leb_spec z i64_max); [done|lia].
Qed.

Lemma padded_spec n z : (0 < n)%nat → 0 ≤ z < 10 ^ Z.of_nat n → z ≤ i64_max →
  String.length (padded n z) = n ∧ parse_int (padded n z) = Some z.
Proof.
  intros Hn Hz Hm. unfold padded. destruct (Z.ltb_spec z 0); [lia|]. rewrite Z.abs_eq by lia. cbn zeta.
  destruct (dec_spec z) as (Hv & Hne & Hl); [lia|]. specialize (Hl n Hn (proj2 Hz)).
  change ("" +:+ zeros (n - String.length "" - String.length (dec z)) +:+ dec z)
    with (zeros (n - 0 - String.length (dec z)) +:+ dec z).
  destruct (zeros_digits (n - 0 - String.length (dec z)) (dec z)) as (Zl & Zd & Zs).
  split; [lia|]. apply parse_int_digits; [apply Zs, dec_digits; lia| |congruence|done].
  intros E. rewrite E in Zl. simpl in Zl. destruct (dec z); [done|simpl in Zl; lia].
Qed.

Lemma padded_2 z : 0 ≤ z < 100 → ∃ a b, padded 2 z = String a (String b "") ∧ parse_int (String a (String b "")) = Some z.
Proof.
  intros Hz. destruct (padded_spec 2 z) as [Hl Hp]; [lia|done|unfold i64_max; lia|].
  destruct (padded 2 z) as [|a [|b [|]]]; try done. eauto.
Qed.
Lemma padded_4 z : 0 ≤ z < 10000 → ∃ a b c d, padded 4 z = String a (String b (String c (String d ""))) ∧
  parse_int (String a (String b (String c (String d "")))) = Some z.
Proof.
  intros Hz. destruct (padded_spec 4 z) as [Hl Hp]; [lia|done|unfold i64_max; lia|].
  destruct (padded 4 z) as [|a [|b [|c [|d [|]]]]]; try done. eauto 6.
Qed.

(** A calendar date and time of day of the years 0 to 9999. *)
Record in_calendar `{Chrono DT} (dt : DT) : Prop := {
  ic_year : 0 ≤ year dt < 10000;
  ic_month : 1 ≤ month dt ≤ 12;
  ic_day : 1 ≤ day dt ≤ 31;
  ic_hour : 0 ≤ hour dt < 24;
  ic_minute : 0 ≤ minute dt < 60;
  ic_second : 0 ≤ second dt < 60;
}.

(** A formatted instant is parsed as the instant of its own year, month,
    day, hour, minute and second: the two formats agree on the order and width of
    the fields. *)
Theorem pss_date_roundtrip `{Chrono DT} (dt : DT) : in_calendar dt →
  parse_pss_date (format_pss_date dt) =
  with_ymd_and_hms (year dt) (month dt) (day dt) (hour dt) (minute dt) (second dt).
Proof.
  intros [Hy Hmo Hd Hh Hmi Hs].
  destruct (padded_2 (day dt)) as (d1 & d2 & Ed & Pd); [lia|].
  destruct (padded_2 (month dt)) as (m1 & m2 & Em & Pm); [lia|].
  destruct (padded_4 (year dt)) as (y1 & y2 & y3 & y4 & Ey & Py); [lia|].
  destruct (padded_2 (hour dt)) as (h1 & h2 & Eh & Ph); [lia|].
  destruct (padded_2 (minute dt)) as (n1 & n2 & En & Pn); [lia|].
  destruct (padded_2 (second dt)) as (s1 & s2 & Es & Ps); [lia|].
  unfold parse_pss_date, format_pss_date. rewrite Ed, Em, Ey, Eh, En, Es. unfold substr.
  assert (String d1 (String d2 "") +:+ String m1 (String m2 "") +:+ String y1 (String y2 (String y3 (String y4 "")))
    +:+ String h1 (String h2 "") +:+ String n1 (String n2 "") +:+ String s1 (String s2 "")
    = (String d1 (String d2 (String m1 (String m2 (String y1 (String y2 (String y3 (String y4 (String h1 (String h2 (String n1 (String n2 (String s1 (String s2 ""))))))))))))))) as -> by reflexivity.
  cbn -[parse_int Z.sub as_i32 as_u32]. rewrite Pd, Pm, Py, Ph, Pn, Ps. cbn -[as_i32 as_u32].
  rewrite !as_u32_small by (unfold is_u32; lia).
  assert (as_i32 (year dt) = year dt) as ->; [|done].
  unfold as_i32. rewrite <- (as_signed_small 32 (year dt)) at 2 by lia. unfold as_signed. by rewrite Z.mod_mod by lia.
Qed.

(** Instants as their six fields. *)
Module DateRun.
Definition Fields : Type := Z * Z * Z * Z * Z * Z.
#[local] Instance fields : Chrono Fields := {|
  parse_from_rfc3339 _ := None;
  to_rfc3339 _ := "";
  year '(y, _, _, _, _, _) := y; month '(_, m, _, _, _, _) := m; day '(_, _, d, _, _, _) := d;
  hour '(_, _, _, h, _, _) := h; minute '(_, _, _, _, m, _) := m; second '(_, _, _, _, _, s) := s;
  with_ymd_and_hms y m d h mi s := Some (y, m, d, h, mi, s);
|}.

Lemma pss_date_roundtrip_witness :
  format_pss_date (2026, 3, 7, 9, 5, 0) = "07032026090500" ∧
  parse_pss_date (format_pss_date (2026, 3, 7, 9, 5, 0)) = Some (2026, 3, 7, 9, 5, 0).
Proof.
  split; [by vm_compute|]. assert (in_calendar (DT := Fields) (2026, 3, 7, 9, 5, 0)) as Hc by (split; simpl; lia).
  exact (pss_date_roundtrip (DT := Fields) _ Hc).
Defined.
End DateRun.
