(* ===== verification/Collector.v ===== *)
(** * The collector ([src/collector.rs])

    One poll task per ingest: read the connector's source, scale, enqueue with
    the connector as origin. A task's state is its Modbus client, the host (the
    plugin processes and the world) and the buffer; the world has the network, the
    processes, HTTP and the clocks. It also carries a history the code does not
    keep: what the task's enqueues put into the buffer. *)
From S2P Require Import Prelude Float Proto Buffer RustStr Json Jobs Plugins Modbus Pss.
Set Warnings "-register-all".
Local Open Scope Z_scope.

Definition MAX_ROWS : nat := Z.to_nat 100000.

(** [Instant::now] and [tokio::time::sleep], in nanoseconds. *)
Class Clock (W : Type) := { instant_ns : W → Z; sleep_ns : Z → W → W }.

Definition ns_of_ms (ms : Z) : Z := ms * 1000000.
Definition ns_of_s (s : Z) : Z := s * 1000000000.

Record Task (W : Type) := mkTask {
  t_modbus : option ModbusClient;
  t_host : Host W;
  t_buf : BufferDb;
  t_faults : Faults;
  (* history: what the task's enqueues put into the table, with its origin *)
  t_accepted : list (option string * Sample);
}.
Arguments mkTask {W} _ _ _ _ _.
Arguments t_modbus {W} _.
Arguments t_host {W} _.
Arguments t_buf {W} _.
Arguments t_faults {W} _.
Arguments t_accepted {W} _.

(** ** Values *)
Section Values.
Context `{Json J}.

Definition apply_scale (raw : f64) (transform : J) : f64 :=
  match get_str transform "expression" with
  | Some _ => raw
  | None =>
      let scale := default f64_one (get_f64 transform "scale") in
      let offset := default f64_zero (get_f64 transform "offset") in
      f64_add (f64_mul raw scale) offset
  end.

Definition scalar_value (result : J) : option f64 :=
  v ← jget result "value";
  match as_f64 v with
  | Some x => Some x
  | None => as_str v ≫= parse_f64
  end.

Definition scale_sample (transform : J) (s : Sample) : Sample :=
  mkSample (point_id s) (ts_ms s) (apply_scale (value s) transform) (quality s) (attrs s).

(** The samples of [n] registers: one point, or one per register. *)
Definition register_samples (var_id : string) (ts : Z) (transform : J) (regs : list Z) : list Sample :=
  imap (λ i raw, mkSample (if decide (length regs = 1%nat) then var_id else var_id +:+ "/" +:+ dec (Z.of_nat i))
                   ts (apply_scale (f64_of_Z raw) transform) 0 ∅) regs.

Definition variable_of (ing : Job J) : string :=
  default (ingest_id ing) (get_str (naming ing) "variable_id").
End Values.

Section Collect.
Context `{Json J} `{AttrsCodec} `{PssXml} {DT : Type} `{Chrono DT} {W : Type} `{Http W}.
Context `{ModbusNet W} `{Procs W} `{Clock W}.

Definition CM (A : Type) : Type := HangE (Task W) A.

Definition set_t_host (h : Host W) (t : Task W) : Task W := mkTask (t_modbus t) h (t_buf t) (t_faults t) (t_accepted t).
Definition with_host {A} (m : HM W A) : CM A := zoom t_host set_t_host (hang_total m).
Definition world_of (t : Task W) : W := os (t_host t).
Definition set_world (w : W) (t : Task W) : Task W := set_t_host (mkHost (procs (t_host t)) w) t.
Definition with_http {A} (m : StE W A) : CM A := zoom world_of set_world (hang_total m).
Definition task_now_ms : CM Z := hang_gets (λ t, os_now_ms (world_of t)).
Definition set_modbus (c : option ModbusClient) : CM () :=
  hang_modify (λ t, mkTask c (t_host t) (t_buf t) (t_faults t) (t_accepted t)).
(** A call of the task's client; it was created just before. *)
Definition with_modbus {A} (m : MB W A) : CM A := λ t,
  match t_modbus t with
  | None => (None, t)
  | Some c =>
      let '(r, (c', w)) := m (c, world_of t) in
      (r, set_world w (mkTask (Some c') (t_host t) (t_buf t) (t_faults t) (t_accepted t)))
  end.

Definition ensure_modbus (host : string) (port poll_interval_ms : Z) : CM () :=
  cur ← hang_gets t_modbus;
  match cur with
  | Some _ => mret ()
  | None =>
      match ModbusClient_new host port poll_interval_ms with
      | None => hang
      | Some c => set_modbus (Some c)
      end
  end.

Definition collect_modbus (conn : Conn J) (ing : Job J) (ts : Z) (var_id : string) : CM (list Sample) :=
  host ← hang_res (ok_or "modbus connector config.host missing" (get_str (config conn) "host"));
  let port := as_u16 (default 502 (get_u64 (config conn) "port")) in
  reg ← hang_res (ok_or "modbus ingest selection.register missing" (get_u64 (selection ing) "register"));
  let start := as_u16 reg in
  let count := as_u16 (default 1 (get_u64 (selection ing) "count")) in
  let input := bool_decide (get_str (selection ing) "type" = Some "input") in
  ensure_modbus host port (Z.max (interval_s ing) 1 * 1000);;
  regs ← with_modbus (mb_read start count input);
  mret (register_samples var_id ts (transform ing) regs).

Definition collect_pss (conn : Conn J) (ing : Job J) (ts : Z) (var_id : string) : CM (list Sample) :=
  result ← with_http (Pss.run "query" (selection ing) (config conn) (secrets conn) 30000 MAX_ROWS);
  v ← hang_res (ok_or ("pss query for " +:+ var_id +:+ " returned no scalar value") (scalar_value result));
  mret [mkSample var_id ts (apply_scale v (transform ing)) 0 ∅].

Definition collect_plugin (plugins : PluginHost) (conn : Conn J) (ing : Job J) : CM (list Sample) :=
  match for_type plugins (ds_type conn) with
  | Some (i, p) =>
      samples ← with_host (Plugins.read i p conn ing);
      mret (scale_sample (transform ing) <$> samples)
  | None =>
      hang_raise ("agent cannot collect connector type '" +:+ ds_type conn +:+ "' (no built-in adapter or plugin)")
  end.

Definition collect_once (plugins : PluginHost) (conn : Conn J) (ing : Job J) : CM (list Sample) :=
  ts ← task_now_ms;
  let var_id := variable_of ing in
  if decide (ds_type conn = "modbus") then collect_modbus conn ing ts var_id
  else if decide (ds_type conn = "pss") then collect_pss conn ing ts var_id
  else collect_plugin plugins conn ing.

(** ** Enqueueing: an error is logged and the samples are gone *)
Definition enqueue (ing : Job J) (samples : list Sample) : CM () := λ t,
  let o := Some (connector_id ing) in
  let '(r, b, p) := enqueue_with_origin (os_now_ms (world_of t)) o samples (t_faults t) (t_buf t) in
  (Some (Ok ()), mkTask (t_modbus t) (t_host t) b p (t_accepted t ++ accepted_of o samples r)).

Definition sleep (ns : Z) : CM () := hang_modify (λ t, set_world (sleep_ns ns (world_of t)) t).
Definition now_instant : CM Z := hang_gets (λ t, instant_ns (world_of t)).

(** ** Oversampling *)

(** The running sum and count of each variable. *)
Abbreviation Acc := (gmap string (f64 * Z)).
Definition add_sample (acc : Acc) (s : Sample) : Acc :=
  let '(sum, count) := default (f64_zero, 0) (acc !! point_id s) in
  <[point_id s := (f64_add sum (value s), as_u32 (count + 1))]> acc.

Definition mean_sample (ts : Z) (p : string * (f64 * Z)) : Sample :=
  let '(variable_id, (sum, count)) := p in
  mkSample variable_id ts (if 0 <? count then f64_div sum (f64_of_Z count) else sum) 0 ∅.

(** [fuel] bounds the reads of one window. *)
Fixpoint window_loop (fuel : nat) (plugins : PluginHost) (conn : Conn J) (ing : Job J)
    (start record sample_every : Z) (acc : Acc) : CM (option Acc) :=
  match fuel with
  | O => mret None
  | S fuel =>
      r ← hang_attempt (collect_once plugins conn ing);
      let acc := match r with Ok samples => foldl add_sample acc samples | Err _ => acc end in
      now ← now_instant;
      let elapsed := now - start in
      if record <=? elapsed then mret (Some acc)
      else sleep (Z.min sample_every (record - elapsed));;
           window_loop fuel plugins conn ing start record sample_every acc
  end.

(** [None]: the bound was reached. *)
Definition run_window (fuel : nat) (plugins : PluginHost) (conn : Conn J) (ing : Job J)
    (record sample_every : Z) : CM (option ()) :=
  start ← now_instant;
  acc ← window_loop fuel plugins conn ing start record sample_every ∅;
  match acc with
  | None => mret None
  | Some acc =>
      if decide (acc = ∅) then mret (Some ()) else
      ts ← task_now_ms;
      enqueue ing (mean_sample ts <$> map_to_list acc);;
      mret (Some ())
  end.

(** ** The task *)

Definition poll_cycle (plugins : PluginHost) (conn : Conn J) (ing : Job J) (record : Z) : CM () :=
  r ← hang_attempt (collect_once plugins conn ing);
  match r with
  | Ok [] => mret ()
  | Ok samples => enqueue ing samples
  | Err _ => mret ()
  end;;
  sleep record.

Definition sample_ms_of (ing : Job J) : option Z :=
  m ← get_u64 (transform ing) "sample_interval_ms"; if 1 <=? m then Some m else None.

(** The sampling period when it is finer than the record interval. *)
Definition oversampling (ing : Job J) : option Z :=
  m ← sample_ms_of ing;
  if m <? Z.max (interval_s ing) 1 * 1000 then Some m else None.

(** The bound ran out: the task is still running. *)
Fixpoint poll_loop (rounds fuel : nat) (plugins : PluginHost) (conn : Conn J) (ing : Job J) : CM () :=
  match rounds with
  | O => mret ()
  | S rounds =>
      let record := ns_of_s (Z.max (interval_s ing) 1) in
      match oversampling ing with
      | Some m =>
          r ← run_window fuel plugins conn ing record (ns_of_ms m);
          match r with None => mret () | Some () => poll_loop rounds fuel plugins conn ing end
      | None => poll_cycle plugins conn ing record;; poll_loop rounds fuel plugins conn ing
      end
  end.

(** Drain one subscription stream: [None] when the bound ran out. *)
Fixpoint stream_loop (fuel : nat) (ing : Job J) (pid : Z) : CM (option ()) :=
  match fuel with
  | O => mret None
  | S fuel' =>
      r ← hang_attempt (with_host (stream_next fuel pid));
      match r with
      | Ok (Batch samples) => enqueue ing (scale_sample (transform ing) <$> samples);; stream_loop fuel' ing pid
      | Ok Closed => mret (Some ())
      | Ok Pending => mret None
      | Err _ => mret (Some ())
      end
  end.

Fixpoint run_stream (rounds fuel : nat) (p : Plugin) (conn : Conn J) (ing : Job J) : CM () :=
  match rounds with
  | O => mret ()
  | S rounds =>
      r ← hang_attempt (with_host (Plugins.open_stream p conn ing));
      match r with
      | Err _ => sleep (ns_of_s 5);; run_stream rounds fuel p conn ing
      | Ok pid =>
          d ← stream_loop fuel ing pid;
          match d with
          | None => mret ()
          | Some () =>
              (* the stream is dropped, which kills the process *)
              with_host (with_os (λ w, ((), os_kill pid w)));;
              sleep (ns_of_s 5);; run_stream rounds fuel p conn ing
          end
      end
  end.

Definition run_ingest (rounds fuel : nat) (plugins : PluginHost) (conn : Conn J) (ing : Job J) : CM () :=
  let subscribe := default false (get_bool (selection ing) "subscribe") in
  match (if subscribe : bool then for_type plugins (ds_type conn) else None) with
  | Some (_, p) => run_stream rounds fuel p conn ing
  | None => poll_loop rounds fuel plugins conn ing
  end.
End Collect.

(** ** Reconfiguration *)

(** The task handles by ingest, and every task that runs. *)
Record Tasks (J : Type) := mkTasks {
  tk_tasks : gmap string nat;
  tk_running : gmap nat (Conn J * Job J);
  tk_next : nat;
}.
Arguments mkTasks {J} _ _ _.
Arguments tk_tasks {J} _.
Arguments tk_running {J} _.
Arguments tk_next {J} _.

Section Reconfigure.
Context {J : Type}.

Definition insert_connectors (cs : list (string * Conn J)) : gmap string (Conn J) :=
  foldl (λ m c, <[c.1 := c.2]> m) ∅ cs.

(** [tasks.drain()] with [abort] on each handle. An aborted task stops at its next
    await; what it does until then counts as done before the abort. *)
Definition abort_all (t : Tasks J) : Tasks J :=
  mkTasks ∅ (filter (λ p, p.1 ∉ (map_to_list (tk_tasks t)).*2) (tk_running t)) (tk_next t).

(** [tokio::spawn] and [tasks.insert]. *)
Definition spawn_ingest (conns : gmap string (Conn J)) (t : Tasks J) (ing : Job J) : Tasks J :=
  match conns !! connector_id ing with
  | None => t
  | Some conn =>
      mkTasks (<[ingest_id ing := tk_next t]> (tk_tasks t))
        (<[tk_next t := (conn, ing)]> (tk_running t)) (S (tk_next t))
  end.

(** The new connector store (the old one is cleared) and the tasks. *)
Definition reconfigure (connectors : list (string * Conn J)) (ingests : list (Job J)) (t : Tasks J) :
    gmap string (Conn J) * Tasks J :=
  let conns := insert_connectors connectors in
  (conns, foldl (spawn_ingest conns) (abort_all t) ingests).
End Reconfigure.

(** ** An environment with processes only *)
Module Quiet.
#[export] Instance attrs_codec : AttrsCodec := {| attrs_to_string _ := Ok "{}"; attrs_from_str _ := Some ∅ |}.
#[export] Instance xml : PssXml := {| parse_values _ := None; parse_records _ := None;
  parse_devices_ids _ := None; parse_device_info _ := None |}.
#[export] Instance chrono : Chrono Z := {| parse_from_rfc3339 _ := None; to_rfc3339 _ := ""; year _ := 0; month _ := 0;
  day _ := 0; hour _ := 0; minute _ := 0; second _ := 0; with_ymd_and_hms _ _ _ _ _ _ := None |}.
Section World.
Context {W : Type}.
#[export] Instance http : Http W :=
  {| http_client _ w := (Ok (), w); http_get _ _ _ w := (Err "no network", w); status_text _ := "" |}.
#[export] Instance net : ModbusNet W := {| net_lookup _ _ w := (None, w); net_connect _ _ w := (None, w);
  net_read _ _ _ w := (None, w); net_write_single _ _ w := (None, w); net_write_multiple _ _ w := (None, w);
  net_write_coil _ _ w := (None, w) |}.
#[export] Instance clock : Clock W := {| instant_ns w := 0; sleep_ns _ w := w |}.
End World.
End Quiet.
