(* ===== verification/CollectorProps.v ===== *)
(** * Properties of the collector

    Reconfiguration keeps every running task under its ingest's handle and
    replaces the set of tasks; a sampling window enqueues the mean of the samples
    read of each variable. *)
From S2P Require Import Prelude Float Proto Buffer RustStr Json Jobs Plugins Modbus Pss Collector.
Set Warnings "-register-all".
Local Open Scope Z_scope.

(** ** Reconfiguration *)
Section Reconfigure.
Context {J : Type}.
Implicit Types t : Tasks J.

(** Every task that runs has its handle kept, and task numbers are fresh. *)
Record tracked t : Prop := {
  tr_handle : ∀ n, is_Some (tk_running t !! n) → ∃ id, tk_tasks t !! id = Some n;
  tr_fresh : ∀ n, (tk_next t ≤ n)%nat → tk_running t !! n = None;
}.

(** The task of an ingest whose connector is known. *)
Definition launch (conns : gmap string (Conn J)) (ing : Job J) : option (Conn J * Job J) :=
  (λ conn, (conn, ing)) <$> conns !! connector_id ing.

Lemma insert_connectors_lookup (cs : list (string * Conn J)) id : insert_connectors cs !! id = assoc_last id cs.
Proof.
  unfold insert_connectors. enough (∀ m : gmap string (Conn J),
    foldl (λ m c, <[c.1:=c.2]> m) m cs !! id = match assoc_last id cs with Some c => Some c | None => m !! id end) as E.
  { rewrite E. by destruct (assoc_last id cs). }
  induction cs as [|[k c] cs IH]; intros m; simpl; [done|]. rewrite IH.
  destruct (assoc_last id cs); [done|]. destruct (decide (id = k)) as [->|]; by rewrite ?lookup_insert_eq, ?lookup_insert_ne.
Qed.

Lemma abort_all_running t : tracked t → tk_running (abort_all t) = ∅.
Proof.
  intros [Hh _]. apply map_empty. intros n. apply map_lookup_filter_None. right. intros r Hr Hn. apply Hn. simpl.
  destruct (Hh n) as [id Hid]; [eauto|]. apply list_elem_of_fmap. exists (id, n). split; [done|].
  by apply elem_of_map_to_list.
Qed.

Lemma spawn_ingest_running conns t ing : (∀ n, (tk_next t ≤ n)%nat → tk_running t !! n = None) →
  (∀ n, (tk_next (spawn_ingest conns t ing) ≤ n)%nat → tk_running (spawn_ingest conns t ing) !! n = None) ∧
  (map_to_list (tk_running (spawn_ingest conns t ing))).*2 ≡ₚ
    (map_to_list (tk_running t)).*2 ++ from_option (λ x, [x]) [] (launch conns ing).
Proof.
  intros Hf. unfold spawn_ingest, launch. destruct (conns !! connector_id ing) as [conn|]; simpl.
  - split.
    + intros n Hn. rewrite lookup_insert_ne by lia. apply Hf. lia.
    + rewrite map_to_list_insert by (apply Hf; lia). simpl. by rewrite (comm (++)).
  - by rewrite app_nil_r.
Qed.

Lemma spawn_all_running conns ings t : (∀ n, (tk_next t ≤ n)%nat → tk_running t !! n = None) →
  let t' := foldl (spawn_ingest conns) t ings in
  (∀ n, (tk_next t' ≤ n)%nat → tk_running t' !! n = None) ∧
  (map_to_list (tk_running t')).*2 ≡ₚ (map_to_list (tk_running t)).*2 ++ omap (launch conns) ings.
Proof.
  revert t. induction ings as [|ing ings IH]; intros t Hf; simpl; [by rewrite app_nil_r|].
  destruct (spawn_ingest_running conns t ing Hf) as [Hf' E].
  destruct (IH _ Hf') as [? ->]. split; [done|]. rewrite E, <- (assoc_L (++)).
  destruct (launch conns ing); done.
Qed.

(** Each task keeps its handle as long as no later ingest has its id. *)
Lemma spawn_all_tracked conns ings t :
  tracked t → NoDup (ingest_id <$> ings) → (∀ ing, ing ∈ ings → tk_tasks t !! ingest_id ing = None) →
  tracked (foldl (spawn_ingest conns) t ings).
Proof.
  revert t. induction ings as [|ing ings IH]; intros t Ht Hnd Hnew; simpl; [done|].
  rewrite fmap_cons, NoDup_cons in Hnd. destruct Hnd as [Hing Hnd]. pose proof Ht as [Hh Hf].
  assert (tk_tasks t !! ingest_id ing = None) as Hi by (apply Hnew; set_solver).
  apply IH; [split| done|].
  - unfold spawn_ingest. destruct (conns !! connector_id ing) as [conn|]; [simpl|done]. intros n.
    destruct (decide (n = tk_next t)) as [->|].
    + intros _. exists (ingest_id ing). by rewrite lookup_insert_eq.
    + rewrite lookup_insert_ne by done. intros [id Hid]%Hh. exists id. rewrite lookup_insert_ne; [done|]. congruence.
  - apply spawn_ingest_running, Hf.
  - intros ing' Hin. unfold spawn_ingest. destruct (conns !! connector_id ing); [simpl|apply Hnew; set_solver].
    rewrite lookup_insert_ne; [apply Hnew; set_solver|]. intros E. apply Hing. rewrite E. by apply list_elem_of_fmap_2.
Qed.

Lemma reconfigure_spec connectors ingests t :
  tracked t → NoDup (ingest_id <$> ingests) →
  let '(conns, t') := reconfigure connectors ingests t in
  tracked t' ∧ (map_to_list (tk_running t')).*2 ≡ₚ omap (launch conns) ingests ∧
  ∀ id, conns !! id = assoc_last id connectors.
Proof.
  intros Ht Hnd. unfold reconfigure.
  assert (tracked (abort_all t)) as Ha.
  { split; [|intros n _]; rewrite abort_all_running by done; [intros n; rewrite lookup_empty; by intros []|done]. }
  split_and!.
  - apply spawn_all_tracked; [done..|]. intros ing _. apply lookup_empty.
  - pose proof (spawn_all_running (insert_connectors connectors) ingests (abort_all t) (tr_fresh _ Ha)) as [_ ->].
    by rewrite abort_all_running, map_to_list_empty.
  - apply insert_connectors_lookup.
Qed.

(** C31. When no two ingests share an id, a reconfiguration leaves no old task
    running: the running tasks are exactly one per ingest of the new set whose
    connector is known, each under its ingest's handle, so that the next
    reconfiguration will stop it; and of connectors with one id the last stands. *)
Theorem reconfigure_replaces connectors ingests t :
  tracked t → NoDup (ingest_id <$> ingests) →
  let '(conns, t') := reconfigure connectors ingests t in
  tracked t' ∧ (map_to_list (tk_running t')).*2 ≡ₚ omap (launch conns) ingests ∧
  ∀ id, conns !! id = assoc_last id connectors.
Proof. apply reconfigure_spec. Qed.

(** Two ingests with one id: the first one's task has no handle, and no later
    reconfiguration stops it. *)
Lemma duplicate_ingest_leaks t conn a b id :
  ingest_id a = ingest_id b → connector_id a = id → connector_id b = id → tracked t →
  let t1 := (reconfigure [(id, conn)] [a; b] t).2 in
  let t2 := (reconfigure [] [] t1).2 in
  tk_running t2 !! tk_next t = Some (conn, a).
Proof.
  intros Eid Ea Eb Ht. cbv zeta. set (t1 := (reconfigure [(id, conn)] [a; b] t).2).
  assert (t1 = mkTasks (<[ingest_id b := S (tk_next t)]> (<[ingest_id a := tk_next t]> ∅))
    (<[S (tk_next t) := (conn, b)]> (<[tk_next t := (conn, a)]> ∅)) (S (S (tk_next t)))) as ->.
  { unfold t1, reconfigure. simpl. unfold spawn_ingest. rewrite Ea, Eb, insert_connectors_lookup. simpl.
    rewrite decide_True by done. simpl. f_equal. f_equal. f_equal. by apply abort_all_running. }
  simpl.
  apply map_lookup_filter_Some. simpl. split.
  - rewrite lookup_insert_ne by lia. by rewrite lookup_insert_eq.
  - rewrite <- Eid, insert_insert_eq, map_to_list_insert, map_to_list_empty by apply lookup_empty. simpl.
    intros Hin%list_elem_of_singleton. lia.
Qed.
End Reconfigure.

Lemma reconfigure_replaces_witness :
  let conn := mkConn "modbus" 0 0 ∅ in
  let job id c := mkJob id c 0 60 0 0 in
  let t := (reconfigure [("c", conn)] [job "i" "c"; job "j" "unknown"] (mkTasks (J := Z) ∅ ∅ 0)).2 in
  (map_to_list (tk_running t)).*2 = [(conn, job "i" "c")] ∧
  (map_to_list (tk_running (reconfigure [] [job "k" "c"] t).2)).*2 = [].
Proof.
  intros conn job t. split; [by vm_compute|].
  assert (tracked (mkTasks (J := Z) ∅ ∅ 0)) as H0 by (split; [intros n [? E]; simpl in E; by rewrite lookup_empty in E|done]).
  pose proof (reconfigure_replaces [("c", conn)] [job "i" "c"; job "j" "unknown"] _ H0 ltac:(apply (bool_decide_unpack _); by vm_compute)) as H1.
  destruct (reconfigure _ _ _) as [m t1] eqn:E1. destruct H1 as [H1 _].
  pose proof (reconfigure_replaces [] [job "k" "c"] t1 H1 ltac:(apply (bool_decide_unpack _); by vm_compute)) as H2.
  change t with t1.
  destruct (reconfigure [] _ t1) as [m2 t2] eqn:E2. destruct H2 as (_ & Hp & Hm). simpl.
  assert (omap (launch m2) [job "k" "c"] = []) as En by (simpl; unfold launch; simpl; by rewrite Hm).
  rewrite En in Hp. by apply Permutation_nil_r in Hp.
Defined.

(** ** Oversampling *)

(** The reference: the values of a variable, and the mean of each variable. *)
Definition values_of (id : string) (ss : list Sample) : list f64 := value <$> filter (λ s, point_id s = id) ss.
Definition mean (vs : list f64) : f64 := f64_div (foldl f64_add f64_zero vs) (f64_of_Z (Z.of_nat (length vs))).
Definition means (ts : Z) (ss : list Sample) : list Sample :=
  (λ id, mkSample id ts (mean (values_of id ss)) 0 ∅) <$> remove_dups (point_id <$> ss).

(** What the accumulator holds of a variable. *)
Definition summary (vs : list f64) : f64 * Z := (foldl f64_add f64_zero vs, as_u32 (Z.of_nat (length vs))).

Lemma values_of_snoc id ss s :
  values_of id (ss ++ [s]) = values_of id ss ++ (if decide (point_id s = id) then [value s] else []).
Proof.
  unfold values_of. rewrite filter_app, fmap_app. f_equal. rewrite filter_cons. by case_decide.
Qed.

Lemma values_of_nil id ss : values_of id ss = [] ↔ id ∉ point_id <$> ss.
Proof.
  unfold values_of. split.
  - intros E%fmap_nil_inv (s & -> & Hs)%list_elem_of_fmap. eapply not_elem_of_nil. rewrite <- E.
    by apply list_elem_of_filter.
  - intros Hn. rewrite filter_none; [done|]. intros s Hs <-. apply Hn. by apply list_elem_of_fmap_2.
Qed.

Lemma add_samples_lookup ss id :
  foldl add_sample ∅ ss !! id = match values_of id ss with [] => None | vs => Some (summary vs) end.
Proof.
  induction ss as [|s ss IH] using rev_ind; [done|]. rewrite foldl_snoc, values_of_snoc.
  set (acc := foldl add_sample ∅ ss) in *. unfold add_sample.
  destruct (default (f64_zero, 0) (acc !! point_id s)) as [sum count] eqn:E.
  destruct (decide (point_id s = id)) as [Hid|]; [subst id|].
  - rewrite lookup_insert_eq. rewrite IH in E.
    assert ((sum, count) = summary (values_of (point_id s) ss)) as Es by (by destruct (values_of (point_id s) ss); simpl in E; simplify_eq).
    injection Es as -> ->. destruct (values_of (point_id s) ss ++ [value s]) as [|v vs] eqn:Ev; [by destruct (values_of (point_id s) ss)|].
    rewrite <- Ev. unfold summary. rewrite foldl_snoc, length_app, Nat2Z.inj_add. do 2 f_equal.
    unfold as_u32. apply Zplus_mod_idemp_l.
  - rewrite lookup_insert_ne by done. by rewrite app_nil_r.
Qed.

Lemma means_spec ts ss : Z.of_nat (length ss) < 2 ^ 32 →
  mean_sample ts <$> map_to_list (foldl add_sample ∅ ss) ≡ₚ means ts ss.
Proof.
  intros Hlen. set (acc := foldl add_sample ∅ ss).
  assert (acc = list_to_map ((λ id, (id, summary (values_of id ss))) <$> remove_dups (point_id <$> ss))) as ->.
  { apply map_eq. intros id. unfold acc. rewrite add_samples_lookup.
    destruct (decide (id ∈ point_id <$> ss)) as [Hin|Hin].
    - assert (values_of id ss ≠ []) as Hv by (rewrite values_of_nil; tauto). symmetry.
      trans (Some (summary (values_of id ss))); [|by destruct (values_of id ss)].
      apply elem_of_list_to_map.
      + rewrite <- list_fmap_compose. unfold compose. simpl. rewrite list_fmap_id. apply NoDup_remove_dups.
      + apply list_elem_of_fmap. exists id. split; [done|]. by apply elem_of_remove_dups.
    - pose proof (proj2 (values_of_nil id ss) Hin) as ->. symmetry. apply not_elem_of_list_to_map.
      rewrite <- list_fmap_compose. unfold compose. simpl. rewrite list_fmap_id. by rewrite elem_of_remove_dups. }
  rewrite map_to_list_to_map.
  2:{ rewrite <- list_fmap_compose. unfold compose. simpl. rewrite list_fmap_id. apply NoDup_remove_dups. }
  rewrite <- list_fmap_compose. unfold means. apply reflexive_eq, list_fmap_ext. intros i id Hi. simpl. unfold mean. f_equal.
  apply list_elem_of_lookup_2 in Hi. rewrite elem_of_remove_dups in Hi.
  assert (values_of id ss ≠ []) as Hv by (rewrite values_of_nil; intros Hn; by apply Hn).
  assert (length (values_of id ss) ≤ length ss)%nat by (unfold values_of; rewrite length_fmap; apply Prelude.filter_length_le).
  assert (0 < length (values_of id ss))%nat by (destruct (values_of id ss); [done|simpl; lia]).
  rewrite as_u32_small by (unfold is_u32; lia). destruct (Z.ltb_spec 0 (Z.of_nat (length (values_of id ss)))); [done|lia].
Qed.

Section Window.
Context `{Json J} `{AttrsCodec} `{PssXml} {DT : Type} `{Chrono DT} {W : Type} `{Http W}.
Context `{ModbusNet W} `{Procs W} `{Clock W}.
Context (plugins : PluginHost) (conn : Conn J) (ing : Job J) (record every : Z).

Definition read_once (t : Task W) : option (result string (result string (list Sample))) * Task W :=
  hang_attempt (collect_once plugins conn ing) t.
Definition samples_read (r : result string (list Sample)) : list Sample := default [] (res_ok r).
Definition elapsed (start : Z) (t : Task W) : Z := instant_ns (world_of t) - start.

(** The reads of a window begun at [start]: the samples of each, and the end. *)
Inductive window_reads (start : Z) : Task W → list (list Sample) → Task W → Prop :=
| wr_last t r t' :
    read_once t = (Some (Ok r), t') → record ≤ elapsed start t' →
    window_reads start t [samples_read r] t'
| wr_next t r t1 t2 bs t' :
    read_once t = (Some (Ok r), t1) → elapsed start t1 < record →
    sleep (Z.min every (record - elapsed start t1)) t1 = (Some (Ok ()), t2) →
    window_reads start t2 bs t' →
    window_reads start t (samples_read r :: bs) t'.

(** Reads return, and time does not go back. *)
Hypothesis reads_return : ∀ t, ∃ r t', read_once t = (Some (Ok r), t') ∧
  instant_ns (world_of t) ≤ instant_ns (world_of t').
Hypothesis sleeps : ∀ d w, 0 ≤ d → instant_ns w + d ≤ instant_ns (sleep_ns d w).
Hypothesis every_pos : 0 < every.

Lemma window_loop_reads fuel start t acc : record - elapsed start t ≤ Z.of_nat fuel * every →
  ∃ bs t', window_reads start t bs t' ∧
    window_loop (S fuel) plugins conn ing start record every acc t
    = (Some (Ok (Some (foldl add_sample acc (mjoin bs)))), t').
Proof.
  revert t acc. induction fuel as [|fuel IH]; intros t acc Hf; unfold elapsed in *;
    destruct (reads_return t) as (r & t1 & Er & Hm).
  all: cbn [window_loop]; unfold mbind at 1, HangE_bind at 1; unfold read_once in Er; rewrite Er.
  all: set (acc1 := match r with Ok _ => _ | Err _ => _ end).
  all: assert (acc1 = foldl add_sample acc (samples_read r)) as -> by (by destruct r).
  all: unfold mbind at 1, HangE_bind at 1, now_instant, hang_gets.
  all: destruct (Z.leb_spec record (instant_ns (world_of t1) - start)) as [Hr|Hr].
  - exists [samples_read r], t1. split; [by apply wr_last|]. cbn [mjoin list_join]. by rewrite app_nil_r.
  - lia.
  - exists [samples_read r], t1. split; [by apply wr_last|]. cbn [mjoin list_join]. by rewrite app_nil_r.
  - set (d := Z.min every (record - (instant_ns (world_of t1) - start))).
    set (t2 := set_world (sleep_ns d (world_of t1)) t1).
    destruct (IH t2 (foldl add_sample acc (samples_read r))) as (bs & t' & Hbs & El).
    { pose proof (sleeps d (world_of t1)). change (world_of t2) with (sleep_ns d (world_of t1)). lia. }
    exists (samples_read r :: bs), t'. split; [by eapply wr_next|].
    rewrite mjoin_cons, foldl_app, <- El. reflexivity.
Qed.

(** C34. A sampling window ends, after at most [record / every + 2] reads, and
    enqueues the reference means: of every variable read the sum of its values in
    the order of the reads over their number, stamped with the end of the window;
    failed reads count for nothing, and nothing is enqueued when nothing was
    read. *)
Theorem run_window_means fuel t :
  record ≤ Z.of_nat fuel * every →
  ∃ bs t1 out,
    window_reads (instant_ns (world_of t)) t bs t1 ∧
    (Z.of_nat (length (mjoin bs)) < 2 ^ 32 → out ≡ₚ means (os_now_ms (world_of t1)) (mjoin bs)) ∧
    run_window (S fuel) plugins conn ing record every t
    = (Some (Ok (Some ())), if decide (mjoin bs = []) then t1 else (enqueue ing out t1).2).
Proof.
  intros Hf. destruct (window_loop_reads fuel (instant_ns (world_of t)) t ∅) as (bs & t1 & Hbs & El).
  { unfold elapsed. lia. }
  exists bs, t1, (mean_sample (os_now_ms (world_of t1)) <$> map_to_list (foldl add_sample ∅ (mjoin bs))).
  split; [done|]. split; [apply means_spec|].
  unfold run_window, mbind at 1, HangE_bind at 1, now_instant, hang_gets. cbv beta iota.
  unfold mbind at 1, HangE_bind at 1. rewrite El. clear El.
  destruct (decide (mjoin bs = [])) as [->|Hne]; [by rewrite decide_True|].
  rewrite decide_False.
  - unfold mbind, HangE_bind, task_now_ms, hang_gets. cbv beta iota.
    destruct (enqueue _ _ _) as [o t2] eqn:E. assert (o = Some (Ok ())) as -> by
      (unfold enqueue in E; destruct (enqueue_with_origin _ _ _ _ _) as [[? ?] ?]; by injection E as <- <-). done.
  - destruct (mjoin bs) as [|s ss] eqn:Es; [done|]. intros E0.
    pose proof (add_samples_lookup (s :: ss) (point_id s)) as El. rewrite E0, lookup_empty in El.
    destruct (values_of (point_id s) (s :: ss)) eqn:Ev; [|done]. apply values_of_nil in Ev. apply Ev. set_solver.
Qed.
End Window.

(** ** A plugin whose reading follows the clock *)
Module WindowRun.
Definition answer (x : Z) : Tree :=
  TObj [("ok", TBool true); ("samples", TArr [TObj [("variable_id", TStr "t"); ("value", TInt x)]])].
#[local] Instance json : Json Tree :=
  tree_json (λ s, if decide (s = "a") then Some (answer 1) else if decide (s = "b") then Some (answer 4) else None).
#[local] Instance attrs_codec : AttrsCodec := {| attrs_to_string _ := Ok "{}"; attrs_from_str _ := Some ∅ |}.
#[local] Instance xml : PssXml := {| parse_values _ := None; parse_records _ := None;
  parse_devices_ids _ := None; parse_device_info _ := None |}.
#[local] Instance chrono : Chrono Z := {| parse_from_rfc3339 _ := None; to_rfc3339 _ := ""; year _ := 0; month _ := 0;
  day _ := 0; hour _ := 0; minute _ := 0; second _ := 0; with_ymd_and_hms _ _ _ _ _ _ := None |}.
(** The world is the monotonic clock. *)
#[local] Instance http : Http Z := {| http_client _ w := (Ok (), w); http_get _ _ _ w := (Err "no network", w); status_text _ := "" |}.
#[local] Instance net : ModbusNet Z := {| net_lookup _ _ w := (None, w); net_connect _ _ w := (None, w);
  net_read _ _ _ w := (None, w); net_write_single _ _ w := (None, w); net_write_multiple _ _ w := (None, w);
  net_write_coil _ _ w := (None, w) |}.
#[local] Instance processes : Procs Z := {|
  os_spawn _ w := (Ok 1, w);
  os_write _ _ w := (Ok (), w);
  os_next_line _ w := (Plugins.Eof, w);
  os_next_line_timeout _ _ w := (Some (Plugins.Line (if w =? 0 then "a" else "b")), w);
  os_kill _ w := w;
  os_now_ms w := w / 1000000;
|}.
#[local] Instance clock : Clock Z := {| instant_ns w := w; sleep_ns d w := w + d |}.

Definition plugins : PluginHost := mkPluginHost [mkPlugin "p" "/p" "/p/p" []] {["x" := 0%nat]}.
Definition conn : Conn Tree := mkConn "x" TNull TNull ∅.
Definition job : Job Tree := mkJob "i" "c" TNull 1 TNull TNull.
Definition start : Task Z := mkTask None (mkHost ∅ 0) (BufferDb_open empty_db 100) [] [].

Lemma reads_return t : ∃ r t', read_once plugins conn job t = (Some (Ok r), t') ∧
  instant_ns (world_of t) ≤ instant_ns (world_of t').
Proof.
  destruct t as [m [ps w] b f l].
  enough (∃ r ps', read_once plugins conn job (mkTask m (mkHost ps w) b f l) = (Some (Ok r), mkTask m (mkHost ps' w) b f l))
    as (r & ps' & E) by (exists r, (mkTask m (mkHost ps' w) b f l); split; [exact E|exact (Z.le_refl w)]).
  unfold read_once, hang_attempt, collect_once, collect_plugin. unfold mbind at 1, HangE_bind at 1, task_now_ms, hang_gets.
  rewrite !decide_False by done. change (for_type plugins (ds_type conn)) with (Some (0%nat, mkPlugin "p" "/p" "/p/p" [])).
  cbv beta iota.
  assert (∃ ps', Plugins.exchange 0 (mkPlugin "p" "/p" "/p/p" []) (read_request conn job) (mkHost ps w) =
    (Ok (if w =? 0 then "a" else "b"), mkHost ps' w)) as [ps' Ex].
  { unfold exchange, ensure_proc, mbind, HM_bind, get_proc. cbn [procs].
    destruct (ps !! 0%nat) as [pid|]; [by exists ps|by eexists]. }
  unfold mbind at 1, HangE_bind at 1, with_host, zoom, hang_total. cbn [t_host].
  unfold Plugins.read. unfold mbind at 1, HM_bind at 1. rewrite Ex. unfold mbind at 1, HM_bind at 1, lift_result.
  destruct (parse_with _ _ _) as [resp|e]; [|by eexists _, ps'].
  destruct (rr_ok resp); by eexists _, ps'.
Qed.

Definition window : option (result string (option ())) * Task Z :=
  run_window 3 plugins conn job 1000000000 1000000000 start.

(** The readings 1 and 4, at the beginning and at the end of the second. *)
Example window_mean : row_value <$> pending_samples (Buffer.conn (t_buf window.2)) = [f64_div (f64_of_Z 5) (f64_of_Z 2)].
Proof. vm_compute. reflexivity. Qed.

Lemma run_window_means_witness :
  ∃ bs t1 out, window_reads plugins conn job 1000000000 1000000000 0 start bs t1 ∧
    window = (Some (Ok (Some ())), if decide (mjoin bs = []) then t1 else (enqueue job out t1).2).
Proof.
  destruct (run_window_means plugins conn job 1000000000 1000000000 reads_return) with (fuel := 2%nat) (t := start)
    as (bs & t1 & out & Hw & _ & E).
  - intros d w Hd. apply Z.le_refl.
  - lia.
  - lia.
  - exists bs, t1, out. split; [exact Hw|exact E].
Defined.
End WindowRun.
