(* ===== verification/CollectorBuffer.v ===== *)
(** * The collector and the buffer

    Whatever a source answers, a task of the collector changes the buffer only by
    enqueueing, under its own connector, samples whose quality fits the column:
    what the streamer assumes of the other tasks. *)
From S2P Require Import Prelude Float Proto Buffer BufferLogic BufferInv BufferSpec BufferRefine BufferProps RustStr Json Jobs Plugins Modbus Pss Collector Ingest IngestProps.
Set Warnings "-register-all".
Local Open Scope Z_scope.

Section Only.
Context `{Json J} `{AttrsCodec} `{PssXml} {DT : Type} `{Chrono DT} {W : Type} `{Http W}.
Context `{ModbusNet W} `{Procs W} `{Clock W}.

Definition quality_ok (s : Sample) : Prop := is_u32 (quality s).

(** An enqueue of samples under a connector, successful or not, and what it put
    into the table. *)
Definition enqueued (connector : string) (samples : list Sample) (log : list (option string * Sample))
    (b b' : BufferDb) : Prop :=
  Forall quality_ok samples ∧
  ∃ now p r p', enqueue_with_origin now (Some connector) samples p b = (r, b', p') ∧
    log = accepted_of (Some connector) samples r.
Definition enqueued_by (connector : string) (log : list (option string * Sample)) (b b' : BufferDb) : Prop :=
  ∃ samples, enqueued connector samples log b b'.

(** The step the streamer allows the other tasks. *)
Lemma enqueued_step (origins : option string → Prop) connector log b b' :
  origins (Some connector) → enqueued_by connector log b b' → enqueue_step origins log b b'.
Proof.
  intros Ho (samples & Hq & now & p & r & p' & E & ->).
  exists now, (Some connector), samples, p, (match r with Ok _ => Ok None | Err e => Err e end).
  split; [done|]. split; [done|]. split; [|by destruct r].
  unfold step, exec_op, mbind, M_bind. rewrite E. by destruct r.
Qed.

(** ** Computations that only enqueue *)
Section Rules.
Context (connector : string).

(** The buffer and the history changed by enqueues of [connector] only. *)
Definition grown (t t' : Task W) : Prop := ∃ log,
  logged (enqueued_by connector) log (t_buf t) (t_buf t') ∧ t_accepted t' = t_accepted t ++ log.

Lemma grown_same t t' : t_buf t' = t_buf t → t_accepted t' = t_accepted t → grown t t'.
Proof. intros E El. exists []. rewrite E, El, app_nil_r. split; [apply logged_nil|done]. Qed.
#[local] Instance grown_preorder : PreOrder grown.
Proof.
  split; [intros t; by apply grown_same|].
  intros t1 t2 t3 (l1 & Hl1 & E1) (l2 & Hl2 & E2). exists (l1 ++ l2).
  split; [by eapply logged_app|by rewrite E2, E1, (assoc_L (++))].
Qed.

(** [m] changes the buffer by enqueues of [connector] only, and what it returns
    satisfies [P]. *)
Definition only {A} (m : CM (W := W) A) (P : A → Prop) : Prop := ∀ t,
  grown t (m t).2 ∧ ∀ a, (m t).1 = Some (Ok a) → P a.

Lemma only_mono {A} (m : CM A) (P Q : A → Prop) : only m P → (∀ a, P a → Q a) → only m Q.
Proof. intros Hm HPQ t. destruct (Hm t) as [? Ha]. split; [done|]. eauto. Qed.

Lemma only_ret {A} (a : A) (P : A → Prop) : P a → only (mret a) P.
Proof. intros Ha t. split; [done|]. by intros ? [= <-]. Qed.

Lemma only_bind {A B} (m : CM A) (k : A → CM B) P Q :
  only m P → (∀ a, P a → only (k a) Q) → only (m ≫= k) Q.
Proof.
  intros Hm Hk t. unfold mbind, HangE_bind. destruct (Hm t) as [Hb Ha].
  destruct (m t) as [[[a|e]|] t1]; simpl in *; [|by split..].
  destruct (Hk a (Ha a eq_refl) t1) as [Hb' Ha']. split; [by etrans|done].
Qed.

Lemma only_attempt {A} (m : CM A) P :
  only m P → only (hang_attempt m) (λ r, ∀ a, r = Ok a → P a).
Proof.
  intros Hm t. unfold hang_attempt. destruct (Hm t) as [Hb Ha].
  destruct (m t) as [[r|] t1]; simpl in *; (split; [done|]); [|done].
  intros r' [= <-] a ->. by apply Ha.
Qed.

(** A computation that leaves the buffer alone. *)
Lemma only_frame {A} (m : CM A) (P : A → Prop) :
  (∀ t, t_buf (m t).2 = t_buf t ∧ t_accepted (m t).2 = t_accepted t) →
  (∀ t a, (m t).1 = Some (Ok a) → P a) → only m P.
Proof. intros Hb HP t. destruct (Hb t). split; [by apply grown_same|apply HP]. Qed.

Lemma only_res {A} (r : result string A) : only (hang_res r) (λ _, True).
Proof. by apply only_frame. Qed.
Lemma only_gets {A} (f : Task W → A) : only (hang_gets f) (λ _, True).
Proof. by apply only_frame. Qed.
Lemma only_sleep ns : only (sleep ns) (λ _, True).
Proof. by apply only_frame. Qed.
Lemma only_set_modbus c : only (set_modbus c) (λ _, True).
Proof. by apply only_frame. Qed.
Lemma only_hang {A} : only (hang (A := A)) (λ _, True).
Proof. by apply only_frame. Qed.

Lemma only_host {A} (m : HM W A) (P : A → Prop) :
  (∀ h a, (m h).1 = Ok a → P a) → only (with_host m) P.
Proof.
  intros HP. apply only_frame; intros t; unfold with_host, zoom, hang_total.
  - by destruct (m (t_host t)).
  - specialize (HP (t_host t)). destruct (m (t_host t)) as [r h]. simpl in *. intros a [= ->]. by apply HP.
Qed.
Lemma only_http {A} (m : StE W A) : only (with_http m) (λ _, True).
Proof.
  apply only_frame; [|done]. intros t. unfold with_http, zoom, hang_total. by destruct (m (world_of t)).
Qed.
Lemma only_modbus {A} (m : MB W A) : only (with_modbus m) (λ _, True).
Proof.
  apply only_frame; [|done]. intros t. unfold with_modbus. destruct (t_modbus t) as [c|]; [|done].
  by destruct (m (c, world_of t)) as [r [c' w]].
Qed.

Lemma only_enqueue (ing : Job J) samples :
  connector_id ing = connector → Forall quality_ok samples → only (enqueue ing samples) (λ _, True).
Proof.
  intros Hc Hq t. split; [|done]. unfold enqueue.
  destruct (enqueue_with_origin _ _ _ _ _) as [[r b] p] eqn:E. simpl.
  exists (accepted_of (Some connector) samples r). split; [|by rewrite <- Hc].
  apply logged_once. exists samples. split; [done|].
  exists (os_now_ms (world_of t)), (t_faults t), r, p. rewrite <- Hc. by split.
Qed.
End Rules.

(** ** The samples a source gives *)

Lemma mapM_Forall {A B} (f : A → option B) (P : B → Prop) l k :
  mapM f l = Some k → (∀ x y, f x = Some y → P y) → Forall P k.
Proof. intros Hm%mapM_Some HP. induction Hm; constructor; eauto. Qed.

Lemma de_plugin_sample_quality now j s : de_plugin_sample j = Some s → quality_ok (sample_of now s).
Proof.
  unfold de_plugin_sample, quality_ok, sample_of. simpl. intros E.
  repeat (apply bind_Some in E as (? & ? & E)). injection E as <-. simpl.
  match goal with Hq : de_default None (de_option de_u32) _ = Some ?q |- _ => rename Hq into Hq0; rename q into q0 end.
  unfold de_default, de_option, de_u32 in Hq0. repeat case_match; simplify_eq/=; try (unfold is_u32; lia).
  apply fmap_Some in Hq0 as (n & Hn & ->). apply bind_Some in Hn as (n' & _ & Hn). case_decide; [|done]. by simplify_eq.
Qed.

Lemma de_read_resp_quality now line r e :
  parse_with de_read_resp e line = Ok r → Forall quality_ok (sample_of now <$> rr_samples r).
Proof.
  unfold parse_with, ok_or. destruct (from_str line ≫= de_read_resp) as [r'|] eqn:E; [|done]. intros [= ->].
  apply bind_Some in E as (j & _ & E). unfold de_read_resp in E.
  repeat (apply bind_Some in E as (? & ? & E)). injection E as <-. simpl. apply Forall_fmap.
  match goal with Hs : de_default [] (de_vec de_plugin_sample) _ = Some _ |- _ =>
    rename Hs into Hs0; unfold de_default, de_vec in Hs0 end.
  case_match; [|by simplify_eq]. apply bind_Some in Hs0 as (l & _ & Hl).
  eapply mapM_Forall; [exact Hl|]. intros j' s Hs. by eapply de_plugin_sample_quality.
Qed.

Lemma plugin_read_quality i p conn (ing : Job J) (h : Host W) samples :
  (Plugins.read i p conn ing h).1 = Ok samples → Forall quality_ok samples.
Proof.
  unfold Plugins.read. unfold mbind at 1, HM_bind at 1. destruct (exchange _ _ _ h) as [[line|e] h1]; [|done].
  unfold mbind at 1, HM_bind at 1, lift_result. destruct (parse_with _ _ _) as [resp|e] eqn:E; [|done].
  destruct (rr_ok resp); [|done]. intros [= <-]. by eapply de_read_resp_quality.
Qed.

Lemma stream_next_quality fuel pid (h : Host W) samples :
  (stream_next (J := J) fuel pid h).1 = Ok (Plugins.Batch samples) → Forall quality_ok samples.
Proof.
  revert h. induction fuel as [|fuel IH]; intros h; [done|]. cbn [stream_next].
  unfold mbind at 1, HM_bind at 1, with_os. destruct (os_next_line pid (os h)) as [l w].
  destruct l as [l| |e]; [|done..]. case_decide; [apply IH|].
  unfold mbind at 1, HM_bind at 1, lift_result. destruct (parse_with _ _ _) as [resp|e] eqn:E; [|done].
  destruct (rr_ok resp); simpl; [|done]. destruct (rr_samples resp) as [|s ss] eqn:Es; [apply IH|].
  intros [= <-]. pose proof (de_read_resp_quality (os_now_ms w) _ _ _ E) as Hq. by rewrite Es in Hq.
Qed.

Lemma scale_samples_quality tr samples : Forall quality_ok samples → Forall quality_ok (scale_sample (J := J) tr <$> samples).
Proof. intros Hs. by apply Forall_fmap. Qed.

Lemma register_samples_quality v ts tr regs : Forall quality_ok (register_samples (J := J) v ts tr regs).
Proof.
  apply Forall_lookup. intros i s Hs. unfold register_samples in Hs. apply list_lookup_imap_Some in Hs as (raw & _ & ->).
  unfold quality_ok, is_u32. simpl. lia.
Qed.

(** ** The task *)
Section Task.
Context (plugins : PluginHost) (conn : Conn J) (ing : Job J).

Ltac only_step := first
  [ apply only_res | apply only_gets | apply only_sleep | apply only_set_modbus | apply only_hang
  | apply only_http | apply only_modbus ].
Ltac only_bind := eapply only_bind; [only_step|intros ? _].

Lemma collect_once_only c : only c (collect_once plugins conn ing) (Forall quality_ok).
Proof.
  unfold collect_once. only_bind. case_decide; [|case_decide].
  - unfold collect_modbus. do 2 only_bind. eapply (only_bind _ _ _ (λ _, True)).
    { unfold ensure_modbus. only_bind. case_match; [by apply only_ret|]. case_match; only_step. }
    intros _ _. only_bind. apply only_ret, register_samples_quality.
  - unfold collect_pss. do 2 only_bind. apply only_ret, Forall_singleton. unfold quality_ok, is_u32. simpl. lia.
  - unfold collect_plugin. destruct (for_type plugins (ds_type conn)) as [[i p]|]; [|by apply only_frame].
    eapply only_bind; [apply (only_host _ _ (Forall quality_ok)); intros; by eapply plugin_read_quality|].
    intros samples Hs. by apply only_ret, scale_samples_quality.
Qed.

Abbreviation mine m := (only (connector_id ing) m (λ _, True)).

Lemma window_loop_only fuel start record every acc :
  mine (window_loop fuel plugins conn ing start record every acc).
Proof.
  revert acc. induction fuel as [|fuel IH]; intros acc; [by apply only_ret|]. cbn [window_loop].
  eapply only_bind; [apply only_attempt, collect_once_only|]. intros r _. only_bind.
  case_match; [by apply only_ret|]. only_bind. apply IH.
Qed.

Lemma mean_samples_quality ts (acc : gmap string (f64 * Z)) : Forall quality_ok (mean_sample ts <$> map_to_list acc).
Proof.
  apply Forall_fmap, Forall_true. intros [id [sum n]]. unfold quality_ok, is_u32. simpl. lia.
Qed.

Lemma run_window_only fuel record every : mine (run_window fuel plugins conn ing record every).
Proof.
  unfold run_window. only_bind. eapply only_bind; [apply window_loop_only|]. intros [acc|] _; [|by apply only_ret].
  case_decide; [by apply only_ret|]. only_bind.
  eapply only_bind; [apply only_enqueue; [done|apply mean_samples_quality]|]. intros _ _. by apply only_ret.
Qed.

Lemma poll_loop_only rounds fuel : mine (poll_loop rounds fuel plugins conn ing).
Proof.
  induction rounds as [|rounds IH]; [by apply only_ret|]. cbn [poll_loop]. destruct (oversampling ing) as [m|].
  - eapply only_bind; [apply run_window_only|]. intros [[]|] _; [apply IH|by apply only_ret].
  - eapply only_bind; [|intros _ _; apply IH]. unfold poll_cycle.
    eapply only_bind; [apply only_attempt, collect_once_only|]. intros r Hr.
    eapply (only_bind _ _ _ (λ _, True)); [|intros _ _; apply only_sleep].
    destruct r as [[|s ss]|e]; simpl; [by apply only_ret| |by apply only_ret]. apply only_enqueue; [done|by apply Hr].
Qed.

Lemma stream_loop_only fuel pid : mine (stream_loop fuel ing pid).
Proof.
  induction fuel as [|fuel IH]; [by apply only_ret|]. cbn [stream_loop].
  eapply only_bind.
  { apply only_attempt, (only_host _ _ (λ r, ∀ ss, r = Plugins.Batch ss → Forall quality_ok ss)).
    intros h r Hr ss ->. by eapply stream_next_quality. }
  intros r Hr. destruct r as [[ss| |]|e]; try by apply only_ret.
  eapply only_bind; [apply only_enqueue; [done|apply scale_samples_quality; by eapply Hr]|]. intros _ _. apply IH.
Qed.

Lemma run_stream_only rounds fuel p : mine (run_stream rounds fuel p conn ing).
Proof.
  induction rounds as [|rounds IH]; [by apply only_ret|]. cbn [run_stream].
  eapply only_bind; [apply only_attempt, (only_host _ _ (λ _, True)); done|]. intros [pid|e] _.
  - eapply only_bind; [apply stream_loop_only|]. intros [[]|] _; [|by apply only_ret].
    eapply only_bind; [by apply (only_host _ _ (λ _, True))|]. intros _ _. only_bind. apply IH.
  - only_bind. apply IH.
Qed.

Lemma run_ingest_only rounds fuel : mine (run_ingest rounds fuel plugins conn ing).
Proof.
  unfold run_ingest. destruct (if default false _ then _ else _) as [[i p]|]; [apply run_stream_only|apply poll_loop_only].
Qed.

(** C35. Whatever the devices, servers and plugins answer, and however long it
    runs, the task of an ingest changes the buffer only by enqueues under the
    ingest's connector, of samples whose quality is an unsigned 32-bit number:
    the steps the streamer's guarantee allows the other tasks. Its history is
    what the enqueues that returned put into the table, in order. *)
Theorem tasks_only_enqueue rounds fuel (t : Task W) :
  let t' := (run_ingest rounds fuel plugins conn ing t).2 in
  (∃ log, logged (enqueued_by (connector_id ing)) log (t_buf t) (t_buf t') ∧
     t_accepted t' = t_accepted t ++ log) ∧
  ∀ log b b', enqueued_by (connector_id ing) log b b' → enqueue_step (λ o, o = Some (connector_id ing)) log b b'.
Proof. split; [apply run_ingest_only|]. intros log b b' Hs. by eapply enqueued_step. Qed.
End Task.
End Only.
