(* ===== verification/S7Remote.v ===== *)
(** * From a PLC to a sample of the agent

    The S7 connector ([crates/plugin-s7/src/main.rs]) as the connector of an SDK
    process, and the path of a value: the memory of the PLC, the client's
    telegrams, the plugin's sample, the JSON line, the host's sample, the scale of
    the ingest ([src/collector.rs]). *)
From S2P Require Import Prelude Float Proto RustStr Json Wire Sdk S7Decode S7Client S7Safety S7Plc S7Sim S7Plugin S7PluginProps Jobs Plugins PluginsProps HostSdk Modbus Pss Buffer Collector.
Set Warnings "-register-all".
Local Open Scope Z_scope.

Section Connector.
Context `{Json J} {V : Type} `{Tcp V}.

(** A panic ends the process, which the SDK's loop does not see: it is an error
    here. No read panics ([s7_read_spec], [s7_poll_plc]). *)
Definition not_panicked {A} (r : option (result string A) * S7Plugin.State (W := V)) :
    result string A * S7Plugin.State (W := V) :=
  (default (Err "panicked") r.1, r.2).

#[export] Instance s7_collector : Sdk.Collector J (S7Plugin.State (W := V)) := {|
  c_read req s := not_panicked (S7Plugin.read req s);
  c_query := default_query (λ req s, not_panicked (S7Plugin.read req s));
  c_write := default_write;
  c_discover req s := not_panicked (S7Plugin.discover req s);
  c_subscribe := default_subscribe;
|}.
End Connector.

Section Collected.
Context `{JsonLaws J} `{!ScalarLaws J} `{!Wire J} `{!WireLaws J}.
Context {V : Type} `{Plc V}.
Context `{AttrsCodec} `{PssXml} {DT : Type} `{Chrono DT} {W : Type} `{Http W} `{ModbusNet W}.
Context `{Procs W} `{Clock W} `{Lockstep W} `{!LockstepOk} `{!SdkProcs J W (S7Plugin.State (W := V))}.

(** The agent's sample of a target. *)
Definition collected (m : Mem) (now : Z) (transform : J) (target : string * Selection) (x : Sample) : Prop :=
  ∃ v, value_at m target.2 = Ok v ∧ x = mkSample target.1 now (apply_scale (wire_f64 v) transform) 0 ∅.

Lemma sampled_ok m targets samples : Forall2 (sampled m) targets samples → Forall sample_ok samples.
Proof.
  induction 1 as [|t x ts xs (v & _ & ->)]; constructor; [|done].
  split; [by split|by intros ? [=]].
Qed.

Lemma sampled_collected m now transform targets samples :
  Forall2 (sampled m) targets samples →
  Forall2 (collected m now transform) targets (scale_sample transform <$> (sample_of now <$> (arrived <$> samples))).
Proof. induction 1 as [|t x ts xs (v & Hv & ->)]; [done|]. constructor; [by exists v|done]. Qed.

Lemma sampled_finite m targets samples :
  Forall2 (sampled m) targets samples →
  all_finite samples = true ↔ ∀ target v, target ∈ targets → value_at m target.2 = Ok v → is_finite v = true.
Proof.
  induction 1 as [|t x ts xs (v & Hv & ->) _ IH]; [split; [set_solver|done]|].
  change (all_finite (PluginSample_new t.1 v :: xs)) with (is_finite v && all_finite xs). rewrite andb_true_iff, IH. split.
  - intros [Hf Hts] target w [->|Hin]%elem_of_cons Hw; [congruence|by eapply Hts].
  - intros Hall. split; [by apply (Hall t v); [left|]|]. intros target w Hin. apply Hall. by right.
Qed.

(** C5. From the PLC to the agent: one collection of an S7 ingest, through the
    plugin's process and against a PLC that follows the protocol, gives one sample
    per point, in order, under the point's variable, with quality 0, whose value
    is the PLC's, scaled ([served]: the points lie in the PLC's memory, the Bool
    ones below byte 8192, where the client's 16-bit bit address does not wrap); unless a value is not finite, when the agent refuses the
    answer; or the exchange failed and the process is gone. The memory of the PLC
    and the other plugins are untouched. *)
Theorem s7_collected plugins i p (conn : Jobs.Conn J) (ing : Job J) host rack slot targets c s1 t :
  ds_type conn ≠ "modbus" → ds_type conn ≠ "pss" → for_type plugins (ds_type conn) = Some (i, p) →
  in_sync (t_host t) → (depth (Plugins.read_request conn ing) ≤ nesting_limit)%nat →
  read_plan (read_seen conn ing) = Ok (host, rack, slot, targets) →
  client_for host rack slot (state_before i p (t_host t)) = (Some (Ok c), s1) → ready_client c → plc_ready s1.2 →
  Forall (λ t, served s1.2 t.2) targets →
  let '(r, t') := collect_once plugins conn ing t in
  ∃ c' finite, plc_mem c'.2 = plc_mem s1.2 ∧
    (finite = true ↔ ∀ target v, target ∈ targets → value_at (plc_mem s1.2) target.2 = Ok v → is_finite v = true) ∧
    ∃ r', r = Some r' ∧ exchanged i (t_host t) (t_host t') c'
      (λ r, if finite
            then ∃ samples, r = Ok samples ∧
                   Forall2 (collected (plc_mem s1.2) (os_now_ms (os (t_host t'))) (transform ing)) targets samples
            else r = Err "plugin response not valid JSON") r'.
Proof.
  intros Hm Hp Hty Hs Hd Hplan Hcl Hc Hw Hserved.
  destruct (s7_poll_plc _ _ _ _ _ _ _ _ Hplan Hcl Hc Hw Hserved) as (samples & c' & w' & Er & Hall & _ & _ & Hmem).
  pose proof (read_served i p conn ing (t_host t) Hs Hd) as Hr. cbn [c_read s7_collector] in Hr.
  rewrite Er in Hr. cbn in Hr. specialize (Hr ltac:(intros ? [= <-]; by eapply sampled_ok)).
  unfold collect_once. unfold mbind at 1, HangE_bind at 1, task_now_ms, hang_gets. rewrite !decide_False by done.
  unfold collect_plugin. rewrite Hty. unfold mbind, HangE_bind, with_host, zoom, hang_total.
  pose proof (sampled_finite _ _ _ Hall) as Hfin.
  destruct (Plugins.read i p conn ing (t_host t)) as [r h'].
  pose proof (sampled_collected (plc_mem s1.2) (os_now_ms (os h')) (transform ing) _ _ Hall) as Hcol.
  destruct Hr as (Hs' & Hk & Hr).
  destruct r as [l|e]; exists (Some (S7Plugin.mkConn (host, rack, slot) c'), w'), (all_finite samples);
    (split; [done|split; [exact Hfin|]]); (eexists; split; [reflexivity|split_and!; [exact Hs'|exact Hk|]]);
    cbn [t_host set_t_host]; destruct (state_of i h') as [st|]; destruct Hr as [? Hr]; try done; try (by eexists);
    (split; [done|]); unfold read_result in Hr; destruct (all_finite samples); try done.
  - injection Hr as ->. by eexists.
Qed.
End Collected.

(** ** A PLC, a plugin process and an ingest *)
Module S7RemoteRun.
Import TreeWire Pipes PollRun Quiet.
Abbreviation S := (S7Plugin.State (W := Sim)).
Abbreviation W := (World (C := S)).

(** The plugin starts without a session; the simulated PLC is on its network. *)
Definition start (p : Plugin) : S := (None, Run.w0).
#[local] Instance procs_ : Procs W := procs start.
#[local] Instance lockstep_ : Lockstep W := lockstep start.
#[local] Instance lockstep_ok_ : LockstepOk (W := W) := lockstep_ok start.
#[local] Instance sdk_ : SdkProcs Tree W S := sdk_procs start.

Definition p1 : Plugin := mkPlugin "s7" "/p/s7" "/p/s7/s7" [].
Definition plugins : PluginHost := mkPluginHost [p1] {["s7" := 0%nat]}.
Definition conn1 : Jobs.Conn Tree := Jobs.mkConn "s7" (TObj [("host", TStr "plc"); ("family", TStr "S7-1500")]) TNull ∅.
Definition ing1 : Job Tree :=
  mkJob "i1" "c1" selection 1 (TObj [("variable_id", TStr "speed")]) (TObj [("offset", TInt 100)]).
Definition task : Task W := mkTask None (mkHost ∅ (mkWorld ∅ 0 [] 5)) (BufferDb_open empty_db 100) [] [].

Lemma task_sync : in_sync (t_host task).
Proof. split; intros *; simpl; by rewrite lookup_empty. Qed.

(** Bytes 10 and 11 of the DB hold 10 and 11: 2571. *)
Lemma s7_collected_witness :
  (collect_once plugins conn1 ing1 task).1 = Some (Ok [mkSample "speed" 5 (f64_of_Z 2671) 0 ∅]) ∧
  ∃ c', exchanged 0 (t_host task) (t_host (collect_once plugins conn1 ing1 task).2) c' (λ _, True)
          (Ok [mkSample "speed" 5 (f64_of_Z 2671) 0 ∅]) ∧
    plc_mem c'.2 = plc_mem Run.w0.
Proof.
  assert ((collect_once plugins conn1 ing1 task).1 = Some (Ok [mkSample "speed" 5 (f64_of_Z 2671) 0 ∅])) as E
    by (vm_compute; reflexivity).
  split; [exact E|].
  pose proof (s7_collected (V := Sim) plugins 0 p1 conn1 ing1 "plc" 0 1 [("speed", target)] fresh_client
    (Some (S7Plugin.mkConn ("plc", 0, 1) fresh_client), Run.w0) task) as H.
  specialize (H ltac:(done) ltac:(done) ltac:(reflexivity) task_sync ltac:(apply Nat.leb_le; vm_compute; reflexivity)
    ltac:(vm_compute; reflexivity) ltac:(vm_compute; reflexivity) ltac:(vm_compute; repeat split; discriminate) Run.w0_ready).
  assert (served Run.w0 target) as Ht by (split; [by apply Run.has_ok|done]).
  specialize (H ltac:(apply Forall_cons_2; [exact Ht|apply Forall_nil_2])).
  destruct (collect_once plugins conn1 ing1 task) as [r t']. simpl in E. subst r.
  destruct H as (c' & finite & Hmem & _ & r' & [= <-] & Hs & Hk & Hr).
  exists c'. split; [|exact Hmem]. split; [exact Hs|split; [exact Hk|]]. simpl.
  destruct (state_of 0 (t_host t')) as [c2|]; [|exact Hr]. exact (conj (proj1 Hr) I).
Defined.
End S7RemoteRun.
