(* ===== verification/Stream.v ===== *)
(** * Subscriptions, from the connector to the buffer

    A subscription has a process of its own ([open_stream] of [src/plugins.rs]):
    the SDK's loop writes one line per batch the connector emits and a final line,
    the collector's stream task ([run_stream] of [src/collector.rs]) reads them
    and enqueues. *)
From S2P Require Import Prelude Float Proto RustStr Json Wire Sdk Jobs Plugins PluginsProps HostSdk Modbus Pss Buffer Collector.
Set Warnings "-register-all".
Local Open Scope Z_scope.

(** ** What the process of a subscription writes *)

(** Reading the lines of process [pid] from now on gives [ls], and then the end
    of the stream or an error: the process has ended, or was killed. *)
Inductive feeds {W : Type} `{Procs W} (pid : Z) : list string → W → Prop :=
| feeds_end w w' : os_next_line pid w = (Eof, w') → feeds pid [] w
| feeds_fail w e w' : os_next_line pid w = (ReadFailed e, w') → feeds pid [] w
| feeds_line l ls w w' : os_next_line pid w = (Line l, w') → feeds pid ls w' → feeds pid (l :: ls) w.

(** A new process that is written one subscribe request runs the SDK's loop on
    it; what can be read of its lines is a beginning of them (a line is read
    whole). *)
Class StreamProcs (J W C : Type) `{Json J} `{!Sdk.Collector J C} `{Procs W} := {
  stream_start : Plugin → C;
  subscribe_feeds : ∀ p line w pid w1 w2,
    os_spawn p w = (Ok pid, w1) → os_write pid (line +:+ newline) w1 = (Ok (), w2) →
    one_line line → blank line = false →
    ∃ ls, ls `prefix_of` (to_string (J := J) <$> (Sdk.run_ok [line] (stream_start p)).1) ∧ feeds pid ls w2;
}.

Section Streams.
Context `{JsonLaws J} `{!ScalarLaws J} `{!Wire J} `{!WireLaws J}.
Context `{AttrsCodec} `{PssXml} {DT : Type} `{Chrono DT} {W : Type} `{Http W} `{ModbusNet W}.
Context `{Procs W} `{Clock W} {C : Type} `{!Sdk.Collector J C} `{!StreamProcs J W C}.
Implicit Types (bs : list (list Sdk.PluginSample)).

Definition batch_line (b : list Sdk.PluginSample) : string :=
  to_string (ok_with [("samples", j_array (sample_json <$> b))]).
Definition final_line (res : result string ()) : string :=
  to_string (match res with Ok _ => ok_with [] | Err e => err_with e end).

(** What the agent gets of the batches: empty ones are skipped, and one with a
    value that is not finite ends the stream. *)
Fixpoint arrivals bs : list (list Sdk.PluginSample) :=
  match bs with
  | [] => []
  | b :: bs => if all_finite b then (if decide (b = []) then arrivals bs else b :: arrivals bs) else []
  end.

(** The buffer after each batch was enqueued, in order, whatever SQLite did. *)
Inductive enqueues (ing : Job J) : list (list Sdk.PluginSample) → BufferDb * Faults → BufferDb * Faults → Prop :=
| enqueues_nil s : enqueues ing [] s s
| enqueues_cons b bs now r s s1 s2 :
    enqueue_with_origin now (Some (connector_id ing))
      (scale_sample (transform ing) <$> (sample_of now <$> (arrived <$> b))) s.2 s.1 = (r, s1.1, s1.2) →
    enqueues ing bs s1 s2 → enqueues ing (b :: bs) s s2.

(** ** One [next] *)

(** The lines still to come: those of the batches [bs], then perhaps the final one. *)
Definition to_come bs (res : option (result string ())) : list string :=
  (batch_line <$> bs) ++ option_list (final_line <$> res).

Lemma next_batch fuel pid bs res h :
  Forall (Forall sample_ok) bs → feeds pid (to_come bs res) (os h) → (length bs + 1 < fuel)%nat →
  let '(r, h') := stream_next (J := J) fuel pid h in
  (∃ b bs', r = Ok (Batch (sample_of (os_now_ms (os h')) <$> (arrived <$> b))) ∧
     arrivals bs = b :: arrivals bs' ∧ (length bs' < length bs)%nat ∧ Forall (Forall sample_ok) bs' ∧
     feeds pid (to_come bs' res) (os h')) ∨
  (arrivals bs = [] ∧ (r = Ok Closed ∨ ∃ e, r = Err e)).
Proof.
  revert fuel h. induction bs as [|b bs IH]; intros fuel h Hok Hf Hfuel.
  - assert (∀ r h', (r = Ok Closed ∨ ∃ e, r = Err e) →
      let '(r, h') := ((r, h') : result string Pushed * Host W) in
      (∃ b bs', r = Ok (Batch (sample_of (os_now_ms (os h')) <$> (arrived <$> b))) ∧
         arrivals [] = b :: arrivals bs' ∧ (length bs' < 0)%nat ∧ Forall (Forall sample_ok) bs' ∧
         feeds pid (to_come bs' res) (os h')) ∨
      (arrivals [] = [] ∧ (r = Ok Closed ∨ ∃ e, r = Err e))) as Hend by (intros r h' Hr; by right).
    destruct fuel as [|fuel]; [simpl in Hfuel; lia|]. destruct fuel as [|fuel]; [simpl in Hfuel; lia|].
    destruct res as [[[]|e]|]; simpl in Hf; inversion Hf as [w w' E|w e' w' E|l ls w w' E Hf' El]; subst;
      cbn [stream_next]; unfold mbind at 1, HM_bind at 1, with_os at 1; rewrite E;
      try (apply Hend; by left); try (apply Hend; right; by eexists).
    + rewrite decide_False by apply print_not_blank. unfold mbind at 1, HM_bind at 1, lift_result, final_line.
      rewrite read_done_arrives. simpl. inversion Hf' as [w2 w2' E2|w2 e2 w2' E2|]; subst;
        unfold mbind at 1, HM_bind at 1, with_os at 1; simpl; rewrite E2; apply Hend; [by left|right; by eexists].
    + rewrite decide_False by apply print_not_blank. unfold mbind at 1, HM_bind at 1, lift_result, final_line.
      rewrite read_error_arrives. apply Hend. right. by eexists.
  - destruct fuel as [|fuel]; [simpl in Hfuel; lia|]. apply Forall_cons in Hok as [Hb Hok]. simpl in Hf, Hfuel.
    inversion Hf as [w w' E|w e' w' E|l ls w w' E Hf' El]; subst. cbn [stream_next].
    unfold mbind at 1, HM_bind at 1, with_os at 1. rewrite E.
    rewrite decide_False by apply print_not_blank. unfold mbind at 1, HM_bind at 1, lift_result, batch_line.
    rewrite read_arrives by done. cbn [arrivals]. destruct (all_finite b); [|right; split; [done|right; by eexists]].
    simpl. destruct b as [|x b].
    + specialize (IH fuel (mkHost (procs h) w') Hok Hf' ltac:(lia)). rewrite decide_True by done. simpl.
      destruct (stream_next fuel pid _) as [r h']. destruct IH as [(b' & bs' & -> & -> & Hl & Hr)|IH]; [left|by right].
      exists b', bs'. split_and!; [done|done|lia|apply Hr..].
    + rewrite decide_False by done. left. exists (x :: b), bs. by split_and!; [done|done|simpl; lia|..].
Qed.

(** ** The stream task *)

Lemma stream_loop_collects ing pid fuel bs res t :
  Forall (Forall sample_ok) bs → feeds pid (to_come bs res) (world_of t) → (length bs + 1 < fuel)%nat →
  let '(r, t') := stream_loop (J := J) fuel ing pid t in
  r = Some (Ok (Some ())) ∧ enqueues ing (arrivals bs) (t_buf t, t_faults t) (t_buf t', t_faults t').
Proof.
  revert bs t. induction fuel as [|fuel IH]; intros bs t Hok Hf Hfuel; [lia|]. cbn [stream_loop].
  unfold mbind at 1, HangE_bind at 1, hang_attempt, with_host at 1, zoom, hang_total.
  pose proof (next_batch (S fuel) pid bs res (t_host t) Hok Hf Hfuel) as Hn.
  destruct (stream_next (S fuel) pid (t_host t)) as [r h'].
  destruct Hn as [(b & bs' & -> & Ha & Hl & Hok' & Hf')|[-> Hr]].
  - rewrite Ha. unfold mbind at 1, HangE_bind at 1, enqueue. cbn [t_buf t_faults set_t_host t_host world_of].
    destruct (enqueue_with_origin _ _ _ _ _) as [[re b1] p1] eqn:Ee.
    specialize (IH bs' (mkTask (t_modbus t) h' b1 p1 (t_accepted t ++ accepted_of (Some (connector_id ing)) (scale_sample (transform ing) <$> (sample_of (os_now_ms (os h')) <$> (arrived <$> b))) re)) Hok' Hf' ltac:(lia)).
    simpl. destruct (stream_loop fuel ing pid _) as [r t']. destruct IH as [-> IH]. split; [done|].
    by eapply enqueues_cons; [|exact IH].
  - destruct Hr as [->|[e ->]]; by split; [|constructor].
Qed.
(** ** From the connector *)

Lemma lines_prefix ls bs res :
  ls `prefix_of` (batch_line <$> bs) ++ [final_line res] →
  ∃ seen r, seen `prefix_of` bs ∧ ls = to_come seen r.
Proof.
  unfold to_come. revert ls. induction bs as [|b bs IH]; intros ls Hp; simpl in Hp.
  - destruct ls as [|l ls]; [by exists [], None|]. exists [], (Some res).
    pose proof (prefix_cons_inv_1 _ _ _ _ Hp) as ->. apply prefix_cons_inv_2, prefix_nil_inv in Hp as ->. done.
  - destruct ls as [|l ls]; [exists [], None; split; [apply prefix_nil|done]|].
    pose proof (prefix_cons_inv_1 _ _ _ _ Hp) as ->. apply prefix_cons_inv_2 in Hp.
    destruct (IH ls Hp) as (seen & r & Hs & ->). exists (b :: seen), r. split; [by apply prefix_cons|done].
Qed.

Lemma subscribe_line conn ing (c : C) :
  (depth (subscribe_request conn ing) ≤ nesting_limit)%nat →
  let '(batches, res, _) := c_subscribe (subscribe_seen conn ing) c in
  to_string <$> (Sdk.run_ok [to_string (subscribe_request conn ing)] c).1 = (batch_line <$> batches) ++ [final_line res].
Proof.
  intros Hd. unfold Sdk.run_ok, Sdk.run. simpl. rewrite decide_False by apply print_not_blank.
  assert (parse_request (to_string (subscribe_request conn ing)) = Ok (subscribe_seen conn ing)) as ->.
  { pose proof (subscribe_request_seen conn ing) as Hs. apply fmap_Some in Hs as (rq & Hde & Hrq).
    unfold parse_request. rewrite parse_print, decide_True by done. simpl. by rewrite Hde, <- Hrq. }
  rewrite decide_True by done. unfold sdk_stream. destruct (c_subscribe _ c) as [[batches res] c'].
  simpl. rewrite app_nil_r, fmap_app, <- list_fmap_compose. by destruct res.
Qed.

(** What an opened stream will read. *)
Lemma open_feeds p (conn : Conn J) (ing : Job J) h pid h1 :
  open_stream p conn ing h = (Ok pid, h1) → (depth (subscribe_request conn ing) ≤ nesting_limit)%nat →
  let '(batches, _, _) := c_subscribe (subscribe_seen conn ing) (stream_start p) in
  ∃ seen r, seen `prefix_of` batches ∧ feeds pid (to_come seen r) (os h1).
Proof.
  intros Ho Hd. pose proof (subscribe_line conn ing (stream_start p) Hd) as Hl.
  destruct (c_subscribe _ _) as [[batches res] c'].
  assert (∃ ls, ls `prefix_of` (batch_line <$> batches) ++ [final_line res] ∧ feeds pid ls (os h1)) as (ls & Hp & Hf).
  { revert Ho. unfold open_stream, mbind, HM_bind, with_os. destruct (os_spawn p (os h)) as [[q|e] w1] eqn:Es; [|done].
    cbn [os procs]. destruct (os_write q _ w1) as [[[]|e] w2] eqn:Ew; [|done]. intros [= <- <-]. rewrite <- Hl.
    apply (subscribe_feeds p _ _ q w1 w2 Es Ew); [apply print_one_line|apply bool_decide_eq_false_2, print_not_blank]. }
  apply lines_prefix in Hp as (seen & r & Hseen & ->). by exists seen, r.
Qed.

(** C28. A subscription delivers in order: once a process of its own was opened,
    the stream task enqueues what the connector emits to the request as it
    arrives, batch by batch, in order and none twice, scaled and under the
    connector of the ingest; empty batches are skipped, and it ends, without
    having missed a batch before, when the process ends or fails, or at the first
    batch that holds a value that is not finite. *)
Theorem subscription_in_order p (conn : Conn J) (ing : Job J) t pid h1 fuel :
  open_stream p conn ing (t_host t) = (Ok pid, h1) → (depth (subscribe_request conn ing) ≤ nesting_limit)%nat →
  let '(batches, res, _) := c_subscribe (subscribe_seen conn ing) (stream_start p) in
  Forall (Forall sample_ok) batches → (length batches + 1 < fuel)%nat →
  let '(r, t') := stream_loop (J := J) fuel ing pid (set_t_host h1 t) in
  r = Some (Ok (Some ())) ∧
  ∃ seen, seen `prefix_of` batches ∧ enqueues ing (arrivals seen) (t_buf t, t_faults t) (t_buf t', t_faults t').
Proof.
  intros Ho Hd. pose proof (open_feeds p conn ing (t_host t) pid h1 Ho Hd) as Hfeeds.
  destruct (c_subscribe _ _) as [[batches res] c']. intros Hok Hfuel. destruct Hfeeds as (seen & r & Hseen & Hf).
  pose proof (stream_loop_collects ing pid fuel seen r (set_t_host h1 t)) as Hloop.
  pose proof (prefix_length _ _ Hseen) as Hlen. assert (Forall (Forall sample_ok) seen) as Hok'.
  { destruct Hseen as [rest ->]. by apply Forall_app in Hok as [? _]. }
  specialize (Hloop Hok' Hf ltac:(lia)).
  destruct (stream_loop fuel ing pid _) as [r' t']. destruct Hloop as [-> He]. split; [done|]. by exists seen.
Qed.
End Streams.

(** ** A subscription behind a pipe *)
Module StreamRun.
Import TreeWire Pipes Quiet.

Section Feeds.
Context `{Json J} {C : Type} `{!Sdk.Collector J C} (start : Plugin → C).
#[local] Instance procs_ : Procs (World (C := C)) := procs start.

Lemma pipe_feeds pid w : ∃ ls, ls `prefix_of` pi_out (at_pid start pid w) ∧ feeds pid ls w.
Proof.
  remember (pi_out (at_pid start pid w)) as out eqn:Eo. revert w Eo. induction out as [|l out IH]; intros w Eo.
  all: destruct (fails w) as [bad w1] eqn:Ef.
  all: assert (at_pid start pid w1 = at_pid start pid w) as Hat by (unfold fails in Ef; by injection Ef as _ <-).
  all: assert (os_next_line pid w = let '(l, w) := read_pipe start pid w in (default Eof l, w)) as E by done.
  all: unfold read_pipe in E; rewrite Ef, Hat, <- Eo in E; destruct bad.
  1,3: exists []; split; [apply prefix_nil|by eapply feeds_fail].
  - exists []. split; [done|by eapply feeds_end].
  - destruct (IH (put pid (mkPipe (pi_state (at_pid start pid w)) out) w1)) as (ls & Hp & Hf); [by rewrite at_put|].
    exists (l :: ls). split; [by apply prefix_cons|]. by eapply feeds_line.
Qed.

#[export] Instance stream_procs : StreamProcs J (World (C := C)) C.
Proof.
  refine {| stream_start := start |}. intros p line w pid w1 w2 Es Ew Hone Hb.
  destruct (pipe_feeds pid w2) as (ls & Hp & Hf). exists ls. split; [|exact Hf].
  enough (pi_out (at_pid start pid w2) = to_string <$> (Sdk.run_ok (J := J) [line] (start p)).1) as <- by done.
  simpl in Es, Ew. unfold spawn_pipe in Es. destruct (fails w) as [bad v] eqn:Ef. destruct bad; [done|]. injection Es as <- <-.
  unfold write_pipe in Ew. set (v1 := mkWorld _ _ _ _) in Ew.
  assert (at_pid start (Z.of_nat (next_pid v)) v1 = mkPipe (start p) []) as Hat
    by (unfold at_pid, v1; simpl; by rewrite lookup_insert_eq).
  destruct (fails v1) as [bad v2] eqn:Ef1. assert (at_pid start (Z.of_nat (next_pid v)) v2 = mkPipe (start p) []) as Hat2
    by (rewrite <- Hat; unfold fails in Ef1; by injection Ef1 as _ <-).
  destruct bad; [done|]. rewrite Hat2, lines_line in Ew by done. simpl in Ew.
  destruct (Sdk.run_ok [line] (start p)) as [out c]. injection Ew as <-. by rewrite at_put.
Defined.
End Feeds.

(** It emits one reading, an empty batch, two readings, and then a batch that holds
    a NaN. *)
Definition reading (n : Z) : Sdk.PluginSample := Sdk.PluginSample_new "t" (f64_of_Z n).
Definition emitted : list (list Sdk.PluginSample) :=
  [[reading 1]; []; [reading 2; reading 3]; [Sdk.PluginSample_new "t" (f64_div f64_zero f64_zero)]; [reading 4]].
#[local] Instance pushing : Sdk.Collector Tree Z := {|
  c_read := λ _ n, (Err "no polls", n);
  c_query := λ _ n, (Err "no queries", n);
  c_write := default_write;
  c_discover := default_discover;
  c_subscribe _ n := (emitted, Ok (), n);
|}.
Abbreviation W := (World (C := Z)).
Definition start (p : Plugin) : Z := 0.
#[local] Instance procs0 : Procs W := procs start.
#[local] Instance stream0 : StreamProcs Tree W Z := stream_procs start.

Definition p1 : Plugin := mkPlugin "push" "/p/push" "/p/push/push" [].
Definition conn1 : Conn Tree := mkConn "push" TNull TNull ∅.
Definition ing1 : Job Tree := mkJob "i1" "c1" (TObj [("subscribe", TBool true)]) 1 TNull (TObj [("scale", TInt 10)]).
Definition task : Task W := mkTask None (mkHost ∅ (mkWorld ∅ 0 [] 5)) (BufferDb_open empty_db 100) [] [].
Definition opened := open_stream p1 conn1 ing1 (t_host task).
Definition collected := (stream_loop 7 ing1 0 (set_t_host opened.2 task)).2.

Lemma emitted_ok : Forall (Forall sample_ok) emitted.
Proof.
  assert (∀ x, sample_ok (Sdk.PluginSample_new "t" x)) as Hs by (intros x; split; [by split|by intros ? [=]]).
  repeat (apply Forall_cons_2; [repeat (apply Forall_cons_2; [apply Hs|]); apply Forall_nil_2|]). apply Forall_nil_2.
Qed.

Lemma subscription_in_order_witness :
  row_value <$> pending_samples (Buffer.conn (t_buf collected)) = f64_of_Z <$> [10; 20; 30] ∧
  ∃ seen, seen `prefix_of` emitted ∧
    enqueues ing1 (arrivals seen) (t_buf task, t_faults task) (t_buf collected, t_faults collected).
Proof.
  split; [vm_compute; reflexivity|].
  pose proof (subscription_in_order p1 conn1 ing1 task 0 opened.2 7) as H. cbn [c_subscribe pushing] in H.
  specialize (H ltac:(vm_compute; reflexivity) ltac:(apply Nat.leb_le; vm_compute; reflexivity) emitted_ok
    ltac:(apply Nat.ltb_lt; vm_compute; reflexivity)).
  unfold collected. destruct (stream_loop _ _ _ _) as [r t']. exact (proj2 H).
Defined.
End StreamRun.
