(* ===== verification/System.v ===== *)
(** * The agent at work: the collector, the buffer and the streamer

    The streamer's environment with the agent's own collector in it: while the
    streamer waits, the tasks of the collector take turns on the shared buffer
    (and the configuration may replace them), the network does what it likes, and
    the process may be killed. What the streamer assumes of the other tasks is
    then what the collector does, and the delivery guarantee is a theorem about
    the whole: over the history of what the collector put into the buffer. *)
From S2P Require Import Prelude Float Proto Buffer BufferLogic BufferInv BufferSpec BufferRefine BufferProps RustStr Json Jobs Plugins Modbus Pss Collector CollectorProps CollectorBuffer Ingest IngestProps IngestOnce.
Set Warnings "-register-all".
Local Open Scope Z_scope.

(** ** The agent's other tasks *)

(** What one turn does: a collect task runs for a while, a configuration arrives,
    or the process has been started anew. *)
Inductive Turn (J : Type) :=
| Collect (task rounds fuel : nat)
| Configure (connectors : list (string * Conn J)) (ingests : list (Job J))
| Reboot.
Arguments Collect {J} _ _ _.
Arguments Configure {J} _ _.
Arguments Reboot {J}.

(** The collector's tasks, the Modbus client of each, the plugin processes with
    the devices, and the turns to come: those of each wait of the streamer. The
    history is that of the tasks: what their enqueues put into the buffer. *)
Record Agent (J T : Type) := mkAgent {
  ag_tasks : Tasks J;
  ag_modbus : gmap nat ModbusClient;
  ag_host : Host T;
  ag_turns : list (list (Turn J));
  ag_accepted : list (option string * Sample);
}.
Arguments mkAgent {J T} _ _ _ _ _.
Arguments ag_tasks {J T} _.
Arguments ag_modbus {J T} _.
Arguments ag_host {J T} _.
Arguments ag_turns {J T} _.
Arguments ag_accepted {J T} _.

Section System.
Context `{Json J} `{AttrsCodec} `{PssXml} {DT : Type} `{Chrono DT} {T : Type} `{Http T}.
Context `{ModbusNet T} `{Procs T} `{Clock T}.
Context (plugins : PluginHost).

(** Task [k] runs [rounds] rounds of its loop. *)
Definition collect_turn (k rounds fuel : nat) (a : Agent J T) (b : BufferDb) (p : Faults) :
    Agent J T * BufferDb * Faults :=
  match tk_running (ag_tasks a) !! k with
  | None => (a, b, p)
  | Some (conn, ing) =>
      let '(_, t) := run_ingest rounds fuel plugins conn ing (mkTask (ag_modbus a !! k) (ag_host a) b p (ag_accepted a)) in
      (mkAgent (ag_tasks a) (partial_alter (λ _, t_modbus t) k (ag_modbus a)) (t_host t) (ag_turns a) (t_accepted t),
       t_buf t, t_faults t)
  end.

Definition take_turn (s : Agent J T * BufferDb * Faults) (u : Turn J) : Agent J T * BufferDb * Faults :=
  let '(a, b, p) := s in
  match u with
  | Collect k rounds fuel => collect_turn k rounds fuel a b p
  | Configure connectors ingests =>
      (mkAgent (reconfigure connectors ingests (ag_tasks a)).2 (ag_modbus a) (ag_host a) (ag_turns a) (ag_accepted a), b, p)
  | Reboot => (mkAgent (mkTasks ∅ ∅ 0) ∅ (mkHost ∅ (os (ag_host a))) (ag_turns a) (ag_accepted a), b, p)
  end.

Definition pop_turns (a : Agent J T) : Agent J T :=
  mkAgent (ag_tasks a) (ag_modbus a) (ag_host a) (tail (ag_turns a)) (ag_accepted a).

(** What happens to the buffer while the streamer waits. *)
Definition agent_turns (a : Agent J T) (b : BufferDb) (p : Faults) : Agent J T * BufferDb * Faults :=
  foldl take_turn (pop_turns a, b, p) (default [] (head (ag_turns a))).

(** ** The streamer's environment *)
Context {N : Type} `{IngestEnv N}.

Definition on_net {A} (f : N → A * N) (w : N * Agent J T) : A * (N * Agent J T) :=
  let '(a, n) := f w.1 in (a, (n, w.2)).

Definition agent_others (w : N * Agent J T) (b : BufferDb) (p : Faults) :
    bool * BufferDb * Faults * (N * Agent J T) :=
  let '(alive, b, p, n) := others w.1 b p in
  let '(a, b, p) := agent_turns w.2 b p in
  (alive, b, p, (n, a)).

#[export] Instance agent_env : IngestEnv (N * Agent J T) := {|
  others := agent_others;
  from_shared_ok := from_shared_ok (W := N);
  metadata_ok := metadata_ok (W := N);
  tls_config_ok w := tls_config_ok w.1;
  connect tls := on_net (connect tls);
  stream_samples := on_net stream_samples;
  push sb := on_net (push sb);
  message := on_net message;
  sleep_ms ms w := (sleep_ms ms w.1, w.2);
  epoch_ms w := epoch_ms w.1;
  ulid_new := on_net ulid_new;
|}.

#[export] Instance agent_view `{IngestView N} : IngestView (N * Agent J T) := {|
  stored_batches w := stored_batches w.1;
  outstanding w := outstanding w.1;
  rejections w := rejections w.1;
  drawn w := drawn w.1;
  accepted w := ag_accepted w.2;
|}.

(** ** The collector keeps the streamer's assumption *)

(** The buffer changed by the enqueues that [a'] adds to the history of [a]. *)
Definition grown_to (a : Agent J T) (b : BufferDb) (s : Agent J T * BufferDb * Faults) : Prop :=
  ∃ log, logged (enqueue_step is_Some) log b s.1.2 ∧ ag_accepted s.1.1 = ag_accepted a ++ log.

Lemma grown_to_same a b s : s.1.2 = b → ag_accepted s.1.1 = ag_accepted a → grown_to a b s.
Proof. intros E Ea. exists []. rewrite E, Ea, app_nil_r. split; [apply logged_nil|done]. Qed.

Lemma collect_turn_enqueues k rounds fuel a b p : grown_to a b (collect_turn k rounds fuel a b p).
Proof.
  unfold collect_turn. destruct (tk_running (ag_tasks a) !! k) as [[conn ing]|]; [|by apply grown_to_same].
  pose proof (run_ingest_only plugins conn ing rounds fuel (mkTask (ag_modbus a !! k) (ag_host a) b p (ag_accepted a)))
    as [(log & Hb & Ha) _].
  destruct (run_ingest _ _ _ _ _ _) as [r t]. exists log. split; [|done]. simpl in *.
  eapply logged_mono; [|exact Hb]. intros l b1 b2. apply enqueued_step. by eexists.
Qed.

Lemma agent_turns_enqueue a b p : grown_to a b (agent_turns a b p).
Proof.
  unfold agent_turns. change (ag_accepted a) with (ag_accepted (pop_turns a)).
  assert (∀ us a0 b p, grown_to a0 b (foldl take_turn (a0, b, p) us)) as Hus; [|apply (Hus _ (pop_turns a))].
  clear a b p. intros us. induction us as [|u us IH]; intros a b p; [by apply grown_to_same|]. cbn [foldl].
  assert (grown_to a b (take_turn (a, b, p) u)) as (l1 & Hl1 & E1).
  { destruct u; [apply collect_turn_enqueues|by apply grown_to_same..]. }
  destruct (take_turn (a, b, p) u) as [[a1 b1] p1]. simpl in *. destruct (IH a1 b1 p1) as (l2 & Hl2 & E2).
  exists (l1 ++ l2). split; [by eapply logged_app|by rewrite E2, E1, (assoc_L (++))].
Qed.

(** ** The whole agent *)
Context `{!AttrsCodecOk} `{AckCodec} `{IngestView N} `{!IngestOk (W := N)}.
Context (net_others : ∀ (n : N) b p, ∃ alive n', others n b p = (alive, b, p, n')).

(** The network's progress, next to the history of the agent. *)
Lemma net_step pushed l log (n n' : N) (a a' : Agent J T) :
  srv_step pushed l n n' → ag_accepted a' = ag_accepted a ++ log →
  srv_step (W := N * Agent J T) pushed log (n, a) (n', a').
Proof. intros (new & ? & ? & ? & ? & ? & ? & _) Ha. exists new. by split_and!. Qed.

Lemma on_net_step {A} (f : N → A * N) w pushed :
  srv_step pushed [] w.1 (f w.1).2 → srv_step (W := N * Agent J T) pushed [] w (on_net f w).2.
Proof.
  unfold on_net. destruct w as [n a]. cbn [fst snd]. destruct (f n) as [x n']. intros Hs.
  eapply net_step; [exact Hs|by rewrite app_nil_r].
Qed.

#[export] Instance agent_ok : IngestOk (W := N * Agent J T).
Proof.
  refine {| IngestProps.origins := is_Some |}.
  - intros w b p alive b' p' w' E. simpl in E. unfold agent_others in E.
    destruct (net_others w.1 b p) as (al & n' & En). pose proof (others_ok _ _ _ _ _ _ _ En) as (l & _ & Hs).
    rewrite En in E. pose proof (agent_turns_enqueue w.2 b p) as (log & Hb & Ha).
    destruct (agent_turns w.2 b p) as [[a b1] p1]. injection E as <- <- <- <-. exists log. split; [done|].
    destruct w as [n a0]. by eapply net_step.
  - intros tls w. apply on_net_step, connect_ok.
  - intros w. apply on_net_step, stream_ok.
  - intros ms [n a]. eapply net_step; [apply (sleep_ok ms n)|by rewrite app_nil_r].
  - intros sb w. apply on_net_step, push_ok.
  - intros w. apply on_net_step, message_ok.
  - intros w ack w' E. simpl in E. unfold on_net in E. destruct (message w.1) as [r n'] eqn:Em.
    injection E as -> <-. by apply (ack_ok_means w.1 ack n').
  - intros w. simpl. unfold on_net. pose proof (ulid_ok w.1) as Hu.
    destruct (ulid_new w.1). destruct Hu as (? & ? & ? & ? & ? & _). by split_and!.
Defined.

(** C1. The agent delivers: start with an empty buffer and a server that holds
    nothing, and let the collector's tasks collect, configurations come and go,
    the streamer send, calls fail, the process be killed and restarted, in any
    order. What the collector ever put into the buffer (the history of its
    enqueues, sample by sample, each with its number and connector) is then,
    exactly once, stored by the server, or still in the buffer, or in a batch the
    server rejected, or dropped by the cap, which happens only after more samples
    were put in than the least cap; and what the server stores is booked under the
    connector it was put in for. *)
Theorem agent_delivers cap cfg max (w : N * Agent J T) p n sys :
  is_u64 max → cap ≤ max → untouched w →
  rtc (life cap cfg) (mkSys w (BufferDb_open empty_db max) p n) sys →
  ∃ (s : Spec) (held rejected : list (string * list BufferSpec.Entry)) (waiting : list BufferSpec.Entry),
    reachable (buf sys) s ∧
    stored_batches (world sys) ≡ₚ sent_of (datasource_id cfg) <$> held ∧
    mjoin held.*2 ++ waiting ++ mjoin rejected.*2 ++ sp_dropped s ≡ₚ log_entries (ag_accepted (world sys).2) ∧
    Z.of_nat (length (ag_accepted (world sys).2)) = sqlite_seq (conn (buf sys)) ∧
    (Z.of_nat (length (ag_accepted (world sys).2)) ≤ cap → sp_dropped s = []) ∧
    (∀ e, e ∈ waiting → e ∈ entry <$> pending_samples (conn (buf sys))) ∧
    (∀ u, u ∈ rejected.*1 → u ∈ rejections (world sys)) ∧
    (∀ b e, b ∈ held → e ∈ b.2 → e_origin e = Some (sent_of (datasource_id cfg) b).2.1).
Proof.
  intros Hmax Hcap Hw0 Hlife.
  destruct (life_delivered cap cfg max w p n sys Hmax Hcap Hw0 Hlife)
    as (s & held & rejected & waiting & Hr & Hst & Hids & Hseq & Hd & Hw & Hrej & Hb).
  exists s, held, rejected, waiting. split_and!; [done..|]. intros b e Hin He.
  destruct (Hb b e Hin He) as [Ho Hc]. change (is_Some (e_origin e)) in Hc. destruct Hc as [c Hc]. cbn. rewrite <- Ho, Hc. done.
Qed.
End System.

(** ** A configured agent that reads one connector *)
Module SystemRun.
Import BitCodec.
#[local] Existing Instances WindowRun.json WindowRun.xml WindowRun.chrono WindowRun.http WindowRun.net
  WindowRun.processes WindowRun.clock OnceRun.ack_codec OnceRun.view.

(** The server of [OnceRun], which loses its first answer; nothing else on its side
    touches the buffer. *)
#[local] Instance env : IngestEnv OnceRun.Srv := {|
  others w b p := (true, b, p, w);
  from_shared_ok _ := true;
  metadata_ok _ := true;
  tls_config_ok _ := true;
  connect _ w := (true, w);
  stream_samples w := (Ok (), w);
  push sb w := (true, OnceRun.mkSrv (OnceRun.received w ++ [batch_on_wire sb]) (OnceRun.store w) (OnceRun.ids w)
                        (OnceRun.losses w) (OnceRun.todo w) (OnceRun.put w));
  message := OnceRun.answer;
  sleep_ms _ w := w;
  epoch_ms _ := 1000;
  ulid_new w := (OnceRun.ulid (OnceRun.ids w), OnceRun.mkSrv (OnceRun.received w) (OnceRun.store w)
                   (S (OnceRun.ids w)) (OnceRun.losses w) (OnceRun.todo w) (OnceRun.put w));
|}.
#[local] Instance srv_ok : IngestOk (W := OnceRun.Srv).
Proof.
  refine {| IngestProps.origins := λ _, True |}.
  - intros w b p alive b' p' w' [= <- <- <- <-]. exists [].
    split; [apply logged_nil|apply OnceRun.srv_quiet; by rewrite ?app_nil_r].
  - intros tls w. apply OnceRun.srv_quiet; by rewrite ?app_nil_r.
  - intros w. apply OnceRun.srv_quiet; by rewrite ?app_nil_r.
  - intros n w. apply OnceRun.srv_quiet; by rewrite ?app_nil_r.
  - intros sb w. apply OnceRun.push_step.
  - apply OnceRun.answer_step.
  - apply OnceRun.answer_means.
  - intros w. simpl. split_and!; [apply OnceRun.ulid_fresh|done..].
Qed.

Lemma quiet (n : OnceRun.Srv) b p : ∃ alive n', others n b p = (alive, b, p, n').
Proof. by exists true, n. Qed.

Definition agent : Agent Tree Z :=
  mkAgent (mkTasks ∅ ∅ 0) ∅ (mkHost ∅ 0)
    [[Configure [("c", WindowRun.conn)] [WindowRun.job]; Collect 0 1 1]; []; []; []; []; [Collect 0 1 1]] [].
Definition net : OnceRun.Srv := OnceRun.mkSrv [] [] 0 [true; false; false] [] [].
#[local] Existing Instance agent_env.
#[local] Instance whole : IngestEnv (OnceRun.Srv * Agent Tree Z) := agent_env WindowRun.plugins.

Definition start : Sys (OnceRun.Srv * Agent Tree Z) := mkSys (net, agent) (BufferDb_open empty_db 100) [] 1.
Definition run1 : Sys (OnceRun.Srv * Agent Tree Z) := (Ingest.run 3 6 OnceRun.cfg start).2.

Definition summary (b : Batch) : string * list string := (b.2.1, point_id <$> b.2.2).

(** Two readings of the connector, each stored once although an answer is lost:
    the history has both, under the connector. *)
Lemma agent_delivers_witness :
  summary <$> OnceRun.store (world run1).1 = [("c", ["t"]); ("c", ["t"])] ∧
  (λ x, (x.1, point_id x.2)) <$> ag_accepted (world run1).2 = [(Some "c", "t"); (Some "c", "t")] ∧
  ∃ held waiting rejected,
    mjoin held.*2 ++ waiting ++ rejected ≡ₚ log_entries (ag_accepted (world run1).2) ∧
    OnceRun.store (world run1).1 ≡ₚ sent_of "ds" <$> held.
Proof.
  split; [vm_compute; reflexivity|]. split; [vm_compute; reflexivity|].
  destruct (agent_delivers WindowRun.plugins quiet 100 OnceRun.cfg 100 (net, agent) [] 1 run1)
    as (s & held & rejected & waiting & _ & Hst & Hlog & _ & Hd & _); [vm_compute; by split|done|by split_and!| |].
  { apply rtc_once. by eapply (life_run 100 OnceRun.cfg 3 6 start), surjective_pairing. }
  rewrite Hd, app_nil_r in Hlog by (vm_compute; discriminate).
  exists held, waiting, (mjoin rejected.*2). split; [exact Hlog|exact Hst].
Defined.
End SystemRun.
