(* ===== verification/PluginWrite.v ===== *)
(** * A write command, from the cloud to the connector of a plugin

    [handle_write] ([src/control.rs]) over a plugin process that runs the SDK:
    what an acknowledgement says about the connector. *)
From S2P Require Import Prelude Float RustStr Json Wire Sdk Jobs Plugins PluginsProps HostSdk Modbus Write WriteProps Collector.
Set Warnings "-register-all".
Local Open Scope Z_scope.

Section Commands.
Context `{JsonLaws J} `{!ScalarLaws J} `{!Wire J} `{!WireLaws J} `{Crypto}.
Context {C W : Type} `{!Sdk.Collector J C} `{ModbusNet W} `{Procs W} `{Lockstep W} `{!LockstepOk} `{!SdkProcs J W C}.

(** The parts of a command. *)
Definition cmd_id (req : J) : string := str_or "" req "command_id".
Definition cmd_value (req : J) : f64 := default f64_nan (get_f64 req "value").
Definition cmd_target (req : J) : J := get_or_null req "target".
Definition cmd_readback (req : J) : bool := default false (get_bool req "readback").

(** The frame that reports the connector's answer. *)
Definition reported (req : J) (a : result string (option f64)) : J :=
  match write_result a with
  | Ok rb => write_ack_ok (cmd_id req) rb
  | Err e => write_ack_failed (cmd_id req) e
  end.

(** What [handle_write] makes of the connector's write. *)
Lemma command_reported (req : J) (a : Agent J W) c i p :
  let value := cmd_value req in
  let target := cmd_target req in
  verify_signature req (control_pubkey a) (cmd_id req) (str_or "" req "connector_id") value target = Ok () →
  connectors a !! str_or "" req "connector_id" = Some c → is_finite value = true → target_key target ∈ writable c →
  ds_type c ≠ "modbus" → for_type (plugin_host a) (ds_type c) = Some (i, p) → in_sync (host_os a) →
  (depth (write_request (ds_type c) (config c) (secrets c) target value (cmd_readback req)) ≤ nesting_limit)%nat →
  let '(ans, c') := c_write (write_seen (ds_type c) (config c) (secrets c) target value (cmd_readback req))
                      (state_before i p (host_os a)) in
  let '(frames, a') := handle_write req a in
  ∃ f, frames = [f] ∧ in_sync (host_os a') ∧ others_kept i (host_os a) (host_os a') ∧
    match state_of i (host_os a') with
    | Some st => st = c' ∧ f = reported req ans ∧ (has_status "acked" f ↔ is_ok ans = true)
    | None => ∃ e, f = write_ack_failed (cmd_id req) e
    end.
Proof.
  intros value target Hv Hc Hf Hw Hm Hty Hs Hd.
  pose proof (write_served i p (ds_type c) (config c) (secrets c) target value (cmd_readback req) (host_os a) Hs Hd) as Hr.
  destruct (c_write _ _) as [ans c']. unfold handle_write.
  fold (cmd_id req) (cmd_value req) (cmd_target req) (cmd_readback req). fold value target. rewrite Hv.
  unfold do_write. rewrite Hc, Hf. simpl. rewrite decide_False by (intros Hn; by apply Hn). rewrite decide_False by done. rewrite Hty.
  destruct (Plugins.write _ _ _ _ _ _ _ _ _) as [r h']. destruct Hr as (Hs' & Hk & Hr).
  assert (∀ rb, has_status "acked" (write_ack_ok (J := J) (cmd_id req) rb)) as Hok.
  { intros [v|]; unfold write_ack_ok, has_status, get_str; rewrite ?get_set; simpl; rewrite !get_object; simpl; by rewrite as_str_str. }
  assert (∀ e, ¬ has_status "acked" (write_ack_failed (J := J) (cmd_id req) e)) as Hno.
  { intros e. unfold write_ack_failed, has_status, get_str. rewrite !get_object. simpl. by rewrite as_str_str. }
  destruct (state_of i h') as [st|] eqn:Est.
  - destruct Hr as [-> ->]. unfold reported. destruct ans as [rb|e]; eexists; simpl; rewrite Est; split_and!; try done.
    by split; [intros Hx%Hno|].
  - destruct Hr as [e ->]. eexists. simpl. rewrite Est. split_and!; try done. by exists e.
Qed.

(** A write command for a connector that a plugin serves, once it has passed
    the gate, is one write of that connector, on the target and the value of the
    command as they arrive; the cloud gets one frame, which says acked exactly
    when the connector's write succeeded, with its read-back, or failed with its
    error; or the exchange failed: the frame says failed and the process is gone,
    so that the outcome is not known. The other plugins' connectors are untouched. *)
Theorem plugin_write_reported (req : J) (a : Agent J W) c i p :
  let value := cmd_value req in
  let target := cmd_target req in
  verify_signature req (control_pubkey a) (cmd_id req) (str_or "" req "connector_id") value target = Ok () →
  connectors a !! str_or "" req "connector_id" = Some c → is_finite value = true → target_key target ∈ writable c →
  ds_type c ≠ "modbus" → for_type (plugin_host a) (ds_type c) = Some (i, p) → in_sync (host_os a) →
  (depth (write_request (ds_type c) (config c) (secrets c) target value (cmd_readback req)) ≤ nesting_limit)%nat →
  let '(ans, c') := c_write (write_seen (ds_type c) (config c) (secrets c) target value (cmd_readback req))
                      (state_before i p (host_os a)) in
  let '(frames, a') := handle_write req a in
  ∃ f, frames = [f] ∧ in_sync (host_os a') ∧ others_kept i (host_os a) (host_os a') ∧
    match state_of i (host_os a') with
    | Some st => st = c' ∧ f = reported req ans ∧ (has_status "acked" f ↔ is_ok ans = true)
    | None => ∃ e, f = write_ack_failed (cmd_id req) e
    end.
Proof. apply command_reported. Qed.
End Commands.

(** ** A signed command to a counter *)
Module PluginWriteRun.
Import TreeWire Pipes HostSdkRun Quiet.
#[local] Existing Instances counter procs_ lockstep_ lockstep_ok_ sdk_.
#[local] Instance crypto : Crypto := {|
  base64_decode s := strip_prefix "b64:" s;
  ed25519_verify pk msg sig := bool_decide (sig = pk +:+ msg);
|}.

Definition target : Tree := TObj [("node_id", TStr "n")].
Definition counting : Conn Tree := mkConn "count" TNull TNull {[ "node:n" ]}.
Definition payload : string := "cmd-1|c1|node:n|12".
Definition command : Tree := TObj [("command_id", TStr "cmd-1"); ("connector_id", TStr "c1"); ("value", TInt 12);
  ("target", target); ("readback", TBool true); ("sig_payload", TStr payload); ("signature", TStr ("b64:pk:" +:+ payload))].
Definition agent (plan : list bool) : Agent Tree W :=
  mkAgent {[ "c1" := counting ]} (Some "pk:") (mkPluginHost [p1] {["count" := 0%nat]}) (HostSdkRun.host plan).

(** Acknowledged; and when the pipe breaks the command is reported failed. *)
Lemma plugin_write_reported_witness :
  (handle_write command (agent [])).1 = [write_ack_ok "cmd-1" (Some (f64_of_Z 12))] ∧
  (handle_write command (agent [false; false; true])).1 = [write_ack_failed "cmd-1" "read error"] ∧
  ∀ plan, ∃ f, (handle_write command (agent plan)).1 = [f] ∧
    in_sync (host_os (handle_write command (agent plan)).2).
Proof.
  split; [vm_compute; reflexivity|]. split; [vm_compute; reflexivity|]. intros plan.
  assert (verify_signature command (control_pubkey (agent plan)) (cmd_id command) (str_or "" command "connector_id")
    (cmd_value command) (cmd_target command) = Ok ()) as Hv by (vm_compute; reflexivity).
  assert (connectors (agent plan) !! str_or "" command "connector_id" = Some counting) as Hc by (vm_compute; reflexivity).
  assert (is_finite (cmd_value command) = true) as Hf by (vm_compute; reflexivity).
  assert (target_key (cmd_target command) ∈ writable counting) as Hw.
  { assert (target_key (cmd_target command) = "node:n") as -> by (vm_compute; reflexivity). by apply elem_of_singleton. }
  assert (for_type (plugin_host (agent plan)) (ds_type counting) = Some (0%nat, p1)) as Hty by (vm_compute; reflexivity).
  assert (ds_type counting ≠ "modbus") as Hm by done.
  pose proof (plugin_write_reported command (agent plan) counting 0 p1 Hv Hc Hf Hw Hm Hty (host_sync plan)
    ltac:(apply Nat.leb_le; vm_compute; reflexivity)) as H.
  destruct (c_write _ _) as [ans c']. destruct (handle_write command (agent plan)) as [frames a'].
  destruct H as (f & -> & Hs & _). exists f. split; [reflexivity|exact Hs].
Defined.
End PluginWriteRun.
