(* ===== verification/Logbuf.v ===== *)
(** * The log ring ([src/logbuf.rs])

    The formatted log lines kept for [get_logs]: the ring is the list of its
    lines, oldest first; a [LineWriter] is the bytes it holds back. *)
From Stdlib Require Import Ascii.
From S2P Require Import Prelude RustStr.
Local Open Scope Z_scope.

Definition CAP : nat := 500.

Definition LF : ascii := "010"%char.
Definition is_eol (c : ascii) : bool := bool_decide (c = LF ∨ c = "013"%char).

(** [trim_end_matches(['\n', '\r'])] *)
Fixpoint trim_eol (s : string) : string :=
  match s with
  | EmptyString => EmptyString
  | String c s =>
      match trim_eol s with
      | EmptyString => if is_eol c then EmptyString else String c EmptyString
      | s' => String c s'
      end
  end.

(** The loop that makes room leaves at most [CAP - 1] lines. *)
Definition pop_oldest (b : list string) : list string := drop (S (length b) - CAP) b.

Definition push_line (line : string) (b : list string) : list string :=
  let line := trim_eol line in
  if decide (line = "") then b else pop_oldest b ++ [line].

Definition tail (n : nat) (b : list string) : list string :=
  let take := Nat.min n (length b) in drop (length b - take) b.

(** [std::str::from_utf8] *)
Definition within (lo hi : Z) (c : ascii) : bool := (lo <=? code c) && (code c <=? hi).
Fixpoint from_utf8 (s : string) : bool :=
  match s with
  | EmptyString => true
  | String a s =>
      if within 0 127 a then from_utf8 s else
      match s with
      | EmptyString => false
      | String b s =>
          if within 194 223 a then within 128 191 b && from_utf8 s else
          match s with
          | EmptyString => false
          | String c s =>
              if within 224 239 a then
                within (if code a =? 224 then 160 else 128) (if code a =? 237 then 159 else 191) b
                && within 128 191 c && from_utf8 s
              else
              match s with
              | EmptyString => false
              | String d s =>
                  within 240 244 a
                  && within (if code a =? 240 then 144 else 128) (if code a =? 244 then 143 else 191) b
                  && within 128 191 c && within 128 191 d && from_utf8 s
              end
          end
      end
  end.

Definition push_utf8 (line : string) (b : list string) : list string :=
  if from_utf8 line then push_line line b else b.

(** The first line of the bytes, with its newline, and the bytes after it. *)
Fixpoint cut_line (s : string) : option (string * string) :=
  match s with
  | EmptyString => None
  | String c s =>
      if decide (c = LF) then Some (String c EmptyString, s)
      else '(l, r) ← cut_line s; Some (String c l, r)
  end.

(** Whole lines go to the ring; [fuel] bounds their number. *)
Fixpoint drain_lines (fuel : nat) (partial : string) (b : list string) : string * list string :=
  match fuel with
  | O => (partial, b)
  | S fuel =>
      match cut_line partial with
      | Some (line, rest) => drain_lines fuel rest (push_utf8 line b)
      | None => (partial, b)
      end
  end.

(** [LineWriter::write]: a line has a newline, so the length bounds the lines. *)
Definition write (data : string) (partial : string) (b : list string) : string * list string :=
  let partial := partial +:+ data in drain_lines (String.length partial) partial b.

(** [Drop]: a last line without a newline. *)
Definition drop_writer (partial : string) (b : list string) : list string :=
  if decide (partial = "") then b else push_utf8 partial b.

(** A formatting event: a fresh writer, its writes, then its drop. *)
Definition log_event (writes : list string) (b : list string) : list string :=
  let '(partial, b) := foldl (λ s data, write data s.1 s.2) ("", b) writes in drop_writer partial b.

(** ** What an event leaves in the ring *)

(** The reference: the ring is the end of all the lines ever kept. *)
Definition kept (s : string) : list string :=
  filter (λ l, l ≠ "") (trim_eol <$> filter (λ l, from_utf8 l = true) (split_on LF s)).
Definition last_n (n : nat) (l : list string) : list string := drop (length l - n) l.

Fixpoint concat_all (ss : list string) : string := match ss with [] => "" | s :: ss => s +:+ concat_all ss end.

Lemma trim_eol_snoc s : trim_eol (s +:+ String LF EmptyString) = trim_eol s.
Proof. induction s as [|c s IH]; [done|]. simpl. by rewrite IH. Qed.

Lemma from_utf8_snoc s : from_utf8 (s +:+ String LF EmptyString) = from_utf8 s.
Proof.
  remember (String.length s) as n eqn:Hn. revert s Hn. induction (lt_wf n) as [n _ IH]. intros s ->.
  assert (∀ s', (String.length s' < String.length s)%nat →
    from_utf8 (s' +:+ String LF EmptyString) = from_utf8 s') as IH' by eauto. clear IH.
  destruct s as [|a s]; [done|]. simpl. rewrite IH' by (simpl; lia).
  destruct (within 0 127 a); [done|].
  destruct s as [|b s]; simpl.
  { by destruct (within 194 223 a). }
  rewrite IH' by (simpl; lia). destruct (within 194 223 a); [done|].
  destruct s as [|c s]; simpl.
  { by destruct (within 224 239 a); rewrite ?andb_false_r. }
  rewrite IH' by (simpl; lia). destruct (within 224 239 a); [done|].
  destruct s as [|d s]; simpl.
  { by rewrite !andb_false_r. }
  by rewrite IH' by (simpl; lia).
Qed.

Lemma push_utf8_snoc l b : push_utf8 (l +:+ String LF EmptyString) b = push_utf8 l b.
Proof. unfold push_utf8, push_line. by rewrite from_utf8_snoc, trim_eol_snoc. Qed.

Lemma cut_line_split s :
  match cut_line s with
  | Some (line, rest) => ∃ l, line = l +:+ String LF EmptyString ∧ split_on LF s = l :: split_on LF rest
                              ∧ (String.length rest < String.length s)%nat
  | None => split_on LF s = [s]
  end.
Proof.
  induction s as [|c s IH]; simpl; [done|]. destruct (decide (c = LF)) as [->|Hc].
  - exists "". split_and!; [done|done|simpl; lia].
  - destruct (cut_line s) as [[line rest]|]; simpl.
    + destruct IH as (l & -> & -> & Hl). exists (String c l). split_and!; [done|done|lia].
    + by rewrite IH.
Qed.

(** The lines of the whole segments are pushed; the last segment stays. *)
Lemma drain_lines_split fuel s b : (String.length s ≤ fuel)%nat →
  ∃ ls p, split_on LF s = ls ++ [p] ∧ drain_lines fuel s b = (p, foldl (λ b l, push_utf8 l b) b ls) ∧ split_on LF p = [p].
Proof.
  revert s b. induction fuel as [|fuel IH]; intros s b Hs; simpl.
  { destruct s; [|simpl in Hs; lia]. by exists [], "". }
  pose proof (cut_line_split s) as Hc. destruct (cut_line s) as [[line rest]|].
  - destruct Hc as (l & -> & -> & Hl). rewrite push_utf8_snoc.
    destruct (IH rest (push_utf8 l b)) as (ls & p & E & -> & Hp); [lia|]. exists (l :: ls), p. by rewrite E.
  - exists [], s. by rewrite Hc.
Qed.

Lemma split_on_app s1 s2 ls p :
  split_on LF s1 = ls ++ [p] → split_on LF (s1 +:+ s2) = ls ++ split_on LF (p +:+ s2).
Proof.
  revert ls p. induction s1 as [|c s1 IH]; intros ls p; simpl.
  - intros E. destruct ls as [|? [|]]; simplify_eq/=; done.
  - case_decide.
    + intros E. destruct ls as [|l ls]; simplify_eq/=; [by destruct s1; simpl in *; repeat case_match|].
      by erewrite IH.
    + destruct (split_on LF s1) as [|q qs] eqn:Eq; [by destruct s1; simpl in *; repeat case_match|].
      intros E. destruct ls as [|l ls]; simplify_eq/=.
      * rewrite (IH [] q) by done. simpl. by rewrite decide_False by done.
      * by rewrite (IH (q :: ls) p) by done.
Qed.

Lemma writes_split writes p b : split_on LF p = [p] →
  ∃ ls q, split_on LF (p +:+ concat_all writes) = ls ++ [q] ∧
    foldl (λ s data, write data s.1 s.2) (p, b) writes = (q, foldl (λ b l, push_utf8 l b) b ls).
Proof.
  revert p b. induction writes as [|d ws IH]; intros p b Hp; simpl.
  - rewrite str_app_nil, Hp. by exists [], p.
  - unfold write at 2. simpl. destruct (drain_lines_split (String.length (p +:+ d)) (p +:+ d) b) as (ls & q & E & -> & Hq); [done|].
    destruct (IH q (foldl (λ b l, push_utf8 l b) b ls) Hq) as (ls' & q' & E' & ->).
    exists (ls ++ ls'), q'. rewrite foldl_app. split; [|done].
    rewrite <- str_app_assoc, (split_on_app _ _ _ _ E), E'. by rewrite (assoc_L (++)).
Qed.

(** [push_utf8] appends the line, if it is kept, to the list of lines and keeps its end. *)
Lemma last_n_app n l1 l2 : last_n n (last_n n l1 ++ l2) = last_n n (l1 ++ l2).
Proof.
  unfold last_n. rewrite !length_app, length_drop.
  rewrite !drop_app, drop_drop, length_drop. f_equal; f_equal; lia.
Qed.

Lemma push_utf8_last l b : (length b ≤ CAP)%nat →
  push_utf8 l b = last_n CAP (b ++ (if from_utf8 l then (if decide (trim_eol l = "") then [] else [trim_eol l]) else [])).
Proof.
  intros Hb. assert (b = last_n CAP (b ++ [])) as Hn.
  { unfold last_n. rewrite app_nil_r. by replace (length b - CAP)%nat with 0%nat by lia. }
  unfold push_utf8, push_line. destruct (from_utf8 l); [|exact Hn]. case_decide; [exact Hn|].
  unfold last_n, pop_oldest. rewrite length_app. change (length [trim_eol l]) with 1%nat. rewrite drop_app_le by (unfold CAP in *; lia).
  do 2 f_equal. lia.
Qed.

Lemma last_n_length n l : (length (last_n n l) ≤ n)%nat.
Proof. unfold last_n. rewrite length_drop. lia. Qed.

Lemma push_all_last ls b : (length b ≤ CAP)%nat →
  foldl (λ b l, push_utf8 l b) b ls
  = last_n CAP (b ++ filter (λ l, l ≠ "") (trim_eol <$> filter (λ l, from_utf8 l = true) ls)).
Proof.
  revert b. induction ls as [|l ls IH]; intros b Hb; simpl.
  - unfold last_n. rewrite app_nil_r. by replace (length b - CAP)%nat with 0%nat by lia.
  - rewrite IH, push_utf8_last by (rewrite ?push_utf8_last by done; auto using last_n_length).
    rewrite last_n_app, <- (assoc_L (++)). do 2 f_equal. rewrite filter_cons.
    destruct (from_utf8 l); simpl; [|done]. rewrite filter_cons. by repeat case_decide.
Qed.

(** C39. However the formatter cuts an event into writes, the ring afterwards is
    the last 500 of the lines it held followed by the event's lines, those that
    are UTF-8 and not empty, their line ends removed; and [get_logs] reads the
    last [n] of them. *)
Theorem log_event_last writes b n : (length b ≤ CAP)%nat →
  let all := b ++ kept (concat_all writes) in
  log_event writes b = last_n CAP all ∧ tail n (log_event writes b) = last_n (Nat.min n CAP) all.
Proof.
  intros Hb. assert (log_event writes b = last_n CAP (b ++ kept (concat_all writes))) as E.
  { unfold log_event, kept. destruct (writes_split writes "" b) as (ls & q & Es & ->); [done|]. change (split_on LF (concat_all writes) = ls ++ [q]) in Es. rewrite Es.
    rewrite push_all_last by done. unfold drop_writer.
    assert (∀ r, (length r ≤ CAP)%nat → push_utf8 q r = last_n CAP
      (r ++ filter (λ l, l ≠ "") (trim_eol <$> filter (λ l, from_utf8 l = true) [q]))) as Hq.
    { intros r Hr. by rewrite <- (push_all_last [q] r Hr). }
    set (L := last_n CAP _). trans (push_utf8 q L); [case_decide; [by subst q|done]|].
    rewrite Hq by apply last_n_length. unfold L. rewrite last_n_app, <- (assoc_L (++)).
    by rewrite !filter_app, fmap_app, filter_app. }
  split; [done|]. rewrite E. unfold tail. set (all := b ++ _).
  unfold last_n. rewrite length_drop, drop_drop. f_equal. lia.
Qed.

Lemma log_event_last_witness :
  (length ["a"; "b"] ≤ CAP)%nat ∧
  log_event ["one" +:+ String LF "tw"; "o" +:+ String "013"%char (String LF "")] ["a"; "b"] = ["a"; "b"; "one"; "two"].
Proof.
  split; [unfold CAP; simpl; lia|].
  rewrite (proj1 (log_event_last ["one" +:+ String LF "tw"; "o" +:+ String "013"%char (String LF "")] ["a"; "b"] 0
    ltac:(unfold CAP; simpl; lia))). by vm_compute.
Defined.
