(* ===== verification/Enroll.v ===== *)
(** * Configuration and credentials ([src/config.rs], [src/enroll.rs])

    The configuration from the environment and the credentials (stored, direct,
    or by the one-time exchange). The file
    system is the interface [Disk], the exchange is [EnrollHttp], the pretty
    printer of [serde_json] is [PrettyJson]. Paths are Unix paths. *)
From Stdlib Require Import Ascii.
From S2P Require Import Prelude Float Buffer RustStr Json Plugins.
Set Warnings "-register-all".
Local Open Scope Z_scope.

(** ** Paths *)

(** [Path::parent] of a Unix path: separators and [.] components at the end do
    not count. The path is split at its separators. *)
Fixpoint drop_trivial (rev_parts : list string) : list string :=
  match rev_parts with
  | [] => []
  | [p] => [p]
  | p :: ps => if decide (p = "" ∨ p = ".") then drop_trivial ps else rev_parts
  end.
Definition path_parent (path : string) : option string :=
  match drop_trivial (reverse (split_on "/" path)) with
  | [] | [EmptyString] => None
  | _ :: ps =>
      match drop_trivial ps with
      | [] => Some ""
      | [EmptyString] => Some "/"
      | ps => Some (join_with "/" (reverse ps))
      end
  end.
(** [Path::join] of a relative name. *)
Definition path_append (dir name : string) : string :=
  if decide (dir = "") then name
  else if bool_decide (last (split_on "/" dir) = Some "") then dir +:+ name
  else dir +:+ "/" +:+ name.

Example path_parent_ex : path_parent "/var/lib/lymon-agent/buffer.db" = Some "/var/lib/lymon-agent".
Proof. by vm_compute. Qed.
Example path_parent_file : path_parent "buffer.db" = Some "" ∧ path_parent "/" = None ∧ path_parent "a//./b/" = Some "a".
Proof. by vm_compute. Qed.

(** [str::parse::<u64>] with its error text: the first digit that does not fit, or
    is none, decides. *)
Fixpoint parse_digits (acc : Z) (s : string) : result string Z :=
  match s with
  | EmptyString => Ok acc
  | String c s =>
      if negb (is_digit c) then Err "invalid digit found in string"
      else if acc * 10 + (code c - 48) <=? u64_max then parse_digits (acc * 10 + (code c - 48)) s
      else Err "number too large to fit in target type"
  end.
Definition parse_u64 (s : string) : result string Z :=
  let body := default s (strip_prefix "+" s) in
  if decide (s = "") then Err "cannot parse integer from empty string"
  else if decide (body = "") then Err "invalid digit found in string"
  else parse_digits 0 body.

(** ** Configuration *)
Record Config := mkConfig {
  cfg_datasource_id : string;
  poll_interval_ms : Z;
  buffer_path : string;
  buffer_max_rows : Z;
  otlp_endpoint : option string;
  cfg_plugins_dir : option string;
  plugins_allow : list string;
  cfg_api_key : option string;
  cfg_agent_id : option string;
  cfg_ingest_endpoint : option string;
  enroll_code : option string;
  enroll_url : option string;
}.

Section Load.
(** [std::env::var(key).ok()] *)
Context (env : string → option string).

Definition env_required (key : string) : result string string :=
  ok_or ("environment variable " +:+ key +:+ " not set") (env key).
Definition env_optional (key dflt : string) : string := default dflt (env key).

Definition parse_allow (s : string) : list string :=
  filter (λ x, x ≠ "") (trim <$> split_on ","%char s).

(** [Config::load]; the file path is not used. *)
Definition Config_load (file_path : option string) : result string Config :=
  ds ← env_required "LYMON_DATASOURCE_ID";
  poll ← parse_u64 (env_optional "LYMON_POLL_INTERVAL_MS" "100");
  rows ← parse_u64 (env_optional "LYMON_BUFFER_MAX_ROWS" (dec DEFAULT_MAX_ROWS));
  Ok (mkConfig ds poll (env_optional "LYMON_BUFFER_PATH" "/var/lib/lymon-agent/buffer.db") rows
        (env "LYMON_OTLP_ENDPOINT") (env "LYMON_PLUGINS_DIR")
        (default [] (parse_allow <$> env "LYMON_PLUGINS_ALLOW"))
        (env "LYMON_API_KEY") (env "LYMON_AGENT_ID") (env "LYMON_INGEST_ENDPOINT")
        (env "LYMON_ENROLL_CODE") (env "LYMON_ENROLL_URL")).
End Load.

(** ** Credentials *)
Record Credentials := mkCredentials {
  cr_agent_id : string;
  cr_token : string;
  cr_ingest_endpoint : string;
  cr_tenant_id : option string;
  cr_control_endpoint : option string;
}.

Definition derive_control_endpoint (enroll_url : string) : option string :=
  let base := trim_end_slashes (default enroll_url (strip_suffix "/api/agent/enroll" enroll_url)) in
  match strip_prefix "https://" base with
  | Some rest => Some ("wss://" +:+ rest +:+ "/api/agent-control")
  | None => (λ rest, "ws://" +:+ rest +:+ "/api/agent-control") <$> strip_prefix "http://" base
  end.

Definition credentials_path (cfg : Config) : string :=
  path_append (default "." (path_parent (buffer_path cfg))) "credentials.json".

(** A file: its permission bits and its content. *)
Class Disk (W : Type) := {
  disk_read : string → W → result string string;
  create_dir_all : string → W → result string () * W;
  (* write, create, truncate; the mode is for a file created *)
  disk_open : string → Z → W → result string () * W;
  set_permissions : string → Z → W → result string () * W;
  write_all : string → string → W → result string () * W;
}.

(** A POST of a JSON body: an error, or the status and the outcome of reading the body. *)
Class EnrollHttp (J W : Type) := {
  post_json : string → J → W → result string (Z * result string string) * W;
  post_status_text : Z → string;
}.

Class PrettyJson (J : Type) := to_vec_pretty : J → string.

Section Resolve.
Context `{Json J} `{PrettyJson J} {W : Type} `{Disk W} `{EnrollHttp J W}.

Definition opt_json (o : option string) : J := match o with Some s => j_str s | None => j_null end.
Definition credentials_json (c : Credentials) : J :=
  j_object [("agent_id", j_str (cr_agent_id c)); ("token", j_str (cr_token c));
            ("ingest_endpoint", j_str (cr_ingest_endpoint c)); ("tenant_id", opt_json (cr_tenant_id c));
            ("control_endpoint", opt_json (cr_control_endpoint c))].

Definition de_credentials (j : J) : option Credentials :=
  f ← struct_view ["agent_id"; "token"; "ingest_endpoint"; "tenant_id"; "control_endpoint"] j;
  agent_id ← f "agent_id" ≫= as_str;
  token ← f "token" ≫= as_str;
  ingest_endpoint ← f "ingest_endpoint" ≫= as_str;
  tenant_id ← de_default None (de_option as_str) (f "tenant_id");
  control_endpoint ← de_default None (de_option as_str) (f "control_endpoint");
  Some (mkCredentials agent_id token ingest_endpoint tenant_id control_endpoint).

(** The response: the agent, the token, the endpoint and the tenant. *)
Definition de_enroll_response (j : J) : option (string * string * string * option string) :=
  f ← struct_view ["agent_id"; "token"; "ingest_endpoint"; "tenant_id"] j;
  agent_id ← f "agent_id" ≫= as_str;
  token ← f "token" ≫= as_str;
  ingest_endpoint ← f "ingest_endpoint" ≫= as_str;
  tenant_id ← de_default None (de_option as_str) (f "tenant_id");
  Some (agent_id, token, ingest_endpoint, tenant_id).

(** The Unix branch. *)
Definition write_credentials_file (path bytes : string) : StE W () :=
  disk_open path 384;;
  set_permissions path 384;;
  write_all path bytes.

Definition stored_credentials (path : string) (w : W) : option Credentials :=
  bytes ← res_ok (disk_read path w); j ← from_str bytes; de_credentials j.

Definition direct_credentials (cfg : Config) : option Credentials :=
  agent_id ← cfg_agent_id cfg;
  token ← cfg_api_key cfg;
  ingest_endpoint ← cfg_ingest_endpoint cfg;
  Some (mkCredentials agent_id token ingest_endpoint None None).

Definition enroll (path code url : string) : StE W Credentials :=
  resp ← context "enrollment request failed" (post_json url (j_object [("code", j_str code)]));
  let '(status, body) := resp in
  if negb ((200 <=? status) && (status <? 300)) then
    raise ("enrollment rejected: HTTP " +:+ post_status_text status +:+ " " +:+ default "" (res_ok body))
  else
    text ← context "parsing enrollment response" (of_res body);
    er ← of_res (ok_or "parsing enrollment response" (from_str text ≫= de_enroll_response));
    let '(agent_id, token, ingest_endpoint, tenant_id) := er in
    let creds := mkCredentials agent_id token ingest_endpoint tenant_id (derive_control_endpoint url) in
    match path_parent path with
    | Some dir => attempt (create_dir_all dir);; mret ()
    | None => mret ()
    end;;
    context ("saving credentials to " +:+ path) (write_credentials_file path (to_vec_pretty (credentials_json creds)));;
    mret creds.

Definition resolve (cfg : Config) : StE W Credentials := λ w,
  let path := credentials_path cfg in
  match stored_credentials path w with
  | Some creds => (Ok creds, w)
  | None =>
      match direct_credentials cfg with
      | Some creds => (Ok creds, w)
      | None =>
          match enroll_code cfg, enroll_url cfg with
          | Some code, Some url => enroll path code url w
          | _, _ => (Err "no credentials available: set LYMON_ENROLL_CODE + LYMON_ENROLL_URL (recommended) or LYMON_API_KEY + LYMON_AGENT_ID + LYMON_INGEST_ENDPOINT", w)
          end
      end
  end.
End Resolve.
