(* ===== verification/EnrollProps.v ===== *)
(** * Properties of the enrollment

    The credentials of a one-time exchange are kept, in a file only its owner can
    read, and the next start uses them. *)
From Stdlib Require Import Ascii.
From S2P Require Import Prelude Float Buffer RustStr Json Plugins Enroll.
Set Warnings "-register-all".
Local Open Scope Z_scope.

(** ** The file system: what the calls document *)

(** The permission bits and the content of a file. *)
Class DiskView (W : Type) := disk_file : string → W → option (Z * string).

Class DiskOk `{Disk W, DiskView W} := {
  read_back : ∀ path w m s, disk_file path w = Some (m, s) → disk_read path w = Ok s;
  open_file : ∀ path mode w, match disk_open path mode w with
    | (Ok _, w') => disk_file path w' = Some (from_option fst mode (disk_file path w), "")
    | (Err _, w') => disk_file path w' = disk_file path w
    end;
  chmod_file : ∀ path mode w, match set_permissions path mode w with
    | (Ok _, w') => ∀ m s, disk_file path w = Some (m, s) → disk_file path w' = Some (mode, s)
    | (Err _, w') => disk_file path w' = disk_file path w
    end;
  (* a failed write may have written a part *)
  write_file : ∀ path bytes w m s, disk_file path w = Some (m, s) → match write_all path bytes w with
    | (Ok _, w') => disk_file path w' = Some (m, s +:+ bytes)
    | (Err _, w') => ∃ part, disk_file path w' = Some (m, s +:+ part)
    end;
}.

Section File.
Context `{DiskOk W}.

(** A file whose content only its owner may read: mode 0600. *)
Definition private (path : string) (w : W) : Prop := ∃ s, disk_file path w = Some (384, s).

(** The file is private before anything is written into it, whatever mode it had;
    whatever call fails, it holds no secret with another mode. *)
Lemma write_credentials_spec path bytes (w : W) :
  match write_credentials_file path bytes w with
  | (Ok _, w') => disk_file path w' = Some (384, bytes)
  | (Err _, w') => disk_file path w' = disk_file path w ∨ private path w' ∨ ∃ m, disk_file path w' = Some (m, "")
  end.
Proof.
  unfold write_credentials_file, mbind, StE_bind. pose proof (open_file path 384 w) as Ho.
  destruct (disk_open path 384 w) as [[[]|e] w1]; [|by left].
  pose proof (chmod_file path 384 w1) as Hc. destruct (set_permissions path 384 w1) as [[[]|e] w2].
  2:{ right. right. rewrite Hc, Ho. by eexists. }
  specialize (Hc _ _ Ho). pose proof (write_file path bytes w2 _ _ Hc) as Hw.
  destruct (write_all path bytes w2) as [[[]|e] w3]; [done|]. destruct Hw as [part Hw].
  right. left. by exists part.
Qed.
End File.

(** ** Enrolling, and starting again *)
Section Enroll.
Context `{JsonLaws J} `{PrettyJson J} `{DiskOk W} `{EnrollHttp J W}.

(** The documents of credentials are read back: [serde_json] prints an object of
    strings and nulls as a text it parses to the same object, and a string is not
    null. *)
Definition pretty_reads (c : Credentials) : Prop :=
  from_str (to_vec_pretty (credentials_json (J := J) c)) = Some (credentials_json c).
Definition strings_not_null : Prop := ∀ s, is_null (j_str (J := J) s) = false.

Lemma de_credentials_json c : strings_not_null → de_credentials (credentials_json (J := J) c) = Some c.
Proof.
  intros Hs. unfold de_credentials.
  destruct (entries_object (J := J) [("agent_id", j_str (cr_agent_id c)); ("token", j_str (cr_token c));
    ("ingest_endpoint", j_str (cr_ingest_endpoint c)); ("tenant_id", opt_json (cr_tenant_id c));
    ("control_endpoint", opt_json (cr_control_endpoint c))]) as (es & E & Hes).
  fold (credentials_json (J := J) c) in E. rewrite (struct_view_distinct _ _ es E) by (apply Hes; distinct).
  assert (∀ o, de_default None (de_option as_str) (Some (opt_json (J := J) o)) = Some o) as Ho.
  { intros [s|]; unfold de_default, de_option, opt_json; [by rewrite Hs, as_str_str|by rewrite is_null_null]. }
  unfold mbind, option_bind. unfold credentials_json. rewrite !get_object. simpl assoc_last. cbv iota beta.
  rewrite !as_str_str, !Ho. by destruct c.
Qed.

(** C36. A start without stored or direct credentials that succeeds has spent its
    code and saved what it returns, readable by the owner only; every later start
    on that disk returns the same credentials and makes no exchange, whatever code
    it is given: a fresh code is ignored, although the header of the source says
    it rotates the credential. *)
Theorem enroll_persists cfg code url creds (w w' : W) :
  stored_credentials (J := J) (credentials_path cfg) w = None → direct_credentials cfg = None →
  enroll_code cfg = Some code → enroll_url cfg = Some url → strings_not_null → pretty_reads creds →
  resolve (J := J) cfg w = (Ok creds, w') →
  disk_file (credentials_path cfg) w' = Some (384, to_vec_pretty (credentials_json (J := J) creds)) ∧
  cr_control_endpoint creds = derive_control_endpoint url ∧
  ∀ cfg' w2, credentials_path cfg' = credentials_path cfg →
    disk_file (credentials_path cfg) w2 = disk_file (credentials_path cfg) w' →
    resolve (J := J) cfg' w2 = (Ok creds, w2).
Proof.
  intros Est Edir Ecode Eurl Hs Hp. unfold resolve at 1. rewrite Est, Edir, Ecode, Eurl.
  set (path := credentials_path cfg). intros Hr.
  assert (disk_file path w' = Some (384, to_vec_pretty (credentials_json (J := J) creds)) ∧
    cr_control_endpoint creds = derive_control_endpoint url) as [Hf Hc].
  { unfold enroll in Hr. unfold mbind at 1, StE_bind at 1 in Hr.
    destruct (context _ (post_json url _) w) as [[[status body]|e] w1]; [|done].
    destruct (negb _) in Hr; [done|]. unfold mbind at 1, StE_bind at 1 in Hr.
    destruct (context _ (of_res body) w1) as [[text|e] w2]; [|done]. unfold mbind at 1, StE_bind at 1, of_res in Hr.
    destruct (ok_or _ _) as [[[[a tk] ie] ti]|e]; [|done].
    set (c := mkCredentials a tk ie ti (derive_control_endpoint url)) in Hr. unfold mbind at 1, StE_bind at 1 in Hr.
    assert (∃ w3, match path_parent path with
      | Some dir => attempt (create_dir_all dir);; mret ()
      | None => mret ()
      end w2 = (Ok (), w3)) as [w3 E3].
    { destruct (path_parent path) as [dir|]; [|by eexists]. unfold mbind, StE_bind, attempt.
      destruct (create_dir_all dir w2) as [? w3]. by exists w3. }
    rewrite E3 in Hr. unfold mbind, StE_bind in Hr.
    pose proof (write_credentials_spec path (to_vec_pretty (credentials_json (J := J) c)) w3) as Hw.
    unfold context in Hr. destruct (write_credentials_file _ _ w3) as [[[]|e] w4]; [|done].
    unfold mret, StE_ret in Hr. injection Hr as <- <-. done. }
  split; [done|]. split; [done|]. intros cfg' w2 Epath Ew. unfold resolve. rewrite Epath. fold path.
  assert (stored_credentials (J := J) path w2 = Some creds) as ->; [|done].
  unfold stored_credentials. rewrite Hf in Ew. rewrite (read_back _ _ _ _ Ew). simpl. rewrite Hp. simpl.
  by apply de_credentials_json.
Qed.
End Enroll.

(** ** A first start and a second one *)
Module EnrollRun.
Definition creds : Credentials :=
  mkCredentials "agent" "secret" "https://ingest" (Some "tenant") (Some "wss://host/api/agent-control").
Definition response : Tree :=
  TObj [("agent_id", TStr "agent"); ("token", TStr "secret"); ("ingest_endpoint", TStr "https://ingest"); ("tenant_id", TStr "tenant")].
Definition saved : Tree :=
  TObj [("agent_id", TStr "agent"); ("token", TStr "secret"); ("ingest_endpoint", TStr "https://ingest");
        ("tenant_id", TStr "tenant"); ("control_endpoint", TStr "wss://host/api/agent-control")].
#[local] Instance json : Json Tree := tree_json (λ s, assoc_last s [("response", response); ("saved", saved)]).
#[local] Instance laws : JsonLaws Tree := tree_laws (λ s, assoc_last s [("response", response); ("saved", saved)]).
#[local] Instance pretty : PrettyJson Tree := λ _, "saved".

Abbreviation Files := (gmap string (Z * string)).
#[local] Instance disk : Disk Files := {|
  disk_read p w := match w !! p with Some (_, s) => Ok s | None => Err "no such file" end;
  create_dir_all _ w := (Ok (), w);
  disk_open p mode w := (Ok (), <[p := (from_option fst mode (w !! p), "")]> w);
  set_permissions p mode w := (Ok (), alter (λ f, (mode, f.2)) p w);
  write_all p bytes w := (Ok (), alter (λ f, (f.1, f.2 +:+ bytes)) p w);
|}.
#[local] Instance view : DiskView Files := λ p w, w !! p.
#[local] Instance disk_ok : DiskOk (W := Files).
Proof.
  split.
  - intros p w m s. unfold disk_file, view. simpl. by intros ->.
  - intros p mode w. simpl. unfold disk_file, view. by rewrite lookup_insert_eq.
  - intros p mode w m s. simpl. unfold disk_file, view. rewrite lookup_alter_eq. by intros ->.
  - intros p bytes w m s. simpl. unfold disk_file, view. rewrite lookup_alter_eq. by intros ->.
Qed.
#[local] Instance post : EnrollHttp Tree Files := {|
  post_json _ _ w := (Ok (200, Ok "response"), w); post_status_text _ := "" |}.

Definition cfg : Config :=
  mkConfig "ds" 100 "/var/lib/lymon-agent/buffer.db" 10 None None [] None None None (Some "code") (Some "https://host/api/agent/enroll").

(** The file was there before, readable by all. *)
Definition disk0 : Files := {["/var/lib/lymon-agent/credentials.json" := (420, "old")]}.

Lemma enroll_persists_witness :
  ∃ w', resolve (J := Tree) cfg disk0 = (Ok creds, w') ∧
    w' !! "/var/lib/lymon-agent/credentials.json" = Some (384, "saved") ∧ resolve (J := Tree) cfg w' = (Ok creds, w').
Proof.
  set (w' := (resolve (J := Tree) cfg disk0).2).
  assert (resolve (J := Tree) cfg disk0 = (Ok creds, w')) as E by (vm_compute; reflexivity).
  exists w'. split; [exact E|].
  destruct (enroll_persists cfg "code" "https://host/api/agent/enroll" creds disk0 w') as (H1 & _ & H3).
  - vm_compute. reflexivity.
  - reflexivity.
  - reflexivity.
  - reflexivity.
  - intros s. reflexivity.
  - vm_compute. reflexivity.
  - exact E.
  - split; [exact H1|]. apply H3; reflexivity.
Defined.
End EnrollRun.

(** The control endpoint of an enrollment URL. *)
Example control_endpoint_https :
  derive_control_endpoint "https://host/api/agent/enroll" = Some "wss://host/api/agent-control".
Proof. vm_compute. reflexivity. Qed.
Example control_endpoint_http :
  derive_control_endpoint "http://host:3013/api/agent/enroll" = Some "ws://host:3013/api/agent-control".
Proof. vm_compute. reflexivity. Qed.
