(* ===== verification/Start.v ===== *)
(** * The start of the agent ([run_agent] of [src/main.rs])

    The configuration, the TLS provider, tracing, the credentials, the buffer, the
    plugins; then the control channel as a task and the streamer in the
    foreground. The tracing and TLS libraries, the opening of the database file,
    the directory listing and the runtime are the interface [Boot]. *)
From S2P Require Import Prelude Float Proto Buffer BufferLogic BufferInv BufferSpec BufferRefine BufferProps RustStr Json Plugins Ingest IngestProps IngestOnce Enroll.
Set Warnings "-register-all".
Local Open Scope Z_scope.

Class Boot (W : Type) := {
  env_var : W → string → option string;
  install_tls_provider : W → W;
  (* the span exporter of an endpoint; the tracer and the propagator it is given
     to; the subscriber, with or without the spans *)
  build_exporter : string → W → result string () * W;
  set_tracer_provider : W → W;
  init_registry : bool → W → W;
  (* the tables in the file; an absent file is created with the schema *)
  open_tables : string → W → result string Db * W;
  buffer_faults : W → Faults;
  list_dir : string → W → option (list Entry);
  (* the control channel's task, started and aborted *)
  spawn_control : Credentials → list string → W → W;
  abort_control : W → W;
}.

Definition plugins_dir (cfg : Config) : string :=
  default (default "plugins" ((λ p, path_append p "plugins") <$> path_parent (buffer_path cfg))) (cfg_plugins_dir cfg).
Definition control_configured (creds : Credentials) : bool :=
  bool_decide (is_Some (cr_tenant_id creds)) && bool_decide (is_Some (cr_control_endpoint creds)).
Definition capabilities (h : PluginHost) : list string := ["pss"; "modbus"] ++ types h.

(** What the tasks of the agent are started with. *)
Record Started := mkStarted {
  started_buffer : BufferDb;
  started_plugins : PluginHost;
  (* the control channel's credentials and capabilities *)
  started_control : option (Credentials * list string);
  started_streamer : BufferStreamer;
}.

Section Start.
Context `{Json J} `{PrettyJson J} {W : Type} `{Disk W} `{EnrollHttp J W} `{Boot W} `{Paths}.

(** A call that cannot fail. *)
Definition doing (f : W → W) : StE W () := λ w, (Ok (), f w).

Definition init_tracing (otlp_endpoint : option string) : StE W () :=
  match otlp_endpoint with
  | Some endpoint =>
      context "creating OTLP exporter" (build_exporter (endpoint +:+ "/v1/traces"));;
      doing (λ w, init_registry true (set_tracer_provider w))
  | None => doing (init_registry false)
  end.

(** [BufferDb::open] with the directory of the file. *)
Definition open_buffer (cfg : Config) : StE W BufferDb :=
  match path_parent (buffer_path cfg) with
  | Some dir => context ("creating buffer dir " +:+ debug_str dir) (create_dir_all dir)
  | None => mret ()
  end;;
  db ← open_tables (buffer_path cfg);
  mret (BufferDb_open db (buffer_max_rows cfg)).

(** [buffer.counts().await?] *)
Definition check_counts (b : BufferDb) : StE W BufferDb := λ w,
  match counts (buffer_faults w) b with
  | (Ok _, b, _) => (Ok b, w)
  | (Err e, _, _) => (Err e, w)
  end.

Definition discover_plugins (cfg : Config) : StE W PluginHost := λ w,
  (Ok (Plugins.discover (list_dir (plugins_dir cfg) w) (plugins_allow cfg)), w).

(** Up to the start of the tasks. *)
Definition start_agent (config_path : option string) : StE W Started := λ w,
  match Config_load (env_var w) config_path with
  | Err e => (Err e, w)
  | Ok cfg =>
      (doing install_tls_provider;;
       init_tracing (otlp_endpoint cfg);;
       creds ← resolve (J := J) cfg;
       buffer ← open_buffer cfg;
       buffer ← check_counts buffer;
       plugins ← discover_plugins cfg;
       mret (mkStarted buffer plugins
               (if control_configured creds then Some (creds, capabilities plugins) else None)
               (BufferStreamer_new (cr_ingest_endpoint creds) (cr_token creds) (cr_agent_id creds)
                  (cfg_datasource_id cfg)))) w
  end.

(** The agent starts with the credentials [resolve] gives: its streamer sends as
    them, and its control channel runs exactly when they have a tenant and an
    endpoint; credentials from the environment never open it. *)
Lemma start_agent_credentials path (w w' : W) st : start_agent path w = (Ok st, w') →
  ∃ cfg creds w1 w2, Config_load (env_var w) path = Ok cfg ∧ resolve (J := J) cfg w1 = (Ok creds, w2) ∧
    started_streamer st = BufferStreamer_new (cr_ingest_endpoint creds) (cr_token creds) (cr_agent_id creds) (cfg_datasource_id cfg) ∧
    (is_Some (started_control st) ↔ is_Some (cr_tenant_id creds) ∧ is_Some (cr_control_endpoint creds)) ∧
    (direct_credentials cfg = Some creds → started_control st = None).
Proof.
  unfold start_agent. destruct (Config_load (env_var w) path) as [cfg|e]; [|done].
  unfold mbind, StE_bind, doing. destruct (init_tracing _ _) as [[[]|e] w1]; [|done].
  destruct (resolve cfg w1) as [[creds|e] w2] eqn:Er; [|done].
  destruct (open_buffer cfg w2) as [[b|e] w3]; [|done]. destruct (check_counts b w3) as [[b'|e] w4]; [|done].
  intros [= <- <-]. exists cfg, creds, w1, w2. cbn [started_streamer started_control].
  assert (control_configured creds = true ↔ is_Some (cr_tenant_id creds) ∧ is_Some (cr_control_endpoint creds)) as Hc
    by (unfold control_configured; by rewrite andb_true_iff, !bool_decide_eq_true).
  split_and!; [done|done|done| |].
  - rewrite <- Hc. destruct (control_configured creds); split; try done; by intros [? ?].
  - intros Hd. destruct (control_configured creds); [|done].
    unfold direct_credentials in Hd. repeat (apply bind_Some in Hd as (? & ? & Hd)). injection Hd as <-.
    destruct (proj1 Hc eq_refl) as [[? ?] _]. done.
Qed.

Lemma query_pure {A} (g : Db → A) p b : (Buffer.query g p b).1.2 = b.
Proof. unfold Buffer.query, call. destruct (next_fault p) as [[] p']; [done|]. by destruct b. Qed.
Lemma counts_pure p b : (counts p b).1.2 = b.
Proof.
  unfold counts, mbind, M_bind. pose proof (query_pure (λ db, Z.of_nat (length (unclaimed (pending_samples db)))) p b) as Hq.
  destruct (Buffer.query _ p b) as [[[a|e] b1] p1]; simpl in Hq; subst b1; [|done].
  match goal with |- context [Buffer.query ?g p1 b] => pose proof (query_pure g p1 b) as Hq; destruct (Buffer.query g p1 b) as [[[c|e] b2] p2] end;
    exact Hq.
Qed.

(** The buffer the agent starts with is the file's tables under the configured
    cap. *)
Lemma start_agent_buffer path (w w' : W) st : start_agent path w = (Ok st, w') →
  ∃ cfg db w1 w2, Config_load (env_var w) path = Ok cfg ∧ open_tables (buffer_path cfg) w1 = (Ok db, w2) ∧
    started_buffer st = BufferDb_open db (buffer_max_rows cfg) ∧
    datasource_id (started_streamer st) = cfg_datasource_id cfg.
Proof.
  unfold start_agent. destruct (Config_load (env_var w) path) as [cfg|e]; [|done].
  unfold mbind, StE_bind, doing. destruct (init_tracing _ _) as [[[]|e] w1]; [|done].
  destruct (resolve cfg w1) as [[creds|e] w2]; [|done].
  destruct (open_buffer cfg w2) as [[b|e] w3] eqn:Eo; [|done].
  assert (∃ db w4 w5, open_tables (buffer_path cfg) w4 = (Ok db, w5) ∧ b = BufferDb_open db (buffer_max_rows cfg))
    as (db & w4 & w5 & Et & ->).
  { revert Eo. unfold open_buffer, mbind, StE_bind. destruct (match path_parent _ with Some _ => _ | None => _ end) as [[[]|e] w4]; [|done].
    destruct (open_tables (buffer_path cfg) w4) as [[db|e] w5] eqn:Et; [|done]. intros [= <- <-]. by exists db, w4, w5. }
  unfold check_counts. pose proof (counts_pure (buffer_faults w3) (BufferDb_open db (buffer_max_rows cfg))) as Hc.
  destruct (counts _ _) as [[[c|e] b'] p]; [|done]. simpl in Hc. subst b'. intros [= <- <-]. by exists cfg, db, w4, w5.
Qed.

(** ** The tasks *)
Context `{AttrsCodec} `{AckCodec} `{IngestEnv W}.

(** The control channel's task is spawned, the streamer runs in the foreground
    and the task is aborted when it ends. *)
Definition run_tasks (attempts fuel : nat) (st : Started) (w : W) : result Stop () * Sys W :=
  let w := match started_control st with Some (creds, caps) => spawn_control creds caps w | None => w end in
  let '(r, sys) := Ingest.run attempts fuel (started_streamer st) (mkSys w (started_buffer st) (buffer_faults w) 1) in
  (r, match r, started_control st with
      | (Ok _ | Err (Failed _)), Some _ => set_world (abort_control (world sys)) sys
      | _, _ => sys
      end).

(** Either the agent did not start, or its tasks ran. *)
Definition run_agent (attempts fuel : nat) (config_path : option string) (w : W) : result Stop () * (W + Sys W) :=
  match start_agent config_path w with
  | (Err e, w') => (Err (Failed e), inl w')
  | (Ok st, w') => let '(r, sys) := run_tasks attempts fuel st w' in (r, inr sys)
  end.

(** The streamer's loop has no end of its own. *)
Lemma run_endless attempts fuel cfg (s : Sys W) :
  match (Ingest.run attempts fuel cfg s).1 with Ok _ | Err (Failed _) => False | _ => True end.
Proof.
  revert s. induction attempts as [|attempts IH]; intros s; [done|]. cbn [Ingest.run].
  destruct (run_one_attempt fuel cfg s) as [[[]|e] s']; [apply IH|]. destruct e as [e|e| |]; try done.
  unfold get_backoff, await, with_world, mbind, IM_bind. destruct (others _ _ _) as [[[al b] p] w]. destruct al; [|done]. apply IH.
Qed.

Context `{!AttrsCodecOk} `{IngestView W} `{!IngestOk (W := W)}.

(** A run of the agent is a life of the system its buffer file is part of: with
    the tables another life left, it goes on from there. *)
Lemma run_agent_life attempts fuel path w r sys' :
  run_agent attempts fuel path w = (r, inr sys') →
  ∃ cfg db streamer w1 p, Config_load (env_var w) path = Ok cfg ∧ datasource_id streamer = cfg_datasource_id cfg ∧
    ∀ cap (sys : Sys W), conn (buf sys) = db → world sys = w1 → faults sys = p →
      is_u64 (buffer_max_rows cfg) → cap ≤ buffer_max_rows cfg → rtc (life cap streamer) sys sys'.
Proof.
  unfold run_agent. destruct (start_agent path w) as [[st|e] w'] eqn:Es; [|done].
  destruct (start_agent_buffer path w w' st Es) as (cfg & db & wa & wb & Hc & _ & Hb & Hd).
  unfold run_tasks. set (w1 := match started_control st with Some _ => _ | None => _ end).
  pose proof (run_endless attempts fuel (started_streamer st) (mkSys w1 (started_buffer st) (buffer_faults w1) 1)) as He.
  destruct (Ingest.run attempts fuel _ _) as [r1 sys1] eqn:Er. cbn [fst] in He.
  intros E. assert (sys1 = sys') as <-.
  { destruct r1 as [[]|[e|e| |]]; [done|done|..]; by injection E. }
  exists cfg, db, (started_streamer st), w1, (buffer_faults w1). split_and!; [done|done|].
  intros cap sys Ec Ew Ef Hmax Hcap. eapply rtc_l; [by apply (life_restart _ _ sys (buffer_max_rows cfg))|].
  apply rtc_once. rewrite Ec, Ew, Ef, <- Hb. by eapply life_run.
Qed.
End Start.
