(* ===== verification/Service.v ===== *)
(** * The Windows service ([src/winservice.rs]) and [main] ([src/main.rs])

    The service control manager (registration, statuses, the controls it sends)
    and the runtime the agent is spawned on are the interface [Scm]. The control
    handler only signals the stop channel, so a stop that arrives early is kept;
    the main thread waits on the channel. *)
From S2P Require Import Prelude.
Local Open Scope Z_scope.

Inductive ServiceControl := Stop | Shutdown | Interrogate | OtherControl (code : Z).
Inductive ServiceState := Running | Stopped.
Inductive ServiceControlHandlerResult := NoError | NotImplemented.
Record ServiceStatus := mkServiceStatus {
  current_state : ServiceState;
  accepts_stop : bool;
  accepts_shutdown : bool;
}.

Definition SERVICE_NAME : string := "LymonAgent".

(** The handler: whether it signals the stop channel, and its answer. *)
Definition handler (control : ServiceControl) : bool * ServiceControlHandlerResult :=
  match control with
  | Stop | Shutdown => (true, NoError)
  | Interrogate => (false, NoError)
  | OtherControl _ => (false, NotImplemented)
  end.

Definition status (state : ServiceState) (accept : bool) : ServiceStatus :=
  mkServiceStatus state accept accept.

(** The operations of the environment. [dispatcher_start] fails when the process
    was not launched by the control manager. *)
Class Scm (W : Type) := {
  dispatcher_start : string → W → result string () * W;
  register : string → W → result string () * W;
  set_service_status : ServiceStatus → W → result string () * W;
  build_runtime : W → result string () * W;
  spawn_agent : option string → W → W;
  abort_agent : W → W;
  next_control : W → option ServiceControl * W;
  answer_control : ServiceControl → ServiceControlHandlerResult → W → W;
  eprintln : string → W → W;
}.

(** The process: [CONFIG_PATH], a cell that is set once. *)
Record Service (W : Type) := mkService { config_cell : option (option string); scm : W }.
Arguments mkService {W} _ _.
Arguments config_cell {W} _.
Arguments scm {W} _.

Section Service.
Context {W : Type} `{Scm W}.

Definition SM (A : Type) : Type := HangE (Service W) A.
Definition with_scm {A} (m : StE W A) : SM A :=
  zoom scm (λ w s, mkService (config_cell s) w) (hang_total m).
Definition do_scm (f : W → W) : SM () := hang_modify (λ s, mkService (config_cell s) (f (scm s))).

(** [stop_rx.recv()]: the handler answers the controls until one signals the
    channel. [fuel] bounds the controls; without a stop the service runs on. *)
Fixpoint wait_stop (fuel : nat) : SM () :=
  match fuel with
  | O => hang
  | S fuel =>
      c ← with_scm (λ w, let '(c, w) := next_control w in (Ok c, w));
      match c with
      | None => hang
      | Some control =>
          let '(stops, res) := handler control in
          do_scm (answer_control control res);;
          if stops : bool then mret () else wait_stop fuel
      end
  end.

Definition run_service (fuel : nat) : SM () :=
  with_scm (register SERVICE_NAME);;
  with_scm (set_service_status (status Running true));;
  with_scm build_runtime;;
  cfg ← hang_gets (λ s, mjoin (config_cell s));
  do_scm (spawn_agent cfg);;
  wait_stop fuel;;
  do_scm abort_agent;;
  with_scm (set_service_status (status Stopped false)).

Definition service_main (fuel : nat) : SM () :=
  r ← hang_attempt (run_service fuel);
  match r with
  | Ok _ => mret ()
  | Err e => do_scm (eprintln ("lymon-agent service error: " +:+ e))
  end.

(** [winservice::run]: the dispatcher calls [service_main] and returns when the
    service has stopped. *)
Definition run (fuel : nat) (config_path : option string) : SM () :=
  hang_modify (λ s, mkService (match config_cell s with Some c => Some c | None => Some config_path end) (scm s));;
  with_scm (dispatcher_start SERVICE_NAME);;
  service_main fuel.

(** [main]: in service mode the control manager drives; otherwise the agent runs
    in the foreground ([run_agent]). *)
Definition main (fuel : nat) (windows service : bool) (config : option string) (run_agent : option string → SM ()) : SM () :=
  if windows && service then run fuel config
  else with_scm build_runtime;; run_agent config.
End Service.

(** ** What the control manager sees *)

(** What the service promises about the controls, whatever its handler does: Stop
    and Shutdown end it, they and Interrogate are acknowledged, and anything else
    is not implemented. *)
Definition stops (c : ServiceControl) : Prop := c = Stop ∨ c = Shutdown.
Definition promised (c : ServiceControl) : ServiceControlHandlerResult :=
  match c with OtherControl _ => NotImplemented | Stop | Shutdown | Interrogate => NoError end.
#[export] Instance stops_dec c : Decision (stops c).
Proof. destruct c; first [left; by (left + right) | right; by intros [|]]. Defined.

Lemma handler_keeps c : (handler c).2 = promised c ∧ ((handler c).1 = true ↔ stops c).
Proof. unfold stops. destruct c; simpl; naive_solver. Qed.

Inductive Event :=
| EStatus (st : ServiceStatus) | EStarted (cfg : option string) | EAborted
| EControl (c : ServiceControl) (r : ServiceControlHandlerResult).

Section Trace.
Context {W : Type} `{Scm W} (trace : W → list Event).

(** The environment writes down what it was asked. *)
Record Traced : Prop := {
  tr_register : ∀ n w, trace (register n w).2 = trace w;
  tr_status : ∀ st w, trace (set_service_status st w).2 =
    trace w ++ (if is_ok (set_service_status st w).1 then [EStatus st] else []);
  tr_runtime : ∀ w, trace (build_runtime w).2 = trace w;
  tr_spawn : ∀ cfg w, trace (spawn_agent cfg w) = trace w ++ [EStarted cfg];
  tr_abort : ∀ w, trace (abort_agent w) = trace w ++ [EAborted];
  tr_next : ∀ w, trace (next_control w).2 = trace w;
  tr_answer : ∀ c r w, trace (answer_control c r w) = trace w ++ [EControl c r];
}.
Context (Htr : Traced).

Definition answered (c : ServiceControl) : Event := EControl c (promised c).

Lemma wait_stop_trace fuel s r s' :
  wait_stop fuel s = (r, s') →
  config_cell s' = config_cell s ∧ ∃ cs, trace (scm s') = trace (scm s) ++ (answered <$> cs) ∧
    match r with
    | Some (Ok _) => ∃ cs0 c, cs = cs0 ++ [c] ∧ stops c ∧ Forall (λ c, ¬ stops c) cs0
    | Some (Err _) => False
    | None => Forall (λ c, ¬ stops c) cs
    end.
Proof.
  revert s. induction fuel as [|fuel IH]; intros s; cbn [wait_stop].
  { intros [= <- <-]. split; [done|]. exists []. by rewrite app_nil_r. }
  unfold mbind at 1, HangE_bind at 1, with_scm, zoom, hang_total. pose proof (tr_next Htr (scm s)) as Hn.
  destruct (next_control (scm s)) as [[c|] w]; simpl in Hn.
  2:{ intros [= <- <-]. split; [done|]. exists []. simpl. by rewrite app_nil_r. }
  pose proof (handler_keeps c) as Hh. destruct (handler c) as [st res]. destruct Hh as [Hres Hstop]. simpl in Hres, Hstop.
  unfold mbind, HangE_bind, do_scm, hang_modify. cbn [config_cell scm].
  pose proof (tr_answer Htr c res w) as Ha. assert (answered c = EControl c res) as Ec by (unfold answered; by rewrite Hres).
  destruct st.
  - intros [= <- <-]. split; [done|]. exists [c]. cbn. rewrite Ha, Hn, Ec. split; [done|].
    exists [], c. split_and!; [done|by apply Hstop|constructor].
  - intros E. apply IH in E as (Hcell & cs & Ht & Hr). split; [done|]. exists (c :: cs). cbn in Ht.
    rewrite Ht, Ha, Hn, fmap_cons, Ec, <- (assoc_L (++)). split; [done|].
    assert (¬ stops c) by (by intros ?%Hstop). destruct r as [[[]|e]|]; [|done|by constructor].
    destruct Hr as (cs0 & c' & -> & Hst & Hall). exists (c :: cs0), c'. split_and!; [done|done|by constructor].
Qed.

(** C40. The life of the service: when [run_service] returns without an error it
    has reported Running, started the agent with the stored configuration path,
    answered the controls until the first Stop or Shutdown (Interrogate is
    acknowledged, anything else refused), aborted the agent and only then
    reported Stopped; while no stop arrives the agent runs, and an error before
    the agent starts starts nothing. What stops and what is answered is said of
    the controls, not of the handler. *)
Theorem run_service_life fuel s r s' :
  run_service fuel s = (r, s') → ∃ seen, trace (scm s') = trace (scm s) ++ seen ∧
  let up := [EStatus (status Running true); EStarted (mjoin (config_cell s))] in
  match r with
  | Some (Ok _) => ∃ cs c, Forall (λ c, ¬ stops c) cs ∧ stops c ∧
      seen = up ++ (answered <$> cs ++ [c]) ++ [EAborted; EStatus (status Stopped false)]
  | Some (Err _) => (∀ cfg, EStarted cfg ∉ seen) ∨ (∃ before, seen = before ++ [EAborted])
  | None => ∃ cs, Forall (λ c, ¬ stops c) cs ∧ seen = up ++ (answered <$> cs)
  end.
Proof.
  unfold run_service. unfold mbind at 1, HangE_bind at 1, with_scm at 1, zoom, hang_total.
  pose proof (tr_register Htr SERVICE_NAME (scm s)) as H1.
  destruct (register SERVICE_NAME (scm s)) as [[[]|e] w1]; simpl in H1.
  2:{ intros [= <- <-]. exists []. simpl. rewrite H1, app_nil_r. split; [done|]. left. set_solver. }
  unfold mbind at 1, HangE_bind at 1, with_scm at 1, zoom, hang_total. cbn [scm config_cell].
  pose proof (tr_status Htr (status Running true) w1) as H2.
  destruct (set_service_status _ w1) as [[[]|e] w2]; simpl in H2.
  2:{ intros [= <- <-]. exists []. simpl. rewrite H2, H1, !app_nil_r. split; [done|]. left. set_solver. }
  unfold mbind at 1, HangE_bind at 1, with_scm at 1, zoom, hang_total. cbn [scm config_cell].
  pose proof (tr_runtime Htr w2) as H3. destruct (build_runtime w2) as [[[]|e] w3]; simpl in H3.
  2:{ intros [= <- <-]. exists [EStatus (status Running true)]. simpl. rewrite H3, H2, H1. split; [done|]. left. set_solver. }
  unfold mbind at 1, HangE_bind at 1, hang_gets. unfold mbind at 1, HangE_bind at 1, do_scm at 1, hang_modify. cbn [scm config_cell].
  pose proof (tr_spawn Htr (mjoin (config_cell s)) w3) as H4.
  unfold mbind at 1, HangE_bind at 1.
  destruct (wait_stop fuel _) as [r1 s1] eqn:Ew. apply wait_stop_trace in Ew as (_ & cs & Ht & Hr). cbn [scm] in Ht.
  set (up := [EStatus _; EStarted _]).
  assert (trace (scm s1) = trace (scm s) ++ up ++ (answered <$> cs)) as Hup.
  { rewrite Ht, H4, H3, H2, H1, <- !app_assoc. done. }
  destruct r1 as [[[]|e]|]; [|done|].
  2:{ intros [= <- <-]. exists (up ++ (answered <$> cs)). split; [done|]. by exists cs. }
  destruct Hr as (cs0 & c & -> & Hst & Hall).
  unfold mbind, HangE_bind, do_scm, hang_modify, with_scm, zoom, hang_total. cbn [scm config_cell].
  pose proof (tr_abort Htr (scm s1)) as H5. pose proof (tr_status Htr (status Stopped false) (abort_agent (scm s1))) as H6.
  destruct (set_service_status _ (abort_agent (scm s1))) as [[[]|e] w4]; simpl in H6; intros [= <- <-]; cbn [scm].
  - exists (up ++ (answered <$> cs0 ++ [c]) ++ [EAborted; EStatus (status Stopped false)]).
    split; [by rewrite H6, H5, Hup, <- !app_assoc|]. by exists cs0, c.
  - exists (up ++ (answered <$> cs0 ++ [c]) ++ [EAborted]).
    split; [by rewrite H6, H5, Hup, app_nil_r, <- !app_assoc|]. right. eexists. by rewrite app_assoc.
Qed.
End Trace.

(** ** A service that is stopped after an Interrogate *)
Module ServiceRun.
Record Manager := mkManager { controls : list ServiceControl; seen : list Event }.
Definition note (e : Event) (w : Manager) : Manager := mkManager (controls w) (seen w ++ [e]).
#[local] Instance scm : Scm Manager := {|
  dispatcher_start _ w := (Ok (), w);
  register _ w := (Ok (), w);
  set_service_status st w := (Ok (), note (EStatus st) w);
  build_runtime w := (Ok (), w);
  spawn_agent cfg := note (EStarted cfg);
  abort_agent := note EAborted;
  next_control w := (head (controls w), mkManager (tail (controls w)) (seen w));
  answer_control c r := note (EControl c r);
  eprintln _ w := w;
|}.

Lemma traced : Traced seen.
Proof. by split. Qed.

Definition service : Service Manager :=
  mkService (Some (Some "agent.toml")) (mkManager [Interrogate; OtherControl 7; Shutdown; Stop] []).

(** The Interrogate is acknowledged, the control 7 refused, and the Shutdown ends
    the service: the Stop after it is never taken. *)
Lemma run_service_life_witness :
  let w := Service.scm (run_service 5 service).2 in
  seen w = [EStatus (status Running true); EStarted (Some "agent.toml"); EControl Interrogate NoError;
            EControl (OtherControl 7) NotImplemented; EControl Shutdown NoError; EAborted;
            EStatus (status Stopped false)] ∧
  ∃ cs c, Forall (λ c, ¬ stops c) cs ∧ stops c ∧
    seen w = [EStatus (status Running true); EStarted (Some "agent.toml")] ++
             (answered <$> cs ++ [c]) ++ [EAborted; EStatus (status Stopped false)].
Proof.
  split; [vm_compute; reflexivity|].
  destruct (run_service_life seen traced 5 service _ _ (surjective_pairing _)) as (l & Et & Hl).
  assert ((run_service 5 service).1 = Some (Ok ())) as E by (vm_compute; reflexivity).
  rewrite E in Hl. destruct Hl as (cs & c & Hcs & Hc & ->). exists cs, c. split_and!; [exact Hcs|exact Hc|exact Et].
Defined.
End ServiceRun.
