(* ===== verification/Control.v ===== *)
(** * The control channel ([src/control.rs], lines 36 to 732)

    The frames of the cloud and what the agent does with them: provisioning,
    queries, writes, subscriptions, updates and logs. Queries, writes and
    subscribe requests are handled by tasks of their own: a [Channel] keeps the
    tasks spawned and not yet run, and an event list says in which order frames
    arrive and tasks run. *)
From Stdlib Require Import Ascii.
From S2P Require Import Prelude Float Proto Buffer RustStr Json Jobs Plugins Modbus Write Pss Collector Logbuf Enroll.
Set Warnings "-register-all".
Local Open Scope Z_scope.

(** ** Provision frames *)

(** A datasource the agent fronts. *)
Record ProvisionedDs (J : Type) := mkProvisionedDs { pd_type : string; pd_config : J; pd_secrets : J }.
Arguments mkProvisionedDs {J} _ _ _.
Arguments pd_type {J} _.
Arguments pd_config {J} _.
Arguments pd_secrets {J} _.

Section Parse.
Context `{Json J}.

Definition parse_connector (c : J) : option (string * Conn J) :=
  id ← get_str c "connector_id";
  Some (id, mkConn (str_or "" c "type") (get_or_null c "config") (get_or_null c "secrets")
              (list_to_set (target_key <$> default [] (get_array c "writable_targets")))).

Definition parse_connectors (v : J) : list (string * Conn J) :=
  omap parse_connector (default [] (get_array v "connectors")).

Definition parse_ingest (i : J) : option (Job J) :=
  ingest_id ← get_str i "ingest_id";
  connector_id ← get_str i "connector_id";
  Some (mkJob ingest_id connector_id (get_or_null i "selection") (default 60 (get_u64 i "interval_s"))
          (get_or_null i "naming") (get_or_null i "transform")).

Definition parse_ingests (v : J) : list (Job J) :=
  omap parse_ingest (default [] (get_array v "ingests")).

(** [s.insert(id, ..)] for an element with an id. *)
Definition insert_datasource (s : gmap string (ProvisionedDs J)) (d : J) : gmap string (ProvisionedDs J) :=
  match get_str d "datasource_id" with
  | Some id => <[id := mkProvisionedDs (str_or "" d "type") (get_or_null d "config") (get_or_null d "secrets")]> s
  | None => s
  end.

Definition provision_datasources (v : J) (s : gmap string (ProvisionedDs J)) : gmap string (ProvisionedDs J) :=
  let partial := default false (get_bool v "partial") in
  match get_array v "datasources" with
  | None => s
  | Some l => foldl insert_datasource (if partial : bool then s else ∅) l
  end.

(** The signing key the frame carries. *)
Definition frame_key `{Crypto} (v : J) : option string := get_str v "control_public_key" ≫= base64_decode.
End Parse.

(** ** Self-update *)

(** The environment variable, the file system and the log ring. *)
Class Machine (W : Type) := {
  buffer_path_var : W → option string;
  fs_write : string → string → W → result string () * W;
  log_ring : W → list string;
}.

Definition safe_byte (c : ascii) : bool := is_alnum c || bool_decide (c ∈ ["."; "_"; "-"]%char).
Definition safe_tag (s : string) : bool :=
  let body := default s (strip_prefix "v" s) in
  negb (bool_decide (body = "")) && (slen body <=? 64) && sforall safe_byte body.
Definition safe_repo (r : string) : bool :=
  (slen r <=? 140) && (scount "/" r =? 1) && sforall (λ c, safe_byte c || bool_decide (c = "/"%char)) r.

Section Update.
Context `{Json J} {W : Type} `{Machine W}.

Definition update_path (w : W) : string :=
  let buffer_path := default "/var/lib/lymon-agent/buffer.db" (buffer_path_var w) in
  path_append (default "." (path_parent buffer_path)) "update-request.json".

Definition update_payload (version : string) (repo : option string) : J :=
  match repo with
  | Some r => j_object [("version", j_str version); ("repo", j_str r)]
  | None => j_object [("version", j_str version)]
  end.

Definition request_update (version : string) (repo : option string) : StE W string := λ w,
  if negb (safe_tag version) then (Err ("invalid version " +:+ debug_str version), w) else
  match repo with
  | Some r => if negb (safe_repo r) then (Err ("invalid repo " +:+ debug_str r), w) else
      context "writing update-request.json"
        (fs_write (update_path w) (to_string (update_payload version repo));; mret (update_path w)) w
  | None =>
      context "writing update-request.json"
        (fs_write (update_path w) (to_string (update_payload version repo));; mret (update_path w)) w
  end.
End Update.

(** ** The state of one connection *)

(** Frames of the cloud, and frames sent. *)
Inductive Frame := FText (text : string) | FPing (payload : string) | FClose | FOther | FError (e : string).
Inductive Out (J : Type) := OText (j : J) | OPong (payload : string).
Arguments OText {J} j.
Arguments OPong {J} payload.

(** A task spawned by the read loop. *)
Inductive Handler (J : Type) := HQuery (req : J) | HWrite (req : J) | HSubscribe (req : J).
Arguments HQuery {J} req.
Arguments HWrite {J} req.
Arguments HSubscribe {J} req.

(** A task of [stream_point]: its connector, point and request. *)
Record Stream (J : Type) := mkStream { st_conn : Conn J; st_job : Job J; st_request : string }.
Arguments mkStream {J} _ _ _.
Arguments st_conn {J} _.
Arguments st_job {J} _.
Arguments st_request {J} _.

Record Channel (J W : Type) := mkChannel {
  ch_agent : Agent J W;
  ch_tasks : Tasks J;
  ch_store : gmap string (ProvisionedDs J);
  ch_subs : gmap string (list nat);
  ch_streams : gmap nat (Stream J);
  ch_next : nat;
  ch_handlers : list (Handler J);
  ch_sent : list (Out J);
}.
Arguments mkChannel {J W} _ _ _ _ _ _ _ _.
Arguments ch_agent {J W} _.
Arguments ch_tasks {J W} _.
Arguments ch_store {J W} _.
Arguments ch_subs {J W} _.
Arguments ch_streams {J W} _.
Arguments ch_next {J W} _.
Arguments ch_handlers {J W} _.
Arguments ch_sent {J W} _.

Section Channel.
Context `{Json J} `{Crypto} `{PssXml} {DT : Type} `{Chrono DT}.
Context {W : Type} `{Http W} `{ModbusNet W} `{Procs W} `{Machine W}.
Implicit Types c : Channel J W.

Definition set_agent (a : Agent J W) c : Channel J W :=
  mkChannel a (ch_tasks c) (ch_store c) (ch_subs c) (ch_streams c) (ch_next c) (ch_handlers c) (ch_sent c).
Definition set_handlers (hs : list (Handler J)) c : Channel J W :=
  mkChannel (ch_agent c) (ch_tasks c) (ch_store c) (ch_subs c) (ch_streams c) (ch_next c) hs (ch_sent c).
Definition set_subs (s : gmap string (list nat)) (st : gmap nat (Stream J)) c : Channel J W :=
  mkChannel (ch_agent c) (ch_tasks c) (ch_store c) s st (ch_next c) (ch_handlers c) (ch_sent c).
Definition send (os : list (Out J)) c : Channel J W :=
  mkChannel (ch_agent c) (ch_tasks c) (ch_store c) (ch_subs c) (ch_streams c) (ch_next c) (ch_handlers c)
    (ch_sent c ++ os).
Definition spawn_handler (h : Handler J) c : Channel J W := set_handlers (ch_handlers c ++ [h]) c.
Definition chan_world c : W := os (host_os (ch_agent c)).
Definition set_chan_world (w : W) c : Channel J W :=
  set_agent (set_host (mkHost (procs (host_os (ch_agent c))) w) (ch_agent c)) c.

(** *** Queries *)
Definition MAX_ROWS : nat := Z.to_nat 100000.

(** The type, configuration and secrets of a datasource or a connector. *)
Definition resolve_origin (ds_id : string) (store : gmap string (ProvisionedDs J)) (conns : gmap string (Conn J)) :
    option (string * J * J) :=
  match store !! ds_id with
  | Some d => Some (pd_type d, pd_config d, pd_secrets d)
  | None => (λ cn, (ds_type cn, config cn, secrets cn)) <$> conns !! ds_id
  end.

Definition on_http {A} (m : StE W A) : HM W A := λ h,
  let '(r, w) := m (os h) in (r, mkHost (procs h) w).

Definition run_query (h : PluginHost) (op ds_type : string) (config secrets args : J) (timeout_ms : Z) : HM W J :=
  if decide (op = "read") then
    let points := get_or_null args "points" in
    match for_type h ds_type with
    | Some (i, p) =>
        samples ← read_points i p ds_type config secrets points;
        mret (j_object [("samples", samples)])
    | None => fail ("agent has no plugin for " +:+ ds_type +:+ " read")
    end
  else if decide (ds_type = "pss") then on_http (Pss.run op args config secrets timeout_ms MAX_ROWS)
  else
    match for_type h ds_type with
    | Some (i, p) => Plugins.query i p op ds_type config secrets args
    | None => fail ("agent has no adapter for " +:+ ds_type +:+ "." +:+ op +:+ " yet")
    end.

Definition query_ok (request_id : string) (result : J) : J :=
  j_object [("kind", j_str "query_response"); ("request_id", j_str request_id); ("ok", j_bool true);
            ("result", result)].
Definition respond_err (request_id code detail : string) : J :=
  j_object [("kind", j_str "query_response"); ("request_id", j_str request_id); ("ok", j_bool false);
            ("error", j_object [("code", j_str code); ("detail", j_str detail)])].

Definition handle_query (req : J) (store : gmap string (ProvisionedDs J)) (a : Agent J W) : J * Agent J W :=
  let request_id := str_or "" req "request_id" in
  let ds_id := str_or "" req "datasource_id" in
  let op := str_or "" req "op" in
  let args := get_or_null req "args" in
  let timeout_ms := default 30000 (get_u64 req "timeout_ms") in
  match resolve_origin ds_id store (connectors a) with
  | None => (respond_err request_id "agent_unknown_datasource" ("agent has no config for " +:+ ds_id), a)
  | Some (t, cfg, sec) =>
      let '(r, h) := run_query (plugin_host a) op t cfg sec args timeout_ms (host_os a) in
      (match r with
       | Ok result => query_ok request_id result
       | Err e => respond_err request_id "agent_query_failed" e
       end, set_host h a)
  end.

(** *** Subscriptions *)

Definition subscribe_ack (request_id : string) (supported : bool) : J :=
  j_object [("kind", j_str "subscribe_ack"); ("request_id", j_str request_id); ("supported", j_bool supported)].

(** The ingest of the [i]-th point. *)
Definition point_job (request_id connector_id : string) (i : nat) (pt : J) : Job J :=
  let variable_id := default (dec (Z.of_nat i)) (jget pt "naming" ≫= λ n, get_str n "variable_id") in
  mkJob ("sub:" +:+ request_id +:+ ":" +:+ dec (Z.of_nat i)) connector_id (get_or_null pt "selection") 0
    (j_object [("variable_id", j_str variable_id)]) j_null.

(** Spawn one stream per point and keep the handles. *)
Definition open_subscription (request_id : string) (conn : Conn J) (jobs : list (Job J)) c : Channel J W :=
  let ids := seq (ch_next c) (length jobs) in
  let streams := list_to_map (zip ids ((λ ing, mkStream conn ing request_id) <$> jobs)) in
  mkChannel (ch_agent c) (ch_tasks c) (ch_store c) (<[request_id := ids]> (ch_subs c))
    (streams ∪ ch_streams c) (ch_next c + length jobs)%nat (ch_handlers c) (ch_sent c).

Definition handle_subscribe (req : J) c : Channel J W :=
  let request_id := str_or "" req "request_id" in
  let connector_id := str_or "" req "connector_id" in
  let ds_type := str_or "" req "ds_type" in
  let points := default [] (get_array req "points") in
  match connectors (ch_agent c) !! connector_id with
  | Some conn =>
      if bool_decide (is_Some (for_type (plugin_host (ch_agent c)) ds_type)) && negb (bool_decide (length points = 0%nat)) then
        open_subscription request_id conn (imap (point_job request_id connector_id) points)
          (send [OText (subscribe_ack request_id true)] c)
      else send [OText (subscribe_ack request_id false)] c
  | None => send [OText (subscribe_ack request_id false)] c
  end.

(** Abort the tasks of some handles. *)
Definition abort_streams (ids : list nat) (st : gmap nat (Stream J)) : gmap nat (Stream J) :=
  filter (λ p, p.1 ∉ ids) st.

Definition unsubscribe (request_id : string) c : Channel J W :=
  match ch_subs c !! request_id with
  | Some ids => set_subs (delete request_id (ch_subs c)) (abort_streams ids (ch_streams c)) c
  | None => c
  end.

(** *** The tasks spawned *)
Definition run_handler (h : Handler J) c : Channel J W :=
  match h with
  | HQuery req => let '(f, a) := handle_query req (ch_store c) (ch_agent c) in send [OText f] (set_agent a c)
  | HWrite req => let '(fs, a) := handle_write req (ch_agent c) in send (OText <$> fs) (set_agent a c)
  | HSubscribe req => handle_subscribe req c
  end.

(** *** Frames *)

Definition provision (v : J) c : Channel J W :=
  let a := ch_agent c in
  let touched := bool_decide (is_Some (jget v "connectors")) || bool_decide (is_Some (jget v "ingests")) in
  let '(conns, tasks) :=
    if touched then reconfigure (parse_connectors v) (parse_ingests v) (ch_tasks c)
    else (connectors a, ch_tasks c) in
  mkChannel (mkAgent conns (frame_key v) (plugin_host a) (host_os a)) tasks
    (provision_datasources v (ch_store c)) (ch_subs c) (ch_streams c) (ch_next c) (ch_handlers c) (ch_sent c).

Definition logs_response (v : J) (ring : list string) : J :=
  j_object [("kind", j_str "logs_response"); ("request_id", j_str (str_or "" v "request_id"));
            ("lines", j_array (j_str <$> Logbuf.tail (Z.to_nat (default 500 (get_u64 v "lines"))) ring))].

(** One text frame; an error ends the connection. *)
Definition on_text (v : J) c : result string () * Channel J W :=
  let kind := str_or "" v "kind" in
  if decide (kind = "hello_ack") then
    if default false (get_bool v "ok") then (Ok (), c)
    else (Err ("hello rejected: " +:+ str_or "rejected" v "detail"), c)
  else if decide (kind = "provision") then (Ok (), provision v c)
  else if decide (kind = "query_request") then (Ok (), spawn_handler (HQuery v) c)
  else if decide (kind = "write_request") then (Ok (), spawn_handler (HWrite v) c)
  else if decide (kind = "subscribe_request") then (Ok (), spawn_handler (HSubscribe v) c)
  else if decide (kind = "unsubscribe_request") then
    (Ok (), match get_str v "request_id" with Some id => unsubscribe id c | None => c end)
  else if decide (kind = "update") then
    (Ok (), set_chan_world (request_update (str_or "" v "version") (get_str v "repo") (chan_world c)).2 c)
  else if decide (kind = "get_logs") then (Ok (), send [OText (logs_response v (log_ring (chan_world c)))] c)
  else (Ok (), c).

(** The read loop goes on, or ends. *)
Inductive Flow := Continue | Ended (r : result string ()).

Definition on_frame (f : Frame) c : Flow * Channel J W :=
  match f with
  | FError _ => (Ended (Err "ws read"), c)
  | FText t =>
      match from_str t with
      | None => (Continue, c)
      | Some v => let '(r, c) := on_text v c in (match r with Ok () => Continue | Err e => Ended (Err e) end, c)
      end
  | FPing p => (Continue, send [OPong p] c)
  | FClose => (Ended (Ok ()), c)
  | FOther => (Continue, c)
  end.

(** What happens on a connection, in order: a frame arrives, the stream of frames
    ends, or a spawned task runs. *)
Inductive Event := EFrame (f : Frame) | EEnd | ERun (i : nat).

Definition on_event (e : Event) c : Flow * Channel J W :=
  match e with
  | EFrame f => on_frame f c
  | EEnd => (Ended (Ok ()), c)
  | ERun i =>
      match ch_handlers c !! i with
      | Some h => (Continue, run_handler h (set_handlers (delete i (ch_handlers c)) c))
      | None => (Continue, c)
      end
  end.

Fixpoint read_loop (es : list Event) c : Flow * Channel J W :=
  match es with
  | [] => (Continue, c)
  | e :: es =>
      match on_event e c with
      | (Continue, c) => read_loop es c
      | (Ended r, c) => (Ended r, c)
      end
  end.

(** The end of [serve]: every subscription's tasks are aborted. *)
Definition teardown c : Channel J W :=
  set_subs ∅ (abort_streams (mjoin (map_to_list (ch_subs c)).*2) (ch_streams c)) c.
End Channel.

(** ** A subscribed point *)

(** The writer queue as a task of [stream_point] sees it. *)
Class Link (J W : Type) := {
  link_send : J → W → bool * W;
  link_closed : W → bool;
}.

Section StreamPoint.
Context `{Json J} {W : Type} `{Procs W} `{Clock W} `{Link J W}.

Definition point_json (s : Sample) : J :=
  j_object [("variable_id", j_str (point_id s)); ("value", j_f64 (value s)); ("ts_ms", j_i64 (ts_ms s));
            ("quality", j_u64 (quality s))].
Definition point_data (request_id : string) (samples : list Sample) : J :=
  j_object [("kind", j_str "point_data"); ("request_id", j_str request_id);
            ("samples", j_array (point_json <$> samples))].

(** Why the loop over one plugin stream stopped. *)
Inductive StreamEnd := Reopen | ChannelGone | Bound.

Fixpoint forward (fuel : nat) (pid : Z) (request_id : string) : HM W StreamEnd :=
  match fuel with
  | O => mret Bound
  | S fuel => λ h,
      match stream_next fuel pid h with
      | (Ok (Batch samples), h) =>
          (ok ← with_os (link_send (point_data request_id samples));
           if ok : bool then forward fuel pid request_id else mret ChannelGone) h
      | (Ok Closed, h) | (Err _, h) => (Ok Reopen, h)
      | (Ok Plugins.Pending, h) => (Ok Bound, h)
      end
  end.

(** The stream dropped at the end of each round kills its process. *)
Fixpoint stream_point (rounds fuel : nat) (p : Plugin) (conn : Conn J) (ing : Job J) (request_id : string) : HM W () :=
  match rounds with
  | O => mret ()
  | S rounds => λ h,
      let again : HM W () :=
        closed ← with_os (λ w, (link_closed w, w));
        if closed : bool then mret () else
        with_os (λ w, ((), sleep_ns (ns_of_s 2) w));;
        stream_point rounds fuel p conn ing request_id in
      match Plugins.open_stream p conn ing h with
      | (Err _, h) => again h
      | (Ok pid, h) =>
          (e ← forward fuel pid request_id;
           match e with
           | Bound => mret ()
           | ChannelGone => with_os (λ w, ((), os_kill pid w))
           | Reopen => with_os (λ w, ((), os_kill pid w));; again
           end) h
      end
  end.

Definition run_stream_point (rounds fuel : nat) (h : PluginHost) (st : Stream J) : HM W () :=
  match for_type h (ds_type (st_conn st)) with
  | None => mret ()
  | Some (_, p) => stream_point rounds fuel p (st_conn st) (st_job st) (st_request st)
  end.
End StreamPoint.

(** ** The connection loop *)
Section Serve.
Context `{Json J} `{Crypto} `{PssXml} {DT : Type} `{Chrono DT}.
Context {W : Type} `{Http W} `{ModbusNet W} `{Procs W} `{Machine W}.
Context (agent_version : string).

Definition hello (agent_id tenant_id token : string) (capabilities : list string) : J :=
  j_object [("kind", j_str "hello"); ("agent_id", j_str agent_id); ("tenant_id", j_str tenant_id);
            ("token", j_str token); ("capabilities", j_array (j_str <$> capabilities));
            ("agent_version", j_str agent_version)].
Definition heartbeat (agent_id : string) : J :=
  j_object [("kind", j_str "heartbeat"); ("agent_id", j_str agent_id)].

(** A new connection: no datasource, subscription or task of the last one. *)
Definition open_channel (first : J) (a : Agent J W) (t : Tasks J) : Channel J W :=
  mkChannel a t ∅ ∅ ∅ 0%nat [] [OText first].

(** What happens while connected: an event of the read loop, or a heartbeat. *)
Inductive Activity := Act (e : Event) | Beat.

(** The tasks spawned outlive the connection: those that run after its end still
    act, but what they send is lost. *)
Fixpoint serve_late (acts : list Activity) (c : Channel J W) : Channel J W :=
  match acts with
  | Act (ERun i) :: acts =>
      let c' := (on_event (ERun i) c).2 in
      serve_late acts (mkChannel (ch_agent c') (ch_tasks c') (ch_store c') (ch_subs c') (ch_streams c')
                         (ch_next c') (ch_handlers c') (ch_sent c))
  | _ :: acts => serve_late acts c
  | [] => c
  end.

Fixpoint serve_loop (agent_id : string) (acts : list Activity) (c : Channel J W) : option (result string ()) * Channel J W :=
  match acts with
  | [] => (None, c)
  | Beat :: acts => serve_loop agent_id acts (send [OText (heartbeat agent_id)] c)
  | Act e :: acts =>
      match on_event e c with
      | (Continue, c) => serve_loop agent_id acts c
      | (Ended r, c) => (Some r, serve_late acts (teardown c))
      end
  end.

(** [None] while the connection is still open; [connected] is whether the
    WebSocket opens. *)
Definition serve (agent_id tenant_id token : string) (capabilities : list string) (connected : bool)
    (acts : list Activity) (a : Agent J W) (t : Tasks J) : option (result string ()) * Channel J W :=
  let c := open_channel (hello agent_id tenant_id token capabilities) a t in
  if connected then serve_loop agent_id acts c
  else (Some (Err "ws connect"), mkChannel a t ∅ ∅ ∅ 0%nat [] []).

(** Connections one after the other: the waits between them, in seconds. *)
Fixpoint reconnect_loop (agent_id tenant_id token : string) (capabilities : list string)
    (scripts : list (bool * list Activity)) (backoff : Z) (a : Agent J W) (t : Tasks J) : list Z * (Agent J W * Tasks J) :=
  match scripts with
  | [] => ([], (a, t))
  | (connected, acts) :: scripts =>
      let '(r, c) := serve agent_id tenant_id token capabilities connected acts a t in
      match r with
      | None => ([], (ch_agent c, ch_tasks c))
      | Some _ =>
          let '(waits, s) :=
            reconnect_loop agent_id tenant_id token capabilities scripts (Z.min (backoff * 2) 30) (ch_agent c) (ch_tasks c) in
          (backoff :: waits, s)
      end
  end.

Definition run (creds : Credentials) (capabilities : list string) (scripts : list (bool * list Activity))
    (a : Agent J W) (t : Tasks J) : list Z * (Agent J W * Tasks J) :=
  match cr_control_endpoint creds, cr_tenant_id creds with
  | Some url, Some tenant_id =>
      reconnect_loop (cr_agent_id creds) tenant_id (cr_token creds) capabilities scripts 1 a t
  | _, _ => ([], (a, t))
  end.
End Serve.
