(* ===== verification/ControlProps.v ===== *)
(** * Properties of the control channel

    Provision frames and the state they leave, the answer of every query, the
    bookkeeping of subscriptions, and what a self-update request can write. *)
From Stdlib Require Import Ascii.
From S2P Require Import Prelude Float Proto Buffer RustStr Json Jobs Plugins Modbus Write Pss Collector CollectorProps Logbuf Enroll Control.
Set Warnings "-register-all".
Local Open Scope Z_scope.

(** ** Provisioning *)
Section Provision.
Context `{Json J} `{Crypto} {W : Type}.
Implicit Types c : Channel J W.

Definition datasource_entry (d : J) : option (string * ProvisionedDs J) :=
  id ← get_str d "datasource_id";
  Some (id, mkProvisionedDs (str_or "" d "type") (get_or_null d "config") (get_or_null d "secrets")).

Lemma insert_datasources_lookup ds (m : gmap string (ProvisionedDs J)) id :
  foldl insert_datasource m ds !! id =
  match assoc_last id (omap datasource_entry ds) with Some d => Some d | None => m !! id end.
Proof.
  revert m. induction ds as [|d ds IH]; intros m; [done|]. cbn [foldl omap list_omap]. rewrite IH.
  unfold datasource_entry at 2, insert_datasource. destruct (get_str d "datasource_id") as [k|]; [|done]. simpl.
  destruct (assoc_last id _); [done|].
  destruct (decide (id = k)) as [->|]; by rewrite ?lookup_insert_eq, ?lookup_insert_ne.
Qed.

(** The frame has connectors or ingests. *)
Definition touches_collector (v : J) : Prop := is_Some (jget v "connectors") ∨ is_Some (jget v "ingests").

Lemma provision_tasks v c : touches_collector v →
  (connectors (ch_agent (provision v c)), ch_tasks (provision v c))
  = reconfigure (parse_connectors v) (parse_ingests v) (ch_tasks c).
Proof.
  intros Ht. unfold provision.
  assert (bool_decide (is_Some (jget v "connectors")) || bool_decide (is_Some (jget v "ingests")) = true) as ->.
  { rewrite orb_true_iff, !bool_decide_eq_true. exact Ht. }
  by destruct (reconfigure _ _ _).
Qed.

(** C32. A provision frame decides the agent's configuration, when every running
    task has its handle and no ingest id is twice in the frame: the datasources
    are the frame's, the last of an id (a partial frame adds to the ones there, a
    frame without the key keeps them); with connectors or ingests in the frame,
    the connectors are the frame's and the running tasks exactly one per ingest
    of the frame with a connector of the frame, whatever ran before, and otherwise
    both stay (so a frame with ingests only clears the connectors and starts
    nothing, which the comments of the source do not say); the signing key is the frame's; and nothing else of the connection
    changes. *)
Theorem provision_spec v c :
  tracked (ch_tasks c) → NoDup (ingest_id <$> parse_ingests v) →
  let c' := provision v c in
  let partial := default false (get_bool v "partial") in
  (∀ id, ch_store c' !! id =
    match get_array v "datasources" with
    | None => ch_store c !! id
    | Some ds =>
        match assoc_last id (omap datasource_entry ds) with
        | Some d => Some d
        | None => if partial then ch_store c !! id else None
        end
    end) ∧
  (touches_collector v →
     (∀ id, connectors (ch_agent c') !! id = assoc_last id (parse_connectors v)) ∧
     (map_to_list (tk_running (ch_tasks c'))).*2 ≡ₚ omap (launch (connectors (ch_agent c'))) (parse_ingests v)) ∧
  (¬ touches_collector v → connectors (ch_agent c') = connectors (ch_agent c) ∧ ch_tasks c' = ch_tasks c) ∧
  tracked (ch_tasks c') ∧
  control_pubkey (ch_agent c') = frame_key v ∧
  plugin_host (ch_agent c') = plugin_host (ch_agent c) ∧ host_os (ch_agent c') = host_os (ch_agent c) ∧
  ch_subs c' = ch_subs c ∧ ch_streams c' = ch_streams c ∧ ch_handlers c' = ch_handlers c ∧ ch_sent c' = ch_sent c.
Proof.
  intros Htr Hnd. cbv zeta.
  assert (touches_collector v →
     tracked (ch_tasks (provision v c)) ∧
     (∀ id, connectors (ch_agent (provision v c)) !! id = assoc_last id (parse_connectors v)) ∧
     (map_to_list (tk_running (ch_tasks (provision v c)))).*2
       ≡ₚ omap (launch (connectors (ch_agent (provision v c)))) (parse_ingests v)) as Htouch.
  { intros Ht. pose proof (provision_tasks v c Ht) as E.
    pose proof (reconfigure_spec (parse_connectors v) (parse_ingests v) _ Htr Hnd) as Hr. rewrite <- E in Hr. tauto. }
  assert (¬ touches_collector v →
     connectors (ch_agent (provision v c)) = connectors (ch_agent c) ∧ ch_tasks (provision v c) = ch_tasks c) as Hkeep.
  { intros Ht. unfold provision.
    assert (bool_decide (is_Some (jget v "connectors")) || bool_decide (is_Some (jget v "ingests")) = false) as ->; [|done].
    rewrite orb_false_iff, !bool_decide_eq_false. unfold touches_collector in Ht. tauto. }
  assert (tracked (ch_tasks (provision v c))) as Htr'.
  { destruct (decide (is_Some (jget v "connectors"))); [by apply Htouch; left|].
    destruct (decide (is_Some (jget v "ingests"))); [by apply Htouch; right|].
    rewrite (proj2 (Hkeep ltac:(unfold touches_collector; tauto))). done. }
  split; [|split; [tauto|split; [done|split; [done|]]]].
  - intros id. assert (ch_store (provision v c) = provision_datasources v (ch_store c)) as ->
      by (unfold provision; by destruct (if _ || _ then _ else _)).
    unfold provision_datasources. destruct (get_array v "datasources") as [ds|]; [|done].
    rewrite insert_datasources_lookup. destruct (assoc_last id _); [done|].
    by destruct (default false (get_bool v "partial")).
  - unfold provision. by destruct (if _ || _ then _ else _).
Qed.

(** A frame with ingests and no connectors clears the connectors and stops all
    collection. *)
Lemma ingest_only_push_stops v c :
  tracked (ch_tasks c) → jget v "connectors" = None → is_Some (jget v "ingests") →
  connectors (ch_agent (provision v c)) = ∅ ∧ tk_running (ch_tasks (provision v c)) = ∅.
Proof.
  intros Htr Hc Hi. pose proof (provision_tasks v c (or_intror Hi)) as E.
  assert (parse_connectors v = []) as Ep by (unfold parse_connectors, get_array; by rewrite Hc).
  rewrite Ep in E. unfold reconfigure in E. injection E as -> ->. split; [done|].
  pose proof (spawn_all_running (insert_connectors []) (parse_ingests v) (abort_all (ch_tasks c))) as [_ Hp].
  { intros n _. by rewrite abort_all_running. }
  rewrite abort_all_running, map_to_list_empty in Hp by done. simpl in Hp.
  assert (omap (launch (insert_connectors [])) (parse_ingests v) = []) as En.
  { clear. induction (parse_ingests v) as [|i l IH]; [done|exact IH]. }
  rewrite En in Hp. apply Permutation_nil_r, fmap_nil_inv, map_to_list_empty_iff in Hp. done.
Qed.
End Provision.

(** Taking an element off a list. *)
Lemma omap_delete {A B} (f : A → option B) (l : list A) i x : l !! i = Some x →
  omap f l ≡ₚ from_option (λ y, [y]) [] (f x) ++ omap f (delete i l).
Proof.
  revert i. induction l as [|y l IH]; intros [|i] Hi; simplify_eq/=; [by destruct (f x)|].
  specialize (IH i Hi). destruct (f y); [|done]. rewrite IH. by destruct (f x); [apply Permutation_swap|].
Qed.

(** ** Queries *)
Section Queries.
Context `{JsonLaws J} `{Crypto} `{PssXml} {DT : Type} `{Chrono DT}.
Context {W : Type} `{Http W} `{ModbusNet W} `{Procs W} `{Machine W}.
Implicit Types c : Channel J W.

(** The identifiers of the queries received, waiting, and answered. *)
Definition received_of (e : Event) : option string :=
  match e with
  | EFrame (FText t) =>
      v ← from_str t;
      if decide (str_or "" v "kind" = "query_request") then Some (str_or "" v "request_id") else None
  | _ => None
  end.
Definition waiting_of (h : Handler J) : option string :=
  match h with HQuery req => Some (str_or "" req "request_id") | _ => None end.
Definition answered_of (o : Out J) : option string :=
  match o with
  | OText f => if decide (get_str f "kind" = Some "query_response") then get_str f "request_id" else None
  | OPong _ => None
  end.

#[local] Arguments answered_of : simpl never.

Definition received (es : list Event) : list string := omap received_of es.
Definition open_queries c : list string := omap answered_of (ch_sent c) ++ omap waiting_of (ch_handlers c).

Ltac kinds := unfold answered_of, get_str; rewrite !get_object; simpl; rewrite !as_str_str.

Lemma handle_query_frame req store (a : Agent J W) :
  answered_of (OText (handle_query req store a).1) = Some (str_or "" req "request_id").
Proof.
  unfold handle_query. destruct (resolve_origin _ _ _) as [[[t cfg] sec]|].
  - destruct (run_query _ _ _ _ _ _ _ _) as [[r|e] h]; unfold query_ok, respond_err; simpl fst; kinds; done.
  - unfold respond_err. simpl fst. kinds. done.
Qed.

Lemma handle_write_frames req (a : Agent J W) : omap answered_of (OText <$> (handle_write req a).1) = [].
Proof.
  unfold handle_write. set (out := match verify_signature _ _ _ _ _ _ with Ok _ => _ | Err _ => _ end).
  destruct out as [[[rb|e]|] a']; simpl; [| |done]; unfold answered_of.
  - assert (get_str (write_ack_ok (J := J) (str_or "" req "command_id") rb) "kind" = Some "write_ack") as ->; [|done].
    unfold get_str. destruct rb; unfold write_ack_ok; rewrite ?get_set; simpl; rewrite get_object; simpl; by rewrite as_str_str.
  - unfold get_str, write_ack_failed. rewrite get_object. simpl. by rewrite as_str_str.
Qed.

Lemma subscribe_ack_frame id b : answered_of (OText (subscribe_ack (J := J) id b)) = None.
Proof. unfold subscribe_ack. kinds. done. Qed.
Lemma logs_response_frame v ring : answered_of (OText (logs_response (J := J) v ring)) = None.
Proof. unfold logs_response. kinds. done. Qed.

Lemma send_open os c : open_queries (send os c) ≡ₚ omap answered_of os ++ open_queries c.
Proof. unfold open_queries, send. simpl. rewrite omap_app. solve_perm. Qed.

Lemma handle_subscribe_open req c : open_queries (handle_subscribe req c) ≡ₚ open_queries c.
Proof.
  unfold handle_subscribe. destruct (connectors _ !! _) as [conn|].
  - destruct (_ && _).
    + trans (open_queries (send [OText (subscribe_ack (J := J) (str_or "" req "request_id") true)] c)); [done|].
      rewrite send_open. simpl. by rewrite subscribe_ack_frame.
    + rewrite send_open. simpl. by rewrite subscribe_ack_frame.
  - rewrite send_open. simpl. by rewrite subscribe_ack_frame.
Qed.

Lemma run_handler_open i h c : ch_handlers c !! i = Some h →
  open_queries (run_handler h (set_handlers (delete i (ch_handlers c)) c)) ≡ₚ open_queries c.
Proof.
  intros Hi. set (c0 := set_handlers (delete i (ch_handlers c)) c).
  assert (open_queries c ≡ₚ from_option (λ x, [x]) [] (waiting_of h) ++ open_queries c0) as ->.
  { unfold open_queries, c0. simpl. rewrite (omap_delete waiting_of _ _ _ Hi). solve_perm. }
  destruct h as [req|req|req]; simpl.
  - pose proof (handle_query_frame req (ch_store c) (ch_agent c)) as Hf.
    destruct (handle_query _ _ _) as [f a]. rewrite send_open. simpl in *. by rewrite Hf.
  - pose proof (handle_write_frames req (ch_agent c)) as Hf.
    destruct (handle_write _ _) as [fs a]. rewrite send_open. simpl in *. by rewrite Hf.
  - apply handle_subscribe_open.
Qed.

Lemma on_text_open v c c' : on_text v c = (Ok (), c') →
  open_queries c' ≡ₚ (if decide (str_or "" v "kind" = "query_request") then [str_or "" v "request_id"] else []) ++ open_queries c.
Proof.
  unfold on_text. cbv zeta. destruct (decide (str_or "" v "kind" = "query_request")) as [Hq|Hq].
  { rewrite !Hq, !decide_False by done. intros [= <-]. unfold open_queries. simpl.
    rewrite omap_app, (assoc_L (++)). simpl. by rewrite (comm (++)). }
  repeat case_decide; try done; intros E; simplify_eq; simpl; try done.
  - by destruct (default false _); simplify_eq.
  - unfold open_queries, provision. by destruct (if _ || _ then _ else _).
  - unfold open_queries. simpl. by rewrite omap_app, app_nil_r.
  - unfold open_queries. simpl. by rewrite omap_app, app_nil_r.
  - destruct (get_str v "request_id") as [id|]; [|done]. unfold unsubscribe. by destruct (ch_subs c !! id).
  - rewrite send_open. simpl. by rewrite logs_response_frame.
Qed.

Lemma on_event_open e c c' : on_event e c = (Continue, c') →
  open_queries c' ≡ₚ open_queries c ++ received [e].
Proof.
  intros E. destruct e as [f| |i]; [|done|].
  - destruct f as [t|p| | |e]; try done; simpl in E.
    + unfold received. simpl. destruct (from_str t) as [v|]; simpl; [|by simplify_eq; rewrite app_nil_r].
      destruct (on_text v c) as [[[]|] c1] eqn:Et; [|done]. simplify_eq. rewrite (on_text_open _ _ _ Et).
      case_decide; by rewrite (comm (++)).
    + simplify_eq. rewrite send_open. simpl. by rewrite app_nil_r.
    + simplify_eq. by rewrite app_nil_r.
  - simpl in E. rewrite app_nil_r. destruct (ch_handlers c !! i) as [h|] eqn:Eh; simplify_eq; [|done].
    by apply run_handler_open.
Qed.

(** Over any order of frames and spawned tasks, every query received is
    answered at most once, and no answer is invented: the request ids answered,
    together with those of the queries still waiting for their task, are exactly
    those received. *)
Theorem queries_answered_once es c c' :
  read_loop es c = (Continue, c') →
  omap answered_of (ch_sent c') ++ omap waiting_of (ch_handlers c')
  ≡ₚ (omap answered_of (ch_sent c) ++ omap waiting_of (ch_handlers c)) ++ received es.
Proof.
  fold (open_queries c') (open_queries c). revert c.
  induction es as [|e es IH]; intros c; simpl; [by intros [= <-]; rewrite app_nil_r|].
  destruct (on_event e c) as [[|r] c1] eqn:E; [|done]. intros Hr. rewrite (IH _ Hr), (on_event_open _ _ _ E).
  unfold received. rewrite <- (assoc_L (++)). f_equiv. simpl. by destruct (received_of e).
Qed.
End Queries.

(** ** Subscriptions *)
Section Subscriptions.
Context `{Json J} `{Crypto} `{PssXml} {DT : Type} `{Chrono DT}.
Context {W : Type} `{Http W} `{ModbusNet W} `{Procs W} `{Machine W}.
Implicit Types c : Channel J W.

(** The request ids of the subscribe requests that arrive, and that wait. *)
Definition subscribe_of (e : Event) : option string :=
  match e with
  | EFrame (FText t) =>
      v ← from_str t;
      if decide (str_or "" v "kind" = "subscribe_request") then Some (str_or "" v "request_id") else None
  | _ => None
  end.
Definition subscribing (h : Handler J) : option string :=
  match h with HSubscribe req => Some (str_or "" req "request_id") | _ => None end.

(** Every stream that runs is one of its request's handles, and the handles of a
    request are its own; [future] are the request ids still to come. *)
Record subs_ok (future : list string) c : Prop := {
  so_tracked : ∀ n st, ch_streams c !! n = Some st → ∃ ids, ch_subs c !! st_request st = Some ids ∧ n ∈ ids;
  so_owned : ∀ id ids n st, ch_subs c !! id = Some ids → n ∈ ids → ch_streams c !! n = Some st → st_request st = id;
  so_below : ∀ id ids n, ch_subs c !! id = Some ids → n ∈ ids → (n < ch_next c)%nat;
  so_fresh : ∀ n, (ch_next c ≤ n)%nat → ch_streams c !! n = None;
  so_distinct : NoDup (omap subscribing (ch_handlers c) ++ future);
  so_new : ∀ id, id ∈ omap subscribing (ch_handlers c) ++ future → ch_subs c !! id = None;
}.

Lemma subs_ok_keep future future' c c' :
  subs_ok future c → ch_subs c' = ch_subs c → ch_streams c' = ch_streams c → ch_next c' = ch_next c →
  omap subscribing (ch_handlers c') ++ future' ≡ₚ omap subscribing (ch_handlers c) ++ future →
  subs_ok future' c'.
Proof.
  intros [Ht Ho Hb Hf Hd Hn] E1 E2 E3 Hp. split; rewrite ?E1, ?E2, ?E3; try done.
  - by rewrite Hp.
  - intros id Hid. apply Hn. by rewrite <- Hp.
Qed.

Lemma open_subscription_streams request_id conn jobs c n st :
  ch_streams (open_subscription request_id conn jobs c) !! n = Some st →
  (st_request st = request_id ∧ n ∈ seq (ch_next c) (length jobs)) ∨ ch_streams c !! n = Some st.
Proof.
  unfold open_subscription. simpl. rewrite lookup_union_Some_raw. intros [Hs|[_ Hs]]; [left|by right].
  apply elem_of_list_to_map_2, elem_of_lookup_zip_with in Hs as (i & k & s & E & Hk & Hs). simplify_eq.
  apply list_lookup_fmap_Some in Hs as (ing & -> & _). split; [done|]. by eapply list_elem_of_lookup_2.
Qed.

Lemma open_subscription_ok future request_id conn jobs c :
  subs_ok (request_id :: future) c → subs_ok future (open_subscription request_id conn jobs c).
Proof.
  intros [Ht Ho Hb Hf Hd Hn].
  assert ((request_id ∉ (omap subscribing (ch_handlers c) ++ future)) ∧ NoDup (omap subscribing (ch_handlers c) ++ future))
    as [Hid Hd'] by (rewrite <- Permutation_middle, NoDup_cons in Hd; done).
  split; simpl; [| | | |done|].
  - intros n st [[Er Hin]|Hs]%open_subscription_streams.
    + exists (seq (ch_next c) (length jobs)). by rewrite Er, lookup_insert_eq.
    + destruct (Ht _ _ Hs) as (ids & Hids & Hin). exists ids. rewrite lookup_insert_ne; [done|].
      intros E. rewrite <- E, Hn in Hids by set_solver. done.
  - intros id ids n st Hids Hin Hs. apply open_subscription_streams in Hs.
    destruct (decide (id = request_id)) as [->|Hne].
    + rewrite lookup_insert_eq in Hids. injection Hids as <-.
      destruct Hs as [[Er _]|Hs]; [done|]. apply elem_of_seq in Hin. by rewrite Hf in Hs by lia.
    + rewrite lookup_insert_ne in Hids by done. destruct Hs as [[_ Hin']|Hs]; [|by eapply Ho].
      apply elem_of_seq in Hin'. pose proof (Hb _ _ _ Hids Hin). lia.
  - intros id ids n Hids Hin. destruct (decide (id = request_id)) as [->|Hne].
    + rewrite lookup_insert_eq in Hids. injection Hids as <-. apply elem_of_seq in Hin. lia.
    + rewrite lookup_insert_ne in Hids by done. pose proof (Hb _ _ _ Hids Hin). lia.
  - intros n Hle. destruct (ch_streams (open_subscription request_id conn jobs c) !! n) as [st|] eqn:E; [|done].
    apply open_subscription_streams in E as [[_ Hin]|E]; [apply elem_of_seq in Hin; lia|]. by rewrite Hf in E by lia.
  - intros id Hin. rewrite lookup_insert_ne by set_solver. apply Hn. set_solver.
Qed.

(** Dropping the id of a request that was refused. *)
Lemma subs_ok_drop request_id future c : subs_ok (request_id :: future) c → subs_ok future c.
Proof.
  intros [Ht Ho Hb Hf Hd Hn]. split; try done.
  - rewrite <- Permutation_middle, NoDup_cons in Hd. by destruct Hd.
  - intros id Hin. apply Hn. set_solver.
Qed.

Lemma handle_subscribe_ok future req c :
  subs_ok (str_or "" req "request_id" :: future) c → subs_ok future (handle_subscribe req c).
Proof.
  intros Hc. assert (∀ o, subs_ok (str_or "" req "request_id" :: future) (send [o] c)) as Hs
    by (intros o; by eapply subs_ok_keep).
  unfold handle_subscribe. destruct (connectors _ !! _) as [conn|]; [destruct (_ && _)|].
  - apply open_subscription_ok, Hs.
  - eapply subs_ok_drop, Hs.
  - eapply subs_ok_drop, Hs.
Qed.

Lemma abort_streams_lookup ids (m : gmap nat (Stream J)) n st :
  abort_streams ids m !! n = Some st ↔ m !! n = Some st ∧ n ∉ ids.
Proof. unfold abort_streams. by rewrite map_lookup_filter_Some. Qed.

(** An unsubscribe stops exactly the streams of its request. *)
Lemma unsubscribe_streams future id c n st : subs_ok future c →
  ch_streams (unsubscribe id c) !! n = Some st ↔ ch_streams c !! n = Some st ∧ st_request st ≠ id.
Proof.
  intros [Ht Ho _ _ _ _]. unfold unsubscribe. destruct (ch_subs c !! id) as [ids|] eqn:Eid; simpl.
  - rewrite abort_streams_lookup. split; intros [Hs Hn]; (split; [done|]).
    + intros E. destruct (Ht _ _ Hs) as (ids' & Hids & Hin). rewrite E, Eid in Hids. by simplify_eq.
    + intros Hin. by apply Hn, (Ho id ids n).
  - split; [|by intros [? _]]. intros Hs. split; [done|]. intros E.
    destruct (Ht _ _ Hs) as (ids' & Hids & _). by rewrite E, Eid in Hids.
Qed.

Lemma unsubscribe_ok future id c : subs_ok future c → subs_ok future (unsubscribe id c).
Proof.
  intros Hc. pose proof Hc as [Ht Ho Hb Hf Hd Hn].
  assert (∀ k, k ≠ id → ch_subs (unsubscribe id c) !! k = ch_subs c !! k) as Hne.
  { intros k Hk. unfold unsubscribe. destruct (ch_subs c !! id); [|done]. simpl. by rewrite lookup_delete_ne. }
  assert (∀ k ids, ch_subs (unsubscribe id c) !! k = Some ids → ch_subs c !! k = Some ids) as Hsub.
  { intros k ids. unfold unsubscribe. destruct (ch_subs c !! id); [|done]. simpl.
    intros Hk. rewrite lookup_delete_Some in Hk. tauto. }
  assert (ch_next (unsubscribe id c) = ch_next c ∧ ch_handlers (unsubscribe id c) = ch_handlers c) as [E1 E2]
    by (unfold unsubscribe; by destruct (ch_subs c !! id)).
  split; rewrite ?E1, ?E2; try done.
  - intros n st Hs. apply (unsubscribe_streams future) in Hs as [Hs Hr]; [|done]. rewrite Hne by done. eauto.
  - intros k ids n st Hk%Hsub Hin Hs. apply (unsubscribe_streams future) in Hs as [Hs _]; [|done]. eauto.
  - intros k ids n Hk%Hsub. eauto.
  - intros n Hle. destruct (ch_streams (unsubscribe id c) !! n) as [st|] eqn:E; [|done].
    apply (unsubscribe_streams future) in E as [E _]; [|done]. by rewrite Hf in E.
  - intros k Hk%Hn. destruct (ch_subs (unsubscribe id c) !! k) eqn:E; [|done]. apply Hsub in E. congruence.
Qed.

Lemma on_text_subs future v c fl c' : on_text v c = (fl, c') →
  subs_ok ((if decide (str_or "" v "kind" = "subscribe_request") then [str_or "" v "request_id"] else []) ++ future) c →
  subs_ok future c'.
Proof.
  unfold on_text. cbv zeta. destruct (decide (str_or "" v "kind" = "subscribe_request")) as [Hq|Hq].
  { rewrite !Hq, !decide_False by done. intros [= <- <-] Hc. eapply subs_ok_keep; [done..|].
    simpl. rewrite omap_app. simpl. by rewrite <- (assoc_L (++)). }
  simpl. repeat case_decide; intros E Hc; simplify_eq.
  - by destruct (default false _); simplify_eq.
  - eapply subs_ok_keep; [done|unfold provision; by destruct (if _ || _ then _ else _)..|].
    unfold provision. by destruct (if _ || _ then _ else _).
  - eapply subs_ok_keep; [done..|]. simpl. by rewrite omap_app, app_nil_r.
  - eapply subs_ok_keep; [done..|]. simpl. by rewrite omap_app, app_nil_r.
  - destruct (get_str v "request_id"); [by apply unsubscribe_ok|done].
  - by eapply subs_ok_keep.
  - by eapply subs_ok_keep.
  - done.
Qed.

Lemma on_event_subs future e c fl c' : on_event e c = (fl, c') →
  subs_ok (omap subscribe_of [e] ++ future) c → subs_ok future c'.
Proof.
  intros E Hc. destruct e as [f| |i]; simpl in E.
  - destruct f as [t|p| | |e]; simpl in *; simplify_eq; try done.
    + destruct (from_str t) as [v|]; simpl in *; [|by simplify_eq].
      destruct (on_text v c) as [r c1] eqn:Et. simplify_eq. eapply on_text_subs; [done|]. by case_decide.
    + by eapply subs_ok_keep.
  - by simplify_eq.
  - destruct (ch_handlers c !! i) as [h|] eqn:Eh; simplify_eq; [|done].
    assert (subs_ok (from_option (λ y, [y]) [] (subscribing h) ++ future) (set_handlers (delete i (ch_handlers c)) c)) as Hd.
    { eapply subs_ok_keep; [done..|]. simpl. rewrite (omap_delete _ _ _ _ Eh). solve_perm. }
    destruct h as [req|req|req]; simpl in *.
    + destruct (handle_query _ _ _). by eapply subs_ok_keep.
    + destruct (handle_write _ _). by eapply subs_ok_keep.
    + by apply handle_subscribe_ok.
Qed.

Lemma read_loop_subs es c fl c' :
  subs_ok (omap subscribe_of es) c → read_loop es c = (fl, c') → ∃ future, subs_ok future c'.
Proof.
  revert c. induction es as [|e es IH]; intros c Hc; simpl; [intros [= <- <-]; by eexists|].
  destruct (on_event e c) as [[|r] c1] eqn:E.
  - intros Hr. eapply IH; [|done]. eapply on_event_subs; [done|]. simpl in *. by destruct (subscribe_of e).
  - intros [= <- <-]. exists (omap subscribe_of es). eapply on_event_subs; [done|]. simpl in *. by destruct (subscribe_of e).
Qed.

(** On a connection whose subscribe requests have distinct ids, whatever
    the order of frames and spawned tasks: an unsubscribe stops all the streams
    of its request and no other, and the end of the connection stops every
    stream. *)
Theorem subscriptions_tracked first (a : Agent J W) (t : Tasks J) es fl c :
  NoDup (omap subscribe_of es) → read_loop es (open_channel first a t) = (fl, c) →
  (∀ id n st, ch_streams (unsubscribe id c) !! n = Some st ↔ ch_streams c !! n = Some st ∧ st_request st ≠ id) ∧
  ch_streams (teardown c) = ∅.
Proof.
  intros Hnd Hr. destruct (read_loop_subs es (open_channel first a t) fl c) as [future Hc]; [|done|].
  { split; simpl; intros; by rewrite ?lookup_empty in *. }
  split; [intros; by eapply unsubscribe_streams|].
  apply map_empty. intros n. destruct (ch_streams (teardown c) !! n) as [st|] eqn:E; [|done].
  unfold teardown in E. simpl in E. apply abort_streams_lookup in E as [Hs Hn].
  destruct (so_tracked _ _ Hc _ _ Hs) as (ids & Hids & Hin). destruct Hn.
  apply list_elem_of_join. exists ids. split; [done|]. apply list_elem_of_fmap. exists (st_request st, ids).
  split; [done|]. by apply elem_of_map_to_list.
Qed.
End Subscriptions.

(** ** Updates *)
Section Update.
Context `{Json J} {W : Type} `{Machine W}.

Lemma safe_repo_split r : safe_repo r = true →
  ∃ owner name, r = owner +:+ "/" +:+ name ∧ sforall safe_byte owner = true ∧ sforall safe_byte name = true.
Proof.
  unfold safe_repo. rewrite !andb_true_iff. intros [[_ Hn%Z.eqb_eq] Hs].
  assert (∀ s, scount "/" s = 0 → sforall (λ c, safe_byte c || bool_decide (c = "/"%char)) s = true →
    sforall safe_byte s = true) as H0s.
  { induction s as [|c s IH]; [done|]. cbn [scount sforall]. assert (0 ≤ scount "/" s) by (clear; induction s; simpl; repeat case_decide; lia).
    case_decide as Hc; [lia|]. rewrite !andb_true_iff, orb_true_iff, bool_decide_eq_true. intros ? [[Hb|Hb] Hs']; [|congruence].
    split; [done|]. by apply IH. }
  induction r as [|c r IH]; [done|]. cbn [scount sforall] in *. apply andb_true_iff in Hs as [Hc Hs].
  case_decide as Hsl.
  - subst c. exists "", r. split; [done|]. split; [done|]. apply H0s; [lia|done].
  - destruct IH as (o & n & -> & Ho & Hm); [lia|done|]. exists (String c o), n. split; [done|]. split; [|done].
    cbn [sforall]. apply andb_true_iff. split; [|done]. apply orb_true_iff in Hc as [Hc|Hc%bool_decide_eq_true]; [done|congruence].
Qed.

(** C33. A self-update request writes nothing, or one file: the trigger beside
    the buffer, with the version and repository of the request, where the version
    is 1 to 64 letters, digits, [.], [_] and [-] after an optional [v], and the
    repository two such words around one slash. *)
Theorem request_update_safe version repo (w : W) :
  let '(r, w') := request_update version repo w in
  (w' = w ∧ ∃ e, r = Err e) ∨
  ((∃ body, (version = body ∨ version = "v" +:+ body) ∧ 1 ≤ slen body ≤ 64 ∧ sforall safe_byte body = true) ∧
   (∀ rp, repo = Some rp → slen rp ≤ 140 ∧
      ∃ owner name, rp = owner +:+ "/" +:+ name ∧ sforall safe_byte owner = true ∧ sforall safe_byte name = true) ∧
   w' = (fs_write (update_path w) (to_string (update_payload version repo)) w).2 ∧
   (∀ path, r = Ok path → path = update_path w)).
Proof.
  unfold request_update. destruct (safe_tag version) eqn:Ev; [|left; split; [done|by eexists]]. simpl negb. cbv iota.
  assert (∃ body, (version = body ∨ version = "v" +:+ body) ∧ 1 ≤ slen body ≤ 64 ∧ sforall safe_byte body = true) as Hv.
  { unfold safe_tag in Ev. set (body := default version (strip_prefix "v" version)) in *.
    apply andb_true_iff in Ev as [[Hne Hl%Z.leb_le]%andb_true_iff Hs]. exists body. split_and!; [| |done|done].
    - unfold body. destruct (strip_prefix "v" version) as [b|] eqn:Eb; [|by left]. right. by apply strip_prefix_spec.
    - apply negb_true_iff, bool_decide_eq_false in Hne. destruct body; [done|]. unfold slen. simpl. lia. }
  assert (∀ r w', context "writing update-request.json"
      (fs_write (update_path w) (to_string (update_payload version repo));; mret (update_path w)) w = (r, w') →
    w' = (fs_write (update_path w) (to_string (update_payload version repo)) w).2 ∧ (∀ path, r = Ok path → path = update_path w)) as Hw.
  { intros r w'. unfold context, mbind, StE_bind, mret, StE_ret. destruct (fs_write _ _ w) as [[[]|e] w1]; intros [= <- <-]; (split; [done|]); by intros ? [=]. }
  destruct repo as [rp|].
  - destruct (safe_repo rp) eqn:Er; [|left; split; [done|by eexists]]. simpl negb. cbv iota.
    destruct (context _ _ w) as [r w'] eqn:E. right. split; [done|]. split; [|by apply Hw].
    intros rp' [= <-]. split; [|by apply safe_repo_split]. unfold safe_repo in Er.
    apply andb_true_iff in Er as [[Hl%Z.leb_le _]%andb_true_iff _]. done.
  - destruct (context _ _ w) as [r w'] eqn:E. right. split; [done|]. split; [done|by apply Hw].
Qed.
End Update.

(** ** A connection *)
Module ControlRun.
Definition query_frame (id : string) : Tree :=
  TObj [("kind", TStr "query_request"); ("request_id", TStr id); ("datasource_id", TStr "c"); ("op", TStr "test")].
Definition subscribe_frame : Tree :=
  TObj [("kind", TStr "subscribe_request"); ("request_id", TStr "s"); ("connector_id", TStr "c"); ("ds_type", TStr "x");
        ("points", TArr [TNull; TNull])].
Definition unsubscribe_frame : Tree := TObj [("kind", TStr "unsubscribe_request"); ("request_id", TStr "s")].
Definition ingests_frame : Tree :=
  TObj [("kind", TStr "provision");
        ("ingests", TArr [TObj [("ingest_id", TStr "i"); ("connector_id", TStr "c")]])].
Definition provision_frame : Tree :=
  TObj [("kind", TStr "provision");
        ("datasources", TArr [TObj [("datasource_id", TStr "d"); ("type", TStr "pss")]]);
        ("connectors", TArr [TObj [("connector_id", TStr "c"); ("type", TStr "x")]]);
        ("ingests", TArr [TObj [("ingest_id", TStr "i"); ("connector_id", TStr "c")]])].

Definition texts : list (string * Tree) :=
  [("q1", query_frame "1"); ("q2", query_frame "2"); ("sub", subscribe_frame); ("unsub", unsubscribe_frame);
   ("ingests", ingests_frame); ("provision", provision_frame)].
#[local] Instance json : Json Tree := tree_json (λ s, assoc_last s texts).
#[local] Instance laws : JsonLaws Tree := tree_laws (λ s, assoc_last s texts).
#[local] Existing Instances WindowRun.xml WindowRun.chrono WindowRun.http WindowRun.net WindowRun.processes.
#[local] Instance crypto : Crypto := {| base64_decode s := Some s; ed25519_verify _ _ _ := true |}.
(** The world counts the files written. *)
#[local] Instance machine : Machine Z := {|
  buffer_path_var _ := None; fs_write _ _ w := (Ok (), w + 1); log_ring _ := [] |}.

Definition agent : Agent Tree Z :=
  mkAgent {["c" := mkConn "x" TNull TNull ∅]} None WindowRun.plugins (mkHost ∅ 0).
Definition first : Channel Tree Z := open_channel TNull agent (mkTasks ∅ ∅ 0).
Definition frame (t : string) : Event := EFrame (FText t).
Definition after (es : list Event) : Channel Tree Z := (read_loop es first).2.

Lemma provision_spec_witness :
  let c := after [frame "provision"] in
  let c' := provision ingests_frame c in
  (map_to_list (tk_running (ch_tasks c))).*2 = [(mkConn "x" TNull TNull ∅, mkJob "i" "c" TNull 60 TNull TNull)] ∧
  tracked (ch_tasks c) ∧ tracked (ch_tasks c') ∧ ch_store c' !! "d" = ch_store c !! "d".
Proof.
  intros c c'. split; [by vm_compute|].
  assert (tracked (ch_tasks first)) as H0 by (split; [intros n [? E]; simpl in E; by rewrite lookup_empty in E|done]).
  destruct (provision_spec provision_frame first H0 ltac:(apply (bool_decide_unpack _); by vm_compute)) as (_ & _ & _ & H1 & _).
  destruct (provision_spec ingests_frame c H1 ltac:(apply (bool_decide_unpack _); by vm_compute)) as (H2 & _ & _ & H3 & _).
  split; [exact H1|]. split; [exact H3|]. exact (H2 "d").
Defined.

Lemma queries_answered_once_witness :
  let es := [frame "q1"; frame "q2"; ERun 1%nat] in
  read_loop es first = (Continue, after es) ∧
  omap answered_of (ch_sent (after es)) ++ omap waiting_of (ch_handlers (after es)) ≡ₚ ["1"; "2"].
Proof.
  intros es. assert (read_loop es first = (Continue, after es)) as E by (vm_compute; reflexivity).
  split; [exact E|]. exact (queries_answered_once es first (after es) E).
Defined.

Lemma subscriptions_tracked_witness :
  let c := after [frame "sub"; ERun 0%nat] in
  size (ch_streams c) = 2%nat ∧ ch_streams (teardown c) = ∅ ∧ ch_streams (unsubscribe "s" c) !! 0%nat = None.
Proof.
  intros c. split; [by vm_compute|].
  destruct (subscriptions_tracked TNull agent (mkTasks ∅ ∅ 0) [frame "sub"; ERun 0%nat] Continue c) as [H1 H2].
  - apply (bool_decide_unpack _). by vm_compute.
  - vm_compute. reflexivity.
  - split; [exact H2|]. destruct (ch_streams (unsubscribe "s" c) !! 0%nat) as [st|] eqn:E; [|reflexivity].
    apply H1 in E as [E Hs]. exfalso. apply Hs. vm_compute in E. injection E as <-. reflexivity.
Defined.

(** Two subscriptions with one id: the streams of the first outlive the
    connection's bookkeeping. *)
Example duplicate_subscription_leaks :
  size (ch_streams (teardown (after [frame "sub"; frame "sub"; ERun 0%nat; ERun 0%nat]))) = 2%nat.
Proof. vm_compute. reflexivity. Qed.

(** An unsubscribe that overtakes the task of its subscribe is lost. *)
Example early_unsubscribe_lost :
  size (ch_streams (after [frame "sub"; frame "unsub"; ERun 0%nat])) = 2%nat.
Proof. vm_compute. reflexivity. Qed.

(** A repository of one slash passes. *)
Example slash_repo_accepted : (request_update "1.0" (Some "/") 0).2 = 1.
Proof. vm_compute. reflexivity. Qed.
End ControlRun.
