(* ===== verification/ControlSteps.v ===== *)
(** * The control channel between two awaits ([src/control.rs])

    [Control] runs each handler in one go. Here a handler and the read loop give
    way at every await: what a handler looked up (the signing key, the allow-list
    of the connector, the configuration of an origin) may have been replaced by a
    provision frame when it uses it, a provision frame itself is applied in
    pieces, and the handlers outlive the connection. *)
From Stdlib Require Import Ascii.
From S2P Require Import Prelude Float Proto Buffer RustStr Json Jobs Plugins Modbus Write WriteProps PluginWrite Pss Collector Logbuf Enroll Control ControlProps.
Set Warnings "-register-all".
Local Open Scope Z_scope.

(** ** Where a handler is *)

(** Queries: at the datasources, at the connectors, with the origin in hand.
    Writes: at the key, at the connectors, at the device. Subscriptions: at the
    connectors, at the acknowledgement, at the streams, at the handles. All: with
    a frame to send. *)
Inductive Phase (J : Type) :=
| QStart (req : J)
| QMissed (req : J)
| QFound (req : J) (ds_type : string) (config secrets : J)
| WStart (req : J)
| WVerified (req : J)
| WGranted (req : J) (conn : Conn J)
| SStart (req : J)
| SFound (req : J) (conn : option (Conn J))
| SAcked (req : J) (conn : Conn J)
| SOpened (request_id : string) (ids : list nat)
| Reply (f : J).
Arguments QStart {J} req.
Arguments QMissed {J} req.
Arguments QFound {J} req ds_type config secrets.
Arguments WStart {J} req.
Arguments WVerified {J} req.
Arguments WGranted {J} req conn.
Arguments SStart {J} req.
Arguments SFound {J} req conn.
Arguments SAcked {J} req conn.
Arguments SOpened {J} request_id ids.
Arguments Reply {J} f.

(** Where the read loop is: at the next frame, at the datasources or at the
    collector with a provision frame, or gone. *)
Inductive Reader (J : Type) := Waiting | AtStore (v : J) | AtCollector (v : J) | Over (r : result string ()).
Arguments Waiting {J}.
Arguments AtStore {J} v.
Arguments AtCollector {J} v.
Arguments Over {J} r.

Record Fine (J W : Type) := mkFine {
  fi_chan : Channel J W;
  fi_reader : Reader J;
  fi_tasks : gmap nat (Phase J);
  fi_next : nat;
}.
Arguments mkFine {J W} _ _ _ _.
Arguments fi_chan {J W} _.
Arguments fi_reader {J W} _.
Arguments fi_tasks {J W} _.
Arguments fi_next {J W} _.

(** A frame arrives, the stream of frames ends, the read loop goes on with its
    frame, a handler goes on. *)
Inductive FEvent := FFrame (f : Frame) | FEnd | FReader | FRun (t : nat).

Section Steps.
Context `{Json J} `{Crypto} `{PssXml} {DT : Type} `{Chrono DT}.
Context {W : Type} `{Http W} `{ModbusNet W} `{Procs W} `{Machine W}.
Implicit Types (c : Channel J W) (s : Fine J W).

(** *** Writes: [do_write] in two *)

(** Up to the device: the connector that may be written. *)
Definition check_write (connector_id : string) (value : f64) (target : J) (conns : gmap string (Conn J)) :
    result string (Conn J) :=
  match conns !! connector_id with
  | None => Err ("agent has no connector " +:+ connector_id)
  | Some c =>
      if negb (is_finite value) then Err "non-finite value" else
      let key := target_key target in
      if decide (key ∉ writable c) then Err ("target " +:+ key +:+ " not provisioned writable on " +:+ connector_id)
      else Ok c
  end.

(** The device. *)
Definition device_write (connector_id : string) (c : Conn J) (value : f64) (target : J) (want_readback : bool)
    (timeout_ms : Z) (a : Agent J W) : option (result string (option f64)) * Agent J W :=
  if decide (ds_type c = "modbus") then
    let '(r, w) := write_modbus (config c) target value want_readback timeout_ms (os (host_os a)) in
    (r, set_host (mkHost (procs (host_os a)) w) a)
  else
    match for_type (plugin_host a) (ds_type c) with
    | Some (i, p) =>
        let '(r, h) := Plugins.write i p (ds_type c) (config c) (secrets c) target value want_readback (host_os a) in
        (Some r, set_host h a)
    | None => (Some (Err ("connector " +:+ connector_id +:+ " type " +:+ ds_type c +:+ " has no write handler")), a)
    end.

Definition cmd_connector (req : J) : string := str_or "" req "connector_id".
Definition cmd_timeout (req : J) : Z := default 5000 (get_u64 req "timeout_ms").

(** *** One step of a handler *)
Definition query_reply (req : J) (r : result string J) : J :=
  let request_id := str_or "" req "request_id" in
  match r with Ok result => query_ok request_id result | Err e => respond_err request_id "agent_query_failed" e end.

(** [handle_query]: the datasources, the connectors, the adapter. The guard of
    the datasources is in fact kept until the connectors were asked (a temporary
    of [if let]); the steps here let a provision frame come in between as well. *)
Definition query_store (req : J) c : Phase J :=
  match ch_store c !! str_or "" req "datasource_id" with
  | Some d => QFound req (pd_type d) (pd_config d) (pd_secrets d)
  | None => QMissed req
  end.
Definition query_connectors (req : J) c : Phase J :=
  let ds_id := str_or "" req "datasource_id" in
  match connectors (ch_agent c) !! ds_id with
  | Some cn => QFound req (ds_type cn) (config cn) (secrets cn)
  | None => Reply (respond_err (str_or "" req "request_id") "agent_unknown_datasource" ("agent has no config for " +:+ ds_id))
  end.
Definition query_adapter (req : J) (t : string) (cfg sec : J) c : Phase J * Channel J W :=
  let a := ch_agent c in
  let '(r, h) := run_query (plugin_host a) (str_or "" req "op") t cfg sec (get_or_null req "args")
                   (default 30000 (get_u64 req "timeout_ms")) (host_os a) in
  (Reply (query_reply req r), set_agent (set_host h a) c).

(** [handle_write]: the key, the allow-list, the device. *)
Definition write_key (req : J) c : Phase J :=
  match verify_signature req (control_pubkey (ch_agent c)) (cmd_id req) (cmd_connector req) (cmd_value req) (cmd_target req) with
  | Ok () => WVerified req
  | Err e => Reply (write_ack_failed (cmd_id req) e)
  end.
Definition write_connectors (req : J) c : Phase J :=
  match check_write (cmd_connector req) (cmd_value req) (cmd_target req) (connectors (ch_agent c)) with
  | Ok conn => WGranted req conn
  | Err e => Reply (write_ack_failed (cmd_id req) e)
  end.
(** No phase when the write never returns. *)
Definition write_device (req : J) (conn : Conn J) c : option (Phase J) * Channel J W :=
  let '(r, a') := device_write (cmd_connector req) conn (cmd_value req) (cmd_target req) (cmd_readback req)
                    (cmd_timeout req) (ch_agent c) in
  (match r with
   | None => None
   | Some (Ok rb) => Some (Reply (write_ack_ok (cmd_id req) rb))
   | Some (Err e) => Some (Reply (write_ack_failed (cmd_id req) e))
   end, set_agent a' c).

(** [handle_subscribe]: the connectors, the acknowledgement, the streams, the
    handles. *)
Definition sub_connectors (req : J) c : Phase J :=
  let a := ch_agent c in
  let supported := bool_decide (is_Some (for_type (plugin_host a) (str_or "" req "ds_type")))
                   && negb (bool_decide (length (default [] (get_array req "points")) = 0%nat)) in
  SFound req (if supported then connectors a !! str_or "" req "connector_id" else None).
Definition sub_ack (req : J) (conn : option (Conn J)) c : option (Phase J) * Channel J W :=
  (SAcked req <$> conn,
   send [OText (subscribe_ack (str_or "" req "request_id") (bool_decide (is_Some conn)))] c).
Definition sub_streams (req : J) (conn : Conn J) c : Phase J * Channel J W :=
  let request_id := str_or "" req "request_id" in
  let jobs := imap (point_job request_id (str_or "" req "connector_id")) (default [] (get_array req "points")) in
  let ids := seq (ch_next c) (length jobs) in
  let streams := list_to_map (zip ids ((λ ing, mkStream conn ing request_id) <$> jobs)) in
  (SOpened request_id ids,
   mkChannel (ch_agent c) (ch_tasks c) (ch_store c) (ch_subs c) (streams ∪ ch_streams c) (ch_next c + length jobs)%nat
     (ch_handlers c) (ch_sent c)).
Definition sub_handles (request_id : string) (ids : list nat) c : Channel J W :=
  set_subs (<[request_id := ids]> (ch_subs c)) (ch_streams c) c.

(** The handler's next phase, [None] when it has returned. *)
Definition handler_step (ph : Phase J) c : option (Phase J) * Channel J W :=
  match ph with
  | QStart req => (Some (query_store req c), c)
  | QMissed req => (Some (query_connectors req c), c)
  | QFound req t cfg sec => let '(ph, c) := query_adapter req t cfg sec c in (Some ph, c)
  | WStart req => (Some (write_key req c), c)
  | WVerified req => (Some (write_connectors req c), c)
  | WGranted req conn => write_device req conn c
  | SStart req => (Some (sub_connectors req c), c)
  | SFound req conn => sub_ack req conn c
  | SAcked req conn => let '(ph, c) := sub_streams req conn c in (Some ph, c)
  | SOpened request_id ids => (None, sub_handles request_id ids c)
  | Reply f => (None, send [OText f] c)
  end.

Definition start_of (h : Handler J) : Phase J :=
  match h with HQuery req => QStart req | HWrite req => WStart req | HSubscribe req => SStart req end.

(** *** Provision frames in pieces *)
Definition provision_key (v : J) c : Channel J W :=
  set_agent (mkAgent (connectors (ch_agent c)) (frame_key v) (plugin_host (ch_agent c)) (host_os (ch_agent c))) c.
Definition provision_store (v : J) c : Channel J W :=
  mkChannel (ch_agent c) (ch_tasks c) (provision_datasources v (ch_store c)) (ch_subs c) (ch_streams c)
    (ch_next c) (ch_handlers c) (ch_sent c).
Definition provision_collector (v : J) c : Channel J W :=
  let a := ch_agent c in
  let '(conns, tasks) :=
    if bool_decide (is_Some (jget v "connectors")) || bool_decide (is_Some (jget v "ingests"))
    then reconfigure (parse_connectors v) (parse_ingests v) (ch_tasks c)
    else (connectors a, ch_tasks c) in
  mkChannel (mkAgent conns (control_pubkey a) (plugin_host a) (host_os a)) tasks
    (ch_store c) (ch_subs c) (ch_streams c) (ch_next c) (ch_handlers c) (ch_sent c).

(** *** Events *)

(** The handlers a frame spawned become tasks. *)
Definition adopt c s : Fine J W :=
  foldl (λ s h, mkFine (fi_chan s) (fi_reader s) (<[fi_next s := start_of h]> (fi_tasks s)) (S (fi_next s)))
    (mkFine (set_handlers [] c) (fi_reader s) (fi_tasks s) (fi_next s)) (ch_handlers c).
Definition set_reader (r : Reader J) s : Fine J W := mkFine (fi_chan s) r (fi_tasks s) (fi_next s).
Definition set_chan c s : Fine J W := mkFine c (fi_reader s) (fi_tasks s) (fi_next s).

(** The connection ends: its subscriptions are aborted, its handlers are not. *)
Definition end_connection (r : result string ()) s : Fine J W :=
  set_reader (Over r) (set_chan (teardown (fi_chan s)) s).

Definition provision_of (f : Frame) : option J :=
  match f with
  | FText t => v ← from_str t; if decide (str_or "" v "kind" = "provision") then Some v else None
  | _ => None
  end.

Definition fine_frame (f : Frame) s : Fine J W :=
  match provision_of f with
  | Some v => set_reader (AtStore v) (set_chan (provision_key v (fi_chan s)) s)
  | None =>
      let '(flow, c) := on_frame f (fi_chan s) in
      match flow with
      | Continue => adopt c s
      | Ended r => end_connection r (adopt c s)
      end
  end.

Definition fine_event s (e : FEvent) : Fine J W :=
  match e with
  | FFrame f => match fi_reader s with Waiting => fine_frame f s | _ => s end
  | FEnd => match fi_reader s with Waiting => end_connection (Ok ()) s | _ => s end
  | FReader =>
      match fi_reader s with
      | AtStore v => set_reader (AtCollector v) (set_chan (provision_store v (fi_chan s)) s)
      | AtCollector v => set_reader Waiting (set_chan (provision_collector v (fi_chan s)) s)
      | Waiting | Over _ => s
      end
  | FRun t =>
      match fi_tasks s !! t with
      | None => s
      | Some ph =>
          let '(ph', c) := handler_step ph (fi_chan s) in
          mkFine c (fi_reader s) (partial_alter (λ _, ph') t (fi_tasks s)) (fi_next s)
      end
  end.
Definition fine_run (es : list FEvent) s : Fine J W := foldl fine_event s es.
Definition fine_start c : Fine J W := mkFine c Waiting ∅ 0.
End Steps.

(** Unfold a step to the stage it makes. *)
Ltac stage := cbn [handler_step]; unfold query_store, query_connectors, query_adapter, write_key, write_connectors,
  write_device, sub_connectors, sub_ack, sub_streams, sub_handles.
