(* ===== verification/ControlStepsProps.v ===== *)
(** * Properties of the interleaved control channel

    The handlers of [ControlSteps] run in one go are those of [Control]; the
    write gate holds across provision frames, with the key and the allow-list of
    the moments they were read; every query is answered once. *)
From Stdlib Require Import Ascii.
From S2P Require Import Prelude Float Proto Buffer RustStr Json Jobs Plugins Modbus Write WriteProps PluginWrite Pss Collector Logbuf Enroll Control ControlProps ControlSteps.
Set Warnings "-register-all".
Local Open Scope Z_scope.

Section Atomic.
Context `{Json J} `{Crypto} `{PssXml} {DT : Type} `{Chrono DT}.
Context {W : Type} `{Http W} `{ModbusNet W} `{Procs W} `{Machine W}.
Implicit Types (c : Channel J W) (ph : Phase J).

(** ** In one go *)

Fixpoint run_phases (n : nat) ph c : option (Phase J) * Channel J W :=
  match n with
  | O => (Some ph, c)
  | S n => match handler_step ph c with (Some ph, c) => run_phases n ph c | (None, c) => (None, c) end
  end.

Lemma do_write_steps cid value target rb timeout (a : Agent J W) :
  do_write cid value target rb timeout a =
  match check_write cid value target (connectors a) with
  | Ok conn => device_write cid conn value target rb timeout a
  | Err e => (Some (Err e), a)
  end.
Proof.
  unfold do_write, check_write, device_write. destruct (connectors a !! cid) as [conn|]; [|done].
  destruct (is_finite value); simpl; [|done]. by destruct (decide (target_key target ∉ writable conn)).
Qed.

Lemma send_nil c : send [] c = c.
Proof. destruct c. unfold send. simpl. by rewrite app_nil_r. Qed.
Lemma set_agent_id c : set_agent (ch_agent c) c = c.
Proof. by destruct c. Qed.

Lemma query_in_one_go req c : ∃ k, (k ≤ 4)%nat ∧ run_phases k (QStart req) c = (None, run_handler (HQuery req) c).
Proof.
  unfold run_handler, handle_query, resolve_origin. destruct (ch_store c !! str_or "" req "datasource_id") as [d|] eqn:Ed.
  - exists 3%nat. split; [lia|]. cbn [run_phases]; stage. rewrite Ed. stage.
    destruct (run_query _ _ _ _ _ _ _ _) as [[r|e] h]; done.
  - destruct (connectors (ch_agent c) !! str_or "" req "datasource_id") as [cn|] eqn:Ec; simpl.
    + exists 4%nat. split; [lia|]. cbn [run_phases]; stage. rewrite Ed. stage. rewrite Ec. stage.
      destruct (run_query _ _ _ _ _ _ _ _) as [[r|e] h]; done.
    + exists 3%nat. split; [lia|]. cbn [run_phases]; stage. rewrite Ed. stage. rewrite Ec. stage.
      by rewrite set_agent_id.
Qed.

Lemma write_in_one_go req c : ∃ k, (k ≤ 4)%nat ∧ run_phases k (WStart req) c = (None, run_handler (HWrite req) c).
Proof.
  unfold run_handler, handle_write.
  destruct (verify_signature req (control_pubkey (ch_agent c)) (cmd_id req) (cmd_connector req) (cmd_value req) (cmd_target req)) as [[]|e] eqn:Ev;
    pose proof Ev as Ev'; unfold cmd_id, cmd_connector, cmd_value, cmd_target in Ev'; rewrite Ev'.
  2:{ exists 2%nat. split; [lia|]. cbn [run_phases]; stage. rewrite Ev. stage. simpl. by rewrite set_agent_id. }
  rewrite do_write_steps.
  destruct (check_write (cmd_connector req) (cmd_value req) (cmd_target req) (connectors (ch_agent c))) as [conn|e] eqn:Ec;
    pose proof Ec as Ec'; unfold cmd_connector, cmd_value, cmd_target in Ec'; rewrite Ec'.
  2:{ exists 3%nat. split; [lia|]. cbn [run_phases]; stage. rewrite Ev. stage. rewrite Ec. stage.
      simpl. by rewrite set_agent_id. }
  exists (match (device_write (cmd_connector req) conn (cmd_value req) (cmd_target req) (cmd_readback req) (cmd_timeout req) (ch_agent c)).1 with
    | None => 3 | Some _ => 4 end)%nat. split; [by destruct (device_write _ _ _ _ _ _ _).1; lia|].
  unfold cmd_connector, cmd_value, cmd_target, cmd_readback, cmd_timeout, cmd_id in *.
  destruct (device_write _ conn _ _ _ _ _) as [[[rb|e]|] a'] eqn:Ed; cbn [fst run_phases]; stage;
    unfold cmd_connector, cmd_value, cmd_target, cmd_readback, cmd_timeout, cmd_id; rewrite Ev; stage;
    unfold cmd_connector, cmd_value, cmd_target, cmd_readback, cmd_timeout, cmd_id; rewrite Ec; stage;
    unfold cmd_connector, cmd_value, cmd_target, cmd_readback, cmd_timeout, cmd_id; rewrite Ed; [done..|].
  simpl. by rewrite send_nil.
Qed.

Lemma subscribe_in_one_go req c : ∃ k, (k ≤ 4)%nat ∧ run_phases k (SStart req) c = (None, run_handler (HSubscribe req) c).
Proof.
  unfold run_handler, handle_subscribe.
  destruct (connectors (ch_agent c) !! str_or "" req "connector_id") as [conn|] eqn:Ec;
    destruct (bool_decide (is_Some (for_type (plugin_host (ch_agent c)) (str_or "" req "ds_type"))) &&
      negb (bool_decide (length (default [] (get_array req "points")) = 0%nat))) eqn:Es.
  - exists 4%nat. split; [lia|]. cbn [run_phases]; stage. rewrite Es, Ec. done.
  - exists 2%nat. split; [lia|]. cbn [run_phases]; stage. rewrite Es. done.
  - exists 2%nat. split; [lia|]. cbn [run_phases]; stage. rewrite Es, Ec. done.
  - exists 2%nat. split; [lia|]. cbn [run_phases]; stage. rewrite Es. done.
Qed.

(** The steps are those of the handlers and of the provision frames: a
    handler that nobody interrupts returns after at most four steps and has done
    what [run_handler] does in one, and the three pieces of a provision frame make
    [provision]. *)
Theorem handlers_in_one_go (h : Handler J) v c :
  (∃ k, (k ≤ 4)%nat ∧ run_phases k (start_of h) c = (None, run_handler h c)) ∧
  provision_collector v (provision_store v (provision_key v c)) = provision v c.
Proof.
  split.
  - destruct h as [req|req|req]; [apply query_in_one_go|apply write_in_one_go|apply subscribe_in_one_go].
  - unfold provision_collector, provision. simpl. by destruct (if _ || _ then _ else _).
Qed.
End Atomic.

(** ** Counting over the tasks *)
Section Tasks.
Context {A B : Type} (f : A → option B).
Implicit Types m : gmap nat A.

Lemma omap_tasks_delete m t x :
  m !! t = Some x → omap f (map_to_list m).*2 ≡ₚ option_list (f x) ++ omap f (map_to_list (delete t m)).*2.
Proof. intros Et. rewrite <- (map_to_list_delete _ _ _ Et). simpl. by destruct (f x). Qed.

Lemma omap_tasks_alter m t o :
  omap f (map_to_list (partial_alter (λ _, o) t m)).*2 ≡ₚ option_list (o ≫= f) ++ omap f (map_to_list (delete t m)).*2.
Proof.
  destruct o as [x|]; simpl; [|done]. change (partial_alter (λ _, Some x) t m) with (<[t := x]> m).
  rewrite <- insert_delete_eq, map_to_list_insert by apply lookup_delete_eq. simpl. by destruct (f x).
Qed.
End Tasks.

(** ** What a step sends and spawns *)
Section Effects.
Context `{JsonLaws J} `{Crypto} `{PssXml} {DT : Type} `{Chrono DT}.
Context {W : Type} `{Http W} `{ModbusNet W} `{Procs W} `{Machine W}.
Implicit Types (c : Channel J W) (s : Fine J W) (ph : Phase J) (es : list FEvent).

Definition acked (f : J) : Prop := get_str f "kind" = Some "write_ack" ∧ has_status "acked" f.
(** Neither the answer of a query nor a positive acknowledgement. *)
Definition quiet (o : Out J) : Prop := answered_of o = None ∧ ∀ f, o = OText f → ¬ acked f.

Definition spawned (v : J) : list (Handler J) :=
  let kind := str_or "" v "kind" in
  if decide (kind = "query_request") then [HQuery v]
  else if decide (kind = "write_request") then [HWrite v]
  else if decide (kind = "subscribe_request") then [HSubscribe v] else [].
Definition frame_spawns (f : Frame) : list (Handler J) :=
  match f with FText t => match from_str t with Some v => spawned v | None => [] end | _ => [] end.

Lemma quiet_logs v ring : quiet (OText (logs_response (J := J) v ring)).
Proof.
  split; [apply logs_response_frame|]. intros f [= <-] [Hk _]. unfold logs_response, get_str in Hk.
  rewrite get_object in Hk. simpl in Hk. by rewrite as_str_str in Hk.
Qed.
Lemma quiet_pong p : quiet (OPong p).
Proof. by split. Qed.
Lemma quiet_ack id b : quiet (OText (subscribe_ack (J := J) id b)).
Proof.
  split; [apply subscribe_ack_frame|]. intros f [= <-] [Hk _]. unfold subscribe_ack, get_str in Hk.
  rewrite get_object in Hk. simpl in Hk. by rewrite as_str_str in Hk.
Qed.

(** [c'] is [c] after some quiet frames were sent and [hs] were spawned. *)
Definition quietly (hs : list (Handler J)) c c' : Prop :=
  ∃ new, ch_sent c' = ch_sent c ++ new ∧ Forall quiet new ∧ ch_handlers c' = ch_handlers c ++ hs.

Lemma quietly_same c c' : ch_sent c' = ch_sent c → ch_handlers c' = ch_handlers c → quietly [] c c'.
Proof. intros E1 E2. exists []. rewrite !app_nil_r. by split_and!. Qed.

Lemma on_text_quietly v c : quietly (spawned v) c (on_text v c).2.
Proof.
  unfold on_text, spawned. cbv zeta.
  destruct (decide (str_or "" v "kind" = "query_request")) as [Hq|Hq].
  { rewrite !Hq, !decide_False by done. exists []. by rewrite app_nil_r. }
  destruct (decide (str_or "" v "kind" = "write_request")) as [Hw|Hw].
  { rewrite !Hw, !decide_False by done. exists []. by rewrite app_nil_r. }
  destruct (decide (str_or "" v "kind" = "subscribe_request")) as [Hs|Hs].
  { rewrite !Hs, !decide_False by done. exists []. by rewrite app_nil_r. }
  repeat case_decide; simpl.
  - by destruct (default false _); apply quietly_same.
  - apply quietly_same; unfold provision; by destruct (if _ || _ then _ else _).
  - apply quietly_same; destruct (get_str v "request_id") as [id|]; try done; unfold unsubscribe; by destruct (ch_subs c !! id).
  - by apply quietly_same.
  - eexists. split; [done|]. split; [|by rewrite app_nil_r]. apply Forall_singleton, quiet_logs.
  - by apply quietly_same.
Qed.

Lemma on_frame_quietly f c : quietly (frame_spawns f) c (on_frame f c).2.
Proof.
  destruct f as [t|p| | |e]; simpl; try by apply quietly_same.
  - destruct (from_str t) as [v|]; [|by apply quietly_same].
    pose proof (on_text_quietly v c) as Ht. by destruct (on_text v c).
  - eexists. split; [done|]. split; [|by rewrite app_nil_r]. apply Forall_singleton, quiet_pong.
Qed.

Lemma provision_spawns f v : provision_of f = Some v → frame_spawns f = [].
Proof.
  destruct f as [t| | | |]; try done. simpl. destruct (from_str t) as [w|]; simpl; [|done].
  case_decide as Hk; [|done]. intros _. unfold spawned. by rewrite Hk, !decide_False.
Qed.

(** A frame taken by the read loop. *)
Lemma fine_frame_effect f s :
  ch_handlers (fi_chan s) = [] →
  let s' := fine_frame f s in
  ch_handlers (fi_chan s') = [] ∧
  (∃ new, ch_sent (fi_chan s') = ch_sent (fi_chan s) ++ new ∧ Forall quiet new) ∧
  match frame_spawns f with
  | [] => fi_tasks s' = fi_tasks s ∧ fi_next s' = fi_next s
  | h :: _ => fi_tasks s' = <[fi_next s := start_of h]> (fi_tasks s) ∧ fi_next s' = S (fi_next s)
  end.
Proof.
  intros Hh. unfold fine_frame. destruct (provision_of f) as [v|] eqn:Ep.
  { rewrite (provision_spawns f v Ep). simpl. split_and!; [done| |done..]. exists []. by rewrite app_nil_r. }
  destruct (on_frame_quietly f (fi_chan s)) as (new & Es & Hq & Ehs). rewrite Hh in Ehs. simpl in Ehs.
  assert (length (frame_spawns f) ≤ 1)%nat as Hlen.
  { destruct f as [t| | | |]; simpl; try lia. destruct (from_str t) as [v|]; simpl; [|lia]. unfold spawned. repeat case_decide; simpl; lia. }
  assert (∀ c, ch_handlers c = frame_spawns f → ch_sent c = ch_sent (fi_chan s) ++ new →
    let s' := adopt c s in ch_handlers (fi_chan s') = [] ∧ ch_sent (fi_chan s') = ch_sent (fi_chan s) ++ new ∧
    match frame_spawns f with
    | [] => fi_tasks s' = fi_tasks s ∧ fi_next s' = fi_next s
    | h :: _ => fi_tasks s' = <[fi_next s := start_of h]> (fi_tasks s) ∧ fi_next s' = S (fi_next s)
    end) as Hadopt.
  { intros c E1 E2. unfold adopt. rewrite E1. destruct (frame_spawns f) as [|h [|]]; simpl in *; [done|done|lia]. }
  destruct (on_frame f (fi_chan s)) as [[|r] c] eqn:Ef; simpl in Es, Ehs;
    destruct (Hadopt c Ehs Es) as (H1' & H2' & H3').
  - split_and!; [done|by exists new|done].
  - simpl. split_and!; [done|by exists new|done].
Qed.

(** *** A step of a handler *)
Lemma handler_step_sent ph c :
  let '(ph', c') := handler_step ph c in
  ch_handlers c' = ch_handlers c ∧
  match ph with
  | Reply f => ph' = None ∧ ch_sent c' = ch_sent c ++ [OText f]
  | SFound req conn => ch_sent c' = ch_sent c ++ [OText (subscribe_ack (str_or "" req "request_id") (bool_decide (is_Some conn)))]
  | _ => ch_sent c' = ch_sent c
  end.
Proof.
  destruct ph; stage; simpl; try done.
  - by destruct (run_query _ _ _ _ _ _ _ _).
  - by destruct (device_write _ _ _ _ _ _ _).
Qed.

(** *** Queries *)

(** The query a handler still has to answer. *)
Definition open_query ph : option string :=
  match ph with
  | QStart req | QMissed req | QFound req _ _ _ => Some (str_or "" req "request_id")
  | Reply f => answered_of (OText f)
  | _ => None
  end.
(** The ids of the queries waiting and answered. *)
Definition waiting_queries s : list string := omap open_query (map_to_list (fi_tasks s)).*2.
Definition answered_queries s : list string := omap answered_of (ch_sent (fi_chan s)).
(** The ids of the queries the read loop took off the connection. *)
Definition taken_query s (e : FEvent) : option string :=
  match e with FFrame f => match fi_reader s with Waiting => received_of (J := J) (EFrame f) | _ => None end | _ => None end.
Fixpoint taken_queries es s : list string :=
  match es with [] => [] | e :: es => option_list (taken_query s e) ++ taken_queries es (fine_event s e) end.

Record fine_ok s : Prop := {
  fo_handlers : ch_handlers (fi_chan s) = [];
  fo_fresh : ∀ t, (fi_next s ≤ t)%nat → fi_tasks s !! t = None;
}.

#[local] Arguments answered_of : simpl never.
#[local] Arguments received_of : simpl never.

Lemma query_reply_frame req r : answered_of (OText (query_reply (J := J) req r)) = Some (str_or "" req "request_id").
Proof.
  unfold query_reply. destruct r; unfold query_ok, respond_err, answered_of, get_str; rewrite !get_object; simpl; by rewrite !as_str_str.
Qed.
Lemma unknown_frame id code detail : answered_of (OText (respond_err (J := J) id code detail)) = Some id.
Proof. unfold respond_err, answered_of, get_str. rewrite !get_object. simpl. by rewrite !as_str_str. Qed.
Lemma write_failed_frame id e : answered_of (OText (write_ack_failed (J := J) id e)) = None.
Proof. unfold write_ack_failed, answered_of, get_str. rewrite !get_object. simpl. by rewrite !as_str_str. Qed.
Lemma write_acked_frame id rb : answered_of (OText (write_ack_ok (J := J) id rb)) = None.
Proof.
  unfold answered_of. assert (get_str (write_ack_ok (J := J) id rb) "kind" = Some "write_ack") as ->; [|done].
  unfold get_str, write_ack_ok. destruct rb; rewrite ?get_set; simpl; rewrite get_object; simpl; by rewrite as_str_str.
Qed.

(** A step of a handler keeps its query, or answers it. *)
Lemma handler_step_query ph c :
  let '(ph', c') := handler_step ph c in
  omap answered_of (ch_sent c') ++ option_list (ph' ≫= open_query) = omap answered_of (ch_sent c) ++ option_list (open_query ph).
Proof.
  destruct ph as [req|req|req ty cfg sec|req|req|req conn|req|req conn|req conn|id ids|f]; stage; simpl.
  - by destruct (ch_store c !! _).
  - destruct (connectors _ !! _); simpl; [done|]. by rewrite unknown_frame.
  - destruct (run_query _ _ _ _ _ _ _ _) as [r h]. simpl. by rewrite query_reply_frame.
  - destruct (verify_signature _ _ _ _ _ _) as [[]|e]; simpl; [done|]. by rewrite write_failed_frame.
  - destruct (check_write _ _ _ _); simpl; [done|]. by rewrite write_failed_frame.
  - destruct (device_write _ _ _ _ _ _ _) as [[[rb|e]|] a]; simpl; [| |done].
    + by rewrite write_acked_frame.
    + by rewrite write_failed_frame.
  - done.
  - rewrite omap_app. simpl. rewrite subscribe_ack_frame. by destruct conn; rewrite ?app_nil_r.
  - done.
  - done.
  - rewrite omap_app. simpl. rewrite app_nil_r. by destruct (answered_of (OText f)).
Qed.

Lemma spawned_query f : option_list (received_of (J := J) (EFrame f)) = omap (λ h, open_query (start_of h)) (frame_spawns f).
Proof.
  unfold received_of. destruct f as [t| | | |]; try done. simpl. destruct (from_str t) as [v|]; [|done]. simpl. unfold spawned.
  case_decide; [done|]. by repeat case_decide.
Qed.

Lemma quiet_answers new : Forall quiet new → omap answered_of new = [].
Proof. induction 1 as [|o new [Ho _] _ IH]; [done|]. simpl. by rewrite Ho. Qed.

Lemma fine_ok_event e s : fine_ok s → fine_ok (fine_event s e).
Proof.
  intros [Hh Hf]. destruct e as [f| | |t]; simpl.
  - destruct (fi_reader s); try done. destruct (fine_frame_effect f s Hh) as (Hh' & _ & Ht). split; [done|].
    intros t Hle. destruct (frame_spawns f) as [|h ?]; destruct Ht as [-> En]; rewrite En in Hle; [by apply Hf|].
    rewrite lookup_insert_ne by lia. apply Hf. lia.
  - by destruct (fi_reader s).
  - destruct (fi_reader s) as [|v|v|r]; try done; split; try done. simpl. unfold provision_collector.
    by destruct (if _ || _ then _ else _).
  - destruct (fi_tasks s !! t) as [ph|] eqn:Et; [|done]. pose proof (handler_step_sent ph (fi_chan s)) as Hs.
    destruct (handler_step ph (fi_chan s)) as [ph' c]. destruct Hs as [Hs _]. split; simpl; [by rewrite Hs|].
    intros u Hu. rewrite lookup_partial_alter_ne; [by apply Hf|]. intros <-. by rewrite Hf in Et.
Qed.

Lemma fine_event_queries e s : fine_ok s →
  answered_queries (fine_event s e) ++ waiting_queries (fine_event s e) ≡ₚ
  (answered_queries s ++ waiting_queries s) ++ option_list (taken_query s e).
Proof.
  intros [Hh Hf]. unfold answered_queries, waiting_queries, taken_query. destruct e as [f| | |t]; simpl; rewrite ?app_nil_r.
  - destruct (fi_reader s); rewrite ?app_nil_r; try done.
    destruct (fine_frame_effect f s Hh) as (_ & (new & -> & Hq) & Ht). rewrite omap_app, (quiet_answers new Hq), app_nil_r.
    rewrite spawned_query. assert (length (frame_spawns f) ≤ 1)%nat as Hlen.
    { destruct f as [t| | | |]; simpl; try lia. destruct (from_str t) as [v|]; simpl; [|lia]. unfold spawned. repeat case_decide; simpl; lia. }
    destruct (frame_spawns f) as [|h [|]]; simpl in *; [|destruct Ht as [-> _]|lia].
    + destruct Ht as [-> _]. by rewrite app_nil_r.
    + rewrite map_to_list_insert by by apply Hf. simpl. destruct (open_query (start_of h)) as [q|]; simpl; [|by rewrite app_nil_r].
      rewrite <- Permutation_middle. by rewrite (comm (++) _ [q]).
  - by destruct (fi_reader s).
  - destruct (fi_reader s) as [|v|v|r]; try done. simpl. unfold provision_collector. by destruct (if _ || _ then _ else _).
  - destruct (fi_tasks s !! t) as [ph|] eqn:Et; [|done]. pose proof (handler_step_query ph (fi_chan s)) as Hs.
    destruct (handler_step ph (fi_chan s)) as [ph' c]. simpl.
    rewrite (omap_tasks_alter open_query), (omap_tasks_delete open_query _ _ _ Et).
    rewrite (assoc_L (++)), Hs. by destruct (open_query ph); simpl; rewrite <- (assoc_L (++)).
Qed.

(** C12. However the frames, the pieces of provision frames and the steps of the
    handlers interleave, also after the connection ended: every query the read
    loop took is answered at most once and no answer is invented; the ids
    answered, with those of the queries whose handlers are still under way, are
    those taken. *)
Theorem queries_interleaved es c :
  ch_handlers c = [] →
  let s := fine_run es (fine_start c) in
  answered_queries s ++ waiting_queries s ≡ₚ omap answered_of (ch_sent c) ++ taken_queries es (fine_start c).
Proof.
  intros Hh. assert (∀ s, fine_ok s →
    answered_queries (fine_run es s) ++ waiting_queries (fine_run es s) ≡ₚ
    (answered_queries s ++ waiting_queries s) ++ taken_queries es s) as Hrun.
  { induction es as [|e es IH]; intros s Hs; simpl; [by rewrite app_nil_r|].
    rewrite (IH _ (fine_ok_event e s Hs)), fine_event_queries by done. by rewrite <- (assoc_L (++)). }
  cbv zeta. rewrite Hrun; [|by split]. unfold answered_queries at 1, waiting_queries at 1. simpl.
  by rewrite map_to_list_empty, app_nil_r.
Qed.

(** *** Writes *)
Section Gate.
Context (c0 : Channel J W).

Definition state_after es : Fine J W := fine_run es (fine_start c0).
Definition agent_after es : Agent J W := ch_agent (fi_chan (state_after es)).

(** The command arrived. *)
Definition received_write (req : J) es : Prop :=
  ∃ text, FFrame (FText text) ∈ es ∧ from_str text = Some req ∧ str_or "" req "kind" = "write_request".

(** Then it was checked against the signing key of a moment, *)
Definition verified_in (req : J) es : Prop :=
  ∃ es1 es2, es = es1 ++ es2 ∧ received_write req es1 ∧
    ∀ pk, control_pubkey (agent_after es1) = Some pk → ∃ sv,
      signed pk req (cmd_id req) (cmd_connector req) (cmd_target req) sv.

(** later against the allow-list of a moment, *)
Definition granted_in (req : J) (conn : Conn J) es : Prop :=
  ∃ es1 es2, es = es1 ++ es2 ∧ verified_in req es1 ∧
    connectors (agent_after es1) !! cmd_connector req = Some conn ∧
    is_finite (cmd_value req) = true ∧ target_key (cmd_target req) ∈ writable conn.

(** and later still the device was written. *)
Definition written_in (req : J) (rb : option f64) es : Prop :=
  ∃ es1 t es2 conn, es = es1 ++ FRun t :: es2 ∧ fi_tasks (state_after es1) !! t = Some (WGranted req conn) ∧
    granted_in req conn es1 ∧
    (device_write (cmd_connector req) conn (cmd_value req) (cmd_target req) (cmd_readback req) (cmd_timeout req)
       (agent_after es1)).1 = Some (Ok rb).

Definition frame_ok (f : J) es : Prop :=
  acked f → ∃ req rb, f = write_ack_ok (cmd_id req) rb ∧ written_in req rb es.
Definition phase_ok ph es : Prop :=
  match ph with
  | WStart req => received_write req es
  | WVerified req => verified_in req es
  | WGranted req conn => granted_in req conn es
  | Reply f => frame_ok f es
  | _ => True
  end.

Lemma received_later req es l : received_write req es → received_write req (es ++ l).
Proof. intros (text & Hin & Hr). exists text. split; [|done]. apply elem_of_app. by left. Qed.
Lemma verified_later req es l : verified_in req es → verified_in req (es ++ l).
Proof. intros (es1 & es2 & -> & Hr). exists es1, (es2 ++ l). by rewrite <- (assoc_L (++)). Qed.
Lemma granted_later req conn es l : granted_in req conn es → granted_in req conn (es ++ l).
Proof. intros (es1 & es2 & -> & Hr). exists es1, (es2 ++ l). by rewrite <- (assoc_L (++)). Qed.
Lemma frame_later f es l : frame_ok f es → frame_ok f (es ++ l).
Proof.
  intros Hf Ha. destruct (Hf Ha) as (req & rb & E & es1 & t & es2 & conn & -> & Hw). exists req, rb. split; [done|].
  exists es1, t, (es2 ++ l), conn. by rewrite <- (assoc_L (++)).
Qed.
Lemma phase_later ph es l : phase_ok ph es → phase_ok ph (es ++ l).
Proof. destruct ph; simpl; auto using received_later, verified_later, granted_later, frame_later. Qed.

Lemma not_acked_failed id e : ¬ acked (write_ack_failed (J := J) id e).
Proof.
  intros [_ Hs]. unfold has_status, write_ack_failed, get_str in Hs. rewrite get_object in Hs. simpl in Hs. by rewrite as_str_str in Hs.
Qed.
Lemma not_acked_query f id : answered_of (OText (J := J) f) = Some id → ¬ acked f.
Proof. unfold answered_of. intros Ha [Hk _]. rewrite Hk in Ha. by case_decide. Qed.

(** A step of a handler goes on with what it read at that moment. *)
Lemma handler_step_phase es t ph :
  fi_tasks (state_after es) !! t = Some ph → phase_ok ph es →
  ∀ ph', (handler_step ph (fi_chan (state_after es))).1 = Some ph' → phase_ok ph' (es ++ [FRun t]).
Proof.
  intros Et Hph ph'. destruct ph as [req|req|req ty cfg sec|req|req|req conn|req|req conn|req conn|id ids|f]; stage; simpl.
  - destruct (ch_store _ !! _); by intros [= <-].
  - destruct (connectors _ !! _); intros [= <-]; simpl; [done|]. intros Ha. edestruct not_acked_query; [apply unknown_frame|exact Ha].
  - destruct (run_query _ _ _ _ _ _ _ _) as [r h]. intros [= <-]. simpl. intros Ha.
    edestruct not_acked_query; [apply query_reply_frame|exact Ha].
  - destruct (verify_signature req _ _ _ _ _) as [[]|e] eqn:Ev; intros [= <-]; simpl.
    + exists es, [FRun t]. split_and!; [done..|]. intros pk Epk. unfold agent_after in Epk. rewrite Epk in Ev.
      apply verify_spec in Ev as (sv & Hs & _). by exists sv.
    + intros Ha. by apply not_acked_failed in Ha.
  - destruct (check_write _ _ _ _) as [conn|e] eqn:Ec; intros [= <-]; simpl.
    + exists es, [FRun t]. split; [done|]. split; [exact Hph|]. unfold check_write in Ec. unfold agent_after.
      destruct (connectors _ !! _) as [conn'|]; [|done]. destruct (is_finite (cmd_value req)) eqn:Ef; simpl in Ec; [|done].
      destruct (decide (target_key (cmd_target req) ∉ writable conn')) as [|Hin%dec_stable]; [done|]. by simplify_eq.
    + intros Ha. by apply not_acked_failed in Ha.
  - destruct (device_write _ _ _ _ _ _ _) as [[[rb|e]|] a] eqn:Ed; simpl; intros E; simplify_eq; simpl.
    + intros _. exists req, rb. split; [done|]. exists es, t, [], conn. split_and!; [done..|]. unfold agent_after. by rewrite Ed.
    + intros Ha. by apply not_acked_failed in Ha.
  - by intros [= <-].
  - destruct conn; simpl; [by intros [= <-]|done].
  - by intros [= <-].
  - done.
  - done.
Qed.

Record gate_inv es : Prop := {
  gi_ok : fine_ok (state_after es);
  gi_tasks : ∀ t ph, fi_tasks (state_after es) !! t = Some ph → phase_ok ph es;
  gi_sent : ∃ new, ch_sent (fi_chan (state_after es)) = ch_sent c0 ++ new ∧ ∀ f, OText f ∈ new → frame_ok f es;
}.

Lemma state_after_snoc es e : state_after (es ++ [e]) = fine_event (state_after es) e.
Proof. unfold state_after, fine_run. by rewrite foldl_app. Qed.

(** What is sent besides by the handler of a write is no acknowledgement. *)
Lemma sent_more es e new :
  gate_inv es → ch_sent (fi_chan (state_after (es ++ [e]))) = ch_sent (fi_chan (state_after es)) ++ new →
  (∀ f, OText f ∈ new → frame_ok f (es ++ [e])) →
  ∃ new', ch_sent (fi_chan (state_after (es ++ [e]))) = ch_sent c0 ++ new' ∧ ∀ f, OText f ∈ new' → frame_ok f (es ++ [e]).
Proof.
  intros [_ _ (old & Eold & Hold)] -> Hnew. exists (old ++ new). rewrite Eold, (assoc_L (++)). split; [done|].
  intros f [Hf|Hf]%elem_of_app; [|by apply Hnew]. by apply frame_later, Hold.
Qed.

Lemma gate_inv_frame f es : gate_inv es → fi_reader (state_after es) = Waiting → gate_inv (es ++ [FFrame f]).
Proof.
  intros Hg Hr. pose proof (state_after_snoc es (FFrame f)) as E. simpl in E. rewrite Hr in E.
  destruct (fine_frame_effect f (state_after es) (fo_handlers _ (gi_ok _ Hg))) as (Hh & (new & Es & Hq) & Ht).
  rewrite <- E in Hh, Es, Ht. split.
  - rewrite state_after_snoc. by apply fine_ok_event, Hg.
  - intros t ph. destruct (frame_spawns f) as [|h hs] eqn:Ef; destruct Ht as [-> _].
    + intros Et. apply phase_later. by apply (gi_tasks _ Hg t).
    + intros [[_ <-]|[_ Et]]%lookup_insert_Some; [|apply phase_later; by apply (gi_tasks _ Hg t)].
      destruct f as [text| | | |]; try done. simpl in Ef. destruct (from_str text) as [v|] eqn:Ev; [|done].
      unfold spawned in Ef. repeat case_decide; simplify_eq; simpl; try done.
      exists text. split; [|done]. apply elem_of_app. right. by apply list_elem_of_singleton.
  - apply (sent_more es _ new Hg Es). intros g Hin Ha. rewrite Forall_forall in Hq. destruct (Hq _ Hin) as [_ Hq']. by destruct (Hq' g).
Qed.

Lemma gate_inv_run t es : gate_inv es → gate_inv (es ++ [FRun t]).
Proof.
  intros Hg. pose proof (state_after_snoc es (FRun t)) as E. simpl in E.
  destruct (fi_tasks (state_after es) !! t) as [ph|] eqn:Et.
  2:{ split; rewrite E.
      - by apply Hg.
      - intros u ph Hu. apply phase_later. by apply (gi_tasks _ Hg u).
      - rewrite <- E. apply (sent_more es _ []); [done|by rewrite E, app_nil_r|]. intros f Hf. by apply elem_of_nil in Hf. }
  pose proof (handler_step_phase es t ph Et (gi_tasks _ Hg t ph Et)) as Hstep.
  pose proof (handler_step_sent ph (fi_chan (state_after es))) as Hs.
  destruct (handler_step ph (fi_chan (state_after es))) as [ph' c]. destruct Hs as [Hh Hs]. split.
  - rewrite state_after_snoc. by apply fine_ok_event, Hg.
  - intros u ph1. rewrite E. simpl. destruct (decide (u = t)) as [->|Hu].
    + rewrite lookup_partial_alter_eq. by apply Hstep.
    + rewrite lookup_partial_alter_ne by done. intros Eu. apply phase_later. by apply (gi_tasks _ Hg u).
  - destruct ph as [req|req|req ty cfg sec|req|req|req conn|req|req conn|req conn|id ids|f].
    8:{ eapply sent_more; [done|by rewrite E|]. intros f [= ->]%list_elem_of_singleton. 
        destruct (quiet_ack (str_or "" req "request_id") (bool_decide (is_Some conn))) as [_ Hq]. intros Ha. by apply (Hq _ eq_refl) in Ha. }
    10:{ destruct Hs as [_ Hs]. eapply sent_more; [done|by rewrite E|]. intros g [= ->]%list_elem_of_singleton.
         apply frame_later. by apply (gi_tasks _ Hg t (Reply f)). }
    all: apply (sent_more es _ []); [done|by rewrite E, app_nil_r|]; intros g Hin; by apply elem_of_nil in Hin.
Qed.

Lemma gate_inv_event e es : gate_inv es → gate_inv (es ++ [e]).
Proof.
  intros Hg. pose proof (state_after_snoc es e) as E.
  assert (fi_tasks (state_after (es ++ [e])) = fi_tasks (state_after es) →
    ch_sent (fi_chan (state_after (es ++ [e]))) = ch_sent (fi_chan (state_after es)) → gate_inv (es ++ [e])) as Hsame.
  { intros E1 E2. split.
    - rewrite E. by apply fine_ok_event, Hg.
    - rewrite E1. intros u ph Hu. apply phase_later. by apply (gi_tasks _ Hg u).
    - apply (sent_more es _ []); [done|by rewrite E2, app_nil_r|]. intros f Hf. by apply elem_of_nil in Hf. }
  destruct e as [f| | |t]; simpl in E.
  - destruct (fi_reader (state_after es)) eqn:Er; [by apply gate_inv_frame|apply Hsame; by rewrite E..].
  - apply Hsame; rewrite E; by destruct (fi_reader (state_after es)).
  - apply Hsame; rewrite E; destruct (fi_reader (state_after es)) as [|v|v|r]; try done.
    simpl. unfold provision_collector. by destruct (if _ || _ then _ else _).
  - by apply gate_inv_run.
Qed.
End Gate.

(** C3. The write gate holds across provision frames that are applied while
    commands are under way: a device is written only for a command that arrived,
    then was found signed with the key of that moment (if there was one), then
    found on the allow-list its connector had at a moment after that, with a
    finite value; and a positive acknowledgement on the channel is that of a
    device write of such a command that succeeded, with its read-back. *)
Theorem write_gate_interleaved (c : Channel J W) es :
  ch_handlers c = [] →
  (∀ t req conn, fi_tasks (state_after c es) !! t = Some (WGranted req conn) → granted_in c req conn es) ∧
  ∃ new, ch_sent (fi_chan (state_after c es)) = ch_sent c ++ new ∧
    ∀ f, OText f ∈ new → acked f → ∃ req rb, f = write_ack_ok (cmd_id req) rb ∧ written_in c req rb es.
Proof.
  intros Hh. assert (gate_inv c es) as Hg.
  { induction es as [|e es IH] using rev_ind; [|by apply gate_inv_event]. split; simpl.
    - by split.
    - intros t ph. by rewrite lookup_empty.
    - exists []. rewrite app_nil_r. split; [done|]. intros f Hf. by apply elem_of_nil in Hf. }
  split; [|apply Hg]. intros t req conn Et. by apply (gi_tasks _ _ Hg t (WGranted req conn)).
Qed.
End Effects.

(** ** A revocation in the middle of a command *)
Module ControlStepsRun.
Import Quiet WriteRun.
#[local] Existing Instances WriteRun.crypto WriteRun.net WriteRun.no_procs.
#[local] Instance machine : Machine Plc := {|
  buffer_path_var _ := None; fs_write _ _ w := (Ok (), w); log_ring _ := [] |}.

Definition write_frame : Tree :=
  TObj [("kind", TStr "write_request"); ("command_id", TStr "cmd-1"); ("connector_id", TStr "c1"); ("value", TInt (-35000));
        ("target", WriteRun.target); ("readback", TBool true); ("sig_payload", TStr signed_payload);
        ("signature", TStr ("b64:pk:" +:+ signed_payload))].
(** The connector stays, with nothing writable, and the key is withdrawn. *)
Definition revoke_frame : Tree :=
  TObj [("kind", TStr "provision"); ("connectors", TArr [TObj [("connector_id", TStr "c1"); ("type", TStr "modbus")]])].
Definition query_frame (id : string) : Tree :=
  TObj [("kind", TStr "query_request"); ("request_id", TStr id); ("datasource_id", TStr "d"); ("op", TStr "test")].
Definition subscribe_frame : Tree :=
  TObj [("kind", TStr "subscribe_request"); ("request_id", TStr "s"); ("connector_id", TStr "c1"); ("ds_type", TStr "x");
        ("points", TArr [TNull; TNull])].

Definition texts : list (string * Tree) :=
  [("write", write_frame); ("revoke", revoke_frame); ("q1", query_frame "1"); ("q2", query_frame "2"); ("sub", subscribe_frame)].
#[local] Instance json : Json Tree := tree_json (λ s, assoc_last s texts).
#[local] Instance laws : JsonLaws Tree := tree_laws (λ s, assoc_last s texts).

Definition streaming : PluginHost := mkPluginHost [mkPlugin "p" "/p" "/p/p" []] {["x" := 0%nat]}.
Definition agent : Agent Tree Plc := mkAgent {[ "c1" := modbus ]} (Some "pk:") streaming (mkHost ∅ (mkPlc ∅ ∅)).
Definition first : Channel Tree Plc := open_channel TNull agent (mkTasks ∅ ∅ 0).
Definition frame (t : string) : FEvent := FFrame (FText t).

(** The command passes the key and the allow-list; a frame takes the key and the
    target away; the device is written all the same, and acknowledged. *)
Definition late_revocation : list FEvent :=
  [frame "write"; FRun 0; FRun 0; frame "revoke"; FReader; FReader; FRun 0; FRun 0].

Lemma write_gate_interleaved_witness :
  let c := fi_chan (state_after first late_revocation) in
  control_pubkey (ch_agent c) = None ∧ (writable <$> connectors (ch_agent c) !! "c1") = Some ∅ ∧
  ch_sent c = ch_sent first ++ [OText (write_ack_ok "cmd-1" (Some (f64_of_Z (-35000))))] ∧
  ∃ req rb, write_ack_ok "cmd-1" (Some (f64_of_Z (-35000))) = write_ack_ok (cmd_id req) rb ∧
    written_in first req rb late_revocation.
Proof.
  intros c. split; [vm_compute; reflexivity|]. split; [vm_compute; reflexivity|].
  assert (ch_sent c = ch_sent first ++ [OText (write_ack_ok "cmd-1" (Some (f64_of_Z (-35000))))]) as Es by (vm_compute; reflexivity).
  split; [exact Es|].
  destruct (write_gate_interleaved first late_revocation eq_refl) as [_ (new & Enew & Hnew)].
  fold c in Enew. rewrite Es in Enew. apply app_inv_head in Enew. subst new.
  apply Hnew; [by apply list_elem_of_singleton|]. split; vm_compute; reflexivity.
Defined.

(** The second query is not answered yet when the connection ends; it still is,
    afterwards. *)
Lemma queries_interleaved_witness :
  let es := [frame "q1"; frame "q2"; FRun 1; FRun 0; FRun 0; FEnd; FRun 1] in
  let s := fine_run es (fine_start first) in
  answered_queries s = [] ∧ answered_queries (fine_run [FRun 0; FRun 1] s) = ["1"; "2"] ∧
  answered_queries s ++ waiting_queries s ≡ₚ ["1"; "2"].
Proof.
  intros es s. split; [vm_compute; reflexivity|]. split; [vm_compute; reflexivity|].
  exact (queries_interleaved es first eq_refl).
Defined.

(** A subscribe request whose handler is under way when the connection ends opens
    its streams after the others were aborted: nobody aborts them. *)
Example late_subscribe_leaks :
  let s := fine_run [frame "sub"; FRun 0; FEnd; FRun 0; FRun 0; FRun 0] (fine_start first) in
  fi_reader s = Over (Ok ()) ∧ size (ch_streams (fi_chan s)) = 2%nat.
Proof. vm_compute. done. Qed.
End ControlStepsRun.
