(* ===== verification/ControlSubs.v ===== *)
(** * Subscriptions between two awaits ([src/control.rs])

    The streams of the interleaved control channel: each one is among the handles
    of its request, or its handler still has them in hand. What a handler has in
    hand when the connection ends is not aborted. *)
From S2P Require Import Prelude Float Proto Buffer RustStr Json Jobs Plugins Modbus Write WriteProps PluginWrite Pss Collector Logbuf Enroll Control ControlProps ControlSteps ControlStepsProps.
Set Warnings "-register-all".
Local Open Scope Z_scope.

Section Subscriptions.
Context `{JsonLaws J} `{Crypto} `{PssXml} {DT : Type} `{Chrono DT}.
Context {W : Type} `{Http W} `{ModbusNet W} `{Procs W} `{Machine W}.
Implicit Types (c : Channel J W) (s : Fine J W) (ph : Phase J) (es : list FEvent).

(** The subscribe request a handler is at. *)
Definition subscribing_at ph : option string :=
  match ph with
  | SStart req | SFound req _ | SAcked req _ => Some (str_or "" req "request_id")
  | SOpened request_id _ => Some request_id
  | _ => None
  end.
Definition under_way s : list string := omap subscribing_at (map_to_list (fi_tasks s)).*2.

(** The ids of the subscribe requests the read loop took. *)
Definition taken_subscribe s (e : FEvent) : option string :=
  match e with FFrame f => match fi_reader s with Waiting => subscribe_of (J := J) (EFrame f) | _ => None end | _ => None end.
Fixpoint taken_subscribes es s : list string :=
  match es with [] => [] | e :: es => option_list (taken_subscribe s e) ++ taken_subscribes es (fine_event s e) end.

(** The handles of a request: in the map, or in the hands of its handler. *)
Definition in_hand s (id : string) (ids : list nat) : Prop := ∃ t, fi_tasks s !! t = Some (SOpened id ids).
Definition handles s (id : string) (ids : list nat) : Prop := ch_subs (fi_chan s) !! id = Some ids ∨ in_hand s id ids.

(** [future] are the ids still to come. *)
Record subs_fine (future : list string) s : Prop := {
  sf_ok : fine_ok s;
  sf_tracked : ∀ n st, ch_streams (fi_chan s) !! n = Some st → ∃ ids, handles s (st_request st) ids ∧ n ∈ ids;
  sf_owned : ∀ id ids n st, handles s id ids → n ∈ ids → ch_streams (fi_chan s) !! n = Some st → st_request st = id;
  sf_below : ∀ id ids n, handles s id ids → n ∈ ids → (n < ch_next (fi_chan s))%nat;
  sf_fresh : ∀ n, (ch_next (fi_chan s) ≤ n)%nat → ch_streams (fi_chan s) !! n = None;
  sf_distinct : NoDup (under_way s ++ future);
  sf_new : ∀ id, id ∈ under_way s ++ future → ch_subs (fi_chan s) !! id = None;
}.

(** Nothing happens to the streams and their handles. *)
Lemma subs_fine_keep future future' s s' :
  subs_fine future s → fine_ok s' →
  ch_subs (fi_chan s') = ch_subs (fi_chan s) → ch_streams (fi_chan s') = ch_streams (fi_chan s) →
  ch_next (fi_chan s') = ch_next (fi_chan s) →
  (∀ id ids, in_hand s' id ids ↔ in_hand s id ids) →
  under_way s' ++ future' ⊆+ under_way s ++ future → subs_fine future' s'.
Proof.
  intros [_ Ht Ho Hb Hf Hd Hn] Hok E1 E2 E3 Hh Hp.
  assert (∀ id ids, handles s' id ids ↔ handles s id ids) as Hhs by (intros id ids; unfold handles; by rewrite E1, Hh).
  split; rewrite ?E1, ?E2, ?E3; try done.
  - intros n st Hs. destruct (Ht n st Hs) as (ids & Hi & Hin). exists ids. by rewrite Hhs.
  - intros id ids n st Hi. apply Ho. by apply Hhs.
  - intros id ids n Hi. apply (Hb id). by apply Hhs.
  - apply submseteq_Permutation in Hp as [k Hk]. rewrite Hk in Hd. by apply NoDup_app in Hd as [? _].
  - intros id Hid. apply Hn. by eapply elem_of_submseteq.
Qed.

(** Streams are aborted, with all their handles. *)
Lemma subs_fine_drop future s s' (gone : string → Prop) :
  subs_fine future s → fine_ok s' → fi_tasks s' = fi_tasks s → ch_next (fi_chan s') = ch_next (fi_chan s) →
  (∀ id ids, ch_subs (fi_chan s') !! id = Some ids ↔ ch_subs (fi_chan s) !! id = Some ids ∧ ¬ gone id) →
  (∀ n st, ch_streams (fi_chan s') !! n = Some st → ch_streams (fi_chan s) !! n = Some st ∧
     (gone (st_request st) → ∀ ids, ch_subs (fi_chan s) !! st_request st = Some ids → n ∉ ids)) →
  subs_fine future s'.
Proof.
  intros [_ Ht Ho Hb Hf Hd Hn] Hok E1 E3 Hsubs Hstr.
  assert (∀ id ids, in_hand s' id ids ↔ in_hand s id ids) as Hh by (intros id ids; unfold in_hand; by rewrite E1).
  assert (∀ id ids, handles s' id ids → handles s id ids) as Hhs.
  { intros id ids [Hi|Hi]; [left; by apply Hsubs|right; by apply Hh]. }
  assert (under_way s' = under_way s) as Eu by (unfold under_way; by rewrite E1).
  split; rewrite ?E3, ?Eu; try done.
  - intros n st [Hs Hg]%Hstr. destruct (Ht n st Hs) as (ids & [Hi|Hi] & Hin).
    + exists ids. split; [|done]. left. apply Hsubs. split; [done|]. intros Hgo. by apply (Hg Hgo ids).
    + exists ids. split; [|done]. right. by apply Hh.
  - intros id ids n st Hi Hin [Hs _]%Hstr. by apply (Ho id ids n); [apply Hhs|..].
  - intros id ids n Hi. apply (Hb id). by apply Hhs.
  - intros n Hle. destruct (ch_streams (fi_chan s') !! n) as [st|] eqn:E; [|done]. apply Hstr in E as [E _]. by rewrite Hf in E.
  - intros id Hid. destruct (ch_subs (fi_chan s') !! id) as [ids|] eqn:E; [|done]. apply Hsubs in E as [E _]. by rewrite Hn in E.
Qed.

(** ** Frames *)

Lemma on_frame_subs f c :
  let c' := (on_frame f c).2 in
  ch_next c' = ch_next c ∧
  ((ch_subs c' = ch_subs c ∧ ch_streams c' = ch_streams c) ∨
   (frame_spawns (J := J) f = [] ∧ ∃ id, ch_subs c' = ch_subs (unsubscribe id c) ∧ ch_streams c' = ch_streams (unsubscribe id c))).
Proof.
  destruct f as [t|p| | |e]; simpl; try (split; [done|by left]).
  destruct (from_str t) as [v|]; [|split; [done|by left]].
  assert (let c' := (on_text v c).2 in ch_next c' = ch_next c ∧
    ((ch_subs c' = ch_subs c ∧ ch_streams c' = ch_streams c) ∨
     (spawned v = [] ∧ ∃ id, ch_subs c' = ch_subs (unsubscribe id c) ∧ ch_streams c' = ch_streams (unsubscribe id c)))) as Ht.
  { unfold on_text. cbv zeta. repeat case_decide; simpl; try (split; [done|by left]).
    - by destruct (default false _); (split; [done|by left]).
    - unfold provision. destruct (if _ || _ then _ else _). split; [done|by left].
    - destruct (get_str v "request_id") as [id|]; [|split; [done|by left]].
      split; [unfold unsubscribe; by destruct (ch_subs c !! id)|]. right. split; [|by exists id].
      unfold spawned. cbv zeta. repeat case_decide; try done; congruence. }
  by destruct (on_text v c) as [[[]|e] c'].
Qed.

Lemma spawned_subscribe f :
  option_list (subscribe_of (J := J) (EFrame f)) = omap (λ h, subscribing_at (start_of h)) (frame_spawns f).
Proof.
  destruct f as [t| | | |]; try done. simpl. destruct (from_str t) as [v|]; [|done]. simpl. unfold spawned.
  case_decide as Hs; [by rewrite Hs|]. by repeat case_decide.
Qed.

Lemma unsubscribe_fine future id s s' :
  subs_fine future s → fine_ok s' → fi_tasks s' = fi_tasks s → ch_next (fi_chan s') = ch_next (fi_chan s) →
  ch_subs (fi_chan s') = ch_subs (unsubscribe id (fi_chan s)) →
  ch_streams (fi_chan s') = ch_streams (unsubscribe id (fi_chan s)) → subs_fine future s'.
Proof.
  intros Hs Hok E1 E3 Es Est. apply (subs_fine_drop future s s' (λ k, k = id)); try done.
  - intros k ids. rewrite Es. unfold unsubscribe. destruct (ch_subs (fi_chan s) !! id) as [ids'|] eqn:E; simpl.
    + rewrite lookup_delete_Some. split; intros [? ?]; split; congruence.
    + split; [|by intros [? _]]. intros Ek. split; [done|]. intros ->. congruence.
  - intros n st. rewrite Est. unfold unsubscribe. destruct (ch_subs (fi_chan s) !! id) as [ids'|] eqn:E; simpl.
    + intros [Hn Hin]%abort_streams_lookup. split; [done|]. intros Er ids Ei. rewrite Er, E in Ei. by injection Ei as <-.
    + intros Hn. split; [done|]. intros Er ids Ei. rewrite Er in Ei. congruence.
Qed.

Lemma end_fine future r s : subs_fine future s → subs_fine future (end_connection r s).
Proof.
  intros Hs. apply (subs_fine_drop future s _ (λ _, True)); try done.
  - split; simpl; by apply Hs.
  - intros id ids. simpl. rewrite lookup_empty. split; [done|]. by intros [_ []].
  - intros n st. simpl. intros [Hn Hin]%abort_streams_lookup. split; [done|]. intros _ ids Ei Hin'. apply Hin.
    apply list_elem_of_join. exists ids. split; [done|]. apply list_elem_of_fmap. exists (st_request st, ids).
    split; [done|]. by apply elem_of_map_to_list.
Qed.

Lemma adopt_chan c s : fi_chan (adopt c s) = set_handlers [] c.
Proof.
  unfold adopt. set (s0 := mkFine _ _ _ _). change (set_handlers [] c) with (fi_chan s0). generalize s0.
  induction (ch_handlers c) as [|h hs IH]; intros s1; [done|]. simpl. by rewrite IH.
Qed.

(** A frame that leaves the streams alone, whatever it spawns. *)
Lemma spawn_fine future f s s' :
  subs_fine (option_list (subscribe_of (J := J) (EFrame f)) ++ future) s → fine_ok s' →
  match frame_spawns f with
  | [] => fi_tasks s' = fi_tasks s
  | h :: _ => fi_tasks s' = <[fi_next s := start_of h]> (fi_tasks s)
  end → (length (frame_spawns f) ≤ 1)%nat →
  ch_subs (fi_chan s') = ch_subs (fi_chan s) → ch_streams (fi_chan s') = ch_streams (fi_chan s) →
  ch_next (fi_chan s') = ch_next (fi_chan s) → subs_fine future s'.
Proof.
  intros Hs Hok Ht Hlen E1 E2 E3. pose proof (fo_fresh _ (sf_ok _ _ Hs) (fi_next s) ltac:(lia)) as Hn.
  apply (subs_fine_keep _ future s s' Hs); try done.
  - intros id ids. unfold in_hand. destruct (frame_spawns f) as [|h ?]; [by rewrite Ht|]. rewrite Ht. split; intros [t Et].
    + apply lookup_insert_Some in Et as [[_ Eh]|[_ Et]]; [by destruct h|by exists t].
    + exists t. rewrite lookup_insert_ne; [done|]. intros <-. congruence.
  - unfold under_way. rewrite spawned_subscribe. destruct (frame_spawns f) as [|h [|]]; simpl in *; [by rewrite Ht| |lia].
    rewrite Ht, map_to_list_insert by done. simpl. destruct (subscribing_at (start_of h)); simpl; [|done].
    by rewrite Permutation_middle.
Qed.

Lemma frame_fine future f s :
  subs_fine (option_list (subscribe_of (J := J) (EFrame f)) ++ future) s → fi_reader s = Waiting →
  subs_fine future (fine_frame f s).
Proof.
  intros Hs Hr. pose proof (fine_ok_event (FFrame f) s (sf_ok _ _ Hs)) as Hok. simpl in Hok. rewrite Hr in Hok.
  destruct (fine_frame_effect f s (fo_handlers _ (sf_ok _ _ Hs))) as (_ & _ & Ht).
  assert (length (frame_spawns (J := J) f) ≤ 1)%nat as Hlen.
  { destruct f as [t| | | |]; simpl; try lia. destruct (from_str t) as [v|]; simpl; [|lia]. unfold spawned. repeat case_decide; simpl; lia. }
  revert Hok Ht. unfold fine_frame. destruct (provision_of f) as [v|] eqn:Ep.
  { intros Hok Ht. apply (spawn_fine future f s _ Hs Hok); try done. by destruct (frame_spawns f); destruct Ht. }
  destruct (on_frame_subs f (fi_chan s)) as [En Hsubs].
  assert (∀ c, ch_next c = ch_next (fi_chan s) →
    ((ch_subs c = ch_subs (fi_chan s) ∧ ch_streams c = ch_streams (fi_chan s)) ∨
     (frame_spawns (J := J) f = [] ∧ ∃ id, ch_subs c = ch_subs (unsubscribe id (fi_chan s)) ∧
        ch_streams c = ch_streams (unsubscribe id (fi_chan s)))) →
    fine_ok (adopt c s) →
    match frame_spawns f with
    | [] => fi_tasks (adopt c s) = fi_tasks s ∧ fi_next (adopt c s) = fi_next s
    | h :: _ => fi_tasks (adopt c s) = <[fi_next s := start_of h]> (fi_tasks s) ∧ fi_next (adopt c s) = S (fi_next s)
    end → subs_fine future (adopt c s)) as Hadopt.
  { intros c E1 E2 Hok Ht. destruct E2 as [[E2 E3]|(Enil & id & E2 & E3)].
    - apply (spawn_fine future f s _ Hs Hok); rewrite ?adopt_chan; try done. by destruct (frame_spawns f); destruct Ht.
    - assert (option_list (subscribe_of (J := J) (EFrame f)) = []) as Eo by by rewrite spawned_subscribe, Enil.
      rewrite Eo in Hs. rewrite Enil in Ht. destruct Ht as [Ht _].
      apply (unsubscribe_fine future id s); rewrite ?adopt_chan; done. }
  destruct (on_frame f (fi_chan s)) as [[|r] c]; simpl in En, Hsubs; intros Hok Ht; [by apply Hadopt|].
  apply end_fine, Hadopt; try done. split; [|apply Hok]. pose proof (fo_handlers _ Hok) as Hh. simpl in Hh. done.
Qed.

(** ** Handlers *)

Lemma quiet_step ph c :
  subscribing_at ph = None →
  let '(ph', c') := handler_step ph c in
  ch_subs c' = ch_subs c ∧ ch_streams c' = ch_streams c ∧ ch_next c' = ch_next c ∧ ph' ≫= subscribing_at = None.
Proof.
  destruct ph as [req|req|req ty cfg sec|req|req|req conn|req|req conn|req conn|id ids|f]; intros Hn; try done; stage; simpl.
  - by destruct (ch_store c !! _).
  - by destruct (connectors _ !! _).
  - by destruct (run_query _ _ _ _ _ _ _ _).
  - by destruct (verify_signature _ _ _ _ _ _) as [[]|e].
  - by destruct (check_write _ _ _ _).
  - by destruct (device_write _ _ _ _ _ _ _) as [[[rb|e]|] a].
Qed.

(** A step that neither opens streams nor hands handles over. *)
Lemma step_keep future (t : nat) ph (ph' : option (Phase J)) c s :
  subs_fine future s → fi_tasks s !! t = Some ph → fine_ok (mkFine c (fi_reader s) (partial_alter (λ _, ph') t (fi_tasks s)) (fi_next s)) →
  ch_subs c = ch_subs (fi_chan s) → ch_streams c = ch_streams (fi_chan s) → ch_next c = ch_next (fi_chan s) →
  (∀ id ids, ph ≠ SOpened id ids ∧ ph' ≠ Some (SOpened id ids)) →
  option_list (ph' ≫= subscribing_at) ⊆+ option_list (subscribing_at ph) →
  subs_fine future (mkFine c (fi_reader s) (partial_alter (λ _, ph') t (fi_tasks s)) (fi_next s)).
Proof.
  intros Hs Et Hok E1 E2 E3 Hno Hsub. apply (subs_fine_keep future future s _ Hs Hok); try done.
  - intros id ids. unfold in_hand. simpl. destruct (Hno id ids) as [Hno1 Hno2]. split; intros [u Eu]; exists u.
    + destruct (decide (u = t)) as [->|Hu]; [by rewrite lookup_partial_alter_eq in Eu|by rewrite lookup_partial_alter_ne in Eu].
    + rewrite lookup_partial_alter_ne; [done|]. intros <-. congruence.
  - unfold under_way. simpl. rewrite (omap_tasks_alter subscribing_at), (omap_tasks_delete subscribing_at _ _ _ Et).
    apply submseteq_app; [|done]. by apply submseteq_app.
Qed.

(** The streams are opened: the handler has their handles in hand. *)
Lemma streams_fine future (t : nat) req conn s :
  let '(ph', c) := sub_streams req conn (fi_chan s) in
  let s' := mkFine c (fi_reader s) (<[t := ph']> (fi_tasks s)) (fi_next s) in
  subs_fine future s → fi_tasks s !! t = Some (SAcked req conn) → fine_ok s' → subs_fine future s'.
Proof.
  unfold sub_streams. set (id := str_or "" req "request_id"). set (jobs := imap _ _). set (ids := seq _ _).
  set (c := mkChannel _ _ _ _ _ _ _ _). set (s' := mkFine c _ _ _). intros Hs Et Hok.
  assert (∀ n st, ch_streams c !! n = Some st → (st_request st = id ∧ n ∈ ids) ∨ ch_streams (fi_chan s) !! n = Some st) as Hnew.
  { intros n st. exact (open_subscription_streams id conn jobs (fi_chan s) n st). }
  assert (∀ k l, handles s' k l ↔ handles s k l ∨ (k = id ∧ l = ids)) as Hh.
  { intros k l. unfold handles, in_hand. simpl. split.
    - intros [Hk|[u [[-> [= <- <-]]|[_ Eu]]%lookup_insert_Some]]; [tauto|by right|]. left. right. by exists u.
    - intros [[Hk|[u Eu]]|[-> ->]]; [by left| |].
      + right. exists u. rewrite lookup_insert_ne; [done|]. intros <-. congruence.
      + right. exists t. by rewrite lookup_insert_eq. }
  assert (under_way s' ≡ₚ under_way s) as Eu.
  { unfold under_way. rewrite (omap_tasks_delete subscribing_at _ _ _ Et). simpl.
    change (<[t := SOpened id ids]> (fi_tasks s)) with (partial_alter (λ _, Some (SOpened id ids)) t (fi_tasks s)).
    by rewrite (omap_tasks_alter subscribing_at). }
  destruct Hs as [_ Ht Ho Hb Hf Hd Hn]. split; try done.
  - intros n st [[<- Hin]|Hst]%Hnew; [exists ids; split; [|done]; apply Hh; by right|].
    destruct (Ht n st Hst) as (l & Hl & Hin). exists l. split; [|done]. apply Hh. by left.
  - intros k l n st [Hl|[-> ->]]%Hh Hin [[Er Hin2]|Hst]%Hnew; [|by apply (Ho k l n)|done|].
    + apply (Hb k l n Hl) in Hin. apply elem_of_seq in Hin2. lia.
    + apply elem_of_seq in Hin as [Hle _]. by rewrite Hf in Hst.
  - intros k l n [Hl|[-> ->]]%Hh Hin; simpl; [apply (Hb k l n Hl) in Hin; lia|]. apply elem_of_seq in Hin. lia.
  - intros n Hle. simpl in Hle. destruct (ch_streams (fi_chan s') !! n) as [st|] eqn:E; [|done].
    apply Hnew in E as [[_ Hin%elem_of_seq]|E]; [lia|]. rewrite Hf in E; [done|lia].
  - by rewrite Eu.
  - intros k Hk. apply Hn. by rewrite <- Eu.
Qed.

(** The handles are put into the map. *)
Lemma handles_fine future (t : nat) id ids s :
  let s' := mkFine (sub_handles id ids (fi_chan s)) (fi_reader s) (delete t (fi_tasks s)) (fi_next s) in
  subs_fine future s → fi_tasks s !! t = Some (SOpened id ids) → fine_ok s' → subs_fine future s'.
Proof.
  intros s' [_ Ht Ho Hb Hf Hd Hn] Et Hok.
  assert (under_way s ≡ₚ id :: under_way s') as Eu by (unfold under_way; by rewrite (omap_tasks_delete subscribing_at _ _ _ Et)).
  rewrite Eu in Hd. simpl in Hd. apply NoDup_cons in Hd as [Hid Hd].
  assert (ch_subs (fi_chan s) !! id = None) as Hnone by (apply Hn; rewrite Eu; set_solver).
  assert (∀ k l, handles s' k l ↔ handles s k l) as Hh.
  { intros k l. unfold handles, in_hand. simpl. split.
    - intros [[[<- <-]|[_ Hk]]%lookup_insert_Some|[u [_ Eu2]%lookup_delete_Some]]; [right; by exists t|by left|right; by exists u].
    - intros [Hk|[u Eu2]].
      + left. rewrite lookup_insert_ne; [done|]. intros <-. congruence.
      + destruct (decide (u = t)) as [->|Hu]; [left|right; exists u; by rewrite lookup_delete_ne].
        rewrite Et in Eu2. injection Eu2 as <- <-. by rewrite lookup_insert_eq. }
  split; try done.
  - intros n st Hst. destruct (Ht n st Hst) as (l & Hl & Hin). exists l. by rewrite Hh.
  - intros k l n st Hl. apply (Ho k l n). by apply Hh.
  - intros k l n Hl. apply (Hb k). by apply Hh.
  - intros k Hk. simpl. rewrite lookup_insert_ne by (intros <-; done). apply Hn. rewrite Eu. simpl. set_solver.
Qed.

Lemma run_fine future t s : subs_fine future s → subs_fine future (fine_event s (FRun t)).
Proof.
  intros Hs. pose proof (fine_ok_event (FRun t) s (sf_ok _ _ Hs)) as Hok. revert Hok. simpl.
  destruct (fi_tasks s !! t) as [ph|] eqn:Et; [|done].
  destruct (subscribing_at ph) as [id|] eqn:Es.
  - destruct ph as [| | | | | |req|req conn|req conn|id' ids|]; try done; cbn [handler_step].
    + intros Hok. by apply (step_keep future t (SStart req)).
    + intros Hok. unfold sub_ack in *. apply (step_keep future t (SFound req conn)); try done; destruct conn; try done. by apply submseteq_nil_l.
    + intros Hok. pose proof (streams_fine future t req conn s) as Hst.
      destruct (sub_streams req conn (fi_chan s)) as [ph' c]. by apply Hst.
    + intros Hok. by apply (handles_fine future t id' ids s).
  - pose proof (quiet_step ph (fi_chan s) Es) as Hq. destruct (handler_step ph (fi_chan s)) as [ph' c].
    destruct Hq as (E1 & E2 & E3 & E4). intros Hok. apply (step_keep future t ph); try done.
    + intros k l. split; [intros ->; done|]. intros ->. done.
    + by rewrite E4, Es.
Qed.

Lemma event_fine future e s :
  subs_fine (option_list (taken_subscribe s e) ++ future) s → subs_fine future (fine_event s e).
Proof.
  destruct e as [f| | |t]; intros Hs; simpl in *.
  - destruct (fi_reader s) eqn:Er; [by apply frame_fine|done..].
  - destruct (fi_reader s); [by apply end_fine|done..].
  - pose proof (fine_ok_event FReader s (sf_ok _ _ Hs)) as Hok. simpl in Hok. destruct (fi_reader s) as [|v|v|r]; try done.
    + by apply (subs_fine_keep future future s _ Hs Hok).
    + apply (subs_fine_keep future future s _ Hs Hok); try done; simpl; unfold provision_collector; by destruct (if _ || _ then _ else _).
  - by apply run_fine.
Qed.

Lemma events_fine es s : subs_fine (taken_subscribes es s) s → ∃ future, subs_fine future (fine_run es s).
Proof.
  revert s. induction es as [|e es IH]; intros s Hs; [by exists []|]. apply (IH (fine_event s e)). by apply event_fine.
Qed.

(** C19. Between the awaits, on a connection whose subscribe requests have
    distinct ids: every stream that runs is among the handles of its request, or
    its handler still has them in hand; so an unsubscribe stops all the streams of
    its request but those in hand, and no other; and when the connection ends all
    streams are stopped but those in hand. *)
Theorem streams_accounted es (first : J) (a : Agent J W) (tasks : Tasks J) :
  let s0 := fine_start (open_channel first a tasks) in
  NoDup (taken_subscribes es s0) →
  let s := fine_run es s0 in
  let c := fi_chan s in
  (∀ n st, ch_streams c !! n = Some st →
     ∃ ids, n ∈ ids ∧ (ch_subs c !! st_request st = Some ids ∨ in_hand s (st_request st) ids)) ∧
  (∀ id n st, ch_streams c !! n = Some st →
     (ch_streams (unsubscribe id c) !! n = Some st ↔ st_request st ≠ id ∨ ∃ ids, in_hand s id ids ∧ n ∈ ids)) ∧
  (∀ n st, ch_streams (teardown c) !! n = Some st → ∃ ids, in_hand s (st_request st) ids ∧ n ∈ ids).
Proof.
  intros s0 Hnd s c. assert (∃ future, subs_fine future s) as [future Hs].
  { assert (subs_fine (taken_subscribes es s0) s0) as Hs0.
    { split; simpl; try (intros *; rewrite lookup_empty; done).
      - split; [done|]. intros t _. apply lookup_empty.
      - intros id ids n [Hi|[t Hi]]; unfold s0 in Hi; simpl in Hi; by rewrite lookup_empty in Hi.
      - unfold under_way. simpl. by rewrite map_to_list_empty. }
    by apply events_fine. }
  assert (∀ id l, in_hand s id l → ch_subs c !! id = None) as Hex.
  { intros id l [t Et]. apply (sf_new _ _ Hs), elem_of_app. left.
    unfold under_way. rewrite (omap_tasks_delete subscribing_at _ _ _ Et). simpl. set_solver. }
  split_and!.
  - intros n st Hn. destruct (sf_tracked _ _ Hs n st Hn) as (ids & Hi & Hin). by exists ids.
  - intros id n st Hn. unfold unsubscribe. destruct (sf_tracked _ _ Hs n st Hn) as (l & Hl & Hin).
    destruct (ch_subs c !! id) as [ids|] eqn:Eid; simpl.
    + rewrite abort_streams_lookup. split.
      * intros [_ Hni]. left. intros Er. rewrite Er in Hl. destruct Hl as [Hl|Hl%Hex]; [|congruence].
        fold c in Hl. rewrite Eid in Hl. by injection Hl as ->.
      * intros [Hne|(l' & Hl'%Hex & _)]; [|congruence]. split; [done|]. intros Hin'. apply Hne.
        apply (sf_owned _ _ Hs id ids n st); [by left|done..].
    + split; [|done]. intros _. destruct (decide (st_request st = id)) as [Er|]; [right|by left].
      rewrite Er in Hl. destruct Hl as [Hl|Hl]; [fold c in Hl; congruence|]. by exists l.
  - intros n st [Hn Hni]%abort_streams_lookup. destruct (sf_tracked _ _ Hs n st Hn) as (l & [Hl|Hl] & Hin); [|by exists l].
    destruct Hni. apply list_elem_of_join. exists l. split; [done|]. apply list_elem_of_fmap. exists (st_request st, l).
    split; [done|]. by apply elem_of_map_to_list.
Qed.
End Subscriptions.

(** ** A subscription of two points *)
Module ControlSubsRun.
Import Quiet ControlStepsRun.
#[local] Existing Instances WriteRun.crypto WriteRun.net WriteRun.no_procs ControlStepsRun.machine ControlStepsRun.json ControlStepsRun.laws.

Definition opening : list FEvent := [frame "sub"; FRun 0; FRun 0; FRun 0].
Definition reached (es : list FEvent) : Fine Tree WriteRun.Plc := fine_run es (fine_start first).

(** With the handles in hand the streams survive the end of the connection; once
    they are in the map they do not. *)
Lemma streams_accounted_witness :
  size (ch_streams (teardown (fi_chan (reached opening)))) = 2%nat ∧
  (∃ ids, in_hand (reached opening) "s" ids ∧ 0%nat ∈ ids) ∧
  ch_streams (teardown (fi_chan (reached (opening ++ [FRun 0])))) !! 0%nat = None.
Proof.
  split; [vm_compute; reflexivity|]. split; [|vm_compute; reflexivity].
  destruct (streams_accounted opening TNull agent (mkTasks ∅ ∅ 0)) as (_ & _ & H).
  - apply (bool_decide_unpack _). vm_compute. exact I.
  - destruct (ch_streams (teardown (fi_chan (reached opening))) !! 0%nat) as [st|] eqn:E; [|vm_compute in E; discriminate E].
    destruct (H 0%nat st E) as (ids & Hi & Hin). exists ids. split; [|exact Hin].
    vm_compute in E. injection E as <-. exact Hi.
Defined.
End ControlSubsRun.
