(* ===== verification/ControlStream.v ===== *)
(** * Subscriptions of the control channel, from the connector to the cloud

    A task of [stream_point] ([src/control.rs]) reads the process of its own
    subscription, which runs the SDK's loop, and sends every batch as a
    [point_data] frame through the writer's queue ([Link]). *)
From S2P Require Import Prelude Float Proto RustStr Json Wire Sdk Jobs Plugins PluginsProps HostSdk Modbus Pss Buffer Collector Stream Control.
Set Warnings "-register-all".
Local Open Scope Z_scope.

(** What went into the writer's queue; sending leaves the pipes alone, and the
    pipes the queue. *)
Class LinkLog (J W : Type) `{Procs W} `{!Link J W} := {
  frames : W → list J;
  send_logged : ∀ j w, frames (link_send j w).2 = frames w ++ (if (link_send j w).1 then [j] else []);
  send_feeds : ∀ j w pid ls, feeds pid ls w → feeds pid ls (link_send j w).2;
  next_line_logged : ∀ pid w, frames (os_next_line pid w).2 = frames w;
}.

Section Forward.
Context `{JsonLaws J} `{!ScalarLaws J} `{!Wire J} `{!WireLaws J}.
Context {W : Type} `{Procs W} `{!Link J W} `{!LinkLog J W} {C : Type} `{!Sdk.Collector J C} `{!StreamProcs J W C}.
Implicit Types (bs : list (list Sdk.PluginSample)) (h : Host W).

Lemma stream_next_logged fuel pid h : frames (os (stream_next (J := J) fuel pid h).2) = frames (os h).
Proof.
  revert h. induction fuel as [|fuel IH]; intros h; [done|]. cbn [stream_next].
  unfold mbind at 1, HM_bind at 1, with_os at 1. pose proof (next_line_logged pid (os h)) as Hl.
  destruct (os_next_line pid (os h)) as [l w]. simpl in Hl. destruct l as [l| |e]; [|done|done].
  destruct (decide (trim l = "")); [by rewrite IH|]. unfold mbind at 1, HM_bind at 1, lift_result.
  destruct (parse_with _ _ l) as [resp|e]; [|done]. destruct (rr_ok resp); [|done]. simpl.
  destruct (rr_samples resp); [by rewrite IH|done].
Qed.

(** The frame of a batch, at some time. *)
Definition frame_of (request_id : string) (b : list Sdk.PluginSample) (f : J) : Prop :=
  ∃ now, f = point_data request_id (sample_of now <$> (arrived <$> b)).

(** The frames of the first batches, or of all of them when the channel is there. *)
Definition forwarded (request_id : string) bs (r : result string StreamEnd) (h h' : Host W) : Prop :=
  ∃ sent fs, frames (os h') = frames (os h) ++ fs ∧ Forall2 (frame_of request_id) sent fs ∧
    (r = Ok Reopen ∧ sent = bs ∨ r = Ok ChannelGone ∧ ∃ b rest, bs = sent ++ b :: rest).

Lemma forward_forwards fuel pid request_id bs res h :
  Forall (Forall sample_ok) bs → feeds pid (to_come bs res) (os h) → (length bs + 2 < fuel)%nat →
  let '(r, h') := forward fuel pid request_id h in forwarded request_id (arrivals bs) r h h'.
Proof.
  revert bs h. induction fuel as [|fuel IH]; intros bs h Hok Hf Hfuel; [lia|]. cbn [forward].
  pose proof (next_batch fuel pid bs res h Hok Hf ltac:(lia)) as Hn. pose proof (stream_next_logged fuel pid h) as Hl.
  destruct (stream_next fuel pid h) as [r h1]. simpl in Hl.
  destruct Hn as [(b & bs' & -> & Ha & Hlen & Hok' & Hf')|[Ha Hr]].
  - rewrite Ha. unfold mbind, HM_bind, with_os. set (j := point_data request_id _).
    pose proof (send_logged j (os h1)) as Hs. pose proof (send_feeds j (os h1) pid _ Hf') as Hf2.
    destruct (link_send j (os h1)) as [ok w]. simpl in Hs, Hf2. destruct ok.
    + specialize (IH bs' (mkHost (procs h1) w) Hok' Hf2 ltac:(lia)).
      destruct (forward fuel pid request_id _) as [r h']. destruct IH as (sent & fs & E & Hall & Hend). simpl in E.
      exists (b :: sent), (j :: fs). split; [by rewrite E, Hs, Hl, <- (assoc_L (++))|]. split.
      * constructor; [|done]. by eexists.
      * destruct Hend as [[-> ->]|(-> & b' & rest & ->)]; [by left|right]. split; [done|]. by exists b', rest.
    + exists [], []. rewrite app_nil_r. simpl. split; [by rewrite Hs, app_nil_r, Hl|]. split; [constructor|].
      right. split; [done|]. by exists b, (arrivals bs').
  - rewrite Ha. assert (forwarded request_id [] (Ok Reopen) h h1) as Hend.
    { exists [], []. rewrite app_nil_r. split; [done|]. split; [constructor|by left]. }
    by destruct Hr as [->|[e ->]].
Qed.

(** C20. A subscription of the cloud delivers in order: of the batches the
    connector emits to the request as it arrives, a beginning reaches the agent;
    each of these batches that is not empty is sent as one [point_data] frame of
    the request, in order, none twice, none left out, up to the end of the
    process or the first batch with a value that is not finite, when the stream is
    opened again; or the channel is gone, and the first frames were sent. *)
Theorem subscription_forwarded p (conn : Conn J) (ing : Job J) request_id h pid h1 fuel :
  open_stream p conn ing h = (Ok pid, h1) → (depth (subscribe_request conn ing) ≤ nesting_limit)%nat →
  let '(batches, res, _) := c_subscribe (subscribe_seen conn ing) (stream_start p) in
  Forall (Forall sample_ok) batches → (length batches + 2 < fuel)%nat →
  let '(r, h') := forward fuel pid request_id h1 in
  ∃ seen, seen `prefix_of` batches ∧ forwarded request_id (arrivals seen) r h1 h'.
Proof.
  intros Ho Hd. pose proof (open_feeds p conn ing h pid h1 Ho Hd) as Hfeeds.
  destruct (c_subscribe _ _) as [[batches res] c']. intros Hok Hfuel.
  destruct Hfeeds as (seen & r & Hseen & Hf). pose proof (prefix_length _ _ Hseen) as Hlen.
  assert (Forall (Forall sample_ok) seen) as Hok'.
  { destruct Hseen as [rest ->]. by apply Forall_app in Hok as [? _]. }
  pose proof (forward_forwards fuel pid request_id seen r h1 Hok' Hf ltac:(lia)) as Hfw.
  destruct (forward fuel pid request_id h1) as [r' h']. by exists seen.
Qed.
End Forward.

(** ** Two batches and a queue with room for one frame *)
Module ControlStreamRun.
Import TreeWire Pipes StreamRun.
#[local] Existing Instances StreamRun.pushing.

(** The pipes, and the writer's queue, which takes [room] more frames. *)
Record Linked := mkLinked { pipes_of : StreamRun.W; queue : list Tree; room : nat }.
Definition on_pipes {A} (f : StreamRun.W → A * StreamRun.W) (w : Linked) : A * Linked :=
  let '(a, v) := f (pipes_of w) in (a, mkLinked v (queue w) (room w)).
#[local] Instance linked_procs : Procs Linked := {|
  os_spawn p := on_pipes (spawn_pipe StreamRun.start p);
  os_write pid l := on_pipes (write_pipe StreamRun.start pid l);
  os_next_line pid := on_pipes (@os_next_line _ procs0 pid);
  os_next_line_timeout n pid := on_pipes (@os_next_line_timeout _ procs0 n pid);
  os_kill pid w := w;
  os_now_ms w := Pipes.clock (pipes_of w);
|}.
#[local] Instance link : Link Tree Linked := {|
  link_send j w := match room w with
    | O => (false, w) | S n => (true, mkLinked (pipes_of w) (queue w ++ [j]) n) end;
  link_closed w := bool_decide (room w = 0%nat);
|}.

Lemma linked_feeds pid ls v l n : feeds (H := procs0) pid ls v → feeds pid ls (mkLinked v l n).
Proof.
  induction 1 as [w w' E|w e w' E|x ls w w' E _ IH]; simpl in E; destruct (read_pipe _ _ _) as [r v] eqn:Er; simplify_eq.
  - eapply feeds_end. simpl. unfold on_pipes. simpl. rewrite Er. by f_equal.
  - eapply feeds_fail. simpl. unfold on_pipes. simpl. rewrite Er. by f_equal.
  - eapply feeds_line; [|exact IH]. simpl. unfold on_pipes. simpl. rewrite Er. by f_equal.
Qed.
Lemma feeds_queue pid ls w l n : feeds pid ls w → feeds pid ls (mkLinked (pipes_of w) l n).
Proof.
  intros Hf. revert l n. induction Hf as [w w' E|w e w' E|x ls w w' E _ IH]; intros l n;
    simpl in E; unfold on_pipes in E; destruct (read_pipe _ _ _) as [r v] eqn:Er; simplify_eq.
  - eapply feeds_end. simpl. unfold on_pipes. simpl. rewrite Er. by f_equal.
  - eapply feeds_fail. simpl. unfold on_pipes. simpl. rewrite Er. by f_equal.
  - eapply feeds_line; [|exact (IH l n)]. simpl. unfold on_pipes. simpl. rewrite Er. by f_equal.
Qed.

#[local] Instance link_log : LinkLog Tree Linked.
Proof.
  refine {| frames := queue |}.
  - intros j w. simpl. destruct (room w); simpl; [by rewrite app_nil_r|done].
  - intros j w pid ls Hf. simpl. destruct (room w); [done|]. by apply feeds_queue.
  - intros pid w. simpl. unfold on_pipes. by destruct (let '(l, w) := read_pipe _ _ _ in _).
Defined.

#[local] Instance linked_streams : StreamProcs Tree Linked Z.
Proof.
  refine {| stream_start := StreamRun.start |}. intros p line w pid w1 w2 Es Ew Hone Hb.
  simpl in Es, Ew. unfold on_pipes in Es, Ew.
  destruct (spawn_pipe StreamRun.start p (pipes_of w)) as [r1 v1] eqn:E1. simplify_eq/=.
  destruct (write_pipe StreamRun.start pid _ v1) as [r2 v2] eqn:E2. simplify_eq/=.
  destruct (subscribe_feeds (StreamProcs := stream0) p line (pipes_of w) pid v1 v2 E1 E2 Hone Hb) as (ls & Hp & Hf).
  exists ls. split; [exact Hp|]. by apply linked_feeds.
Defined.

Definition start_world (n : nat) : Host Linked := mkHost ∅ (mkLinked (mkWorld ∅ 0 [] 5) [] n).
Definition opened_with (n : nat) := open_stream p1 conn1 ing1 (start_world n).
Definition after (n : nat) := forward 8 0 "s" (opened_with n).2.

(** The batches are one reading, an empty one, two readings, and one with a NaN. *)
Lemma subscription_forwarded_witness :
  ((after 5).1 = Ok Reopen ∧ length (queue (os (after 5).2)) = 2%nat) ∧ (after 1).1 = Ok ChannelGone ∧
  ∃ seen, seen `prefix_of` emitted ∧ forwarded "s" (arrivals seen) (after 1).1 (opened_with 1).2 (after 1).2.
Proof.
  split; [split; vm_compute; reflexivity|]. split; [vm_compute; reflexivity|].
  pose proof (subscription_forwarded p1 conn1 ing1 "s" (start_world 1) 0 (opened_with 1).2 8) as H. cbn [c_subscribe pushing] in H.
  specialize (H ltac:(vm_compute; reflexivity) ltac:(apply Nat.leb_le; vm_compute; reflexivity) emitted_ok
    ltac:(apply Nat.ltb_lt; vm_compute; reflexivity)).
  unfold after. destruct (forward _ _ _ _) as [r h']. exact H.
Defined.
End ControlStreamRun.
