(* ===== verification/Opcua.v ===== *)
(** * The OPC-UA connector ([crates/plugin-opcua/src/main.rs])

    The cached session, and the [read], [write], [discover] and [subscribe]
    operations. The OPC-UA stack (sessions and their services, node identifiers)
    is the interface [OpcUa]; every call of it is under the stack's own timeouts,
    except the connection, whose [None] is the elapsed [CONNECT_TIMEOUT]. *)
From Stdlib Require Import Ascii.
From S2P Require Import Prelude Float RustStr Json Sdk.
Set Warnings "-register-all".
Local Open Scope Z_scope.

Definition CONNECT_TIMEOUT : Z := 15.
Definition MAX_DEPTH : nat := 1.
Definition MAX_NODES : nat := 1000.

Inductive IdentityToken := Anonymous | UserName (user password : string).

(** [opcua::types::Variant]: the numeric values, and the others. *)
Inductive Variant :=
| VDouble (x : f64) | VFloat (x : f32) | VInt64 (z : Z) | VUInt64 (z : Z) | VInt32 (z : Z) | VUInt32 (z : Z)
| VInt16 (z : Z) | VUInt16 (z : Z) | VSByte (z : Z) | VByte (z : Z) | VBoolean (b : bool) | VOther.

Definition variant_to_f64 (v : Variant) : option f64 :=
  match v with
  | VDouble x => Some x
  | VFloat x => Some (f32_as_f64 x)
  | VInt64 z | VUInt64 z | VInt32 z | VUInt32 z | VInt16 z | VUInt16 z | VSByte z | VByte z => Some (f64_of_Z z)
  | VBoolean b => Some (if b then f64_one else f64_zero)
  | VOther => None
  end.

(** A reference found by browsing, and one page of them. *)
Record Ref (N : Type) := mkRef { ref_node : N; ref_display_name : string; ref_is_variable : bool }.
Arguments mkRef {N} _ _ _.
Arguments ref_node {N} _.
Arguments ref_display_name {N} _.
Arguments ref_is_variable {N} _.
Record Page (N : Type) := mkPage { references : option (list (Ref N)); continuation_point : option string }.
Arguments mkPage {N} _ _.
Arguments references {N} _.
Arguments continuation_point {N} _.

(** Sessions are numbers; a status is [None] when good. *)
Class OpcUa (N W : Type) := {
  node_from_str : string → option N;
  node_text : N → string;
  objects_folder : N;
  ua_build : W → result string () * W;
  ua_connect : string → IdentityToken → W → option (result string Z) * W;
  ua_read : Z → list N → W → result string (list (option Variant)) * W;
  ua_write : Z → N → Variant → W → result string (list (option string)) * W;
  ua_browse : Z → N → W → result string (list (Page N)) * W;
  ua_browse_next : Z → string → W → result string (list (Page N)) * W;
  ua_create_subscription : Z → W → result string Z * W;
  ua_create_monitored_items : Z → Z → N → W → result string () * W;
  (* the next data change of a subscription; [None] when there are no more *)
  ua_next_change : Z → W → option (option Variant) * W;
}.

Record Conn := mkConn { endpoint : string; session : Z }.

Section Connector.
Context `{Json J} {N W : Type} `{OpcUa N W}.

(** The cached connection, and the world. *)
Definition UaState : Type := option Conn * W.
Definition UM (A : Type) : Type := StE UaState A.

Definition ua {A} (f : W → A * W) : UM A := λ s, let '(a, w) := f s.2 in (Ok a, (s.1, w)).
Definition set_conn (c : option Conn) : UM () := λ s, (Ok (), (c, s.2)).
Definition get_conn : UM (option Conn) := λ s, (Ok s.1, s).

Definition connect (ep : string) (identity : IdentityToken) : UM Z :=
  b ← ua ua_build;
  match b with
  | Err e => raise ("failed to build OPC-UA client: " +:+ e)
  | Ok () =>
      r ← ua (ua_connect ep identity);
      match r with
      | Some (Ok s) => mret s
      | Some (Err e) => raise ("connect " +:+ ep +:+ ": " +:+ e)
      | None => raise ("connect " +:+ ep +:+ ": timed out after " +:+ dec CONNECT_TIMEOUT
          +:+ "s — server unreachable from the agent, or it exposes no SecurityPolicy=None + Anonymous endpoint (the only mode this plugin speaks today)")
      end
  end.

Definition session_for (ep : string) (identity : IdentityToken) : UM Z :=
  cur ← get_conn;
  let reuse := match cur with Some c => if decide (endpoint c = ep) then Some (session c) else None | None => None end in
  match reuse with
  | Some s => mret s
  | None =>
      r ← attempt (connect ep identity);
      match r with
      | Ok s => set_conn (Some (mkConn ep s));; mret s
      | Err e => set_conn None;; raise e
      end
  end.

Definition identity_from (req : ReadRequest J) : IdentityToken :=
  match config_str req "user" with
  | Some user => UserName user (str_or "" (rq_secrets req) "password")
  | None => Anonymous
  end.

Definition endpoint_url (req : ReadRequest J) : result string string :=
  ok_or "config.endpoint_url is required" (config_str req "endpoint_url").

(** *** Reading *)

Definition read_target (p : Point J) : result string (string * N) :=
  node_str ← ok_or ("selection.node_id is required (e.g. " +:+ debug_str "ns=2;s=Temp" +:+ ")") (selection_str p "node_id");
  node ← ok_or ("invalid node_id " +:+ debug_str node_str +:+ " (expected OPC-UA text form)") (node_from_str node_str);
  Ok (default "opcua.value" (p_variable_id p), node).

(** A node without a numeric value becomes a bad-quality sample. *)
Definition sample_of_value (var_id : string) (v : option Variant) : PluginSample :=
  match v ≫= variant_to_f64 with
  | Some x => PluginSample_new var_id x
  | None => mkPluginSample var_id f64_zero None 1
  end.

Definition read (req : ReadRequest J) : UM (list PluginSample) :=
  ep ← of_res (endpoint_url req);
  targets ← of_res (mapR read_target (points req));
  s ← session_for ep (identity_from req);
  r ← ua (ua_read s targets.*2);
  match r with
  | Err status => set_conn None;; raise ("OPC-UA read failed: " +:+ status)
  | Ok values =>
      if (length values <? length targets)%nat then
        set_conn None;;
        raise ("OPC-UA read returned " +:+ dec (Z.of_nat (length values)) +:+ " of "
                 +:+ dec (Z.of_nat (length targets)) +:+ " values")
      else mret (zip_with sample_of_value targets.*1 values)
  end.

(** *** Writing *)

Definition write_variant (datatype : string) (raw : f64) : Variant :=
  if decide (datatype = "bool" ∨ datatype = "boolean") then VBoolean (negb (f64_eqb raw f64_zero))
  else if decide (datatype = "int16") then VInt16 (f64_as_int (-32768) 32767 (f64_round raw))
  else if decide (datatype = "uint16") then VUInt16 (f64_as_int 0 65535 (f64_round raw))
  else if decide (datatype = "int32") then VInt32 (f64_as_int (-2147483648) 2147483647 (f64_round raw))
  else if decide (datatype = "uint32") then VUInt32 (f64_as_int 0 4294967295 (f64_round raw))
  else if decide (datatype = "float" ∨ datatype = "float32") then VFloat (f64_as_f32 raw)
  else VDouble raw.

Definition write (req : ReadRequest J) : UM (option f64) :=
  ep ← of_res (endpoint_url req);
  node_str ← of_res (ok_or ("target.node_id is required (e.g. " +:+ debug_str "ns=2;s=Setpoint" +:+ ")")
                       (get_str (rq_target req) "node_id"));
  node ← of_res (ok_or ("invalid node_id " +:+ debug_str node_str) (node_from_str node_str));
  value ← of_res (ok_or "write_value is required" (rq_write_value req));
  let datatype := str_or "double" (rq_target req) "datatype" in
  let scale := default f64_one (get_f64 (rq_target req) "scale") in
  let offset := default f64_zero (get_f64 (rq_target req) "offset") in
  let raw := f64_div (f64_sub value offset) (if f64_eqb scale f64_zero then f64_one else scale) in
  s ← session_for ep (identity_from req);
  r ← ua (ua_write s node (write_variant datatype raw));
  match r with
  | Ok (Some status :: _) => set_conn None;; raise ("OPC-UA write rejected: " +:+ status)
  | Ok _ => mret ()
  | Err status => set_conn None;; raise ("OPC-UA write failed: " +:+ status)
  end;;
  if negb (rq_readback req) then mret None else
  r ← ua (ua_read s [node]);
  match r with
  | Err status => raise ("OPC-UA read-back failed: " +:+ status)
  | Ok values =>
      mret ((λ x, f64_add (f64_mul x scale) offset) <$> (head values ≫= (λ v, v ≫= variant_to_f64)))
  end.

(** *** Browsing *)

(** The references of a page, and where to go on. *)
Definition first_page (r : result string (list (Page N))) : list (Ref N) * option string :=
  match r with
  | Ok (p :: _) => (default [] (references p), continuation_point p)
  | _ => ([], None)
  end.

(** At most [pages] more pages, while the budget is not reached. *)
Fixpoint browse_pages (pages : nat) (s : Z) (budget : nat) (refs : list (Ref N)) (cont : option string) :
    UM (list (Ref N)) :=
  match cont, pages with
  | Some cp, S pages =>
      if (budget <=? length refs)%nat then mret refs else
      r ← ua (ua_browse_next s cp);
      let '(more, cont) := first_page r in
      browse_pages pages s budget (refs ++ more) cont
  | _, _ => mret refs
  end.

(** The children of the references, while the budget lasts. *)
Section Children.
Context (browse_child : N → nat → UM (list (Node J) * nat)).
Fixpoint browse_children (refs : list (Ref N)) (budget : nat) : UM (list (Node J) * nat) :=
  match refs, budget with
  | r :: refs, S budget =>
      let child_id := ref_node r in
      let id_text := node_text child_id in
      let label := ref_display_name r in
      nb ← (if ref_is_variable r then mret (Node_leaf id_text label "variable", budget)
            else cb ← browse_child child_id budget;
                 mret (Node_branch id_text label "folder" cb.1, cb.2));
      rest ← browse_children refs nb.2;
      mret (nb.1 :: rest.1, rest.2)
  | _, _ => mret ([], budget)
  end.
End Children.

(** The nodes, and the budget left. *)
Fixpoint browse_node (depth : nat) (s : Z) (node : N) (budget : nat) : UM (list (Node J) * nat) :=
  match depth, budget with
  | S depth, S _ =>
      r ← ua (ua_browse s node);
      match r with
      | Err _ => mret ([], budget)
      | Ok pages =>
          let '(refs, cont) := first_page (Ok pages) in
          refs ← browse_pages 64 s budget refs cont;
          browse_children (browse_node depth s) refs budget
      end
  | _, _ => mret ([], budget)
  end.

Definition discover (req : ReadRequest J) : UM (Discovery J) :=
  ep ← of_res (endpoint_url req);
  root ← of_res (match get_str (rq_selection req) "node_id" with
                 | Some s => ok_or ("invalid node_id " +:+ debug_str s) (node_from_str s)
                 | None => Ok objects_folder
                 end);
  s ← session_for ep (identity_from req);
  nb ← browse_node MAX_DEPTH s root MAX_NODES;
  mret (mkDiscovery "opcua_nodes" nb.1).

(** *** Subscribing *)

(** The batches emitted; [fuel] bounds the changes awaited. *)
Fixpoint emit_changes (fuel : nat) (sub : Z) (var_id : string) : UM (list (list PluginSample)) :=
  match fuel with
  | O => mret []
  | S fuel =>
      c ← ua (ua_next_change sub);
      match c with
      | None => mret []
      | Some v =>
          rest ← emit_changes fuel sub var_id;
          mret (match v ≫= variant_to_f64 with
                | Some x => [PluginSample_new var_id x] :: rest
                | None => rest
                end)
      end
  end.

Definition subscribe (fuel : nat) (req : ReadRequest J) : UM (list (list PluginSample)) :=
  ep ← of_res (endpoint_url req);
  node_str ← of_res (ok_or "selection.node_id is required" (get_str (rq_selection req) "node_id"));
  node ← of_res (ok_or ("invalid node_id " +:+ debug_str node_str) (node_from_str node_str));
  let var_id := default "opcua.value" (rq_variable_id req) in
  s ← session_for ep (identity_from req);
  r ← ua (ua_create_subscription s);
  match r with
  | Err e => raise ("create_subscription: " +:+ e)
  | Ok sub =>
      r ← ua (ua_create_monitored_items s sub node);
      match r with
      | Err e => raise ("create_monitored_items: " +:+ e)
      | Ok () => emit_changes fuel sub var_id
      end
  end.

(** The plugin as a collector of the SDK; [query] is the SDK's. *)
#[export] Instance opcua_collector (fuel : nat) : Collector J UaState := {|
  c_read := read;
  c_query := default_query read;
  c_write := write;
  c_discover := discover;
  c_subscribe req s :=
    match subscribe fuel req s with
    | (Ok batches, s) => (batches, Ok (), s)
    | (Err e, s) => ([], Err e, s)
    end;
|}.
End Connector.
