(* ===== verification/OpcuaProps.v ===== *)
(** * Properties of the OPC-UA connector

    Browsing stays within its node budget whatever the server answers; a poll
    answers every point and keeps its session exactly when it succeeds; what a
    write sends and reads back. *)
From S2P Require Import Prelude Float RustStr Json Sdk Opcua.
Set Warnings "-register-all".
Local Open Scope Z_scope.

(** The nodes of a tree. *)
Section Count.
Context {J : Type}.
Fixpoint node_count (n : Node J) : nat :=
  match n with mkNode _ _ _ children _ => S (sum_list_with node_count children) end.
Definition forest_count (ns : list (Node J)) : nat := sum_list_with node_count ns.
Definition node_children (n : Node J) : list (Node J) := match n with mkNode _ _ _ children _ => children end.
End Count.

Section Props.
Context `{Json J} {N W : Type} `{OpcUa N W}.
Implicit Types st : UaState (W := W).

(** [m] returns a value that satisfies [P] and keeps the session. *)
Definition keeps {A} (m : UM (W := W) A) (P : A → Prop) : Prop :=
  ∀ st, ∃ a (w : W), m st = (Ok a, (st.1, w)) ∧ P a.

Lemma keeps_ret {A} (a : A) (P : A → Prop) : P a → keeps (mret a) P.
Proof. intros Ha [c w]. by exists a, w. Qed.
Lemma keeps_bind {A B} (m : UM (W := W) A) (k : A → UM B) P Q :
  keeps m P → (∀ a, P a → keeps (k a) Q) → keeps (m ≫= k) Q.
Proof.
  intros Hm Hk st. destruct (Hm st) as (a & w & E & Ha). destruct (Hk a Ha (st.1, w)) as (b & w' & E' & Hb).
  exists b, w'. split; [|done]. unfold mbind, StE_bind. by rewrite E, E'.
Qed.
Lemma keeps_ua {A} (f : W → A * W) : keeps (ua f) (λ _, True).
Proof. intros [c w]. unfold ua. simpl. destruct (f w) as [a w']. by exists a, w'. Qed.
Lemma keeps_mono {A} (m : UM (W := W) A) (P Q : A → Prop) : keeps m P → (∀ a, P a → Q a) → keeps m Q.
Proof. intros Hm HPQ st. destruct (Hm st) as (a & w & E & Ha). eauto. Qed.

Lemma browse_pages_keeps pages s budget refs cont : keeps (browse_pages pages s budget refs cont) (λ _, True).
Proof.
  revert refs cont. induction pages as [|pages IH]; intros refs [cp|]; simpl; try by apply keeps_ret.
  destruct (_ <=? _)%nat; [by apply keeps_ret|]. eapply keeps_bind; [apply keeps_ua|]. intros r _.
  destruct (first_page r) as [more cont]. apply IH.
Qed.

(** The nodes found and the budget left are the budget. *)
Definition spends (budget : nat) (r : list (Node J) * nat) : Prop := (forest_count r.1 + r.2 = budget)%nat.

Lemma browse_children_spends (child : N → nat → UM (list (Node J) * nat)) refs budget :
  (∀ n b, keeps (child n b) (spends b)) → keeps (browse_children child refs budget) (spends budget).
Proof.
  intros Hch. revert budget. induction refs as [|r refs IH]; intros budget; [by apply keeps_ret|].
  destruct budget as [|budget]; [by apply keeps_ret|]. cbn [browse_children].
  eapply (keeps_bind _ _ (λ nb, (node_count nb.1 + nb.2 = S budget)%nat)).
  - destruct (ref_is_variable r); [by apply keeps_ret|]. eapply keeps_bind; [apply Hch|].
    intros [cs b] Hb. apply keeps_ret. unfold spends, forest_count in *. simpl in *. lia.
  - intros [n b] Hb. eapply keeps_bind; [apply IH|]. intros [ns b'] Hs. apply keeps_ret.
    unfold spends, forest_count in *. simpl in *. lia.
Qed.

Lemma browse_node_spends depth s node budget : keeps (browse_node depth s node budget) (spends budget).
Proof.
  revert node budget. induction depth as [|depth IH]; intros node budget; [by apply keeps_ret|].
  destruct budget as [|b]; [by apply keeps_ret|]. cbn [browse_node].
  eapply keeps_bind; [apply keeps_ua|]. intros [pages|e] _; [|by apply keeps_ret].
  destruct (first_page (Ok pages)) as [refs cont]. eapply keeps_bind; [apply browse_pages_keeps|]. intros refs' _.
  by apply browse_children_spends.
Qed.

(** At depth one no node has children. *)
Lemma browse_one_flat s node budget : keeps (browse_node 1 s node budget) (λ r, Forall (λ n, node_children n = []) r.1).
Proof.
  destruct budget as [|b]; [by apply keeps_ret|]. cbn [browse_node].
  eapply keeps_bind; [apply keeps_ua|]. intros [pages|e] _; [|by apply keeps_ret].
  destruct (first_page (Ok pages)) as [refs cont]. eapply keeps_bind; [apply browse_pages_keeps|]. intros refs' _.
  generalize (S b) as budget. induction refs' as [|r refs' IH]; intros budget; [by apply keeps_ret|].
  destruct budget as [|budget]; [by apply keeps_ret|]. cbn [browse_children].
  eapply (keeps_bind _ _ (λ nb, node_children nb.1 = [])).
  - destruct (ref_is_variable r); [by apply keeps_ret|].
    eapply (keeps_bind _ _ (λ cb, cb.1 = [])); [by apply keeps_ret|]. intros [cs b'] ->. by apply keeps_ret.
  - intros [n b'] Hn. eapply keeps_bind; [apply IH|]. intros [ns b''] Hs. apply keeps_ret. by constructor.
Qed.

Lemma session_for_spec ep identity st :
  match session_for ep identity st with
  | (Ok s, st') => st'.1 = Some (mkConn ep s)
  | (Err _, st') => st'.1 = None
  end.
Proof.
  destruct st as [c w]. unfold session_for, mbind, StE_bind, get_conn. simpl fst.
  assert (match (r ← attempt (connect ep identity);
      match r with Ok s => set_conn (Some (mkConn ep s));; mret s | Err e => set_conn None;; raise e end) (c, w) with
    | (Ok s, st') => st'.1 = Some (mkConn ep s) | (Err _, st') => st'.1 = None end) as Hnew.
  { unfold mbind at 1, StE_bind at 1, attempt. destruct (connect ep identity (c, w)) as [[s|e] [c' w']]; done. }
  destruct c as [[ep' s]|]; [|exact Hnew]. simpl. case_decide; [by subst|exact Hnew].
Qed.

(** C37. Whatever the server answers (pages without end, folders of any width,
    errors), a browse that has a session returns a tree of at most 1000 nodes one
    level deep, and keeps the session; a browse that fails leaves the session as
    it was or drops it. *)
Theorem browse_budget req st :
  match discover req st with
  | (Ok d, st') =>
      (forest_count (d_nodes d) ≤ MAX_NODES)%nat ∧ Forall (λ n, node_children n = []) (d_nodes d) ∧
      ∃ ep s, endpoint_url req = Ok ep ∧ st'.1 = Some (mkConn ep s)
  | (Err _, st') => st' = st ∨ st'.1 = None
  end.
Proof.
  unfold discover. unfold mbind at 1, StE_bind at 1, of_res. destruct (endpoint_url req) as [ep|e]; [|by left].
  unfold mbind at 1, StE_bind at 1. set (root := match get_str _ _ with Some _ => _ | None => _ end).
  destruct root as [root|e]; [|by left]. unfold mbind at 1, StE_bind at 1.
  pose proof (session_for_spec ep (identity_from req) st) as Hs.
  destruct (session_for _ _ st) as [[s|e] st1]; [|by right].
  destruct (browse_node_spends MAX_DEPTH s root MAX_NODES st1) as ([ns b] & w & E & Hb).
  destruct (browse_one_flat s root MAX_NODES st1) as (r & w' & E' & Hf). change 1%nat with MAX_DEPTH in E'.
  unfold mbind, StE_bind. rewrite E. rewrite E in E'. injection E' as <- _. cbv beta iota.
  split; [unfold spends in Hb; cbn [fst snd d_nodes] in *; lia|]. split; [done|]. by exists ep, s.
Qed.

(** One sample of a poll. *)
Definition answers_target (t : string * N) (s : PluginSample) : Prop :=
  ps_variable_id s = t.1 ∧ (ps_quality s = 0 ∨ ps_quality s = 1 ∧ ps_value s = f64_zero).

(** C38. A poll that succeeds answers every point in order, under its variable,
    with a good sample or a zero marked bad, and keeps its session; a poll that
    fails before the session is asked for leaves the state as it was, and one
    that fails later drops the session. *)
Theorem opcua_read_spec req st :
  match read req st with
  | (Ok samples, st') =>
      ∃ ep s targets, endpoint_url req = Ok ep ∧ mapR read_target (points req) = Ok targets ∧
        Forall2 answers_target targets samples ∧ st'.1 = Some (mkConn ep s)
  | (Err e, st') => (st' = st ∧ (endpoint_url req = Err e ∨ mapR (read_target (N := N)) (points req) = Err e)) ∨ st'.1 = None
  end.
Proof.
  unfold read. unfold mbind at 1, StE_bind at 1, of_res. destruct (endpoint_url req) as [ep|e]; [|left; eauto].
  unfold mbind at 1, StE_bind at 1. destruct (mapR read_target (points req)) as [targets|e]; [|left; eauto].
  unfold mbind at 1, StE_bind at 1. pose proof (session_for_spec ep (identity_from req) st) as Hs.
  destruct (session_for _ _ st) as [[s|e] [c w]]; [|by right]. simpl in Hs. subst c.
  unfold mbind at 1, StE_bind at 1, ua. cbn [fst snd]. destruct (ua_read s targets.*2 w) as [[values|status] w1]; [|by right].
  destruct (Nat.ltb_spec (length values) (length targets)) as [Hlt|Hle]; [by right|].
  cbn. exists ep, s, targets. split; [done|]. split; [done|]. split; [|done]. clear -Hle.
  revert values Hle. induction targets as [|[v n] targets IH]; intros values Hle; [constructor|].
  destruct values as [|x values]; simpl in Hle; [lia|]. simpl. constructor; [|apply IH; lia].
  unfold answers_target, sample_of_value. destruct (x ≫= variant_to_f64); simpl; auto.
Qed.

(** *** Writing *)

(** The values a wire type holds. *)
Definition representable (datatype : string) (raw : f64) : Prop :=
  let int lo hi := ∃ z, lo ≤ z ≤ hi ∧ raw = f64_of_Z z in
  if decide (datatype = "bool" ∨ datatype = "boolean") then raw = f64_zero ∨ raw = f64_one
  else if decide (datatype = "int16") then int (-32768) 32767
  else if decide (datatype = "uint16") then int 0 65535
  else if decide (datatype = "int32") then int (-2147483648) 2147483647
  else if decide (datatype = "uint32") then int 0 4294967295
  else if decide (datatype = "float" ∨ datatype = "float32") then ∃ x, f32_valid x ∧ raw = f32_as_f64 x
  else True.

(** What is sent is a number, and the value itself when the type holds it. *)
Lemma write_variant_number datatype raw :
  ∃ raw', variant_to_f64 (write_variant datatype raw) = Some raw' ∧ (representable datatype raw → raw' = raw).
Proof.
  assert (∀ lo hi : Z, -2 ^ 52 ≤ lo → hi ≤ 2 ^ 52 → (∃ z, lo ≤ z ≤ hi ∧ raw = f64_of_Z z) →
    f64_of_Z (f64_as_int lo hi (f64_round raw)) = raw) as Hint.
  { intros lo hi Hlo Hhi (z & Hz & ->). rewrite f64_round_of_Z, f64_as_int_of_Z by lia. done. }
  unfold write_variant, representable. cbv zeta. repeat case_decide; eexists; (split; [reflexivity|]).
  - intros [-> | ->]; vm_compute; done.
  - apply Hint; lia.
  - apply Hint; lia.
  - apply Hint; lia.
  - apply Hint; lia.
  - intros (x & Hx & ->). by rewrite f32_f64_f32.
  - done.
Qed.

Definition wire_datatype (req : ReadRequest J) : string := str_or "double" (rq_target req) "datatype".
Definition wire_scale (req : ReadRequest J) : f64 := default f64_one (get_f64 (rq_target req) "scale").
Definition wire_offset (req : ReadRequest J) : f64 := default f64_zero (get_f64 (rq_target req) "offset").
(** The value sent for an engineering value, before the wire type. *)
Definition wire_raw (req : ReadRequest J) (value : f64) : f64 :=
  f64_div (f64_sub value (wire_offset req))
    (if f64_eqb (wire_scale req) f64_zero then f64_one else wire_scale req).

(** The number the first value of a read stands for. *)
Definition number_read (values : list (option Variant)) : option f64 :=
  head values ≫= (λ v, v ≫= variant_to_f64).
(** A number on the wire as an engineering value. *)
Definition engineering (req : ReadRequest J) (x : f64) : f64 :=
  f64_add (f64_mul x (wire_scale req)) (wire_offset req).

(** The server accepted one write: the session [s] was asked for, then the node of
    the target was written, with [value] unscaled into the wire type; that holds
    the number [raw'], the unscaled value when the type can. *)
Definition write_accepted (req : ReadRequest J) (value : f64) (st : UaState (W := W))
    (ep : string) (s : Z) (node : N) (raw' : f64) (w1 : W) : Prop :=
  endpoint_url req = Ok ep ∧
  (get_str (rq_target req) "node_id" ≫= node_from_str) = Some node ∧ rq_write_value req = Some value ∧
  (∃ w0 l, session_for ep (identity_from req) st = (Ok s, (Some (mkConn ep s), w0)) ∧
     ua_write s node (write_variant (wire_datatype req) (wire_raw req value)) w0 = (Ok l, w1) ∧
     ∀ status l', l ≠ Some status :: l') ∧
  variant_to_f64 (write_variant (wire_datatype req) (wire_raw req value)) = Some raw' ∧
  (representable (wire_datatype req) (wire_raw req value) → raw' = wire_raw req value).

(** A write: when it succeeds, the server accepted it once, nothing else was
    written, the session is kept, and the read-back, when asked for, is what the
    node reads as, scaled back. A write that fails before the session is asked for
    changes nothing; one that the server refuses, or that gets no answer, drops
    the session; and when only the read-back fails, the node has been written and
    the session is kept. *)
Lemma opcua_write_spec req st :
  match write req st with
  | (Ok rb, st') => ∃ value ep s node raw' w1, write_accepted req value st ep s node raw' w1 ∧
      if rq_readback req
      then ∃ values w2, ua_read s [node] w1 = (Ok values, w2) ∧ st' = (Some (mkConn ep s), w2) ∧
             rb = engineering req <$> number_read values
      else rb = None ∧ st' = (Some (mkConn ep s), w1)
  | (Err e, st') => st' = st ∨ st'.1 = None ∨
      rq_readback req = true ∧ ∃ value ep s node raw' w1 status w2, write_accepted req value st ep s node raw' w1 ∧
        ua_read s [node] w1 = (Err status, w2) ∧ st' = (Some (mkConn ep s), w2) ∧
        e = "OPC-UA read-back failed: " +:+ status
  end.
Proof.
  unfold write. unfold mbind at 1, StE_bind at 1, of_res at 1.
  destruct (endpoint_url req) as [ep|e] eqn:Eep; [|by left]. unfold mbind at 1, StE_bind at 1, of_res at 1.
  destruct (get_str (rq_target req) "node_id") as [ns|] eqn:Ens; [|by left]. cbn [ok_or].
  unfold mbind at 1, StE_bind at 1, of_res at 1. destruct (node_from_str ns) as [node|] eqn:En; [|by left]. cbn [ok_or].
  unfold mbind at 1, StE_bind at 1, of_res at 1. destruct (rq_write_value req) as [value|] eqn:Ev; [|by left]. cbn [ok_or].
  fold (wire_datatype req) (wire_scale req) (wire_offset req). fold (wire_raw req value).
  destruct (write_variant_number (wire_datatype req) (wire_raw req value)) as (raw' & Hraw & Hrep).
  unfold mbind at 1, StE_bind at 1.
  pose proof (session_for_spec ep (identity_from req) st) as Hs.
  destruct (session_for _ _ st) as [[s|e] [c w]] eqn:Ess; [|by right; left]. simpl in Hs. subst c.
  unfold mbind at 1, StE_bind at 1, ua at 1. cbn [fst snd].
  destruct (ua_write s node _ w) as [[l|status] w1] eqn:Ew; [|by right; left].
  assert ((∀ status l', l ≠ Some status :: l') → write_accepted req value st ep s node raw' w1) as Hacc.
  { intros Hl. split_and!; [done|by rewrite Ens|done|by exists w, l|done|done]. }
  destruct l as [|[bad|] l]; [|by right; left|].
  all: specialize (Hacc ltac:(by intros ? ? [=])); unfold mbind at 1, StE_bind at 1; unfold mret at 1, StE_ret at 1;
    destruct (rq_readback req); cbn [negb]; [|by exists value, ep, s, node, raw', w1].
  all: unfold mbind at 1, StE_bind at 1, ua at 1; cbn [fst snd];
    destruct (ua_read s [node] w1) as [[values|status] w2] eqn:Er;
    [exists value, ep, s, node, raw', w1; split; [done|]; by exists values, w2
    |right; right; split; [done|]; by exists value, ep, s, node, raw', w1, status, w2].
Qed.

(** A browse the server refuses is an empty tree, and the session stays. *)
Lemma refused_browse_keeps_session s root (c : option Conn) (w : W) e w' :
  ua_browse s root w = (Err e, w') → browse_node (J := J) MAX_DEPTH s root MAX_NODES (c, w) = (Ok ([], MAX_NODES), (c, w')).
Proof. intros E. cbn [browse_node MAX_DEPTH MAX_NODES]. unfold mbind, StE_bind, ua. cbn [fst snd]. by rewrite E. Qed.
End Props.

(** ** A server with one variable *)
Module OpcuaRun.
#[local] Instance json : Json Tree := tree_json (λ _, None).

(** The world is the value of the node; the server does not give it away while it
    is 13. *)
#[local] Instance server : OpcUa () Variant := {|
  node_from_str s := if decide (s = "ns=2;s=Sp") then Some () else None;
  node_text _ := "ns=2;s=Sp";
  objects_folder := ();
  ua_build w := (Ok (), w);
  ua_connect _ _ w := (Some (Ok 1), w);
  ua_read _ nodes w := (match w with VInt16 13 => Err "BadNotReadable" | _ => Ok ((λ _, Some w) <$> nodes) end, w);
  ua_write _ _ v w := (Ok [None], v);
  ua_browse _ _ w := (Err "no view", w);
  ua_browse_next _ _ w := (Err "no view", w);
  ua_create_subscription _ w := (Ok 1, w);
  ua_create_monitored_items _ _ _ w := (Ok (), w);
  ua_next_change _ w := (None, w);
|}.

Definition request : ReadRequest Tree :=
  mkReadRequest 1 "write" "" "opcua" (TObj [("endpoint_url", TStr "opc.tcp://a")]) TNull TNull TNull TNull []
    (TObj [("node_id", TStr "ns=2;s=Sp"); ("datatype", TStr "int16")]) (Some (f64_of_Z 70)) true.
Definition result : result string (option f64) * UaState (W := Variant) := write request (None, VOther).

Lemma int16_written : result.1 = Ok (Some (f64_of_Z 70)) ∧ result.2 = (Some (mkConn "opc.tcp://a" 1), VInt16 70).
Proof. split; vm_compute; reflexivity. Defined.
End OpcuaRun.
