(* ===== verification/OpcuaRemote.v ===== *)
(** * A write command, from the cloud to an OPC-UA server

    [handle_write] ([src/control.rs]), the plugin host, the SDK's loop and the
    OPC-UA connector ([crates/plugin-opcua/src/main.rs]) together: what the
    acknowledgement of a command says about the node of the server. *)
From S2P Require Import Prelude Float RustStr Json Wire Sdk Jobs Plugins PluginsProps HostSdk Modbus Write WriteProps PluginWrite Collector Opcua OpcuaProps.
Set Warnings "-register-all".
Local Open Scope Z_scope.

Section Commands.
Context `{JsonLaws J} `{!ScalarLaws J} `{!Wire J} `{!WireLaws J} `{Crypto}.
Context {N V : Type} `{OpcUa N V} (fuel : nat).
#[local] Instance connector : Sdk.Collector J (UaState (W := V)) := opcua_collector fuel.
Context {W : Type} `{ModbusNet W} `{Procs W} `{Lockstep W} `{!LockstepOk} `{!SdkProcs J W (UaState (W := V))}.

(** The request the connector gets for a command. *)
Definition seen (c : Jobs.Conn J) (req : J) : ReadRequest J :=
  write_seen (Jobs.ds_type c) (Jobs.config c) (Jobs.secrets c) (cmd_target req) (cmd_value req) (cmd_readback req).

(** The server was written once: the node of the target, with the value as it
    arrived unscaled into the wire type; [rb] is what the node then reads as,
    scaled back, in particular the value written when the server kept it. *)
Definition node_written (rq : ReadRequest J) (value : f64) (st st' : UaState (W := V)) (rb : option f64) : Prop :=
  ∃ ep s node raw' w1, write_accepted rq value st ep s node raw' w1 ∧
    if rq_readback rq
    then ∃ values w2, ua_read s [node] w1 = (Ok values, w2) ∧ st' = (Some (Opcua.mkConn ep s), w2) ∧
           rb = (engineering rq <$> number_read values) ≫= arrived_f64 ∧
           (number_read values = Some raw' → rb = arrived_f64 (engineering rq raw'))
    else rb = None ∧ st' = (Some (Opcua.mkConn ep s), w1).

(** The server was written as asked, and then did not let the node be read. *)
Definition node_unread (rq : ReadRequest J) (value : f64) (st st' : UaState (W := V)) : Prop :=
  rq_readback rq = true ∧ ∃ ep s node raw' w1 status w2, write_accepted rq value st ep s node raw' w1 ∧
    ua_read s [node] w1 = (Err status, w2) ∧ st' = (Some (Opcua.mkConn ep s), w2).

(** C8. A permitted write command on an OPC-UA connector, whatever the server
    does. The cloud gets one frame. It says acked only when the server accepted
    one write, of the node of the target, with the command's value as it arrived,
    unscaled into the wire type; its read-back is what the node then reads as,
    scaled back, when it was asked for and is finite. When it says failed either
    the connector refused before it asked the server, and nothing changed; or the
    session was dropped; or the write was accepted and only the read-back failed,
    so that the node has been written although the command is reported failed,
    and the session is kept; or the exchange failed: the process is gone and
    whether the node was written is not known. The other plugins are untouched. *)
Theorem opcua_command (req : J) (a : Agent J W) c i p :
  verify_signature req (control_pubkey a) (cmd_id req) (str_or "" req "connector_id") (cmd_value req) (cmd_target req) = Ok () →
  connectors a !! str_or "" req "connector_id" = Some c → is_finite (cmd_value req) = true →
  target_key (cmd_target req) ∈ writable c →
  Jobs.ds_type c ≠ "modbus" → for_type (plugin_host a) (Jobs.ds_type c) = Some (i, p) → in_sync (host_os a) →
  (depth (write_request (Jobs.ds_type c) (Jobs.config c) (Jobs.secrets c) (cmd_target req) (cmd_value req) (cmd_readback req))
    ≤ nesting_limit)%nat →
  let st := state_before i p (host_os a) in
  let value := wire_f64 (cmd_value req) in
  let '(frames, a') := handle_write req a in
  ∃ f, frames = [f] ∧ in_sync (host_os a') ∧ others_kept i (host_os a) (host_os a') ∧
    match state_of i (host_os a') with
    | Some st' =>
        (∃ rb, f = write_ack_ok (cmd_id req) rb ∧ node_written (seen c req) value st st' rb) ∨
        (∃ e, f = write_ack_failed (cmd_id req) e ∧
           (st' = st ∨ st'.1 = None ∨ node_unread (seen c req) value st st'))
    | None => ∃ e, f = write_ack_failed (cmd_id req) e
    end.
Proof.
  intros Hv Hc Hf Hw Hm Hty Hs Hd st value.
  pose proof (command_reported (C := UaState (W := V)) req a c i p Hv Hc Hf Hw Hm Hty Hs Hd) as Hr.
  fold (seen c req) in Hr. fold st in Hr. cbn [c_write connector opcua_collector] in Hr.
  pose proof (opcua_write_spec (seen c req) st) as Hspec.
  assert (∀ v, rq_write_value (seen c req) = Some v → v = value) as Hval.
  { intros v. unfold seen, write_seen. simpl. rewrite Hf. by intros [= <-]. }
  destruct (Opcua.write (seen c req) st) as [ans st1]. destruct (handle_write req a) as [frames a'].
  destruct Hr as (f & -> & Hs' & Hk & Hr). exists f. split_and!; [done..|].
  destruct (state_of i (host_os a')) as [st'|]; [|done]. destruct Hr as (-> & -> & _).
  unfold reported, write_result. destruct ans as [rb|e].
  - left. destruct Hspec as (v & ep & s & node & raw' & w1 & Hacc & Hrb).
    pose proof Hacc as (_ & _ & ->%Hval & _). eexists. split; [reflexivity|]. exists ep, s, node, raw', w1.
    split; [done|]. destruct (rq_readback (seen c req)).
    + destruct Hrb as (values & w2 & Er & -> & ->). exists values, w2. split_and!; [done|done|done|]. by intros ->.
    + by destruct Hrb as [-> ->].
  - right. exists e. split; [done|].
    destruct Hspec as [|[|(Hrb & v & ep & s & node & raw' & w1 & status & w2 & Hacc & Er & Est & _)]]; [by left|by right; left|].
    pose proof Hacc as (_ & _ & ->%Hval & _). right. right. split; [done|]. by exists ep, s, node, raw', w1, status, w2.
Qed.
End Commands.

(** ** A set point *)
Module OpcuaRemoteRun.
Import TreeWire Pipes PluginWriteRun Quiet.
#[local] Existing Instances OpcuaRun.server PluginWriteRun.crypto.
Abbreviation S := (UaState (W := Variant)).
Abbreviation W := (World (C := S)).
#[local] Hint Extern 0 (Sdk.Collector Tree S) => exact (connector (N := ()) (V := Variant) 0) : typeclass_instances.

(** The plugin starts without a session. *)
Definition start (p : Plugin) : S := (None, VOther).
#[local] Instance procs_ : Procs W := procs start.
#[local] Instance lockstep_ : Lockstep W := lockstep start.
#[local] Instance lockstep_ok_ : LockstepOk (W := W) := lockstep_ok start.
#[local] Instance sdk_ : SdkProcs Tree W S := sdk_procs start.

Definition p1 : Plugin := mkPlugin "opcua" "/p/opcua" "/p/opcua/opcua" [].
Definition target : Tree := TObj [("node_id", TStr "ns=2;s=Sp"); ("datatype", TStr "int16"); ("scale", TFloat (f64_of_decimal false 5 (-1)))].
Definition conn1 : Jobs.Conn Tree :=
  Jobs.mkConn "opcua" (TObj [("endpoint_url", TStr "opc.tcp://a")]) TNull {[ "node:ns=2;s=Sp" ]}.
Definition payload : string := "cmd-1|c1|node:ns=2;s=Sp|35".
Definition command : Tree := TObj [("command_id", TStr "cmd-1"); ("connector_id", TStr "c1"); ("value", TInt 35);
  ("target", target); ("readback", TBool true); ("sig_payload", TStr payload); ("signature", TStr ("b64:pk:" +:+ payload))].
Definition agent : Agent Tree W :=
  mkAgent {[ "c1" := conn1 ]} (Some "pk:") (mkPluginHost [p1] {["opcua" := 0%nat]}) (mkHost ∅ (mkWorld ∅ 0 [] 5)).

(** 6.5 is 13 on the wire, which this server takes and does not give away: the
    command is reported failed, and the node has been written. *)
Definition unread : Tree := TObj [("command_id", TStr "cmd-2"); ("connector_id", TStr "c1"); ("value", TFloat (f64_of_decimal false 65 (-1)));
  ("target", target); ("readback", TBool true); ("sig_payload", TStr "cmd-2|c1|node:ns=2;s=Sp|6.5");
  ("signature", TStr "b64:pk:cmd-2|c1|node:ns=2;s=Sp|6.5")].
Lemma unread_reported_failed :
  (∃ e, (handle_write unread agent).1 = [write_ack_failed "cmd-2" e]) ∧
  pi_state <$> pipes (os (host_os (handle_write unread agent).2)) !! 0 = Some (Some (Opcua.mkConn "opc.tcp://a" 1), VInt16 13).
Proof. split; [eexists; vm_compute; reflexivity|vm_compute; reflexivity]. Qed.

(** 35 with scale 0.5 is 70 on the wire. *)
Lemma opcua_command_witness :
  (handle_write command agent).1 = [write_ack_ok "cmd-1" (Some (f64_of_Z 35))] ∧
  pi_state <$> pipes (os (host_os (handle_write command agent).2)) !! 0 = Some (Some (Opcua.mkConn "opc.tcp://a" 1), VInt16 70) ∧
  ∃ st' rb, write_ack_ok "cmd-1" (Some (f64_of_Z 35)) = write_ack_ok "cmd-1" rb ∧
    node_written (seen conn1 command) (wire_f64 (cmd_value command)) (None, VOther) st' rb.
Proof.
  assert ((handle_write command agent).1 = [write_ack_ok "cmd-1" (Some (f64_of_Z 35))]) as Ef by (vm_compute; reflexivity).
  split; [exact Ef|]. split; [vm_compute; reflexivity|].
  assert (verify_signature command (control_pubkey agent) (cmd_id command) (str_or "" command "connector_id")
    (cmd_value command) (cmd_target command) = Ok ()) as Hv by (vm_compute; reflexivity).
  assert (connectors agent !! str_or "" command "connector_id" = Some conn1) as Hc by (vm_compute; reflexivity).
  assert (is_finite (cmd_value command) = true) as Hf by (vm_compute; reflexivity).
  assert (target_key (cmd_target command) ∈ writable conn1) as Hw.
  { assert (target_key (cmd_target command) = "node:ns=2;s=Sp") as -> by (vm_compute; reflexivity). by apply elem_of_singleton. }
  assert (for_type (plugin_host agent) (Jobs.ds_type conn1) = Some (0%nat, p1)) as Hty by (vm_compute; reflexivity).
  assert (Jobs.ds_type conn1 ≠ "modbus") as Hm by done.
  assert (in_sync (host_os agent)) as Hs by (split; intros *; simpl; by rewrite lookup_empty).
  pose proof (opcua_command (N := ()) (V := Variant) 0 command agent conn1 0 p1 Hv Hc Hf Hw Hm Hty Hs ltac:(apply Nat.leb_le; vm_compute; reflexivity)) as H.
  destruct (handle_write command agent) as [frames a']. simpl in Ef. subst frames.
  destruct H as (f & [= <-] & _ & _ & H). destruct (state_of 0 (host_os a')) as [st'|].
  - destruct H as [(rb & Erb & Hn)|(e & Ee & _)].
    + exists st', rb. split; [exact Erb|exact Hn].
    + exfalso. vm_compute in Ee. discriminate Ee.
  - destruct H as [e Ee]. exfalso. vm_compute in Ee. discriminate Ee.
Defined.
End OpcuaRemoteRun.
